(** * The paginated report aggregator of the call-centre dashboard

    A shallow embedding of [reportFetcher.js] (the cursor driver
    [fetchReport], the single-page fetch [fetchReportSinglePage] and its
    [Enhanced] variant, the multi-page aggregator [fetchReportMultiPage],
    the time-slicing fallback [fetchWithTimeSlicing]) and of the
    [/api/reports/:type] route of [server.js], followed by the properties
    of the design document that were checked against them.

    JavaScript values are modelled by the type [JS.json]; asynchronous,
    failing and looping code is modelled in a state-and-exception monad
    over the function's local variables and a history of the effects
    performed so far (token requests, HTTP GETs and sleeps). *)

From Stdlib Require Import String Ascii Bool ZArith NArith Arith Lia List.
From Stdlib Require Import Permutation Sorted.
From Stdlib Require Import DecimalString DecimalN.
Import ListNotations.
Set Warnings "-register-all".
Local Open Scope string_scope.
Local Open Scope list_scope.

(* ===================================================================== *)
(** ** JavaScript values *)
(* ===================================================================== *)

Module JS.

(** A decoded JSON payload.  Numbers are the integers (epoch seconds,
    limits, counters) the program computes with, below the magnitude
    at which JavaScript prints an exponent; [undefined] is the [None]
    of an [option json].  An object lists its properties in creation
    order, each name at most once.  A string is the sequence of bytes of
    its UTF-8 encoding: the program compares strings, concatenates them
    and tests them for ASCII digits and for white space, which reads
    the same on these bytes as on UTF-16 units. *)
Inductive json : Type :=
| JNull
| JBool (b : bool)
| JNum (n : Z)
| JStr (s : string)
| JArr (items : list json)
| JObj (props : list (string * json)).

(** ToBoolean. *)
Definition truthy (v : json) : bool :=
  match v with
  | JNull => false
  | JBool b => b
  | JNum n => negb (n =? 0)%Z
  | JStr s => negb (s =? "")
  | JArr _ | JObj _ => true
  end.

Definition truthy_opt (v : option json) : bool :=
  match v with Some x => truthy x | None => false end.

Fixpoint assoc (k : string) (props : list (string * json)) : option json :=
  match props with
  | [] => None
  | (k', v) :: rest => if k' =? k then Some v else assoc k rest
  end.

(** [v.k] for a [v] that is not null.  The names the program reads
    ([data], [rows], [cdrs], [call_id], ...) are neither array indices nor
    [length], so arrays and primitives answer [undefined]. *)
Definition prop (v : json) (k : string) : option json :=
  match v with
  | JObj props => assoc k props
  | _ => None
  end.

(** [o[k] = v] on the property list: an existing property keeps its
    place, a new one is created last. *)
Fixpoint setProp (k : string) (v : json) (props : list (string * json))
  : list (string * json) :=
  match props with
  | [] => [(k, v)]
  | (k', v') :: rest =>
      if k' =? k then (k, v) :: rest else (k', v') :: setProp k v rest
  end.

Definition setProps (kvs props : list (string * json)) : list (string * json) :=
  fold_left (fun acc kv => setProp (fst kv) (snd kv) acc) kvs props.

Definition isArray (v : option json) : bool :=
  match v with Some (JArr _) => true | _ => false end.

(** *** Decimal numerals *)

Definition string_of_N (n : N) : string :=
  NilEmpty.string_of_uint (N.to_uint n).

Definition string_of_Z (z : Z) : string :=
  match z with
  | Z0 => "0"
  | Zpos p => string_of_N (Npos p)
  | Zneg p => "-" ++ string_of_N (Npos p)
  end.

Definition isDigit (c : ascii) : bool :=
  ((48 <=? nat_of_ascii c) && (nat_of_ascii c <=? 57))%nat.

(** The test [/^\d+$/.test(k)]. *)
Definition isDigits (s : string) : bool :=
  negb (s =? "") && forallb isDigit (list_ascii_of_string s).

(** An array index is a canonical numeral below [2^32 - 1]. *)
Definition arrayIndex (s : string) : option N :=
  match NilEmpty.uint_of_string s with
  | Some d =>
      let n := N.of_uint d in
      if (string_of_N n =? s) && (n <? 4294967295)%N then Some n else None
  | None => None
  end.

(** *** Property enumeration order

    [Object.keys], [Object.values], [Object.entries] and object spread
    visit the array-index properties first, in ascending numeric order,
    and then the other properties in creation order. *)

Definition indexed : Type := (N * (string * json))%type.

Fixpoint insertIndexed (e : indexed) (l : list indexed) : list indexed :=
  match l with
  | [] => [e]
  | x :: rest =>
      if (fst e <=? fst x)%N then e :: l else x :: insertIndexed e rest
  end.

Definition sortIndexed (l : list indexed) : list indexed :=
  fold_right insertIndexed [] l.

Definition indexedProps (props : list (string * json)) : list indexed :=
  flat_map (fun kv => match arrayIndex (fst kv) with
                      | Some i => [(i, kv)]
                      | None => []
                      end) props.

Definition namedProps (props : list (string * json)) : list (string * json) :=
  filter (fun kv => match arrayIndex (fst kv) with
                    | Some _ => false
                    | None => true
                    end) props.

Definition ownEntries (props : list (string * json)) : list (string * json) :=
  map snd (sortIndexed (indexedProps props)) ++ namedProps props.

Fixpoint indexFrom (i : N) (l : list json) : list (string * json) :=
  match l with
  | [] => []
  | x :: rest => (string_of_N i, x) :: indexFrom (N.succ i) rest
  end.

(** Own enumerable properties of a value that is not null: those of an
    object, the elements of an array, the characters of a string. *)
Definition entries (v : json) : list (string * json) :=
  match v with
  | JObj props => ownEntries props
  | JArr items => indexFrom 0 items
  | JStr s =>
      indexFrom 0 (map (fun c => JStr (String c "")) (list_ascii_of_string s))
  | _ => []
  end.

Definition Object_keys (v : json) : list string := map fst (entries v).
Definition Object_values (v : json) : list json := map snd (entries v).
Definition Object_entries (v : json) : list (string * json) := entries v.

(** The object literal [{ k1: v1, ..., ...v }]. *)
Definition literalSpread (fields : list (string * json)) (v : json)
  : list (string * json) :=
  setProps (entries v) (setProps fields []).

(** *** ToString, as a template literal applies it *)

Fixpoint toString (v : json) : string :=
  match v with
  | JNull => "null"
  | JBool true => "true"
  | JBool false => "false"
  | JNum n => string_of_Z n
  | JStr s => s
  | JArr items =>
      String.concat ","
        (map (fun x => match x with JNull => "" | _ => toString x end) items)
  | JObj _ => "[object Object]"
  end.

(** [v || ''] inside a template literal. *)
Definition orEmpty (v : option json) : string :=
  match v with
  | Some x => if truthy x then toString x else ""
  | None => ""
  end.

(** *** Equality and sets

    [===], and the SameValueZero of [Set], on the values the program
    compares: primitives by value.  Two objects or arrays are the same
    only as one reference, and the program only ever compares values
    decoded from different places of the payloads, so these never are. *)
Definition sameValueZero (a b : json) : bool :=
  match a, b with
  | JNull, JNull => true
  | JBool x, JBool y => Bool.eqb x y
  | JNum x, JNum y => (x =? y)%Z
  | JStr x, JStr y => (x =? y)
  | _, _ => false
  end.

(** The values that compare by value. *)
Definition primitive (v : json) : bool :=
  match v with JArr _ | JObj _ => false | _ => true end.

Definition strictEq (a : option json) (b : json) : bool :=
  match a with Some x => sameValueZero x b | None => false end.

(** A [Set] keeps its elements in insertion order. *)
Definition Set_has (s : list json) (v : json) : bool :=
  existsb (sameValueZero v) s.

Definition Set_add (s : list json) (v : json) : list json :=
  if Set_has s v then s else s ++ [v].

(** *** parseInt

    The white space that [parseInt] and [trim] skip: TAB, LF, VT, FF, CR
    and SP among the ASCII characters, and beyond them U+00A0, U+1680,
    U+2000 to U+200A, U+2028, U+2029, U+202F, U+205F, U+3000 and U+FEFF,
    here in their UTF-8 encodings of two and three bytes. *)

Definition isWhitespace (c : ascii) : bool :=
  let n := nat_of_ascii c in
  (((9 <=? n) && (n <=? 13)) || (n =? 32))%nat.

(** U+00A0 is [C2 A0]. *)
Definition isWhitespace2 (c1 c2 : ascii) : bool :=
  ((nat_of_ascii c1 =? 194) && (nat_of_ascii c2 =? 160))%nat.

Definition isWhitespace3 (c1 c2 c3 : ascii) : bool :=
  let a := nat_of_ascii c1 in
  let b := nat_of_ascii c2 in
  let c := nat_of_ascii c3 in
  ((* U+1680 *) (a =? 225) && (b =? 154) && (c =? 128)
   (* U+2000 to U+200A, U+2028, U+2029, U+202F *)
   || (a =? 226) && (b =? 128)
      && (((128 <=? c) && (c <=? 138)) || (c =? 168) || (c =? 169)
          || (c =? 175))
   (* U+205F *)
   || (a =? 226) && (b =? 129) && (c =? 159)
   (* U+3000 *)
   || (a =? 227) && (b =? 128) && (c =? 128)
   (* U+FEFF *)
   || (a =? 239) && (b =? 187) && (c =? 191))%nat.

Fixpoint skipWhitespace (s : string) : string :=
  match s with
  | String c1 rest1 =>
      if isWhitespace c1 then skipWhitespace rest1
      else match rest1 with
           | String c2 rest2 =>
               if isWhitespace2 c1 c2 then skipWhitespace rest2
               else match rest2 with
                    | String c3 rest3 =>
                        if isWhitespace3 c1 c2 c3 then skipWhitespace rest3
                        else s
                    | EmptyString => s
                    end
           | EmptyString => s
           end
  | EmptyString => s
  end.

Fixpoint digitPrefix (s : string) : string :=
  match s with
  | String c rest => if isDigit c then String c (digitPrefix rest) else ""
  | EmptyString => ""
  end.

Definition parseDigits (s : string) : option Z :=
  let d := digitPrefix s in
  if d =? "" then None
  else match NilEmpty.uint_of_string d with
       | Some u => Some (Z.of_N (N.of_uint u))
       | None => None
       end.

(** [parseInt(s, 10)]; [None] is NaN.  The number read is the exact
    one: JavaScript rounds it to a double from [2^53] on. *)
Definition parseInt10 (s : string) : option Z :=
  match skipWhitespace s with
  | String "-" rest => option_map Z.opp (parseDigits rest)
  | String "+" rest => parseDigits rest
  | rest => parseDigits rest
  end.

Definition hexDigit (c : ascii) : option N :=
  let n := nat_of_ascii c in
  if ((48 <=? n) && (n <=? 57))%nat then Some (N.of_nat (n - 48))
  else if ((97 <=? n) && (n <=? 102))%nat then Some (N.of_nat (n - 87))
  else if ((65 <=? n) && (n <=? 70))%nat then Some (N.of_nat (n - 55))
  else None.

(** The number the leading hexadecimal digits of [s] write after
    those read into [acc]. *)
Fixpoint hexPrefix (s : string) (acc : option N) : option N :=
  match s with
  | String c rest =>
      match hexDigit c with
      | Some d =>
          hexPrefix rest
            (Some (16 * match acc with Some a => a | None => 0 end + d)%N)
      | None => acc
      end
  | EmptyString => acc
  end.

(** A numeral that starts with [0x] or [0X] is read in base 16. *)
Definition parseUnsigned (s : string) : option Z :=
  match s with
  | String "0" (String x rest) =>
      if (x =? "x")%char || (x =? "X")%char
      then option_map Z.of_N (hexPrefix rest None)
      else parseDigits s
  | _ => parseDigits s
  end.

(** [parseInt(s)], without a radix; [None] is NaN. *)
Definition parseIntAuto (s : string) : option Z :=
  match skipWhitespace s with
  | String "-" rest => option_map Z.opp (parseUnsigned rest)
  | String "+" rest => parseUnsigned rest
  | rest => parseUnsigned rest
  end.

(** [parseInt(v)], without a radix: [v] is converted to a string and
    that string is read.  A number is printed and read back; of an
    array the first element is read; [undefined], [null], a boolean
    and an object give NaN. *)
Definition parseInt (v : option json) : option Z :=
  match v with
  | Some (JNum n) => Some n
  | Some x => parseIntAuto (toString x)
  | None => None
  end.

End JS.

(* ===================================================================== *)
(** ** Effects: the token service, the HTTP transport, timers *)
(* ===================================================================== *)

Module Net.
Import JS.

Inductive Error : Type :=
| HttpError (message : string)
| TypeError (message : string)
| RangeError (message : string)
| UnknownReport (report : string).

(** One [axios.get(url, { params, headers })]. *)
Record Request : Type := {
  url : string;
  params : list (string * json);
  authorization : string;
  accountId : string
}.

Inductive Reply : Type :=
| Body (data : json)
| Failed (e : Error).

Inductive Event : Type :=
| EvToken (tenant : string) (result : Error + string)
| EvGet (rq : Request) (rp : Reply)
| EvSleep (ms : Z).

(** Everything done so far, the latest event first. *)
Definition World : Type := list Event.

(** The collaborators of [tokenService.js] and the upstream API.  Both
    may answer differently on every call: they see the whole history. *)
Record Env : Type := {
  BASE_URL : string;
  ACCOUNT_ID_HEADER : option string;
  portalToken : World -> string -> Error + string;
  portal : World -> Request -> Reply
}.

Inductive Outcome (A : Type) : Type :=
| Return (a : A)
| Raise (e : Error)
| OutOfFuel.
Arguments Return {A} a.
Arguments Raise {A} e.
Arguments OutOfFuel {A}.

(** A computation over the local variables [L] of the running function
    and the history.  A raised error leaves both as they were when it
    was raised, as a JavaScript exception does. *)
Definition M (L A : Type) : Type := L -> World -> Outcome A * L * World.

Definition ret {L A} (a : A) : M L A := fun l w => (Return a, l, w).

Definition bind {L A B} (m : M L A) (k : A -> M L B) : M L B :=
  fun l w =>
    match m l w with
    | (Return a, l', w') => k a l' w'
    | (Raise e, l', w') => (Raise e, l', w')
    | (OutOfFuel, l', w') => (OutOfFuel, l', w')
    end.

Definition raise {L A} (e : Error) : M L A := fun l w => (Raise e, l, w).

Definition outOfFuel {L A} : M L A := fun l w => (OutOfFuel, l, w).

Definition tryCatch {L A} (m : M L A) (handler : Error -> M L A) : M L A :=
  fun l w =>
    match m l w with
    | (Raise e, l', w') => handler e l' w'
    | r => r
    end.

Definition getL {L} : M L L := fun l w => (Return l, l, w).
Definition putL {L} (l : L) : M L unit := fun _ w => (Return tt, l, w).
Definition modifyL {L} (f : L -> L) : M L unit := fun l w => (Return tt, f l, w).

(** Calling another function: it runs on its own fresh locals. *)
Definition call {L L' A} (m : M L' A) (init : L') : M L A :=
  fun l w => let '(r, _, w') := m init w in (r, l, w').

Definition liftE {L A} (r : Error + A) : M L A :=
  match r with inl e => raise e | inr a => ret a end.

Definition getPortalToken {L} (env : Env) (tenant : string) : M L string :=
  fun l w =>
    let r := portalToken env w tenant in
    match r with
    | inr token => (Return token, l, EvToken tenant r :: w)
    | inl e => (Raise e, l, EvToken tenant r :: w)
    end.

Definition axios_get {L} (env : Env) (rq : Request) : M L json :=
  fun l w =>
    let rp := portal env w rq in
    match rp with
    | Body data => (Return data, l, EvGet rq rp :: w)
    | Failed e => (Raise e, l, EvGet rq rp :: w)
    end.

(** [await new Promise(r => setTimeout(r, ms))]. *)
Definition sleep {L} (ms : Z) : M L unit :=
  fun l w => (Return tt, l, EvSleep ms :: w).

Module Notations.
  Notation "x <- m ;; k" := (bind m (fun x => k))
    (at level 61, m at next level, right associativity).
  Notation "m ;; k" := (bind m (fun _ => k))
    (at level 61, right associativity).
End Notations.

(** Reading a history. *)
Definition isToken (e : Event) : bool :=
  match e with EvToken _ _ => true | _ => false end.
Definition isGet (e : Event) : bool :=
  match e with EvGet _ _ => true | _ => false end.

Definition invocations (evs : list Event) : nat := length (filter isToken evs).
Definition gets (evs : list Event) : nat := length (filter isGet evs).

(** The delays slept, the latest first like the history. *)
Definition sleeps (evs : list Event) : list Z :=
  flat_map (fun e => match e with EvSleep ms => [ms] | _ => [] end) evs.

End Net.

(* ===================================================================== *)
(** ** reportFetcher.js *)
(* ===================================================================== *)

Module ReportFetcher.
Import JS Net Net.Notations.

Definition MAX_RETRIES : nat := 3.

(** What [ENDPOINTS[name]] is for a name that is no key of the table
    but that every object inherits: a function, or for [__proto__] the
    prototype itself.  All of them are truthy, so these names pass the
    test [!ENDPOINTS[report]]; the text is what the template literal of
    the URL makes of them. *)
Definition inheritedMember (name : string) : option string :=
  if name =? "__proto__" then Some "[object Object]"
  else if name =? "constructor"
       then Some "function Object() { [native code] }"
  else if existsb (String.eqb name)
            ["hasOwnProperty"; "isPrototypeOf"; "propertyIsEnumerable";
             "toLocaleString"; "toString"; "valueOf"; "__defineGetter__";
             "__defineSetter__"; "__lookupGetter__"; "__lookupSetter__"]
       then Some ("function " ++ name ++ "() { [native code] }")%string
  else None.

(** [ENDPOINTS[report]], as the test [!ENDPOINTS[report]] and the
    template literal of the URL read it; [None] is [undefined], for
    which the report is refused. *)
Definition ENDPOINTS (report : string) : option string :=
  if report =? "cdrs" then Some "/api/v2/reports/cdrs/all"
  else if report =? "queueCalls" then Some "/api/v2/reports/queues_cdrs"
  else if report =? "queueOutboundCalls"
       then Some "/api/v2/reports/queues_outbound_cdrs"
  else if report =? "campaignsActivity"
       then Some "/api/v2/reports/campaigns/leads/history"
  else inheritedMember report.

Definition cdrFields : list string :=
  ["call_id"; "caller_id_number"; "callee_id_number"; "disposition";
   "subdisposition"; "follow_up_notes"; "timestamp"].

Definition queueOutboundFields : list string :=
  ["called_time"; "agent_name"; "agent_ext"; "destination"; "answered_time";
   "hangup_time"; "wait_duration"; "talked_duration"; "queue_name";
   "queue_history"; "agent_history"; "agent_hangup"; "call_id";
   "bleg_call_id"; "event_timestamp"; "agent_first_name"; "agent_last_name";
   "agent_extension"; "agent_email"; "agent_talk_time"; "agent_connect_time";
   "agent_action"; "agent_transfer"; "csat"; "media_recording_id";
   "recording_filename"; "caller_id_name"; "caller_id_number"; "a_leg"; "to";
   "interaction_id"; "agent_disposition"; "agent_subdisposition1";
   "agent_subdisposition2"].

Definition queueFields : list string :=
  ["called_time"; "caller_id_number"; "caller_id_name"; "answered_time";
   "hangup_time"; "wait_duration"; "talked_duration"; "queue_name";
   "abandoned"; "queue_history"; "agent_history"; "agent_attempts";
   "agent_hangup"; "call_id"; "bleg_call_id"; "event_timestamp";
   "agent_first_name"; "agent_last_name"; "agent_extension"; "agent_email";
   "agent_talk_time"; "agent_connect_time"; "agent_action"; "agent_transfer";
   "csat"; "media_recording_id"; "recording_filename"; "callee_id_number";
   "a_leg"; "interaction_id"; "agent_disposition"; "agent_subdisposition1";
   "agent_subdisposition2"].

(** The three conditional spreads [...(report === r && { fields: ... })]. *)
Definition fieldsParam (report : string) : list (string * json) :=
  (if report =? "cdrs"
   then [("fields", JStr (String.concat "," cdrFields))] else [])
  ++ (if report =? "queueOutboundCalls"
      then [("fields", JStr (String.concat "," queueOutboundFields))] else [])
  ++ (if report =? "queueCalls"
      then [("fields", JStr (String.concat "," queueFields))] else []).

Definition mkRequest (env : Env) (path tenant token : string)
    (qs : list (string * json)) : Request :=
  {| url := BASE_URL env ++ path;
     params := qs;
     authorization := "Bearer " ++ token;
     accountId := match ACCOUNT_ID_HEADER env with
                  | Some h => h
                  | None => tenant
                  end |}.

(** The loop [for (attempt = 0, delay = 1_000; attempt < MAX_RETRIES;
    attempt++, delay *= 2) { try { body } catch (err) { if (attempt ===
    MAX_RETRIES - 1) throw err; await sleep(delay) } }] around a body that
    leaves the loop when it completes.  [n] is [MAX_RETRIES - attempt],
    the number of iterations the loop condition still lets through;
    [None] is falling out of the loop. *)
Fixpoint retrying {L A} (n attempt : nat) (delay : Z) (body : M L A)
  : M L (option A) :=
  match n with
  | O => ret None
  | S n' =>
      tryCatch (a <- body ;; ret (Some a))
        (fun err =>
           if (attempt =? MAX_RETRIES - 1)%nat then raise err
           else sleep delay ;; retrying n' (S attempt) (delay * 2)%Z body)
  end.

(** [while (true) { if (!body()) break }]. *)
Fixpoint whileTrue {L} (fuel : nat) (body : M L bool) : M L unit :=
  match fuel with
  | O => outOfFuel
  | S fuel' => again <- body ;; if again then whileTrue fuel' body else ret tt
  end.

(** *** The payload shapes of [fetchReport] (and [fetchReportPaginated]) *)

Definition allDigitKeys (v : json) : bool :=
  let keys := Object_keys v in
  (0 <? List.length keys)%nat && forallb isDigits keys.

(** Lines 237-258.  Reading [data.data] of a null body is a TypeError. *)
Definition payloadChunk (data : json) : Error + list json :=
  match data with
  | JNull => inl (TypeError "Cannot read properties of null (reading 'data')")
  | _ =>
      match prop data "data" with
      | Some (JArr items) => inr items
      | _ =>
          match data with
          | JArr items => inr items
          | _ =>
              match prop data "rows" with
              | Some (JArr items) => inr items
              | _ =>
                  match data with
                  | JObj _ =>
                      if allDigitKeys data then inr (Object_values data)
                      else inr (map (fun kv =>
                                       JObj (literalSpread
                                               [("key", JStr (fst kv))]
                                               (snd kv)))
                                    (Object_entries data))
                  | _ => inr []
                  end
              end
          end
      end
  end.

(** *** The cursor driver of [fetchReport], lines 109-297

    [fetchReport_pagination] is [fetchReport] up to the end of its
    retry loop; the post-processing that follows (lines 299-405)
    rewrites the fetched records and fetches nothing. *)

Record Driver : Type := {
  out : list json;
  startKey : option json;
  seenStartKeys : list json;
  consecutiveSameKey : nat
}.

Definition Driver_init : Driver :=
  {| out := []; startKey := None; seenStartKeys := [];
     consecutiveSameKey := 0 |}.

Definition push_out (chunk : list json) (s : Driver) : Driver :=
  {| out := out s ++ chunk; startKey := startKey s;
     seenStartKeys := seenStartKeys s;
     consecutiveSameKey := consecutiveSameKey s |}.

Definition set_consecutiveSameKey (c : nat) (s : Driver) : Driver :=
  {| out := out s; startKey := startKey s;
     seenStartKeys := seenStartKeys s; consecutiveSameKey := c |}.

Definition advance (next : json) (s : Driver) : Driver :=
  {| out := out s; startKey := Some next;
     seenStartKeys := Set_add (seenStartKeys s) next;
     consecutiveSameKey := consecutiveSameKey s |}.

Definition startKeyParam (k : option json) : list (string * json) :=
  match k with
  | Some v => if truthy v then [("start_key", v)] else []
  | None => []
  end.

(** Lines 277-285: the check against the keys already seen. *)
Definition checkSeen (next : json) : M Driver bool :=
  s <- getL ;;
  if Set_has (seenStartKeys s) next then ret false
  else modifyL (advance next) ;; ret true.

(** Lines 263-289: what to do with the page's [next_start_key];
    [false] is [break]. *)
Definition followCursor (data : json) : M Driver bool :=
  match prop data "next_start_key" with
  | Some next =>
      if truthy next then
        s <- getL ;;
        if strictEq (startKey s) next then
          modifyL (set_consecutiveSameKey (S (consecutiveSameKey s))) ;;
          if (3 <=? S (consecutiveSameKey s))%nat then ret false
          else checkSeen next
        else
          modifyL (set_consecutiveSameKey 0) ;;
          checkSeen next
      else ret false
  | None => ret false
  end.

(** One turn of the [while (true)] loop, lines 122-289. *)
Definition fetchReport_turn (env : Env) (report tenant path : string)
    (params : list (string * json)) : M Driver bool :=
  s <- getL ;;
  let qs := setProps (startKeyParam (startKey s))
              (setProps (fieldsParam report)
                 (setProps (ownEntries params) [])) in
  token <- getPortalToken env tenant ;;
  data <- axios_get env (mkRequest env path tenant token qs) ;;
  chunk <- liftE (payloadChunk data) ;;
  modifyL (push_out chunk) ;;
  followCursor data.

Definition fetchReport_pagination (fuel : nat) (env : Env)
    (report tenant : string) (params : list (string * json))
  : M Driver (list json) :=
  match ENDPOINTS report with
  | None => raise (UnknownReport report)
  | Some path =>
      retrying MAX_RETRIES 0 1000
        (whileTrue fuel (fetchReport_turn env report tenant path params)) ;;
      s <- getL ;;
      ret (out s)
  end.

(** *** [fetchReportSinglePage], lines 575-794 *)

(** Lines 703-721: as [payloadChunk], but a body of another shape is
    taken as one record. *)
Definition rawDataOf (data : json) : Error + list json :=
  match data with
  | JNull => inl (TypeError "Cannot read properties of null (reading 'data')")
  | _ =>
      match prop data "data" with
      | Some (JArr items) => inr items
      | _ =>
          match data with
          | JArr items => inr items
          | _ =>
              match prop data "rows" with
              | Some (JArr items) => inr items
              | _ =>
                  match data with
                  | JObj _ =>
                      if allDigitKeys data then inr (Object_values data)
                      else inr [data]
                  | _ => inr []
                  end
              end
          end
      end
  end.

Definition setIfTruthy (k : string) (v : option json)
    (props : list (string * json)) : list (string * json) :=
  match v with
  | Some x => if truthy x then setProp k x props else props
  | None => props
  end.

(** Lines 745-757: the [subdisposition] of a [fonoUC] annotation. *)
Definition flattenSubdisposition (sub : json)
    (props : list (string * json)) : list (string * json) :=
  match sub with
  | JStr _ => setProp "subdisposition" sub props
  | _ =>
      match prop sub "name" with
      | Some name =>
          if truthy name then
            match prop sub "subdisposition" with
            | Some inner =>
                if truthy inner && truthy_opt (prop inner "name") then
                  setProp "subdisposition"
                    (JStr (toString name ++ " - "
                           ++ match prop inner "name" with
                              | Some n => toString n
                              | None => ""
                              end)) props
                else setProp "subdisposition" name props
            | None => setProp "subdisposition" name props
            end
          else props
      | None => props
      end
  end.

(** Lines 731-761: one element of [item.cdrs]. *)
Definition processCdr (cdr : json) : Error + json :=
  match cdr with
  | JNull =>
      inl (TypeError "Cannot read properties of null (reading 'fonoUC')")
  | _ =>
      let processedCdr := literalSpread [] cdr in
      match prop cdr "fonoUC" with
      | Some fono =>
          if truthy fono then
            let p1 := setIfTruthy "disposition" (prop fono "disposition")
                        processedCdr in
            let p2 := setIfTruthy "follow_up_notes"
                        (prop fono "follow_up_notes") p1 in
            match prop fono "subdisposition" with
            | Some sub =>
                if truthy sub then inr (JObj (flattenSubdisposition sub p2))
                else inr (JObj p2)
            | None => inr (JObj p2)
            end
          else inr (JObj processedCdr)
      | None => inr (JObj processedCdr)
      end
  end.

Fixpoint mapE {A B} (f : A -> Error + B) (l : list A) : Error + list B :=
  match l with
  | [] => inr []
  | x :: rest =>
      match f x with
      | inl e => inl e
      | inr y =>
          match mapE f rest with
          | inl e => inl e
          | inr ys => inr (y :: ys)
          end
      end
  end.

(** Lines 725-782: the records one element of [rawData] contributes. *)
Definition flattenItem (item : json) : Error + list json :=
  match item with
  | JObj _ | JArr _ =>
      match prop item "cdrs" with
      | Some (JArr cdrs) => mapE processCdr cdrs
      | _ =>
          if allDigitKeys item then inr (Object_values item) else inr [item]
      end
  | _ => inr [item]
  end.

Fixpoint flattenItems (rawData : list json) : Error + list json :=
  match rawData with
  | [] => inr []
  | item :: rest =>
      match flattenItem item with
      | inl e => inl e
      | inr recs =>
          match flattenItems rest with
          | inl e => inl e
          | inr more => inr (recs ++ more)
          end
      end
  end.

Definition limitParam (limit : option Z) : list (string * json) :=
  match limit with
  | Some n => if (n =? 0)%Z then [] else [("limit", JNum n)]
  | None => []
  end.

(** The body of the [try], lines 583-786. *)
Definition singlePageAttempt (env : Env) (report tenant path : string)
    (params : list (string * json)) (limit : option Z)
  : M unit (list json) :=
  let qs := setProps (fieldsParam report)
              (setProps (limitParam limit)
                 (setProps (ownEntries params) [])) in
  token <- getPortalToken env tenant ;;
  data <- axios_get env (mkRequest env path tenant token qs) ;;
  rawData <- liftE (rawDataOf data) ;;
  liftE (flattenItems rawData).

(** [None] would be the [undefined] of leaving the retry loop. *)
Definition fetchReportSinglePage (env : Env) (report tenant : string)
    (params : list (string * json)) (limit : option Z)
  : M unit (option (list json)) :=
  match ENDPOINTS report with
  | None => raise (UnknownReport report)
  | Some path =>
      retrying MAX_RETRIES 0 1000
        (singlePageAttempt env report tenant path params limit)
  end.

(** *** [fetchWithTimeSlicing], lines 952-1004 *)

Record Chunk : Type := { startDate : Z; endDate : Z }.

(** [new Date(seconds * 1000).toISOString()] is a RangeError for a time
    beyond 8.64e15 milliseconds on either side of the epoch. *)
Definition validTime (seconds : Z) : bool :=
  (Z.abs (seconds * 1000) <=? 8640000000000000)%Z.

(** Lines 963-966: [for (chunkStart = startTime; chunkStart < endTime;
    chunkStart += chunkDuration)].  [None]: the loop is still running
    when the fuel is spent.  The sums are the exact ones, as those of
    JavaScript are for integers below [2^53]; beyond it the sums of
    JavaScript are rounded, and what is proved of this loop is stated
    for times that [validTime] accepts. *)
Fixpoint chunkLoop (fuel : nat) (chunkStart endTime chunkDuration : Z)
  : option (list Chunk) :=
  if (chunkStart <? endTime)%Z then
    match fuel with
    | O => None
    | S fuel' =>
        let chunkEnd := Z.min (chunkStart + chunkDuration) endTime in
        option_map (cons {| startDate := chunkStart; endDate := chunkEnd |})
          (chunkLoop fuel' (chunkStart + chunkDuration)%Z endTime
             chunkDuration)
    end
  else Some [].

(** Lines 955-966.  A bound that is NaN makes the loop test false. *)
Definition timeChunks (fuel : nat) (params : list (string * json))
  : option (list Chunk) :=
  match parseInt (assoc "startDate" params),
        parseInt (assoc "endDate" params) with
  | Some startTime, Some endTime =>
      let totalDuration := (endTime - startTime)%Z in
      let chunkDuration := Z.min 14400 (totalDuration / 4) in
      chunkLoop fuel startTime endTime chunkDuration
  | _, _ => Some []
  end.

(** Lines 972-1000, with [timeSliceRecords] as the local variable.
    Line 974 writes the bounds of the sub-window to the log with
    [toISOString], before the [try]. *)
Fixpoint sliceLoop (env : Env) (report tenant : string)
    (params : list (string * json)) (remainingLimit : Z)
    (chunks : list Chunk) : M (list json) unit :=
  match chunks with
  | [] => ret tt
  | chunk :: rest =>
      timeSliceRecords <- getL ;;
      if (Z.of_nat (List.length timeSliceRecords) <? remainingLimit)%Z then
        (if validTime (startDate chunk) && validTime (endDate chunk)
         then ret tt else raise (RangeError "Invalid time value")) ;;
        tryCatch
          (let chunkParams :=
             setProps [("startDate", JNum (startDate chunk));
                       ("endDate", JNum (endDate chunk));
                       ("limit", JNum 500)]
               (setProps (ownEntries params) []) in
           chunkData <- call (fetchReportSinglePage env report tenant
                                chunkParams (Some 500%Z)) tt ;;
           match chunkData with
           | Some (r :: more) =>
               modifyL (fun recs => recs ++ r :: more) ;; sleep 200
           | _ => sleep 200
           end)
          (fun _ => ret tt) ;;
        sliceLoop env report tenant params remainingLimit rest
      else ret tt
  end.

Definition fetchWithTimeSlicing (fuel : nat) (env : Env)
    (report tenant : string) (params : list (string * json))
    (remainingLimit : Z) (seenRecords : list json)
  : M (list json) (list json) :=
  match timeChunks fuel params with
  | None => outOfFuel
  | Some chunks =>
      sliceLoop env report tenant params remainingLimit chunks ;;
      timeSliceRecords <- getL ;;
      ret timeSliceRecords
  end.

(** *** [fetchReportMultiPage], lines 806-946 *)

Record MultiPage : Type := {
  allRecords : list json;
  seenRecords : list json;
  currentOffset : Z;
  hasMoreData : bool;
  pageCount : nat;
  consecutiveEmptyPages : nat;
  consecutiveDuplicatePages : nat
}.

Definition MultiPage_init : MultiPage :=
  {| allRecords := []; seenRecords := []; currentOffset := 0;
     hasMoreData := true; pageCount := 0; consecutiveEmptyPages := 0;
     consecutiveDuplicatePages := 0 |}.

Definition pageSize : Z := 500.

Definition keep (record recordId : json) (s : MultiPage) : MultiPage :=
  {| allRecords := allRecords s ++ [record];
     seenRecords := Set_add (seenRecords s) recordId;
     currentOffset := currentOffset s; hasMoreData := hasMoreData s;
     pageCount := pageCount s;
     consecutiveEmptyPages := consecutiveEmptyPages s;
     consecutiveDuplicatePages := consecutiveDuplicatePages s |}.

Definition set_currentOffset (o : Z) (s : MultiPage) : MultiPage :=
  {| allRecords := allRecords s; seenRecords := seenRecords s;
     currentOffset := o; hasMoreData := hasMoreData s;
     pageCount := pageCount s;
     consecutiveEmptyPages := consecutiveEmptyPages s;
     consecutiveDuplicatePages := consecutiveDuplicatePages s |}.

Definition set_hasMoreData (b : bool) (s : MultiPage) : MultiPage :=
  {| allRecords := allRecords s; seenRecords := seenRecords s;
     currentOffset := currentOffset s; hasMoreData := b;
     pageCount := pageCount s;
     consecutiveEmptyPages := consecutiveEmptyPages s;
     consecutiveDuplicatePages := consecutiveDuplicatePages s |}.

Definition set_pageCount (n : nat) (s : MultiPage) : MultiPage :=
  {| allRecords := allRecords s; seenRecords := seenRecords s;
     currentOffset := currentOffset s; hasMoreData := hasMoreData s;
     pageCount := n;
     consecutiveEmptyPages := consecutiveEmptyPages s;
     consecutiveDuplicatePages := consecutiveDuplicatePages s |}.

Definition set_consecutiveEmptyPages (n : nat) (s : MultiPage) : MultiPage :=
  {| allRecords := allRecords s; seenRecords := seenRecords s;
     currentOffset := currentOffset s; hasMoreData := hasMoreData s;
     pageCount := pageCount s;
     consecutiveEmptyPages := n;
     consecutiveDuplicatePages := consecutiveDuplicatePages s |}.

Definition set_consecutiveDuplicatePages (n : nat) (s : MultiPage)
  : MultiPage :=
  {| allRecords := allRecords s; seenRecords := seenRecords s;
     currentOffset := currentOffset s; hasMoreData := hasMoreData s;
     pageCount := pageCount s;
     consecutiveEmptyPages := consecutiveEmptyPages s;
     consecutiveDuplicatePages := n |}.

(** Lines 853-859 and 922-927: the derived identity of a record. *)
Definition compositeId (record : json) : json :=
  JStr (orEmpty (prop record "caller_id_number") ++ "_"
        ++ orEmpty (prop record "callee_id_number") ++ "_"
        ++ orEmpty (prop record "timestamp") ++ "_"
        ++ orEmpty (prop record "called_time")).

Definition recordIdOf (record : json) : Error + json :=
  match record with
  | JNull =>
      inl (TypeError "Cannot read properties of null (reading 'call_id')")
  | _ =>
      match prop record "call_id" with
      | Some id => if truthy id then inr id else inr (compositeId record)
      | None => inr (compositeId record)
      end
  end.

(** Lines 851-868; the result is [newRecords]. *)
Fixpoint dedupPage (pageData : list json) (newRecords : nat)
  : M MultiPage nat :=
  match pageData with
  | [] => ret newRecords
  | record :: rest =>
      recordId <- liftE (recordIdOf record) ;;
      s <- getL ;;
      if negb (Set_has (seenRecords s) recordId) then
        modifyL (keep record recordId) ;;
        dedupPage rest (S newRecords)
      else dedupPage rest newRecords
  end.

(** Lines 921-934; the result is [addedFromTimeSlicing]. *)
Fixpoint mergeTimeSlices (timeSliceRecords : list json)
    (addedFromTimeSlicing : nat) : M MultiPage nat :=
  match timeSliceRecords with
  | [] => ret addedFromTimeSlicing
  | record :: rest =>
      recordId <- liftE (recordIdOf record) ;;
      s <- getL ;;
      if negb (Set_has (seenRecords s) recordId) then
        modifyL (keep record recordId) ;;
        mergeTimeSlices rest (S addedFromTimeSlicing)
      else mergeTimeSlices rest addedFromTimeSlicing
  end.

Inductive Ctl : Type := Next | Break.

Definition recordCount (s : MultiPage) : Z :=
  Z.of_nat (List.length (allRecords s)).

(** Lines 870-896: after the records of a page were merged. *)
Definition afterPage (totalLimit : Z) (pageLength newRecords : nat)
  : M MultiPage Ctl :=
  s <- getL ;;
  stop <- (if (newRecords =? 0)%nat then
             modifyL (set_consecutiveDuplicatePages
                        (S (consecutiveDuplicatePages s))) ;;
             ret (2 <=? S (consecutiveDuplicatePages s))%nat
           else modifyL (set_consecutiveDuplicatePages 0) ;; ret false) ;;
  if stop : bool then ret Break
  else
    (if (Z.of_nat pageLength <? pageSize)%Z
     then modifyL (set_hasMoreData false) else ret tt) ;;
    modifyL (fun s => set_currentOffset
                        (currentOffset s + Z.of_nat pageLength)%Z s) ;;
    s' <- getL ;;
    (if hasMoreData s' && (recordCount s' <? totalLimit)%Z
     then sleep 100 else ret tt) ;;
    ret Next.

(** One turn of the offset loop, lines 820-909. *)
Definition offsetPage (env : Env) (report tenant : string)
    (params : list (string * json)) (totalLimit : Z) : M MultiPage Ctl :=
  modifyL (fun s => set_pageCount (S (pageCount s)) s) ;;
  tryCatch
    (s <- getL ;;
     let limit := Z.min pageSize (totalLimit - recordCount s) in
     let pageParams :=
       setProps [("limit", JNum limit); ("offset", JNum (currentOffset s))]
         (setProps (ownEntries params) []) in
     pageData <- call (fetchReportSinglePage env report tenant pageParams
                         (Some limit)) tt ;;
     match pageData with
     | Some (r :: more) =>
         modifyL (set_consecutiveEmptyPages 0) ;;
         newRecords <- dedupPage (r :: more) 0 ;;
         afterPage totalLimit (List.length (r :: more)) newRecords
     | _ =>
         modifyL (fun s => set_consecutiveEmptyPages
                             (S (consecutiveEmptyPages s)) s) ;;
         s1 <- getL ;;
         if (2 <=? consecutiveEmptyPages s1)%nat then
           modifyL (set_hasMoreData false) ;; ret Break
         else
           modifyL (fun s => set_currentOffset
                               (currentOffset s + pageSize)%Z s) ;;
           ret Next
     end)
    (fun error =>
       s <- getL ;;
       if (pageCount s =? 1)%nat then raise error
       else modifyL (set_hasMoreData false) ;; ret Next).

Definition offsetLoopTest (totalLimit : Z) (s : MultiPage) : bool :=
  (recordCount s <? totalLimit)%Z && hasMoreData s && (pageCount s <? 5)%nat.

(** Lines 819-910. *)
Fixpoint offsetLoop (fuel : nat) (env : Env) (report tenant : string)
    (params : list (string * json)) (totalLimit : Z) : M MultiPage unit :=
  s <- getL ;;
  if offsetLoopTest totalLimit s then
    match fuel with
    | O => outOfFuel
    | S fuel' =>
        c <- offsetPage env report tenant params totalLimit ;;
        match c with
        | Break => ret tt
        | Next => offsetLoop fuel' env report tenant params totalLimit
        end
    end
  else ret tt.

(** The test of line 913. *)
Definition timeSlicingTest (params : list (string * json)) (totalLimit : Z)
    (s : MultiPage) : bool :=
  (recordCount s <? totalLimit)%Z
  && ((1 <=? consecutiveDuplicatePages s)%nat
      || ((2 <=? pageCount s)%nat
          && (List.length (allRecords s) =? 500)%nat))
  && truthy_opt (assoc "startDate" params)
  && truthy_opt (assoc "endDate" params).

(** [records.slice(0, n)]. *)
Definition slice0 (n : Z) (records : list json) : list json :=
  if (n <? 0)%Z
  then firstn (Z.to_nat (Z.max (Z.of_nat (List.length records) + n) 0))
         records
  else firstn (Z.to_nat n) records.

(** Lines 912-945. *)
Definition finishMultiPage (fuel : nat) (env : Env) (report tenant : string)
    (params : list (string * json)) (totalLimit : Z)
  : M MultiPage (list json) :=
  s <- getL ;;
  (if timeSlicingTest params totalLimit s then
     timeSliceRecords <-
       call (fetchWithTimeSlicing fuel env report tenant params
               (totalLimit - recordCount s)%Z (seenRecords s)) [] ;;
     mergeTimeSlices timeSliceRecords 0 ;; ret tt
   else ret tt) ;;
  s' <- getL ;;
  ret (slice0 totalLimit (allRecords s')).

Definition fetchReportMultiPage (fuel : nat) (env : Env)
    (report tenant : string) (params : list (string * json))
    (totalLimit : Z) : M MultiPage (list json) :=
  offsetLoop 5 env report tenant params totalLimit ;;
  finishMultiPage fuel env report tenant params totalLimit.

(** *** [fetchReportSinglePageEnhanced], lines 1010-1050 *)

Definition paginationAttempts (params : list (string * json))
    (limit : option Z) : list (list (string * json)) :=
  let base := setProps (ownEntries params) [] in
  let named k := match limit with
                 | Some n => if (n =? 0)%Z then [] else [(k, JNum n)]
                 | None => []
                 end in
  [setProps (named "limit") base; setProps (named "size") base;
   setProps (named "count") base; setProps (named "max_results") base;
   setProps (named "per_page") base].

Definition lengthOver500 (result : option (list json)) : bool :=
  match result with
  | Some records => (500 <? List.length records)%nat
  | None => false
  end.

(** Lines 1020-1045, from attempt [i] on; [None]: the loop ran out. *)
Fixpoint enhancedLoop (env : Env) (report tenant : string)
    (limit : option Z) (i : nat) (attempts : list (list (string * json)))
  : M unit (option (option (list json))) :=
  match attempts with
  | [] => ret None
  | attempt :: rest =>
      step <- tryCatch
        (result <- call (fetchReportSinglePage env report tenant attempt
                           limit) tt ;;
         if lengthOver500 result then ret (Some result)
         else if (i =? 0)%nat then
           match limit with
           | Some n => if (500 <? n)%Z then ret None else ret (Some result)
           | None => ret (Some result)
           end
         else ret None)
        (fun error =>
           if (i =? 4)%nat then raise error else ret None) ;;
      match step with
      | Some result => ret (Some result)
      | None => enhancedLoop env report tenant limit (S i) rest
      end
  end.

Definition fetchReportSinglePageEnhanced (env : Env) (report tenant : string)
    (params : list (string * json)) (limit : option Z)
  : M unit (option (list json)) :=
  found <- enhancedLoop env report tenant limit 0
             (paginationAttempts params limit) ;;
  match found with
  | Some result => ret result
  | None => call (fetchReportSinglePage env report tenant params limit) tt
  end.

End ReportFetcher.

(* ===================================================================== *)
(** ** server.js: [GET /api/reports/:type] *)
(* ===================================================================== *)

Module Server.
Import JS Net Net.Notations ReportFetcher.

Record Query : Type := {
  account : option string;
  start : option string;
  end_ : option string;
  limit : option string
}.

Inductive Response : Type :=
| Status400 (error : string)
| Status200 (data : list json) (total : nat) (limit : option Z)
            (hasMore : option bool) (fetchMethod : string)
| Status500 (details type account : string) (params : list (string * json))
            (limit : option Z).

Definition given (v : option string) : option string :=
  match v with
  | Some s => if s =? "" then None else Some s
  | None => None
  end.

Definition message (e : Error) : string :=
  match e with
  | HttpError m => m
  | TypeError m => m
  | RangeError m => m
  | UnknownReport r => "Unknown report type: " ++ r
  end.

(** Lines 48-60: the limit the request runs with, or the refusal. *)
Definition recordLimitOf (limit : option string) : string + option Z :=
  match given limit with
  | None => inr None
  | Some text =>
      match parseInt10 text with
      | None => inl "Invalid limit parameter. Must be a positive integer."
      | Some n =>
          if (n <? 1)%Z
          then inl "Invalid limit parameter. Must be a positive integer."
          else if (10000 <? n)%Z then inr (Some 10000%Z)
          else inr (Some n)
      end
  end.

Section Route.

(** [Date.parse], in milliseconds; [None] is NaN. *)
Variable Date_parse : string -> option Z.

(** Lines 32-46, on the [params] built so far. *)
Definition dateParam (name : string) (text : option string) (invalid : string)
    (params : list (string * json)) : string + list (string * json) :=
  match given text with
  | None => inr params
  | Some t =>
      match Date_parse t with
      | None => inl invalid
      | Some ms => inr (setProp name (JNum (ms / 1000)) params)
      end
  end.

(** Lines 71-81: the strategy is chosen by the limit. *)
Definition fetchData (fuel : nat) (env : Env) (type tenant : string)
    (params : list (string * json)) (recordLimit : option Z)
    (w : World) : Outcome (option (list json)) * World :=
  let single :=
    let '(r, _, w') :=
      fetchReportSinglePageEnhanced env type tenant params recordLimit tt w
    in (r, w') in
  match recordLimit with
  | Some n =>
      if (500 <? n)%Z then
        let '(r, _, w') :=
          (data <- fetchReportMultiPage fuel env type tenant params n ;;
           ret (Some data)) MultiPage_init w
        in (r, w')
      else single
  | None => single
  end.

Definition fetchMethodOf (recordLimit : option Z) : string :=
  match recordLimit with
  | Some n => if (500 <? n)%Z then "multi-page" else "single-page"
  | None => "single-page"
  end.

(** Lines 70-104: the fetch and the answer. *)
Definition respond (fuel : nat) (env : Env) (type tenant : string)
    (params : list (string * json)) (recordLimit : option Z)
    (w : World) : option Response * World :=
  match fetchData fuel env type tenant params recordLimit w with
  | (Return (Some data), w') =>
      (Some (Status200 data (List.length data) recordLimit
               (match recordLimit with
                | Some n => Some (n <=? Z.of_nat (List.length data))%Z
                | None => None
                end)
               (fetchMethodOf recordLimit)), w')
  | (Return None, w') =>
      (Some (Status500
               "Cannot read properties of undefined (reading 'length')"
               type tenant params recordLimit), w')
  | (Raise e, w') =>
      (Some (Status500 (message e) type tenant params recordLimit), w')
  | (OutOfFuel, w') => (None, w')
  end.

(** The handler; [None]: no answer is ever sent. *)
Definition reportsRoute (fuel : nat) (env : Env) (type : string) (q : Query)
    (w : World) : option Response * World :=
  match given (account q) with
  | None => (Some (Status400 "Missing account query param"), w)
  | Some tenant =>
      match dateParam "startDate" (start q) "Invalid start date" [] with
      | inl bad => (Some (Status400 bad), w)
      | inr params1 =>
          match dateParam "endDate" (end_ q) "Invalid end date" params1 with
          | inl bad => (Some (Status400 bad), w)
          | inr params =>
              match recordLimitOf (limit q) with
              | inl bad => (Some (Status400 bad), w)
              | inr recordLimit =>
                  respond fuel env type tenant params recordLimit w
              end
          end
      end
  end.

End Route.

End Server.

(* ===================================================================== *)
(** ** Vocabulary of the properties *)
(* ===================================================================== *)

Module Vocabulary.
Import JS Net ReportFetcher.

(** The array-index properties of the pseudo-array of [items], counted
    from [i], in ascending order. *)
Fixpoint indexedFrom (i : N) (items : list json) : list indexed :=
  match items with
  | [] => []
  | x :: rest => (i, (string_of_N i, x)) :: indexedFrom (N.succ i) rest
  end.

Definition keyLt (a b : indexed) : Prop := (fst a < fst b)%N.

(** *** Sub-windows *)

(** The instant [t] lies in the half-open sub-window. *)
Definition within (c : Chunk) (t : Z) : Prop :=
  (startDate c <= t < endDate c)%Z.

(** Each sub-window starts where the one before it ended, the first
    one at [from]. *)
Fixpoint chained (from : Z) (chunks : list Chunk) : Prop :=
  match chunks with
  | [] => True
  | c :: rest => startDate c = from /\ chained (endDate c) rest
  end.

(** Where the last sub-window ends; [from] when there is none. *)
Definition lastEnd (from : Z) (chunks : list Chunk) : Z :=
  fold_left (fun _ c => endDate c) chunks from.

(** *** Pages and cursors in a history *)

(** The next-cursor of a decoded page, when it has one. *)
Definition nextStartKey (data : json) : option json :=
  match prop data "next_start_key" with
  | Some k => if truthy k then Some k else None
  | None => None
  end.

(** The next-cursor a GET brought back. *)
Definition cursorOf (e : Event) : option json :=
  match e with
  | EvGet _ (Body data) => nextStartKey data
  | _ => None
  end.

(** A page whose next-cursor is the cursor it was requested with. *)
Definition sameCursorPage (e : Event) : bool :=
  match e with
  | EvGet rq (Body data) =>
      match nextStartKey data with
      | Some next => strictEq (assoc "start_key" (params rq)) next
      | None => false
      end
  | _ => false
  end.

(** No two pages of the history brought back the same next-cursor. *)
Fixpoint NoRepeat (evs : list Event) : Prop :=
  match evs with
  | [] => True
  | e :: rest =>
      (forall k e' k', cursorOf e = Some k -> In e' rest ->
                       cursorOf e' = Some k' -> sameValueZero k' k = false)
      /\ NoRepeat rest
  end.

(** A page brought back no next-cursor. *)
Definition cursorless (e : Event) : Prop := cursorOf e = None.

(** The only same-cursor pages of the history were requested with a
    cursor of the caller's own: [params] names a [start_key], and no
    page before them had brought back a next-cursor for the driver to
    go on from. *)
Definition CallerCursor (params : list (string * json)) (evs : list Event)
  : Prop :=
  forall later e earlier,
    evs = later ++ e :: earlier -> sameCursorPage e = true ->
    assoc "start_key" params <> None /\ Forall cursorless earlier.

(** The query string of a turn of the cursor driver. *)
Definition driverQuery (report : string) (params : list (string * json))
    (s : Driver) : list (string * json) :=
  setProps (startKeyParam (startKey s))
    (setProps (fieldsParam report) (setProps (ownEntries params) [])).

(** What the cursor driver knows about the pages [evs] it has fetched,
    at the head of its loop. *)
Record Tracking (params : list (string * json)) (evs : list Event)
    (s : Driver) : Prop := {
  tracked : forall e k k', In e evs -> cursorOf e = Some k ->
                           sameValueZero k k' = true ->
                           Set_has (seenStartKeys s) k' = true;
  no_repeat : NoRepeat evs;
  current_seen : forall k, startKey s = Some k ->
                   truthy k = true
                   /\ forall next, sameValueZero k next = true ->
                                   Set_has (seenStartKeys s) next = true;
  no_same_cursor : assoc "start_key" params = None ->
                   filter sameCursorPage evs = [];
  quiet_start : startKey s = None -> Forall cursorless evs;
  caller_cursor : CallerCursor params evs
}.

(** The pages fetched when the driver is done: its last page apart,
    they brought back distinct next-cursors, none equal to the cursor
    requested (when the caller's parameters name no cursor of their
    own; when they do, the one page requested with it apart). *)
Definition Settled {A} (params : list (string * json)) (evs : list Event)
    (r : Outcome A) : Prop :=
  exists rest,
    NoRepeat rest
    /\ (assoc "start_key" params = None -> filter sameCursorPage rest = [])
    /\ (evs = rest
        \/ exists e, evs = e :: rest /\ exists a, r = Return a)
    /\ CallerCursor params rest.

(** *** Retrying, in the words of the design

    Invoke the operation; on a raised error wait [1000 * 2 ^ attempt]
    milliseconds and retry; after the final attempt propagate the last
    error; no retry on success.  (An operation that does not end keeps
    the loop from ending.) *)
Inductive RetryRun {L A} (op : M L A)
  : nat -> L -> World -> Outcome A -> L -> World -> Prop :=
| retry_success attempt l w a l' w' :
    op l w = (Return a, l', w') ->
    RetryRun op attempt l w (Return a) l' w'
| retry_exhausted attempt l w e l' w' :
    S attempt = MAX_RETRIES ->
    op l w = (Raise e, l', w') ->
    RetryRun op attempt l w (Raise e) l' w'
| retry_again attempt l w e l1 w1 r l' w' :
    S attempt < MAX_RETRIES ->
    op l w = (Raise e, l1, w1) ->
    RetryRun op (S attempt) l1
      (EvSleep (1000 * 2 ^ Z.of_nat attempt) :: w1) r l' w' ->
    RetryRun op attempt l w r l' w'
| retry_endless attempt l w l' w' :
    op l w = (OutOfFuel, l', w') ->
    RetryRun op attempt l w OutOfFuel l' w'.

(** The result of the retry loop wraps that of the operation. *)
Definition wrapped {A} (r : Outcome A) : Outcome (option A) :=
  match r with
  | Return a => Return (Some a)
  | Raise e => Raise e
  | OutOfFuel => OutOfFuel
  end.

(** The delays of the retries after the failed attempts
    [attempt], ..., [attempt + k - 1], the latest first. *)
Definition backoff (attempt k : nat) : list Z :=
  rev (map (fun a => (1000 * 2 ^ Z.of_nat a)%Z) (seq attempt k)).

(** A page fetch that failed: the token was refused, the GET failed, or
    the body it brought back was [null]. *)
Definition failedFetch (e : Event) : bool :=
  match e with
  | EvToken _ (inl _) => true
  | EvGet _ (Failed _) => true
  | EvGet _ (Body JNull) => true
  | _ => false
  end.

Definition failures (evs : list Event) : nat :=
  List.length (filter failedFetch evs).

(** A GET requested with the cursor [k]. *)
Definition requestedWith (k : json) (e : Event) : bool :=
  match e with
  | EvGet rq _ => strictEq (assoc "start_key" (params rq)) k
  | _ => false
  end.

(** *** Pages of the offset loop *)

(** The [limit] and the parameters of the page requested from the
    aggregation state [s]. *)
Definition pageLimit (totalLimit : Z) (s : MultiPage) : Z :=
  Z.min pageSize (totalLimit - recordCount s).

Definition pageRequest (params : list (string * json)) (totalLimit : Z)
    (s : MultiPage) : list (string * json) :=
  setProps [("limit", JNum (pageLimit totalLimit s));
            ("offset", JNum (currentOffset s))]
    (setProps (ownEntries params) []).

(** The state after the fetch of a page other than the first failed. *)
Definition afterFailedPage (s : MultiPage) : MultiPage :=
  set_hasMoreData false (set_pageCount (S (pageCount s)) s).

(** *** Identity of records *)

(** The derived identity of a record, in words: its [call_id] when
    that is truthy, and otherwise the composite of its caller number,
    its callee number, its [timestamp] and its [called_time], written
    one after the other with [_] between them, a field that is missing
    or falsy counting as the empty text. *)
Definition fieldText (record : json) (field : string) : string :=
  match prop record field with
  | Some v => if truthy v then toString v else ""
  | None => ""
  end.

Definition composite (record : json) : string :=
  String.concat "_"
    [fieldText record "caller_id_number"; fieldText record "callee_id_number";
     fieldText record "timestamp"; fieldText record "called_time"].

Definition derivedIdentity (record : json) : json :=
  match prop record "call_id" with
  | Some id => if truthy id then id else JStr (composite record)
  | None => JStr (composite record)
  end.

(** Two records that count as the same call: their derived identities
    are the same value, as a [Set] compares values. *)
Definition sameIdentity (r1 r2 : json) : Prop :=
  sameValueZero (derivedIdentity r1) (derivedIdentity r2) = true.

(** The two records have derived identities, and these differ. *)
Definition distinctIds (r1 r2 : json) : Prop :=
  exists k1 k2,
    recordIdOf r1 = inr k1 /\ recordIdOf r2 = inr k2
    /\ sameValueZero k1 k2 = false.

(** The accumulated records have pairwise distinct identities, all of
    them among the seen keys. *)
Definition Deduplicated (s : MultiPage) : Prop :=
  ForallOrdPairs distinctIds (allRecords s)
  /\ forall r, In r (allRecords s) ->
       exists k, recordIdOf r = inr k
                 /\ forall k', Set_has (seenRecords s) k' = false ->
                               sameValueZero k k' = false.

(** In the words of the design: of the records with the same derived
    key only the first-seen copy is retained.  [firstSeen seen records]
    are the records to retain, given the keys seen before them. *)
Fixpoint firstSeen (seen records : list json) : list json :=
  match records with
  | [] => []
  | r :: rest =>
      match recordIdOf r with
      | inr k =>
          if Set_has seen k then firstSeen seen rest
          else r :: firstSeen (seen ++ [k]) rest
      | inl _ => []
      end
  end.

(** What either merging loop does to the accumulated records. *)
Definition Merged (batch : list json) (n : nat) (s : MultiPage) (w : World)
    (r : Outcome nat) (s' : MultiPage) (w' : World) : Prop :=
  w' = w
  /\ (Deduplicated s -> Deduplicated s')
  /\ exists added,
       allRecords s' = allRecords s ++ added
       /\ (forall x, In x added -> In x batch)
       /\ forall n', r = Return n' ->
            n' = n + List.length added
            /\ added = firstSeen (seenRecords s) batch.

(** A computation that keeps a property of the local variables. *)
Definition preserves {L A} (I : L -> Prop) (m : M L A) : Prop :=
  forall l w r l' w', I l -> m l w = (r, l', w') -> I l'.

(** The keys of [keys] the driver has not seen yet. *)
Definition unseen (keys seen : list json) : nat :=
  List.length (filter (fun k => negb (Set_has seen k)) keys).

(** What the driver holds after [n] pages of the endless upstream:
    only cursors of earlier pages. *)
Definition EndlessAt (n : nat) (s : Driver) (w : World) : Prop :=
  gets w = n
  /\ (forall v, Set_has (seenStartKeys s) v = true ->
                exists i, i < n /\ v = JStr (string_of_N (N.of_nat i)))
  /\ (forall v, startKey s = Some v ->
                exists i, i < n /\ v = JStr (string_of_N (N.of_nat i))).

(** A computation that always ends, in a result or in an error. *)
Definition total {L A} (m : M L A) : Prop :=
  forall l w, fst (fst (m l w)) <> OutOfFuel.

End Vocabulary.

(* ===================================================================== *)
(** ** Upstreams to run the program against *)
(* ===================================================================== *)

Module Scenarios.
Import JS Net ReportFetcher.

Definition record (id : Z) : json := JObj [("call_id", JNum id)].

Definition page (records : list json) (next : option string) : json :=
  JObj (("data", JArr records)
        :: match next with
           | Some k => [("next_start_key", JStr k)]
           | None => []
           end).

Definition upstream (reply : World -> Request -> Reply) : Env :=
  {| BASE_URL := "https://portal.example";
     ACCOUNT_ID_HEADER := None;
     portalToken := fun _ _ => inr "token";
     portal := reply |}.

(** An upstream that is stuck: every page names the cursor "A". *)
Definition stuck : Env :=
  upstream (fun _ _ => Body (page [record 1] (Some "A"))).

(** An upstream that cycles: its pages name the cursors "A", "B", "A". *)
Definition cycling : Env :=
  upstream (fun w _ =>
              match gets w with
              | 0 => Body (page [record 1] (Some "A"))
              | 1 => Body (page [record 2] (Some "B"))
              | _ => Body (page [record 3] (Some "A"))
              end).

(** An upstream without end: page [n] names the cursor [n]. *)
Definition endless : Env :=
  upstream (fun w _ =>
              Body (page [] (Some (string_of_N (N.of_nat (gets w)))))).

(** An upstream whose first [failures] GETs fail. *)
Definition flaky (failures : nat) : Env :=
  upstream (fun w _ =>
              if (gets w <? failures)%nat
              then Failed (HttpError "Request failed with status code 429")
              else Body (page [record 1; record 2] None)).

(** An upstream that ignores [limit]: every page holds two records. *)
Definition generous : Env :=
  upstream (fun _ _ => Body (JArr [record 1; record 2])).

(** An upstream whose only page repeats a record. *)
Definition duplicating : Env :=
  upstream (fun _ _ => Body (page [record 1; record 2; record 2] None)).

(** An upstream that ignores [offset]: a full page of one call, the same
    call again, and then time slices that overlap. *)
Definition overlapping : Env :=
  upstream (fun w _ =>
              match gets w with
              | 0 => Body (page (repeat (record 1) 500) None)
              | 1 => Body (page [record 1] None)
              | 2 => Body (page [record 1; record 2] None)
              | _ => Body (page [record 2; record 3] None)
              end).

Definition calls (first count : nat) : list json :=
  map (fun i => record (Z.of_nat i)) (seq first count).

(** An upstream whose first page is full, whose second page fails on
    all three attempts, and whose later answers hold one more call. *)
Definition secondPageFails : Env :=
  upstream (fun w _ =>
              match gets w with
              | 0 => Body (page (calls 1 500) None)
              | 1 | 2 | 3 =>
                  Failed (HttpError "Request failed with status code 502")
              | _ => Body (page [record 1000] None)
              end).

(** An upstream that fails every other time: its answers are a
    failure, the page of the call 1 naming the cursor "A", a failure,
    the page of the call 2 naming the cursor "B", and failures from
    then on. *)
Definition interleaved : Env :=
  upstream (fun w _ =>
              match gets w with
              | 1 => Body (page [record 1] (Some "A"))
              | 3 => Body (page [record 2] (Some "B"))
              | _ => Failed (HttpError "Request failed with status code 502")
              end).

(** Two records with the same empty [call_id] and different callers,
    and two records without a [call_id] that differ in their
    [called_time] only. *)
Definition unnamed (caller : string) : json :=
  JObj [("call_id", JStr ""); ("caller_id_number", JStr caller)].

Definition leg (called_time : Z) : json :=
  JObj [("caller_id_number", JStr "300"); ("callee_id_number", JStr "400");
        ("timestamp", JNum 5); ("called_time", JNum called_time)].

Definition lookalikes : Env :=
  upstream (fun _ _ =>
              Body (JArr [unnamed "100"; unnamed "200"; leg 1; leg 2])).

(** An upstream that answers with one item wrapping two calls. *)
Definition wrapping : Env :=
  upstream (fun _ _ =>
              Body (JArr [JObj [("cdrs", JArr [record 1; record 2])]])).

(** Eight seconds. *)
Definition eightSeconds : list (string * json) :=
  [("startDate", JNum 1000); ("endDate", JNum 1008)].

(** An aggregation under way: one call accumulated from a first page,
    which was followed by a page of duplicates. *)
Definition underWay : MultiPage :=
  {| allRecords := [record 1]; seenRecords := [JNum 1];
     currentOffset := 1000; hasMoreData := true; pageCount := 2;
     consecutiveEmptyPages := 0; consecutiveDuplicatePages := 1 |}.

(** The query [?account=acme&limit=...]. *)
Definition query (limit : string) : Server.Query :=
  {| Server.account := Some "acme"; Server.start := None;
     Server.end_ := None; Server.limit := Some limit |}.

(** No date is parsed in these runs. *)
Definition noDate (text : string) : option Z := None.

(** Sixteen hours. *)
Definition sixteenHours : list (string * json) :=
  [("startDate", JNum 1000); ("endDate", JNum 58600)].

End Scenarios.
(* ===================================================================== *)
(** ** reportFetcher.js: the CSV export *)
(* ===================================================================== *)

Module Csv.
Import JS Net.

Definition quote : ascii := ascii_of_nat 34.

Definition newline : string := String (ascii_of_nat 10) "".

(** [s.includes(pat)]. *)
Fixpoint includes (s pat : string) : bool :=
  String.prefix pat s
  || match s with
     | String _ rest => includes rest pat
     | EmptyString => false
     end.

(** The replacement of line 48: every double quote of [str] is written
    twice. *)
Fixpoint doubleQuotes (s : string) : string :=
  match s with
  | EmptyString => EmptyString
  | String c rest =>
      if Ascii.eqb c quote
      then String quote (String quote (doubleQuotes rest))
      else String c (doubleQuotes rest)
  end.

(** Lines 44-50: the cell written for one value of a record. *)
Definition csvCell (delimiter : string) (v : json) : string :=
  match v with
  | JNull => ""
  | _ =>
      let str := toString v in
      if includes str delimiter || includes str newline
         || includes str (String quote "")
      then String quote (doubleQuotes str ++ String quote "")
      else str
  end.

(** Lines 42-52: the line written for one record.  [Object.values] of
    [null] is a TypeError. *)
Definition csvRow (delimiter : string) (r : json) : Error + string :=
  match r with
  | JNull => inl (TypeError "Cannot convert undefined or null to object")
  | _ => inr (String.concat delimiter (map (csvCell delimiter) (Object_values r)))
  end.

(** Lines 39-54.  The header is made of the keys of the first record. *)
Definition toCsv (records : list json) (delimiter : string) : Error + string :=
  match records with
  | [] => inr ""
  | first :: _ =>
      match first with
      | JNull => inl (TypeError "Cannot convert undefined or null to object")
      | _ =>
          let header := String.concat delimiter (Object_keys first) in
          match ReportFetcher.mapE (csvRow delimiter) records with
          | inl e => inl e
          | inr rows => inr (String.concat newline (header :: rows))
          end
      end
  end.

(** *** [flattenCdrForCsv], lines 60-99 *)

(** [flattened[k] = v] for a [v] that is not an object.  The name
    [__proto__] reaches the setter every object inherits, which ignores
    such a [v]: no property is created. *)
Definition assign (k : string) (v : json) (flattened : list (string * json))
  : list (string * json) :=
  if k =? "__proto__" then flattened else setProp k v flattened.

(** [typeof v === 'object' && v !== null]. *)
Definition isObject (v : json) : bool :=
  match v with JObj _ | JArr _ => true | _ => false end.

(** [items.join(sep)]. *)
Definition join (sep : string) (items : list json) : string :=
  String.concat sep
    (map (fun x => match x with JNull => "" | _ => toString x end) items).

Definition newKeyOf (prefix key : string) : string :=
  if prefix =? "" then key else prefix ++ "_" ++ key.

(** Lines 67-94: the inner function [flattenObject], which writes to
    [flattened].  It calls itself on the objects nested in [obj]; [fuel]
    bounds the depth of these calls, and [None] is a call left
    unfinished for want of it. *)
Fixpoint flattenObject (fuel : nat) (obj : json) (prefix : string)
    (flattened : list (string * json)) : option (list (string * json)) :=
  match fuel with
  | O => None
  | S fuel' =>
      fold_left
        (fun acc kv =>
           match acc with
           | None => None
           | Some fl =>
               let newKey := newKeyOf prefix (fst kv) in
               match snd kv with
               | JNull => Some (assign newKey (JStr "") fl)
               | JArr [] => Some (assign newKey (JStr "") fl)
               | JArr (first :: rest) =>
                   if isObject first then
                     option_map
                       (assign (newKey ++ "_count")
                          (JNum (Z.of_nat (List.length (first :: rest)))))
                       (flattenObject fuel' first newKey fl)
                   else Some (assign newKey (JStr (join "; " (first :: rest))) fl)
               | JObj _ => flattenObject fuel' (snd kv) newKey fl
               | value => Some (assign newKey value fl)
               end
           end)
        (entries obj) (Some flattened)
  end.

(** How deep the objects and arrays of a value are nested. *)
Fixpoint depth (v : json) : nat :=
  match v with
  | JArr items => S (list_max (map depth items))
  | JObj props => S (list_max (map (fun kv => depth (snd kv)) props))
  | _ => 0
  end.

(** Lines 63-98: the callback of [records.map].  [Object.entries] of
    [null] is a TypeError. *)
Definition flattenRecord (record : json) : Outcome json :=
  match record with
  | JNull => Raise (TypeError "Cannot convert undefined or null to object")
  | _ =>
      match flattenObject (S (depth record)) record "" [] with
      | Some flattened => Return (JObj flattened)
      | None => OutOfFuel
      end
  end.

Fixpoint mapO {A B} (f : A -> Outcome B) (l : list A) : Outcome (list B) :=
  match l with
  | [] => Return []
  | x :: rest =>
      match f x with
      | Return y =>
          match mapO f rest with
          | Return ys => Return (y :: ys)
          | Raise e => Raise e
          | OutOfFuel => OutOfFuel
          end
      | Raise e => Raise e
      | OutOfFuel => OutOfFuel
      end
  end.

(** Lines 60-99.  [None] is [undefined]. *)
Definition flattenCdrForCsv (records : option json) : Outcome (list json) :=
  match records with
  | Some (JArr items) => mapO flattenRecord items
  | _ => Return []
  end.

End Csv.

(* ===================================================================== *)
(** ** reportFetcher.js: what [fetchReport] does to the records fetched *)
(* ===================================================================== *)

Module PostProcessing.
Import JS Net Net.Notations ReportFetcher.

(** The value of [v] when it is truthy. *)
Definition whenTruthy (v : option json) : option json :=
  match v with
  | Some x => if truthy x then Some x else None
  | None => None
  end.

Section Durations.

(** [a - b] as JavaScript computes it: the difference of two numbers,
    and for other operands that of the numbers they convert to. *)
Variable minus : json -> json -> json.

(** Lines 303-316: the callback of the first [out.forEach], on the
    properties of a record. *)
Definition talkedDuration (props : list (string * json))
  : list (string * json) :=
  if truthy_opt (assoc "talked_duration" props) then props
  else match whenTruthy (assoc "hangup_time" props),
             whenTruthy (assoc "answered_time" props) with
       | Some hangup_time, Some answered_time =>
           setProp "talked_duration" (minus hangup_time answered_time) props
       | _, _ => props
       end.

Definition waitDuration (props : list (string * json))
  : list (string * json) :=
  if truthy_opt (assoc "wait_duration" props) then props
  else match whenTruthy (assoc "called_time" props) with
       | Some called_time =>
           match whenTruthy (assoc "answered_time" props) with
           | Some answered_time =>
               setProp "wait_duration" (minus answered_time called_time) props
           | None =>
               match whenTruthy (assoc "hangup_time" props) with
               | Some hangup_time =>
                   setProp "wait_duration" (minus hangup_time called_time)
                     props
               | None => props
               end
           end
       | None => props
       end.

Definition deriveDurations (record : json) : Error + json :=
  match record with
  | JNull =>
      inl (TypeError
             "Cannot read properties of null (reading 'talked_duration')")
  | JObj props => inr (JObj (waitDuration (talkedDuration props)))
  | _ => inr record
  end.

(** Lines 323-335: the first row of every call; [seen] is the set of
    the call ids met so far. *)
Fixpoint firstRows (out seen : list json) : Error + list json :=
  match out with
  | [] => inr []
  | rec :: rest =>
      match rec with
      | JNull =>
          inl (TypeError "Cannot read properties of null (reading 'call_id')")
      | _ =>
          match whenTruthy (prop rec "call_id") with
          | None =>
              match firstRows rest seen with
              | inl e => inl e
              | inr rows => inr (rec :: rows)
              end
          | Some call_id =>
              if Set_has seen call_id then firstRows rest seen
              else match firstRows rest (Set_add seen call_id) with
                   | inl e => inl e
                   | inr rows => inr (rec :: rows)
                   end
          end
      end
  end.

(** Lines 339-343 and 352-356: a history of several entries is cut to
    its first one. *)
Definition keepFirst (history : string) (r : json) : Error + json :=
  match r with
  | JNull =>
      inl (TypeError ("Cannot read properties of null (reading '"
                      ++ history ++ "')"))
  | JObj props =>
      match assoc history props with
      | Some (JArr (first :: _ :: _)) =>
          inr (JObj (setProp history (JArr [first]) props))
      | _ => inr r
      end
  | _ => inr r
  end.

(** Lines 361-403: the [cdrs] of the first item that has such an array. *)
Fixpoint firstCdrs (out : list json) : option (list json) :=
  match out with
  | [] => None
  | item :: rest =>
      match prop item "cdrs" with
      | Some (JArr cdrs) => Some cdrs
      | _ => firstCdrs rest
      end
  end.

(** Lines 299-405. *)
Definition postProcess (report : string) (out : list json)
  : Error + list json :=
  let derived :=
    if (report =? "queueCalls") || (report =? "queueOutboundCalls")
    then mapE deriveDurations out else inr out in
  match derived with
  | inl e => inl e
  | inr out =>
      if report =? "queueCalls" then
        match firstRows out [] with
        | inl e => inl e
        | inr rows => mapE (keepFirst "agent_history") rows
        end
      else if report =? "queueOutboundCalls" then
        mapE (keepFirst "queue_history") out
      else
        match firstCdrs out with
        | Some cdrs => mapE processCdr cdrs
        | None => inr out
        end
  end.

(** Lines 109-406. *)
Definition fetchReport (fuel : nat) (env : Env) (report tenant : string)
    (params : list (string * json)) : M Driver (list json) :=
  out <- fetchReport_pagination fuel env report tenant params ;;
  liftE (postProcess report out).

End Durations.

End PostProcessing.

(* ===================================================================== *)
(** ** reportFetcher.js: [fetchReportPaginated], lines 419-562 *)
(* ===================================================================== *)

Module Paginated.
Import JS Net Net.Notations ReportFetcher.

(** The local variables. *)
Record Locals : Type := {
  out : list json;
  currentStartKey : option json
}.

(** The object returned; a [nextStartKey] of [None] is [null]. *)
Record Page : Type := {
  data : list json;
  hasMore : bool;
  nextStartKey : option json
}.

Definition push_recordsToAdd (records : list json) (s : Locals) : Locals :=
  {| out := out s ++ records; currentStartKey := currentStartKey s |}.

Definition set_currentStartKey (k : option json) (s : Locals) : Locals :=
  {| out := out s; currentStartKey := k |}.

(** [n < limit] and [n >= limit] for a [limit] that may be NaN ([None]):
    both are then false. *)
Definition below (n : nat) (limit : option Z) : bool :=
  match limit with
  | Some l => (Z.of_nat n <? l)%Z
  | None => false
  end.

Definition reached (n : nat) (limit : option Z) : bool :=
  match limit with
  | Some l => (l <=? Z.of_nat n)%Z
  | None => false
  end.

(** [chunk.slice(0, limit - n)]; with a NaN the slice is empty. *)
Definition recordsToAdd (chunk : list json) (limit : option Z) (n : nat)
  : list json :=
  match limit with
  | Some l => slice0 (l - Z.of_nat n) chunk
  | None => []
  end.

(** One turn of the loop, lines 431-546; [Some page] is [return page]. *)
Definition paginatedTurn (env : Env) (report tenant path : string)
    (params : list (string * json)) (limit : option Z)
  : M Locals (option Page) :=
  s <- getL ;;
  let qs := setProps (startKeyParam (currentStartKey s))
              (setProps (fieldsParam report)
                 (setProps (ownEntries params) [])) in
  token <- getPortalToken env tenant ;;
  data <- axios_get env (mkRequest env path tenant token qs) ;;
  chunk <- liftE (payloadChunk data) ;;
  modifyL (push_recordsToAdd (recordsToAdd chunk limit (List.length (out s)))) ;;
  s1 <- getL ;;
  match prop data "next_start_key" with
  | Some next =>
      if truthy next then
        modifyL (set_currentStartKey (Some next)) ;;
        if reached (List.length (out s1)) limit then
          ret (Some {| data := out s1; hasMore := true;
                       nextStartKey := Some next |})
        else ret None
      else ret (Some {| data := out s1; hasMore := false;
                        nextStartKey := None |})
  | None => ret (Some {| data := out s1; hasMore := false;
                         nextStartKey := None |})
  end.

(** Lines 430-554: the loop [while (out.length < limit)] and the
    [return] that follows it. *)
Fixpoint paginatedLoop (fuel : nat) (env : Env) (report tenant path : string)
    (params : list (string * json)) (limit : option Z) : M Locals Page :=
  s <- getL ;;
  if below (List.length (out s)) limit then
    match fuel with
    | O => outOfFuel
    | S fuel' =>
        r <- paginatedTurn env report tenant path params limit ;;
        match r with
        | Some page => ret page
        | None => paginatedLoop fuel' env report tenant path params limit
        end
    end
  else ret {| data := out s; hasMore := truthy_opt (currentStartKey s);
              nextStartKey := currentStartKey s |}.

Definition Locals_init (startKey : option json) : Locals :=
  {| out := []; currentStartKey := startKey |}.

(** The function, to be run from [Locals_init startKey].  [None] would
    be the [undefined] of leaving the retry loop. *)
Definition fetchReportPaginated (fuel : nat) (env : Env)
    (report tenant : string) (params : list (string * json))
    (limit : option Z) : M Locals (option Page) :=
  match ENDPOINTS report with
  | None => raise (UnknownReport report)
  | Some path =>
      retrying 3 0 1000
        (paginatedLoop fuel env report tenant path params limit)
  end.

End Paginated.

(* ===================================================================== *)
(** ** server.js: [GET /api/reports/:type/paginated] *)
(* ===================================================================== *)

Module PaginatedRoute.
Import JS Net Net.Notations ReportFetcher.

Record PageQuery : Type := {
  account : option string;
  start : option string;
  end_ : option string;
  limit : option string;
  startKey : option string
}.

Inductive PageResponse : Type :=
| Status400 (error : string)
| Status200 (data : list json) (hasMore : bool) (nextStartKey : option json)
            (totalFetched : nat)
| Status500 (error : string).

(** Line 110 and [parseInt(limit)]: a query without [limit] asks
    for 5 records. *)
Definition limitOf (limit : option string) : option Z :=
  match limit with
  | Some text => parseIntAuto text
  | None => Some 5%Z
  end.

(** *** The rows of the answer *)

(** [a || b]. *)
Definition orElse (a b : option json) : option json :=
  if truthy_opt a then a else b.

(** [a || '']. *)
Definition orEmptyString (a : option json) : json :=
  match a with
  | Some x => if truthy x then x else JStr ""
  | None => JStr ""
  end.

(** [v?.k]. *)
Definition optProp (v : option json) (k : string) : option json :=
  match v with
  | Some x => prop x k
  | None => None
  end.

(** An error thrown is kept as its message, which is all that the
    handler reads of it. *)
Fixpoint mapS {A B} (f : A -> string + B) (l : list A) : string + list B :=
  match l with
  | [] => inr []
  | x :: rest =>
      match f x with
      | inl e => inl e
      | inr y =>
          match mapS f rest with
          | inl e => inl e
          | inr ys => inr (y :: ys)
          end
      end
  end.

Fixpoint filterS {A} (f : A -> string + bool) (l : list A) : string + list A :=
  match l with
  | [] => inr []
  | x :: rest =>
      match f x with
      | inl e => inl e
      | inr b =>
          match filterS f rest with
          | inl e => inl e
          | inr ys => inr (if b then x :: ys else ys)
          end
      end
  end.

(** Lines 149-163: one object with numeric keys stands for its values. *)
Definition cdrRecordsOf (data : list json) : list json :=
  match data with
  | [firstItem] =>
      match firstItem with
      | JObj _ | JArr _ =>
          if allDigitKeys firstItem then Object_values firstItem else data
      | _ => data
      end
  | _ => data
  end.

(** Lines 173-180. *)
Definition subdispositionOf (row : json) : json :=
  let fonoSub := optProp (prop row "fonoUC") "subdisposition" in
  match optProp fonoSub "name",
        optProp (optProp fonoSub "subdisposition") "name" with
  | Some name, Some inner =>
      if truthy name && truthy inner
      then JStr (toString name ++ " - " ++ toString inner)
      else orEmptyString (orElse (Some name) (prop row "subdisposition"))
  | name, _ => orEmptyString (orElse name (prop row "subdisposition"))
  end.

(** [record.disposition && record.disposition.trim() !== ''], lines
    204-207: a string of white space only is trimmed to nothing. *)
Definition hasDisposition (record : json) : string + bool :=
  match prop record "disposition" with
  | Some d =>
      if truthy d then
        match d with
        | JStr s => inr (negb (skipWhitespace s =? ""))
        | _ => inl "record.disposition.trim is not a function"
        end
      else inr false
  | None => inr false
  end.

Section Route.

(** [Date.parse], in milliseconds; [None] is NaN. *)
Variable Date_parse : string -> option Z.

(** [JSON.parse]; [None] is a SyntaxError. *)
Variable JSON_parse : string -> option json.

(** [new Date(ms).toISOString()]; [None] is the RangeError of a time
    out of range. *)
Variable toISOString : Z -> option string.

(** The time value of [new Date(v > 10_000_000_000 ? v : v * 1000)] for
    a [v] that is not a number, which JavaScript converts to one;
    [None] is an invalid date. *)
Variable timeValue : json -> option Z.

Definition epochToIso (n : Z) : string + json :=
  let ms := if (10000000000 <? n)%Z then n else (n * 1000)%Z in
  match toISOString ms with
  | Some iso => inr (JStr iso)
  | None => inl "Invalid time value"
  end.

(** Lines 182-191. *)
Definition timestampOf (row : json) : string + json :=
  let ts := orElse (prop row "timestamp")
              (orElse (prop row "created")
                 (orElse (prop row "pvt_created")
                    (prop row "interaction_time"))) in
  match ts with
  | Some (JNum n) => if (n =? 0)%Z then inr (JStr "") else epochToIso n
  | _ => inr (orEmptyString ts)
  end.

(** Lines 165-204: the callback of [cdrRecords.map].  Line 195 reads
    [processedData.length] while [processedData], which is to hold the
    result of this very [map], is still [undefined]. *)
Definition cdrRow (row : json) : string + json :=
  match row with
  | JNull => inl "Cannot read properties of null (reading 'call_id')"
  | _ =>
      match timestampOf row with
      | inl e => inl e
      | inr timestamp =>
          let filteredRow :=
            JObj
              [("call_id",
                orEmptyString
                  (orElse (prop row "call_id")
                     (orElse (prop row "_id")
                        (orElse (prop row "id") (prop row "bridge_id")))));
               ("caller_id_number",
                orEmptyString
                  (orElse (prop row "caller_id_number") (prop row "from")));
               ("callee_id_number",
                orEmptyString
                  (orElse (prop row "callee_id_number") (prop row "to")));
               ("call_direction", orEmptyString (prop row "call_direction"));
               ("disposition",
                orEmptyString
                  (orElse (optProp (prop row "fonoUC") "disposition")
                     (orElse (prop row "disposition")
                        (prop row "hangup_cause"))));
               ("subdisposition", subdispositionOf row);
               ("follow_up_notes",
                orEmptyString
                  (orElse (optProp (prop row "fonoUC") "follow_up_notes")
                     (prop row "follow_up_notes")));
               ("timestamp", timestamp)] in
          let processedData : option (list json) := None in
          match processedData with
          | None =>
              inl "Cannot read properties of undefined (reading 'length')"
          | Some _ => inr filteredRow
          end
      end
  end.

(** Line 227: [history.find(e => e.event === 'answer' || e.connected)]. *)
Fixpoint findAnswer (history : list json) : string + option json :=
  match history with
  | [] => inr None
  | e :: rest =>
      match e with
      | JNull => inl "Cannot read properties of null (reading 'event')"
      | _ =>
          if strictEq (prop e "event") (JStr "answer")
             || truthy_opt (prop e "connected")
          then inr (Some e)
          else findAnswer rest
      end
  end.

(** Lines 228-231: the time of the answer, from its [last_attempt]. *)
Definition attemptToIso (last_attempt : json) : string + json :=
  match last_attempt with
  | JNum n => epochToIso n
  | _ =>
      match timeValue last_attempt with
      | Some ms =>
          match toISOString ms with
          | Some iso => inr (JStr iso)
          | None => inl "Invalid time value"
          end
      | None => inl "Invalid time value"
      end
  end.

(** Lines 218-234: the callback of [result.data.map] for the reports
    other than [cdrs]. *)
Definition answeredRow (row : json) : string + json :=
  match row with
  | JNull => inl "Cannot read properties of null (reading 'agent_history')"
  | _ =>
      let history :=
        match prop row "agent_history" with
        | Some (JStr text) =>
            match JSON_parse text with
            | Some parsed => Some parsed
            | None => Some (JArr [])
            end
        | other => other
        end in
      let answered_time := prop row "answered_time" in
      let derived : string + option json :=
        if truthy_opt answered_time then inr answered_time
        else match history with
             | Some (JArr events) =>
                 match findAnswer events with
                 | inl e => inl e
                 | inr answerEvt =>
                     match optProp answerEvt "last_attempt" with
                     | Some last_attempt =>
                         if truthy last_attempt then
                           match attemptToIso last_attempt with
                           | inl e => inl e
                           | inr iso => inr (Some iso)
                           end
                         else inr answered_time
                     | None => inr answered_time
                     end
                 end
             | _ => inr answered_time
             end in
      match derived with
      | inl e => inl e
      | inr ts =>
          inr (JObj (setProp "answered_time"
                       (match ts with
                        | Some JNull | None => JStr "--"
                        | Some v => v
                        end)
                       (literalSpread [] row)))
      end
  end.

(** Lines 145-235. *)
Definition processedDataOf (type : string) (data : list json)
  : string + list json :=
  if type =? "cdrs" then
    match mapS cdrRow (cdrRecordsOf data) with
    | inl e => inl e
    | inr rows => filterS hasDisposition rows
    end
  else mapS answeredRow data.

(** Lines 142-246: the fetch and the answer. *)
Definition respondPage (fuel : nat) (env : Env) (type tenant : string)
    (params : list (string * json)) (limit : option Z)
    (startKey : option json) (w : World) : option PageResponse * World :=
  match Paginated.fetchReportPaginated fuel env type tenant params limit
          (Paginated.Locals_init startKey) w with
  | (Return (Some result), _, w') =>
      match processedDataOf type (Paginated.data result) with
      | inl e => (Some (Status500 e), w')
      | inr processedData =>
          (Some (Status200 processedData (Paginated.hasMore result)
                   (Paginated.nextStartKey result)
                   (List.length processedData)), w')
      end
  | (Return None, _, w') =>
      (Some (Status500
               "Cannot read properties of undefined (reading 'data')"), w')
  | (Raise e, _, w') => (Some (Status500 (Server.message e)), w')
  | (OutOfFuel, _, w') => (None, w')
  end.

(** The handler, lines 108-247; [None]: no answer is ever sent. *)
Definition paginatedRoute (fuel : nat) (env : Env) (type : string)
    (q : PageQuery) (w : World) : option PageResponse * World :=
  match Server.given (account q) with
  | None => (Some (Status400 "Missing account query param"), w)
  | Some tenant =>
      match Server.dateParam Date_parse "startDate" (start q)
              "Invalid start date" [] with
      | inl bad => (Some (Status400 bad), w)
      | inr params1 =>
          match Server.dateParam Date_parse "endDate" (end_ q)
                  "Invalid end date" params1 with
          | inl bad => (Some (Status400 bad), w)
          | inr params =>
              respondPage fuel env type tenant params (limitOf (limit q))
                (option_map JStr (startKey q)) w
          end
      end
  end.

End Route.

End PaginatedRoute.

(* ===================================================================== *)
(** ** Vocabulary of the further properties *)
(* ===================================================================== *)

Module Terms.
Import JS Net ReportFetcher.

(** *** Reading a CSV cell back

    A cell that starts with a double quote runs to its closing quote,
    and a doubled quote inside it stands for one; any other cell is
    its own text. *)
Fixpoint unquote (s : string) : string :=
  match s with
  | EmptyString => EmptyString
  | String c rest =>
      if Ascii.eqb c Csv.quote then
        match rest with
        | String c' rest' =>
            if Ascii.eqb c' Csv.quote then String Csv.quote (unquote rest')
            else EmptyString
        | EmptyString => EmptyString
        end
      else String c (unquote rest)
  end.

Definition readCell (cell : string) : string :=
  match cell with
  | String c rest => if Ascii.eqb c Csv.quote then unquote rest else cell
  | EmptyString => EmptyString
  end.

(** *** Reading a CSV text back

    A reader of comma-separated text: a comma ends a cell and a line
    break ends a row, except inside a cell that starts with a double
    quote, which runs to its closing quote.  [cell] is what was read of
    the current cell, [row] the cells before it in its row and [rows]
    the rows before that one. *)
Inductive Reading : Type := Bare | Quoted | Closing.

Definition comma : ascii := ascii_of_nat 44.
Definition lineBreak : ascii := ascii_of_nat 10.

Definition snoc (s : string) (c : ascii) : string := s ++ String c "".

Fixpoint readFrom (text : string) (state : Reading) (cell : string)
    (row : list string) (rows : list (list string)) : list (list string) :=
  match text with
  | EmptyString => rows ++ [row ++ [cell]]
  | String c rest =>
      match state with
      | Bare =>
          if Ascii.eqb c comma then readFrom rest Bare "" (row ++ [cell]) rows
          else if Ascii.eqb c lineBreak
               then readFrom rest Bare "" [] (rows ++ [row ++ [cell]])
          else if Ascii.eqb c Csv.quote && (cell =? "")
               then readFrom rest Quoted "" row rows
          else readFrom rest Bare (snoc cell c) row rows
      | Quoted =>
          if Ascii.eqb c Csv.quote then readFrom rest Closing cell row rows
          else readFrom rest Quoted (snoc cell c) row rows
      | Closing =>
          if Ascii.eqb c Csv.quote
          then readFrom rest Quoted (snoc cell c) row rows
          else if Ascii.eqb c comma
               then readFrom rest Bare "" (row ++ [cell]) rows
          else if Ascii.eqb c lineBreak
               then readFrom rest Bare "" [] (rows ++ [row ++ [cell]])
          else readFrom rest Bare (snoc cell c) row rows
      end
  end.

Definition readCsv (text : string) : list (list string) :=
  readFrom text Bare "" [] [].

(** What may follow a cell: the end of the text, a comma or a line
    break; and what may follow a line. *)
Definition follows (rest : string) : Prop :=
  rest = "" \/ (exists more, rest = String comma more)
  \/ exists more, rest = String lineBreak more.

Definition followsLine (rest : string) : Prop :=
  rest = "" \/ exists more, rest = String lineBreak more.

(** The reading of a text that starts with a written form of [text]
    goes on after it with [text] as its cell. *)
Definition WritesCell (written text : string) : Prop :=
  forall rest row rows,
    follows rest ->
    readFrom (written ++ rest) Bare "" row rows
    = readFrom rest Bare text row rows.

(** A text without comma, line break and double quote. *)
Definition plain (s : string) : bool :=
  forallb (fun c => negb (Ascii.eqb c comma) && negb (Ascii.eqb c lineBreak)
                    && negb (Ascii.eqb c Csv.quote))
    (list_ascii_of_string s).

(** The cells a reader finds in a line written from [cells]: a line
    written from no cell at all reads as one empty cell. *)
Definition asRead (cells : list string) : list string :=
  match cells with
  | [] => [""]
  | _ => cells
  end.

(** The text of a value in a cell. *)
Definition cellText (v : json) : string :=
  match v with
  | JNull => ""
  | _ => toString v
  end.

(** *** Enumeration *)

(** An array-index property filed under the index its name writes. *)
Definition wellIndexed (e : indexed) : Prop :=
  arrayIndex (fst (snd e)) = Some (fst e).

(** *** Flat records *)

(** A string, a number or a boolean. *)
Definition atomic (v : json) : bool :=
  match v with
  | JStr _ | JNum _ | JBool _ => true
  | _ => false
  end.

(** Properties with distinct names, none of them [__proto__], and
    atomic values. *)
Definition Flattened (props : list (string * json)) : Prop :=
  NoDup (map fst props)
  /\ (forall k v, In (k, v) props -> atomic v = true)
  /\ ~ In "__proto__" (map fst props).

Definition FlatRecord (r : json) : Prop :=
  exists props, r = JObj props /\ Flattened props.

(** *** Rows of the queue reports *)

(** The call a row belongs to, when the row names one. *)
Definition callId (r : json) : option json :=
  PostProcessing.whenTruthy (prop r "call_id").

Definition sameCall (a b : json) : Prop :=
  exists ka kb,
    callId a = Some ka /\ callId b = Some kb /\ sameValueZero ka kb = true.

(** A row that names no call. *)
Definition anonymous (r : json) : bool :=
  match callId r with
  | Some _ => false
  | None => true
  end.

(** A history cut to its first entry. *)
Definition firstOnly (v : json) : json :=
  match v with
  | JArr (first :: _) => JArr [first]
  | _ => v
  end.

(** What the post-processing of a queue report does to a record it
    keeps; [history] is the history it cuts, [queue_history] for the
    outbound report and [agent_history] for the inbound one.  The
    history is cut to its first entry.  A [talked_duration] that is
    truthy is kept; one that is not becomes the time from the answer
    to the hangup when both are truthy, and is left otherwise.  A
    [wait_duration] that is truthy is kept; one that is not becomes,
    when [called_time] is truthy, the time from the call to the answer,
    or to the hangup when there is no truthy [answered_time], and is
    left when none of these can be taken.  Every other property is
    left as it is. *)
Definition Rewritten (history : string) (minus : json -> json -> json)
    (r row : json) : Prop :=
  (forall k, k <> "talked_duration" -> k <> "wait_duration" ->
             k <> history -> prop row k = prop r k)
  /\ prop row history = option_map firstOnly (prop r history)
  /\ (forall v, prop r "talked_duration" = Some v -> truthy v = true ->
                prop row "talked_duration" = Some v)
  /\ (forall hangup answered,
        truthy_opt (prop r "talked_duration") = false ->
        prop r "hangup_time" = Some hangup -> truthy hangup = true ->
        prop r "answered_time" = Some answered -> truthy answered = true ->
        prop row "talked_duration" = Some (minus hangup answered))
  /\ (truthy_opt (prop r "talked_duration") = false ->
      truthy_opt (prop r "hangup_time")
      && truthy_opt (prop r "answered_time") = false ->
      prop row "talked_duration" = prop r "talked_duration")
  /\ (forall v, prop r "wait_duration" = Some v -> truthy v = true ->
                prop row "wait_duration" = Some v)
  /\ (forall called answered,
        truthy_opt (prop r "wait_duration") = false ->
        prop r "called_time" = Some called -> truthy called = true ->
        prop r "answered_time" = Some answered -> truthy answered = true ->
        prop row "wait_duration" = Some (minus answered called))
  /\ (forall called hangup,
        truthy_opt (prop r "wait_duration") = false ->
        prop r "called_time" = Some called -> truthy called = true ->
        truthy_opt (prop r "answered_time") = false ->
        prop r "hangup_time" = Some hangup -> truthy hangup = true ->
        prop row "wait_duration" = Some (minus hangup called))
  /\ (truthy_opt (prop r "wait_duration") = false ->
      truthy_opt (prop r "called_time")
      && (truthy_opt (prop r "answered_time")
          || truthy_opt (prop r "hangup_time")) = false ->
      prop row "wait_duration" = prop r "wait_duration").

(** The truthy value of the field [field] of the [fonoUC] annotation of
    a call record. *)
Definition fonoField (props : list (string * json)) (field : string)
  : option json :=
  match assoc "fonoUC" props with
  | Some fono =>
      if truthy fono then PostProcessing.whenTruthy (prop fono field) else None
  | None => None
  end.

(** *** Pages in a history *)

(** The records of the page a GET brought back. *)
Definition chunkOf (e : Event) : list json :=
  match e with
  | EvGet _ (Body data) =>
      match payloadChunk data with
      | inr chunk => chunk
      | inl _ => []
      end
  | _ => []
  end.

(** The records of the pages of a history, the earliest page first. *)
Definition fetched (evs : list Event) : list json :=
  flat_map chunkOf (rev evs).

(** At the head of the loop of [fetchReportPaginated], run with the
    limit [l] from the history [w0]: the records held are those of the
    pages fetched since, and they are fewer than the limit. *)
Definition Held (l : Z) (w0 : World) (s : Paginated.Locals) (w : World)
  : Prop :=
  exists new,
    w = new ++ w0 /\ Paginated.out s = fetched new
    /\ (Z.of_nat (List.length (Paginated.out s)) < l)%Z.

(** The page delivered holds the first [l] records fetched, and says
    that there is more exactly when it names the cursor to go on from. *)
Definition Delivered (l : Z) (w0 : World) (page : Paginated.Page) (w : World)
  : Prop :=
  exists new,
    w = new ++ w0
    /\ Paginated.data page = firstn (Z.to_nat l) (fetched new)
    /\ Paginated.hasMore page = truthy_opt (Paginated.nextStartKey page)
    /\ (Paginated.hasMore page = true ->
        Z.of_nat (List.length (Paginated.data page)) = l).

(** *** Requests in a history *)

(** A computation that adds to the history only events that make up a
    list with the property [Q]. *)
Definition extends {L A} (Q : list Event -> Prop) (m : M L A) : Prop :=
  forall l w r l' w',
    m l w = (r, l', w') -> exists new, w' = new ++ w /\ Q new.

(** A property of lists of events that holds of no event, of a sleep,
    and of two lists put together when it holds of both. *)
Class Closed (Q : list Event -> Prop) : Prop := {
  closed_nil : Q [];
  closed_app : forall later earlier, Q later -> Q earlier -> Q (later ++ earlier);
  closed_sleep : forall ms, Q [EvSleep ms]
}.

Definition accountOf (env : Env) (tenant : string) : string :=
  match ACCOUNT_ID_HEADER env with
  | Some header => header
  | None => tenant
  end.

(** Every token of the history was asked for [tenant], and every GET
    was sent to the endpoint [path], for the account of [tenant] and
    with the token that had just been handed out. *)
Fixpoint proper (env : Env) (path tenant : string) (evs : list Event)
  : Prop :=
  match evs with
  | [] => True
  | EvGet rq _ :: rest =>
      url rq = (BASE_URL env ++ path)%string
      /\ accountId rq = accountOf env tenant
      /\ (exists token more,
            rest = EvToken tenant (inr token) :: more
            /\ authorization rq = ("Bearer " ++ token)%string)
      /\ proper env path tenant rest
  | EvToken t _ :: rest => t = tenant /\ proper env path tenant rest
  | EvSleep _ :: rest => proper env path tenant rest
  end.

(** *** What a run costs *)

(** From the history [w] to the history [w'] there were [g] requests
    for a token and [g] GETs at most, and [s] sleeps at most. *)
Definition Cost (g s : nat) (w w' : World) : Prop :=
  exists new,
    w' = new ++ w
    /\ gets new <= g /\ invocations new <= g
    /\ List.length (sleeps new) <= s.

(** *** Rows of the paginated answer *)

(** What the paginated route makes of a fetched row of a report other
    than [cdrs]: the answer has its [answered_time] and never a [null]
    one; a truthy [answered_time] is the one fetched, and a row that
    has none, and no [agent_history] to derive it from, gets two
    dashes. *)
Definition Answered (row answer : json) : Prop :=
  (exists v, prop answer "answered_time" = Some v /\ v <> JNull)
  /\ (forall v, prop row "answered_time" = Some v -> truthy v = true ->
                prop answer "answered_time" = Some v)
  /\ (prop row "answered_time" = None -> prop row "agent_history" = None ->
      prop answer "answered_time" = Some (JStr "--")).

(** *** Names and times

    The names that every JavaScript object inherits: [ENDPOINTS[name]]
    is then a function or an object, which passes the test of the
    table. *)
Definition inherited (name : string) : bool :=
  existsb (String.eqb name)
    ["constructor"; "hasOwnProperty"; "isPrototypeOf";
     "propertyIsEnumerable"; "toLocaleString"; "toString"; "valueOf";
     "__proto__"; "__defineGetter__"; "__defineSetter__";
     "__lookupGetter__"; "__lookupSetter__"].

(** The sub-windows whose bounds a [Date] holds.  Line 974 writes both
    bounds to the log with [toISOString], outside the [try] of the
    loop; for a time beyond 8.64e15 milliseconds that is a RangeError. *)
Definition datable (c : Chunk) : bool :=
  (Z.abs (startDate c * 1000) <=? 8640000000000000)%Z
  && (Z.abs (endDate c * 1000) <=? 8640000000000000)%Z.

(** The time ranges of the parameters that the code cuts into
    sub-windows or has no need to cut: no range at all (a bound is
    missing, zero, null or empty, and time slicing is never tried), or
    two numbers that a date holds, the range from the first to the
    second one empty or at least 4 seconds long. *)
Definition Cuttable (params : list (string * json)) : Prop :=
  truthy_opt (assoc "startDate" params) && truthy_opt (assoc "endDate" params)
  = false
  \/ exists s e,
       assoc "startDate" params = Some (JNum s)
       /\ assoc "endDate" params = Some (JNum e)
       /\ datable {| startDate := s; endDate := e |} = true
       /\ (e <= s \/ 4 <= e - s)%Z.

(** *** Runs *)

(** Subtraction, for the runs in which only numbers are subtracted. *)
Definition difference (a b : json) : json :=
  match a, b with
  | JNum x, JNum y => JNum (x - y)
  | _, _ => JNull
  end.

End Terms.


(* ===================================================================== *)
(** ** Facts about JavaScript values *)
(* ===================================================================== *)

Module JSFacts.
Import JS Vocabulary.

Lemma assoc_In k props v : assoc k props = Some v -> In (k, v) props.
Proof.
  induction props as [|[k' v'] rest IH]; simpl; [discriminate|].
  destruct (k' =? k) eqn:E.
  - apply String.eqb_eq in E. intros [= <-]. subst. now left.
  - intros H. right. auto.
Qed.

Lemma assoc_None k props :
  (forall v, ~ In (k, v) props) -> assoc k props = None.
Proof.
  intros H. destruct (assoc k props) eqn:E; [|reflexivity].
  apply assoc_In in E. now apply H in E.
Qed.

Lemma assoc_app_None k l1 l2 :
  assoc k l1 = None -> assoc k (l1 ++ l2) = assoc k l2.
Proof.
  induction l1 as [|[k' v'] rest IH]; simpl; [reflexivity|].
  destruct (k' =? k); [discriminate|auto].
Qed.

Lemma sameValueZero_sym a b : sameValueZero a b = sameValueZero b a.
Proof.
  destruct a, b; simpl; try reflexivity.
  - now destruct b, b0.
  - apply Z.eqb_sym.
  - apply String.eqb_sym.
Qed.

Lemma sameValueZero_trans a b c :
  sameValueZero a b = true -> sameValueZero b c = true ->
  sameValueZero a c = true.
Proof.
  destruct a, b; simpl; try discriminate; destruct c; simpl;
    try discriminate; auto.
  - intros H1 H2. apply Bool.eqb_prop in H1, H2. subst.
    apply Bool.eqb_reflx.
  - intros H1 H2. apply Z.eqb_eq in H1, H2. subst. apply Z.eqb_refl.
  - intros H1 H2. apply String.eqb_eq in H1, H2. subst.
    apply String.eqb_refl.
Qed.

Lemma sameValueZero_refl v : primitive v = true -> sameValueZero v v = true.
Proof.
  destruct v; simpl; try discriminate; intros _; auto.
  - apply Bool.eqb_reflx.
  - apply Z.eqb_refl.
  - apply String.eqb_refl.
Qed.

Lemma sameValueZero_primitive a b :
  sameValueZero a b = true -> primitive a = true /\ primitive b = true.
Proof. destruct a, b; simpl; try discriminate; auto. Qed.

Lemma sameValueZero_eq a b : sameValueZero a b = true -> a = b.
Proof.
  destruct a, b; simpl; try discriminate; auto.
  - intros H. apply Bool.eqb_prop in H. now subst.
  - intros H. apply Z.eqb_eq in H. now subst.
  - intros H. apply String.eqb_eq in H. now subst.
Qed.

Lemma Set_has_app s1 s2 v : Set_has (s1 ++ s2) v = Set_has s1 v || Set_has s2 v.
Proof. unfold Set_has. apply existsb_app. Qed.

Lemma Set_has_add_mono s v k :
  Set_has s k = true -> Set_has (Set_add s v) k = true.
Proof.
  intros H. unfold Set_add. destruct (Set_has s v); [assumption|].
  rewrite Set_has_app, H. reflexivity.
Qed.

Lemma Set_has_add_new s v k :
  Set_has s v = false ->
  Set_has (Set_add s v) k = Set_has s k || sameValueZero k v.
Proof.
  intros H. unfold Set_add. rewrite H, Set_has_app. simpl.
  now rewrite orb_false_r.
Qed.

Lemma Set_add_new s v : Set_has s v = false -> Set_add s v = s ++ [v].
Proof. intros H. unfold Set_add. now rewrite H. Qed.

(** *** Numerals and array indices *)

Lemma string_of_N_inj a b : string_of_N a = string_of_N b -> a = b.
Proof.
  unfold string_of_N. intros H.
  apply (f_equal NilEmpty.uint_of_string) in H.
  rewrite !NilEmpty.usu in H. injection H as H.
  now apply DecimalN.Unsigned.to_uint_inj.
Qed.

Lemma arrayIndex_string_of_N n :
  (n < 4294967295)%N -> arrayIndex (string_of_N n) = Some n.
Proof.
  intros H. unfold arrayIndex, string_of_N at 1.
  rewrite NilEmpty.usu, DecimalN.Unsigned.of_to.
  rewrite String.eqb_refl. apply N.ltb_lt in H. now rewrite H.
Qed.

Lemma digits_string_of_uint d :
  forallb isDigit (list_ascii_of_string (NilEmpty.string_of_uint d)) = true.
Proof. induction d; simpl; auto. Qed.

Lemma isDigits_string_of_N n : isDigits (string_of_N n) = true.
Proof.
  unfold isDigits, string_of_N. rewrite digits_string_of_uint, andb_true_r.
  destruct (N.to_uint n) eqn:E; try reflexivity.
  exfalso. pose proof (DecimalN.Unsigned.of_to n) as H. rewrite E in H.
  simpl in H. subst n. discriminate E.
Qed.

Lemma arrayIndex_isDigits s n : arrayIndex s = Some n -> isDigits s = true.
Proof.
  unfold arrayIndex. destruct (NilEmpty.uint_of_string s) as [d|]; [|discriminate].
  destruct (string_of_N (N.of_uint d) =? s) eqn:E; [|discriminate].
  apply String.eqb_eq in E. intros _. rewrite <- E.
  apply isDigits_string_of_N.
Qed.

(** *** The enumeration order of a pseudo-array *)

Lemma indexedProps_indexFrom items : forall i,
  (i + N.of_nat (List.length items) <= 4294967295)%N ->
  indexedProps (indexFrom i items) = indexedFrom i items.
Proof.
  induction items as [|x rest IH]; intros i H; [reflexivity|].
  simpl List.length in H. unfold indexedProps in *. simpl.
  rewrite arrayIndex_string_of_N by lia. simpl. f_equal.
  apply IH. lia.
Qed.

Lemma namedProps_indexFrom items : forall i,
  (i + N.of_nat (List.length items) <= 4294967295)%N ->
  namedProps (indexFrom i items) = [].
Proof.
  induction items as [|x rest IH]; intros i H; [reflexivity|].
  simpl List.length in H. unfold namedProps in *. simpl.
  rewrite arrayIndex_string_of_N by lia. apply IH. lia.
Qed.

Lemma map_snd_indexedFrom items : forall i,
  map snd (indexedFrom i items) = indexFrom i items.
Proof. induction items; intros; simpl; f_equal; auto. Qed.

Lemma map_snd_indexFrom items : forall i, map snd (indexFrom i items) = items.
Proof. induction items; intros; simpl; f_equal; auto. Qed.

Lemma indexedFrom_ge items : forall i e,
  In e (indexedFrom i items) -> (i <= fst e)%N.
Proof.
  induction items as [|x rest IH]; intros i e H; [contradiction|].
  destruct H as [<-|H]; simpl; [lia|]. apply IH in H. lia.
Qed.

Lemma indexedFrom_sorted items : forall i,
  StronglySorted keyLt (indexedFrom i items).
Proof.
  induction items as [|x rest IH]; intros i; simpl; constructor; auto.
  apply Forall_forall. intros e H. apply indexedFrom_ge in H.
  unfold keyLt. simpl. lia.
Qed.

Lemma insertIndexed_perm e l : Permutation (insertIndexed e l) (e :: l).
Proof.
  induction l as [|x rest IH]; simpl; [reflexivity|].
  destruct (fst e <=? fst x)%N; [reflexivity|].
  rewrite IH. apply perm_swap.
Qed.

Lemma sortIndexed_perm l : Permutation (sortIndexed l) l.
Proof.
  induction l as [|x rest IH]; simpl; [reflexivity|].
  rewrite insertIndexed_perm. now constructor.
Qed.

Lemma insertIndexed_sorted e l :
  StronglySorted keyLt l ->
  (forall x, In x l -> fst x <> fst e) ->
  StronglySorted keyLt (insertIndexed e l).
Proof.
  induction 1 as [|x rest Hs IH Hx]; intros Hd; simpl.
  - repeat constructor.
  - destruct (fst e <=? fst x)%N eqn:E.
    + apply N.leb_le in E.
      assert (fst x <> fst e) by (apply Hd; now left).
      constructor; [now constructor|].
      rewrite Forall_forall in *. intros y [<-|Hy]; unfold keyLt in *;
        [lia|]. specialize (Hx y Hy). lia.
    + apply N.leb_gt in E. constructor.
      * apply IH. intros y Hy. apply Hd. now right.
      * apply Forall_forall. intros y Hy.
        apply (Permutation_in _ (insertIndexed_perm e rest)) in Hy.
        destruct Hy as [<-|Hy]; [exact E|].
        rewrite Forall_forall in Hx. now apply Hx.
Qed.

Lemma sortIndexed_sorted l :
  NoDup (map fst l) -> StronglySorted keyLt (sortIndexed l).
Proof.
  induction l as [|x rest IH]; simpl; intros H; [constructor|].
  inversion H as [|? ? Hn Hr]; subst. apply insertIndexed_sorted; auto.
  intros y Hy Heq. apply Hn.
  apply (Permutation_in _ (sortIndexed_perm rest)) in Hy.
  rewrite <- Heq. now apply in_map.
Qed.

Lemma sorted_perm_unique (l1 : list indexed) : forall l2,
  StronglySorted keyLt l1 -> StronglySorted keyLt l2 ->
  Permutation l1 l2 -> l1 = l2.
Proof.
  induction l1 as [|a t1 IH]; intros l2 H1 H2 P.
  - now apply Permutation_nil in P.
  - destruct l2 as [|b t2];
      [apply Permutation_sym, Permutation_nil in P; discriminate|].
    inversion H1 as [|? ? Hs1 Ha]; inversion H2 as [|? ? Hs2 Hb]; subst.
    rewrite Forall_forall in Ha, Hb.
    assert (a = b) as ->.
    { assert (In a (b :: t2)) as [->|Ia]
        by (apply (Permutation_in _ P); now left); [reflexivity|].
      assert (In b (a :: t1)) as [->|Ib]
        by (apply (Permutation_in _ (Permutation_sym P)); now left);
        [reflexivity|].
      specialize (Ha b Ib). specialize (Hb a Ia). unfold keyLt in *. lia. }
    f_equal. apply IH; auto. now apply Permutation_cons_inv in P.
Qed.

Lemma indexedFrom_keys_NoDup items : forall i,
  NoDup (map fst (indexedFrom i items)).
Proof.
  induction items as [|x rest IH]; intros i; simpl; constructor; auto.
  intros H. apply in_map_iff in H. destruct H as [e [He Hi]].
  apply indexedFrom_ge in Hi. lia.
Qed.

Lemma Permutation_indexedProps l1 l2 :
  Permutation l1 l2 -> Permutation (indexedProps l1) (indexedProps l2).
Proof.
  unfold indexedProps. induction 1; simpl.
  - reflexivity.
  - now apply Permutation_app_head.
  - rewrite !app_assoc. apply Permutation_app_tail, Permutation_app_comm.
  - etransitivity; eauto.
Qed.

Lemma namedProps_nil l :
  (forall kv, In kv l -> arrayIndex (fst kv) <> None) -> namedProps l = [].
Proof.
  unfold namedProps. induction l as [|x rest IH]; intros H; [reflexivity|].
  simpl. destruct (arrayIndex (fst x)) eqn:E.
  - apply IH. intros kv Hk. apply H. now right.
  - exfalso. apply (H x); [now left|assumption].
Qed.

Lemma indexFrom_arrayIndex items : forall i kv,
  (i + N.of_nat (List.length items) <= 4294967295)%N ->
  In kv (indexFrom i items) -> arrayIndex (fst kv) <> None.
Proof.
  induction items as [|x rest IH]; intros i kv H Hi; [contradiction|].
  simpl List.length in H. destruct Hi as [<-|Hi].
  - simpl. rewrite arrayIndex_string_of_N by lia. discriminate.
  - apply (IH (N.succ i)); [lia|assumption].
Qed.

(** Whatever the order in which the properties ["0"], ..., ["n-1"] were
    created, they are enumerated in ascending numeric order. *)
Lemma ownEntries_pseudo_array props items :
  Permutation props (indexFrom 0 items) ->
  (N.of_nat (List.length items) <= 4294967295)%N ->
  ownEntries props = indexFrom 0 items.
Proof.
  intros P H. unfold ownEntries.
  rewrite (namedProps_nil props).
  2:{ intros kv Hk. apply (indexFrom_arrayIndex items 0); [lia|].
      now apply (Permutation_in _ P). }
  rewrite app_nil_r, <- map_snd_indexedFrom. f_equal.
  pose proof (Permutation_indexedProps _ _ P) as P'.
  rewrite indexedProps_indexFrom in P' by lia.
  apply sorted_perm_unique.
  - apply sortIndexed_sorted.
    apply (Permutation_NoDup (l := map fst (indexedFrom 0 items))).
    + apply Permutation_map. now symmetry.
    + apply indexedFrom_keys_NoDup.
  - apply indexedFrom_sorted.
  - rewrite sortIndexed_perm. exact P'.
Qed.

(** *** Enumeration, assignment and lookup *)

Lemma ownEntries_perm props : Permutation (ownEntries props) props.
Proof.
  unfold ownEntries.
  rewrite (Permutation_map snd (sortIndexed_perm (indexedProps props))).
  unfold indexedProps, namedProps.
  induction props as [|x rest IH]; simpl; [reflexivity|].
  destruct (arrayIndex (fst x)); simpl.
  - now constructor.
  - rewrite <- Permutation_middle. now constructor.
Qed.

Lemma ownEntries_length props :
  List.length (ownEntries props) = List.length props.
Proof. apply Permutation_length, ownEntries_perm. Qed.

Lemma assoc_setProp k k' v props :
  assoc k (setProp k' v props) = if k' =? k then Some v else assoc k props.
Proof.
  induction props as [|[k0 v0] rest IH]; simpl.
  - destruct (k' =? k); reflexivity.
  - destruct (k0 =? k') eqn:E0; simpl.
    + apply String.eqb_eq in E0. subst k0.
      destruct (k' =? k); reflexivity.
    + destruct (k0 =? k) eqn:E1.
      * apply String.eqb_eq in E1. subst k0.
        rewrite String.eqb_sym in E0. now rewrite E0.
      * exact IH.
Qed.

Lemma assoc_setProps_other k kvs : forall base,
  (forall v, ~ In (k, v) kvs) ->
  assoc k (setProps kvs base) = assoc k base.
Proof.
  unfold setProps.
  induction kvs as [|[k0 v0] rest IH]; intros base H; simpl; [reflexivity|].
  rewrite IH by (intros v Hv; apply (H v); now right).
  rewrite assoc_setProp. destruct (k0 =? k) eqn:E; [|reflexivity].
  apply String.eqb_eq in E. subst. exfalso. apply (H v0). now left.
Qed.

Lemma assoc_setProps_In k x kvs : forall base,
  NoDup (map fst kvs) -> In (k, x) kvs ->
  assoc k (setProps kvs base) = Some x.
Proof.
  induction kvs as [|[k0 v0] rest IH]; intros base N H; [contradiction|].
  simpl in N. inversion N as [|? ? Hn Hr]; subst.
  destruct H as [[= -> ->]|H].
  - change (setProps ((k, x) :: rest) base)
      with (setProps rest (setProp k x base)).
    rewrite assoc_setProps_other.
    + rewrite assoc_setProp. now rewrite String.eqb_refl.
    + intros v Hv. apply Hn. change k with (fst (k, v)). now apply in_map.
  - change (setProps ((k0, v0) :: rest) base)
      with (setProps rest (setProp k0 v0 base)).
    now apply IH.
Qed.

Lemma ownEntries_keys_NoDup props :
  NoDup (map fst props) -> NoDup (map fst (ownEntries props)).
Proof.
  intros H. eapply Permutation_NoDup; [|exact H].
  apply Permutation_map. symmetry. apply ownEntries_perm.
Qed.

(** The fields of [{ key: k, ...v }] for an object [v]. *)
Lemma literalSpread_key k vp :
  assoc "key" vp = None ->
  assoc "key" (literalSpread [("key", JStr k)] (JObj vp)) = Some (JStr k).
Proof.
  intros H. unfold literalSpread. simpl entries.
  rewrite assoc_setProps_other; [reflexivity|].
  intros v Hv. apply (Permutation_in _ (ownEntries_perm vp)) in Hv.
  destruct (assoc "key" vp) eqn:E; [discriminate|].
  clear H. induction vp as [|[k0 v0] rest IH]; [contradiction|].
  simpl in E. destruct (k0 =? "key") eqn:E0; [discriminate|].
  destruct Hv as [[= -> ->]|Hv]; [discriminate|]. now apply IH.
Qed.

Lemma assoc_In_NoDup k x props :
  NoDup (map fst props) -> In (k, x) props -> assoc k props = Some x.
Proof.
  induction props as [|[k0 v0] rest IH]; intros N H; [contradiction|].
  simpl in N. inversion N as [|? ? Hn Hr]; subst. simpl.
  destruct H as [[= -> ->]|H].
  - now rewrite String.eqb_refl.
  - destruct (k0 =? k) eqn:E; [|now apply IH].
    apply String.eqb_eq in E. subst. exfalso. apply Hn.
    change k with (fst (k, x)). now apply in_map.
Qed.

Lemma literalSpread_field fields f x vp :
  NoDup (map fst vp) -> assoc f vp = Some x ->
  assoc f (literalSpread fields (JObj vp)) = Some x.
Proof.
  intros N H. unfold literalSpread. simpl entries.
  apply assoc_setProps_In.
  - now apply ownEntries_keys_NoDup.
  - apply (Permutation_in _ (Permutation_sym (ownEntries_perm vp))).
    now apply assoc_In.
Qed.

End JSFacts.

(* ===================================================================== *)
(** ** Computations that always end *)
(* ===================================================================== *)

Module Total.
Import JS Net Net.Notations ReportFetcher Vocabulary.

Lemma total_ret {L A} (a : A) : total (@ret L A a).
Proof. intros l w. discriminate. Qed.

Lemma total_raise {L A} (e : Error) : total (@raise L A e).
Proof. intros l w. discriminate. Qed.

Lemma total_bind {L A B} (m : M L A) (k : A -> M L B) :
  total m -> (forall a, total (k a)) -> total (bind m k).
Proof.
  intros Hm Hk l w. unfold bind. specialize (Hm l w).
  destruct (m l w) as [[[a|e|] l'] w']; simpl in *;
    [apply Hk|discriminate|congruence].
Qed.

Lemma total_tryCatch {L A} (m : M L A) (h : Error -> M L A) :
  total m -> (forall e, total (h e)) -> total (tryCatch m h).
Proof.
  intros Hm Hh l w. unfold tryCatch. specialize (Hm l w).
  destruct (m l w) as [[[a|e|] l'] w']; simpl in *;
    [discriminate|apply Hh|congruence].
Qed.

Lemma total_getL {L} : total (@getL L).
Proof. intros l w. discriminate. Qed.

Lemma total_putL {L} (l0 : L) : total (putL l0).
Proof. intros l w. discriminate. Qed.

Lemma total_modifyL {L} (f : L -> L) : total (modifyL f).
Proof. intros l w. discriminate. Qed.

Lemma total_sleep {L} ms : total (@sleep L ms).
Proof. intros l w. discriminate. Qed.

Lemma total_liftE {L A} (r : Error + A) : total (@liftE L A r).
Proof. destruct r; intros l w; discriminate. Qed.

Lemma total_getPortalToken {L} env tenant : total (@getPortalToken L env tenant).
Proof.
  intros l w. unfold getPortalToken.
  destruct (portalToken env w tenant); discriminate.
Qed.

Lemma total_axios_get {L} env rq : total (@axios_get L env rq).
Proof.
  intros l w. unfold axios_get. destruct (portal env w rq); discriminate.
Qed.

Lemma total_call {L L' A} (m : M L' A) (init : L') :
  total m -> total (@call L L' A m init).
Proof.
  intros Hm l w. unfold call. specialize (Hm init w).
  destruct (m init w) as [[r l'] w']. exact Hm.
Qed.

Lemma total_if {L A} (b : bool) (m1 m2 : M L A) :
  total m1 -> total m2 -> total (if b then m1 else m2).
Proof. destruct b; auto. Qed.

Lemma total_retrying {L A} (body : M L A) n : forall attempt delay,
  total body -> total (retrying n attempt delay body).
Proof.
  induction n as [|n IH]; intros attempt delay Hb; simpl.
  - apply total_ret.
  - apply total_tryCatch.
    + apply total_bind; [assumption|intros; apply total_ret].
    + intros e. apply total_if; [apply total_raise|].
      apply total_bind; [apply total_sleep|auto].
Qed.

Create HintDb total discriminated.
#[export] Hint Resolve total_ret total_raise total_getL total_putL
  total_modifyL total_sleep total_liftE total_getPortalToken
  total_axios_get total_retrying : total.
#[export] Hint Extern 2 (total (bind _ _)) =>
  apply total_bind; [|intros] : total.
#[export] Hint Extern 2 (total (tryCatch _ _)) =>
  apply total_tryCatch; [|intros] : total.
#[export] Hint Extern 2 (total (call _ _)) => apply total_call : total.
#[export] Hint Extern 3 (total (if _ then _ else _)) =>
  apply total_if : total.
#[export] Hint Extern 3 (total (match ?x with _ => _ end)) =>
  destruct x : total.

Lemma total_singlePageAttempt env report tenant path params limit :
  total (singlePageAttempt env report tenant path params limit).
Proof. unfold singlePageAttempt. auto 10 with total. Qed.

Lemma total_fetchReportSinglePage env report tenant params limit :
  total (fetchReportSinglePage env report tenant params limit).
Proof.
  unfold fetchReportSinglePage.
  destruct (ENDPOINTS report); auto using total_singlePageAttempt with total.
Qed.

#[export] Hint Resolve total_fetchReportSinglePage : total.

Lemma total_dedupPage pageData : forall newRecords,
  total (dedupPage pageData newRecords).
Proof.
  induction pageData as [|record rest IH]; intros n; simpl;
    auto 10 with total.
Qed.

Lemma total_mergeTimeSlices records : forall added,
  total (mergeTimeSlices records added).
Proof.
  induction records as [|record rest IH]; intros n; simpl;
    auto 10 with total.
Qed.

#[export] Hint Resolve total_dedupPage total_mergeTimeSlices : total.

Lemma total_afterPage totalLimit pageLength newRecords :
  total (afterPage totalLimit pageLength newRecords).
Proof. unfold afterPage. auto 20 with total. Qed.

#[export] Hint Resolve total_afterPage : total.

Lemma total_offsetPage env report tenant params totalLimit :
  total (offsetPage env report tenant params totalLimit).
Proof. unfold offsetPage. auto 20 with total. Qed.

Lemma total_sliceLoop env report tenant params remainingLimit chunks :
  total (sliceLoop env report tenant params remainingLimit chunks).
Proof.
  induction chunks as [|chunk rest IH]; simpl; auto 20 with total.
Qed.

End Total.

(* ===================================================================== *)
(** ** Properties of the locals that a computation keeps *)
(* ===================================================================== *)

Module Keeps.
Import JS Net Net.Notations ReportFetcher Vocabulary.

Section Rules.

Context {L : Type}.
Variable I : L -> Prop.

Lemma preserves_ret {A} (a : A) : preserves I (ret a).
Proof. intros l w r l' w' H [= <- <- <-]. exact H. Qed.

Lemma preserves_raise {A} (e : Error) : preserves I (@raise L A e).
Proof. intros l w r l' w' H [= <- <- <-]. exact H. Qed.

Lemma preserves_outOfFuel {A} : preserves I (@outOfFuel L A).
Proof. intros l w r l' w' H [= <- <- <-]. exact H. Qed.

Lemma preserves_getL : preserves I getL.
Proof. intros l w r l' w' H [= <- <- <-]. exact H. Qed.

Lemma preserves_sleep ms : preserves I (sleep ms).
Proof. intros l w r l' w' H [= <- <- <-]. exact H. Qed.

Lemma preserves_liftE {A} (x : Error + A) : preserves I (liftE x).
Proof. destruct x; intros l w r l' w' H [= <- <- <-]; exact H. Qed.

Lemma preserves_modifyL (f : L -> L) :
  (forall l, I l -> I (f l)) -> preserves I (modifyL f).
Proof. intros Hf l w r l' w' H [= <- <- <-]. auto. Qed.

Lemma preserves_call {L' A} (m : M L' A) (init : L') :
  preserves I (call m init).
Proof.
  intros l w r l' w' H. unfold call.
  destruct (m init w) as [[r1 l1] w1]. intros [= <- <- <-]. exact H.
Qed.

Lemma preserves_bind {A B} (m : M L A) (k : A -> M L B) :
  preserves I m -> (forall a, preserves I (k a)) -> preserves I (bind m k).
Proof.
  intros Hm Hk l w r l' w' H. unfold bind.
  destruct (m l w) as [[r1 l1] w1] eqn:E.
  specialize (Hm _ _ _ _ _ H E).
  destruct r1; [apply Hk; assumption|intros [= <- <- <-]; assumption..].
Qed.

Lemma preserves_tryCatch {A} (m : M L A) (h : Error -> M L A) :
  preserves I m -> (forall e, preserves I (h e)) ->
  preserves I (tryCatch m h).
Proof.
  intros Hm Hh l w r l' w' H. unfold tryCatch.
  destruct (m l w) as [[r1 l1] w1] eqn:E.
  specialize (Hm _ _ _ _ _ H E).
  destruct r1; [intros [= <- <- <-]; assumption|apply Hh; assumption
               |intros [= <- <- <-]; assumption].
Qed.

Lemma preserves_if {A} (b : bool) (m1 m2 : M L A) :
  preserves I m1 -> preserves I m2 -> preserves I (if b then m1 else m2).
Proof. destruct b; auto. Qed.

End Rules.

Create HintDb keeps discriminated.
#[export] Hint Resolve preserves_ret preserves_raise preserves_outOfFuel
  preserves_getL
  preserves_sleep preserves_liftE preserves_call : keeps.
#[export] Hint Extern 2 (preserves _ (bind _ _)) =>
  apply preserves_bind; [|intros] : keeps.
#[export] Hint Extern 2 (preserves _ (tryCatch _ _)) =>
  apply preserves_tryCatch; [|intros] : keeps.
#[export] Hint Extern 3 (preserves _ (if _ then _ else _)) =>
  apply preserves_if : keeps.
#[export] Hint Extern 3 (preserves _ (match ?x with _ => _ end)) =>
  destruct x : keeps.
#[export] Hint Extern 2 (preserves _ (modifyL _)) =>
  apply preserves_modifyL; intros ? ?; simpl; assumption : keeps.

End Keeps.


(* ===================================================================== *)
(** ** The payload shapes *)
(* ===================================================================== *)

Module Normalizer.
Import JS Net ReportFetcher Vocabulary JSFacts.

Lemma pseudo_array_keys props items :
  Permutation props (indexFrom 0 items) ->
  forall k v, In (k, v) props -> isDigits k = true.
Proof.
  intros P k v H. apply (Permutation_in _ P) in H. clear P.
  revert H. generalize 0%N. induction items as [|x rest IH]; intros i H;
    [contradiction|].
  destruct H as [H|H].
  - injection H as <- _. apply isDigits_string_of_N.
  - exact (IH _ H).
Qed.

Lemma pseudo_array_no_field props items name :
  isDigits name = false ->
  Permutation props (indexFrom 0 items) ->
  assoc name props = None.
Proof.
  intros D P. apply assoc_None. intros v H.
  apply (pseudo_array_keys _ _ P) in H. congruence.
Qed.

Lemma allDigitKeys_indexFrom items : forall i,
  forallb isDigits (map fst (indexFrom i items)) = true.
Proof.
  induction items as [|x rest IH]; intros i; simpl; [reflexivity|].
  now rewrite isDigits_string_of_N, IH.
Qed.

(** The two normalizers agree on a pseudo-array whatever the creation
    order of its properties. *)
Lemma pseudo_array_values props items :
  Permutation props (indexFrom 0 items) ->
  (N.of_nat (List.length items) <= 4294967295)%N ->
  payloadChunk (JObj props) = inr items
  /\ (items <> [] -> rawDataOf (JObj props) = inr items).
Proof.
  intros P H.
  unfold payloadChunk, rawDataOf, prop.
  rewrite (pseudo_array_no_field props items "data" eq_refl P).
  rewrite (pseudo_array_no_field props items "rows" eq_refl P).
  unfold allDigitKeys, Object_keys, Object_values, Object_entries, entries.
  rewrite (ownEntries_pseudo_array props items P H).
  rewrite allDigitKeys_indexFrom, map_snd_indexFrom, andb_true_r.
  destruct items as [|x rest]; simpl; auto. split; congruence.
Qed.

End Normalizer.

(** C5, as the code has it.  Both normalizers try the shapes in this
    order, the first that fits deciding: the [data] array of a mapping;
    a body that is an array; the [rows] array of a mapping; a mapping
    with at least one key whose keys are all strings of decimal digits,
    which yields its values in enumeration order, so that a pseudo-array
    with the keys "0", ..., "n-1" yields its values in ascending key
    order whatever the order the keys came in.  Any other mapping yields
    in [fetchReport] one record per key/value pair, made of the fields of
    the value and of the field [key] holding the key unless the value
    has a [key] of its own, and in [fetchReportSinglePage] the mapping
    itself as the only record. *)
Theorem payload_shapes_first_match :
  (forall props items,
     JS.assoc "data" props = Some (JS.JArr items) ->
     ReportFetcher.payloadChunk (JS.JObj props) = inr items
     /\ ReportFetcher.rawDataOf (JS.JObj props) = inr items)
  /\ (forall items,
        ReportFetcher.payloadChunk (JS.JArr items) = inr items
        /\ ReportFetcher.rawDataOf (JS.JArr items) = inr items)
  /\ (forall props items,
        JS.isArray (JS.assoc "data" props) = false ->
        JS.assoc "rows" props = Some (JS.JArr items) ->
        ReportFetcher.payloadChunk (JS.JObj props) = inr items
        /\ ReportFetcher.rawDataOf (JS.JObj props) = inr items)
  /\ (forall props,
        JS.isArray (JS.assoc "data" props) = false ->
        JS.isArray (JS.assoc "rows" props) = false ->
        ReportFetcher.allDigitKeys (JS.JObj props) = true ->
        ReportFetcher.payloadChunk (JS.JObj props)
          = inr (JS.Object_values (JS.JObj props))
        /\ ReportFetcher.rawDataOf (JS.JObj props)
          = inr (JS.Object_values (JS.JObj props)))
  /\ (forall props items,
        Permutation props (JS.indexFrom 0 items) ->
        (N.of_nat (List.length items) <= 4294967295)%N ->
        ReportFetcher.payloadChunk (JS.JObj props) = inr items
        /\ (items <> [] ->
            ReportFetcher.rawDataOf (JS.JObj props) = inr items))
  /\ (forall props,
        JS.isArray (JS.assoc "data" props) = false ->
        JS.isArray (JS.assoc "rows" props) = false ->
        ReportFetcher.allDigitKeys (JS.JObj props) = false ->
        (exists records,
            ReportFetcher.payloadChunk (JS.JObj props) = inr records
            /\ List.length records = List.length props
            /\ forall i record,
                 nth_error records i = Some record ->
                 exists k v,
                   nth_error (JS.Object_entries (JS.JObj props)) i
                     = Some (k, v)
                   /\ record
                      = JS.JObj (JS.literalSpread [("key", JS.JStr k)] v)
                   /\ forall fields,
                        v = JS.JObj fields ->
                        NoDup (map fst fields) ->
                        (JS.assoc "key" fields = None ->
                         JS.prop record "key" = Some (JS.JStr k))
                        /\ forall f x,
                             JS.assoc f fields = Some x ->
                             JS.prop record f = Some x)
        /\ ReportFetcher.rawDataOf (JS.JObj props) = inr [JS.JObj props]).
Proof.
  repeat split.
  - unfold ReportFetcher.payloadChunk, JS.prop. now rewrite H.
  - unfold ReportFetcher.rawDataOf, JS.prop. now rewrite H.
  - unfold ReportFetcher.payloadChunk, JS.prop in *.
    rewrite H0. destruct (JS.assoc "data" props) as [[]|]; try reflexivity.
    discriminate.
  - unfold ReportFetcher.rawDataOf, JS.prop in *.
    rewrite H0. destruct (JS.assoc "data" props) as [[]|]; try reflexivity.
    discriminate.
  - unfold ReportFetcher.payloadChunk, JS.prop in *. rewrite H1.
    destruct (JS.assoc "data" props) as [[]|];
      destruct (JS.assoc "rows" props) as [[]|];
      try reflexivity; discriminate.
  - unfold ReportFetcher.rawDataOf, JS.prop in *. rewrite H1.
    destruct (JS.assoc "data" props) as [[]|];
      destruct (JS.assoc "rows" props) as [[]|];
      try reflexivity; discriminate.
  - now apply Normalizer.pseudo_array_values.
  - now apply Normalizer.pseudo_array_values.
  - eexists. split; [|split].
    + unfold ReportFetcher.payloadChunk, JS.prop in *. rewrite H1.
      destruct (JS.assoc "data" props) as [[]|];
        destruct (JS.assoc "rows" props) as [[]|];
        try reflexivity; discriminate.
    + rewrite length_map. apply JSFacts.ownEntries_length.
    + intros i record Hi. rewrite nth_error_map in Hi.
      destruct (nth_error (JS.Object_entries (JS.JObj props)) i)
        as [[k v]|]; [|discriminate].
      injection Hi as <-. exists k, v. repeat split.
      * intros Hk. subst v. now apply JSFacts.literalSpread_key.
      * intros f x Hf. subst v. now apply JSFacts.literalSpread_field.
  - unfold ReportFetcher.rawDataOf, JS.prop in *. rewrite H1.
    destruct (JS.assoc "data" props) as [[]|];
      destruct (JS.assoc "rows" props) as [[]|];
      try reflexivity; discriminate.
Qed.

Lemma payload_shapes_first_match_witness :
  ReportFetcher.payloadChunk
    (JS.JObj [("1", JS.JStr "b"); ("0", JS.JStr "a")])
  = inr [JS.JStr "a"; JS.JStr "b"].
Proof.
  refine (proj1 (proj1 (proj2 (proj2 (proj2 (proj2
            payload_shapes_first_match))))
            [("1", JS.JStr "b"); ("0", JS.JStr "a")]
            [JS.JStr "a"; JS.JStr "b"] _ _)).
  - simpl. apply perm_swap.
  - simpl. discriminate.
Defined.

(** C5 as stated fails: the mapping [{"5": {"a": 1}}] has keys other than
    "0", ..., "n-1", yet [fetchReport] yields its value without the key;
    and [fetchReportSinglePage] turns the mapping [{"x": {"a": 1}}] into
    one record that is the mapping, not a record per key with the key
    injected. *)
Lemma payload_other_mapping_without_key :
  JS.Object_keys (JS.JObj [("5", JS.JObj [("a", JS.JNum 1)])]) = ["5"]
  /\ ReportFetcher.payloadChunk
       (JS.JObj [("5", JS.JObj [("a", JS.JNum 1)])])
     = inr [JS.JObj [("a", JS.JNum 1)]]
  /\ ReportFetcher.payloadChunk
       (JS.JObj [("5", JS.JObj [("a", JS.JNum 1)])])
     <> inr [JS.JObj [("key", JS.JStr "5"); ("a", JS.JNum 1)]]
  /\ ReportFetcher.rawDataOf
       (JS.JObj [("x", JS.JObj [("a", JS.JNum 1)])])
     = inr [JS.JObj [("x", JS.JObj [("a", JS.JNum 1)])]]
  /\ ReportFetcher.rawDataOf
       (JS.JObj [("x", JS.JObj [("a", JS.JNum 1)])])
     <> inr [JS.JObj [("key", JS.JStr "x"); ("a", JS.JNum 1)]].
Proof. repeat split; try reflexivity; discriminate. Qed.

(* ===================================================================== *)
(** ** The sub-windows of the time-slicing fallback *)
(* ===================================================================== *)

Module TimeSlicing.
Import JS Net ReportFetcher Vocabulary.
Local Open Scope Z_scope.

Lemma chunkLoop_more_fuel fuel : forall fuel' s e d chunks,
  chunkLoop fuel s e d = Some chunks -> (fuel <= fuel')%nat ->
  chunkLoop fuel' s e d = Some chunks.
Proof.
  induction fuel as [|fuel IH]; intros fuel' s e d chunks H Hle.
  - simpl in H. destruct fuel'; simpl; destruct (s <? e); congruence.
  - destruct fuel' as [|fuel']; [lia|]. simpl in *.
    destruct (s <? e); [|assumption].
    destruct (chunkLoop fuel (s + d) e d) as [rest|] eqn:E; [|discriminate].
    rewrite (IH fuel' _ _ _ _ E) by lia. exact H.
Qed.

(** With a positive step the loop ends, and its sub-windows are chained
    from [s] up to [e]. *)
Lemma chunkLoop_chained fuel : forall s e d,
  0 < d -> e - s <= Z.of_nat fuel * d ->
  exists chunks,
    chunkLoop fuel s e d = Some chunks
    /\ chained s chunks
    /\ (s < e -> lastEnd s chunks = e)
    /\ Forall (fun c => startDate c < endDate c <= startDate c + d
                        /\ endDate c <= e) chunks
    /\ e - s <= Z.of_nat (List.length chunks) * d.
Proof.
  induction fuel as [|fuel IH]; intros s e d Hd Hf; simpl.
  - destruct (s <? e) eqn:E; [apply Z.ltb_lt in E; lia|].
    apply Z.ltb_ge in E. exists []. simpl. repeat split; auto; lia.
  - destruct (s <? e) eqn:E.
    + apply Z.ltb_lt in E.
      destruct (IH (s + d) e d Hd) as (rest & Hr & Hc & Hl & Ha & Hn); [lia|].
      rewrite Hr. simpl. eexists. split; [reflexivity|].
      assert (Hend : chained (Z.min (s + d) e) rest
                     /\ lastEnd (Z.min (s + d) e) rest = e).
      { unfold lastEnd in *.
        destruct (Z.lt_ge_cases (s + d) e) as [Hlt|Hge].
        - rewrite Z.min_l by lia. split; [assumption|now apply Hl].
        - rewrite Z.min_r by lia.
          destruct rest as [|c rest']; [split; [exact I|reflexivity]|].
          exfalso. simpl in Hc. destruct Hc as [Hs _].
          inversion Ha as [|? ? [Hc1 Hc2] _]; subst. lia. }
      destruct Hend as [Hch Hle].
      split; [simpl; auto|]. split; [intros _; exact Hle|].
      split; [constructor; [simpl; lia|exact Ha]|].
      simpl List.length. lia.
    + apply Z.ltb_ge in E. exists []. simpl. repeat split; auto; lia.
Qed.

Lemma chained_cover chunks : forall s t,
  chained s chunks ->
  Forall (fun c => startDate c < endDate c) chunks ->
  s <= t < lastEnd s chunks ->
  exists c, In c chunks /\ within c t.
Proof.
  induction chunks as [|c rest IH]; intros s t Hc Hn Ht;
    unfold lastEnd in *; simpl in *; [lia|].
  destruct Hc as [Hs Hc]. inversion Hn as [|? ? Hc0 Hn']; subst.
  destruct (Z.lt_ge_cases t (endDate c)) as [Hlt|Hge].
  - exists c. split; [now left|]. unfold within. lia.
  - destruct (IH (endDate c) t Hc Hn') as (c' & Hi & Hw); [lia|].
    exists c'. split; [now right|assumption].
Qed.

Lemma chained_later chunks : forall s c,
  chained s chunks ->
  Forall (fun c => startDate c < endDate c) chunks ->
  In c chunks -> s <= startDate c.
Proof.
  induction chunks as [|c0 rest IH]; intros s c Hc Hn Hi; [contradiction|].
  simpl in Hc. destruct Hc as [Hs Hc]. inversion Hn as [|? ? Hc0 Hn']; subst.
  destruct Hi as [->|Hi]; [lia|].
  specialize (IH _ _ Hc Hn' Hi). lia.
Qed.

Lemma chained_disjoint chunks : forall s i j c c' t,
  chained s chunks ->
  Forall (fun c => startDate c < endDate c) chunks ->
  nth_error chunks i = Some c -> nth_error chunks j = Some c' ->
  within c t -> within c' t -> i = j.
Proof.
  induction chunks as [|c0 rest IH]; intros s i j c c' t Hc Hn Hi Hj Hw Hw'.
  - destruct i; discriminate.
  - simpl in Hc. destruct Hc as [Hs Hc].
    inversion Hn as [|? ? Hc0 Hn']; subst.
    unfold within in *.
    destruct i as [|i], j as [|j]; simpl in *.
    + reflexivity.
    + injection Hi as <-. apply nth_error_In in Hj.
      pose proof (chained_later _ _ _ Hc Hn' Hj). lia.
    + injection Hj as <-. apply nth_error_In in Hi.
      pose proof (chained_later _ _ _ Hc Hn' Hi). lia.
    + f_equal. eapply IH; eauto.
Qed.

Lemma chained_adjacent chunks : forall s i c c',
  chained s chunks ->
  nth_error chunks i = Some c -> nth_error chunks (S i) = Some c' ->
  endDate c = startDate c'.
Proof.
  induction chunks as [|c0 rest IH]; intros s i c c' Hc Hi Hj.
  - destruct i; discriminate.
  - simpl in Hc. destruct Hc as [Hs Hc]. destruct i as [|i]; simpl in *.
    + injection Hi as <-. destruct rest as [|c1 rest']; [discriminate|].
      injection Hj as <-. simpl in Hc. now destruct Hc.
    + eapply IH; eauto.
Qed.

Lemma chunkLoop_stuck fuel : forall s e,
  s < e -> chunkLoop fuel s e 0 = None.
Proof.
  induction fuel as [|fuel IH]; intros s e H; simpl;
    apply Z.ltb_lt in H; rewrite H; [reflexivity|].
  rewrite Z.add_0_r, IH by (now apply Z.ltb_lt). reflexivity.
Qed.

Lemma lastEnd_last chunks : forall s,
  chunks <> [] ->
  exists c, nth_error chunks (List.length chunks - 1)%nat = Some c
            /\ lastEnd s chunks = endDate c.
Proof.
  induction chunks as [|c0 rest IH]; intros s H; [congruence|].
  destruct rest as [|c1 rest'].
  - exists c0. split; reflexivity.
  - destruct (IH (endDate c0)) as (c & Hn & Hl); [discriminate|].
    exists c. split; [|exact Hl].
    replace (List.length (c0 :: c1 :: rest') - 1)%nat
      with (S (List.length (c1 :: rest') - 1))%nat by (simpl; lia).
    exact Hn.
Qed.

(** Sub-windows cut from a range that a date holds are held by a date. *)
Lemma datable_within s e chunks :
  Terms.datable {| startDate := s; endDate := e |} = true ->
  Forall (fun c => s <= startDate c /\ startDate c < endDate c
                   /\ endDate c <= e) chunks ->
  forallb Terms.datable chunks = true.
Proof.
  intros Hd Hall. apply forallb_forall. intros c Hc.
  rewrite Forall_forall in Hall. specialize (Hall c Hc).
  unfold Terms.datable in *. cbn [startDate endDate] in Hd.
  apply andb_true_iff in Hd. destruct Hd as [H1 H2].
  apply Z.leb_le in H1, H2. apply andb_true_iff.
  split; apply Z.leb_le; lia.
Qed.

(** The range of the parameters, when both its bounds are numbers
    that a date holds, and it is empty or at least 4 seconds long, is
    cut with no more fuel than it has seconds. *)
Lemma timeChunks_cut params s e :
  assoc "startDate" params = Some (JNum s) ->
  assoc "endDate" params = Some (JNum e) ->
  Terms.datable {| startDate := s; endDate := e |} = true ->
  e <= s \/ 4 <= e - s ->
  exists chunks,
    (forall fuel, (Z.to_nat (e - s) <= fuel)%nat ->
       timeChunks fuel params = Some chunks)
    /\ forallb Terms.datable chunks = true.
Proof.
  intros Hs He Hd [Hle|Hlen].
  - exists []. split; [|reflexivity].
    intros fuel _. unfold timeChunks. rewrite Hs, He. simpl.
    destruct fuel; simpl; (destruct (s <? e) eqn:E;
      [apply Z.ltb_lt in E; lia|reflexivity]).
  - set (d := Z.min 14400 ((e - s) / 4)).
    assert (Hpos : 0 < d).
    { unfold d. apply Z.min_glb_lt; [lia|]. apply Z.div_str_pos. lia. }
    destruct (chunkLoop_chained (Z.to_nat (e - s)) s e d Hpos)
      as (chunks & Hrun & Hch & _ & Hall & _); [nia|].
    exists chunks. split.
    + intros fuel Hf. unfold timeChunks. rewrite Hs, He. simpl. fold d.
      eapply chunkLoop_more_fuel; eauto.
    + apply (datable_within s e); [exact Hd|].
      assert (Hne : Forall (fun c => startDate c < endDate c) chunks).
      { eapply Forall_impl; [|exact Hall]. simpl. intros c Hc. lia. }
      apply Forall_forall. intros c Hc.
      pose proof (chained_later _ _ _ Hch Hne Hc).
      rewrite Forall_forall in Hall. specialize (Hall c Hc). lia.
Qed.

(** A range of 1 to 3 seconds is never cut: the step is 0. *)
Lemma timeChunks_stuck params s e fuel :
  assoc "startDate" params = Some (JNum s) ->
  assoc "endDate" params = Some (JNum e) ->
  1 <= e - s <= 3 ->
  timeChunks fuel params = None.
Proof.
  intros Hs He Hr. unfold timeChunks. rewrite Hs, He. simpl.
  replace ((e - s) / 4) with 0 by (symmetry; apply Z.div_small; lia).
  rewrite Z.min_r by lia. apply chunkLoop_stuck. lia.
Qed.

End TimeSlicing.

(** C7, for the ranges the code divides.  A requested range of at least
    4 seconds, between two instants that a date holds (at most 8.64e15
    milliseconds from the epoch, where the sums of the loop are exact),
    is cut into sub-windows, at least 4 of them and none longer than 4
    hours (14400 s), each starting where the one before ended, the
    first at [startDate] and the last ending at [endDate]: every
    instant of the range lies in exactly one of them, and a date holds
    the bounds of each.  This holds in particular for a window of 16
    hours. *)
Theorem time_slices_partition :
  forall params startTime endTime,
    JS.assoc "startDate" params = Some (JS.JNum startTime) ->
    JS.assoc "endDate" params = Some (JS.JNum endTime) ->
    Terms.datable {| ReportFetcher.startDate := startTime;
                     ReportFetcher.endDate := endTime |} = true ->
    (4 <= endTime - startTime)%Z ->
    exists fuel chunks,
      (forall fuel', fuel <= fuel' ->
         ReportFetcher.timeChunks fuel' params = Some chunks)
      /\ 4 <= List.length chunks
      /\ (exists first,
            nth_error chunks 0 = Some first
            /\ ReportFetcher.startDate first = startTime)
      /\ (exists last,
            nth_error chunks (List.length chunks - 1) = Some last
            /\ ReportFetcher.endDate last = endTime)
      /\ (forall i c c',
            nth_error chunks i = Some c ->
            nth_error chunks (S i) = Some c' ->
            ReportFetcher.endDate c = ReportFetcher.startDate c')
      /\ (forall c, In c chunks ->
            (ReportFetcher.startDate c < ReportFetcher.endDate c
             <= ReportFetcher.startDate c + 14400)%Z)
      /\ (forall t, (startTime <= t < endTime)%Z <->
                    exists c, In c chunks /\ Vocabulary.within c t)
      /\ (forall i j c c' t,
            nth_error chunks i = Some c -> nth_error chunks j = Some c' ->
            Vocabulary.within c t -> Vocabulary.within c' t -> i = j)
      /\ forallb Terms.datable chunks = true.
Proof.
  intros params s e Hs He Hdat Hlen.
  set (d := Z.min 14400 ((e - s) / 4)).
  assert (Hd : (0 < d)%Z).
  { unfold d. apply Z.min_glb_lt; [lia|].
    apply Z.div_str_pos. lia. }
  assert (Hd4 : (4 * d <= e - s)%Z).
  { unfold d. pose proof (Z.mul_div_le (e - s) 4 ltac:(lia)). lia. }
  assert (Hd14 : (d <= 14400)%Z) by (unfold d; lia).
  destruct (TimeSlicing.chunkLoop_chained (Z.to_nat (e - s)) s e d Hd)
    as (chunks & Hrun & Hch & Hlast & Hall & Hcount); [nia|].
  assert (Hne : Forall (fun c => (ReportFetcher.startDate c
                                  < ReportFetcher.endDate c)%Z) chunks).
  { eapply Forall_impl; [|exact Hall]. simpl. intros c Hc. lia. }
  assert (H4 : 4 <= List.length chunks) by nia.
  exists (Z.to_nat (e - s)), chunks.
  split; [|split; [exact H4|split; [|split; [|split; [|split; [|split;
    [|split]]]]]]].
  - intros fuel' Hf. unfold ReportFetcher.timeChunks. rewrite Hs, He.
    simpl. fold d. eapply TimeSlicing.chunkLoop_more_fuel; eauto.
  - destruct chunks as [|c rest]; [simpl in H4; lia|].
    exists c. split; [reflexivity|]. simpl in Hch. now destruct Hch.
  - destruct (TimeSlicing.lastEnd_last chunks s) as (c & Hn & Hc).
    { intros ->. simpl in H4. lia. }
    exists c. split; [exact Hn|]. rewrite <- Hc. apply Hlast. lia.
  - intros i c c'. now apply TimeSlicing.chained_adjacent with (s := s).
  - intros c Hc. rewrite Forall_forall in Hall. specialize (Hall c Hc). lia.
  - intros t. split.
    + intros Ht. apply TimeSlicing.chained_cover with (s := s); auto.
      rewrite Hlast; lia.
    + intros (c & Hc & Hw).
      pose proof (TimeSlicing.chained_later _ _ _ Hch Hne Hc).
      rewrite Forall_forall in Hall. specialize (Hall c Hc).
      unfold Vocabulary.within in Hw. lia.
  - intros i j c c' t. now apply TimeSlicing.chained_disjoint with (s := s).
  - apply (TimeSlicing.datable_within s e); [exact Hdat|].
    apply Forall_forall. intros c Hc.
    pose proof (TimeSlicing.chained_later _ _ _ Hch Hne Hc).
    rewrite Forall_forall in Hall. specialize (Hall c Hc). lia.
Qed.

Lemma time_slices_partition_witness :
  exists fuel chunks,
    (forall fuel', fuel <= fuel' ->
       ReportFetcher.timeChunks fuel'
         [("startDate", JS.JNum 1000); ("endDate", JS.JNum 58600)]
       = Some chunks)
    /\ 4 <= List.length chunks.
Proof.
  destruct (time_slices_partition
              [("startDate", JS.JNum 1000); ("endDate", JS.JNum 58600)]
              1000%Z 58600%Z eq_refl eq_refl eq_refl ltac:(lia))
    as (fuel & chunks & H1 & H2 & _).
  exists fuel, chunks. split; assumption.
Defined.

(** C7 as stated fails on short ranges: over the 3 seconds from 100 to
    103 the step is 0 and the loop that cuts the range never ends, so
    no sub-window is produced; and the empty range from 100 to 100 is
    cut into no sub-window at all rather than 4. *)
Lemma time_slices_short_range :
  (forall fuel,
     ReportFetcher.timeChunks fuel
       [("startDate", JS.JNum 100); ("endDate", JS.JNum 103)] = None)
  /\ (forall fuel,
        ReportFetcher.timeChunks fuel
          [("startDate", JS.JNum 100); ("endDate", JS.JNum 100)] = Some []).
Proof.
  split; intros fuel; unfold ReportFetcher.timeChunks; simpl.
  - apply TimeSlicing.chunkLoop_stuck. lia.
  - destruct fuel; reflexivity.
Qed.

(** The sub-windows of a 16-hour window. *)
Example time_slices_sixteen_hours :
  ReportFetcher.timeChunks 5
    [("startDate", JS.JNum 1000); ("endDate", JS.JNum 58600)]
  = Some [ {| ReportFetcher.startDate := 1000;
              ReportFetcher.endDate := 15400 |};
           {| ReportFetcher.startDate := 15400;
              ReportFetcher.endDate := 29800 |};
           {| ReportFetcher.startDate := 29800;
              ReportFetcher.endDate := 44200 |};
           {| ReportFetcher.startDate := 44200;
              ReportFetcher.endDate := 58600 |} ].
Proof. reflexivity. Qed.

(* ===================================================================== *)
(** ** The cursor driver *)
(* ===================================================================== *)

Module Driver.
Import JS Net Net.Notations ReportFetcher Vocabulary JSFacts.

Lemma assoc_None_not_In k props v : assoc k props = None -> ~ In (k, v) props.
Proof.
  induction props as [|[k0 v0] rest IH]; simpl; [tauto|].
  destruct (k0 =? k) eqn:E; [discriminate|].
  intros H Hi. simpl in Hi. destruct Hi as [Hi|Hi]; [|now apply IH].
  injection Hi as -> _. now rewrite String.eqb_refl in E.
Qed.

Lemma fieldsParam_keys report k v :
  In (k, v) (fieldsParam report) -> k = "fields".
Proof.
  unfold fieldsParam.
  destruct (report =? "cdrs"), (report =? "queueOutboundCalls"),
    (report =? "queueCalls"); simpl; intuition congruence.
Qed.

(** The request of a turn carries the driver's cursor and no other. *)
Lemma driverQuery_start_key report params s :
  assoc "start_key" params = None ->
  (forall k, startKey s = Some k -> truthy k = true) ->
  assoc "start_key" (driverQuery report params s) = startKey s.
Proof.
  intros Hp Hk. unfold driverQuery, startKeyParam.
  assert (Hbase : assoc "start_key"
                    (setProps (fieldsParam report)
                       (setProps (ownEntries params) [])) = None).
  { rewrite assoc_setProps_other.
    - rewrite assoc_setProps_other; [reflexivity|].
      intros v Hv. apply (Permutation_in _ (ownEntries_perm params)) in Hv.
      now apply assoc_None_not_In in Hv.
    - intros v Hv. apply fieldsParam_keys in Hv. discriminate. }
  destruct (startKey s) as [k|] eqn:E; [|exact Hbase].
  rewrite (Hk k eq_refl). unfold setProps. simpl.
  rewrite assoc_setProp. reflexivity.
Qed.

Lemma payloadChunk_error data e : payloadChunk data = inl e -> data = JNull.
Proof.
  unfold payloadChunk. destruct data; try reflexivity; simpl;
    try discriminate.
  destruct (assoc "data" props) as [[]|]; try discriminate;
    destruct (assoc "rows" props) as [[]|]; try discriminate;
    destruct (allDigitKeys (JObj props)); discriminate.
Qed.

(** What [followCursor] decides. *)
Lemma followCursor_cases data s w r s' w' :
  followCursor data s w = (r, s', w') ->
  w' = w /\ out s' = out s
  /\ ((r = Return true
       /\ exists next, nextStartKey data = Some next
                       /\ strictEq (startKey s) next
                          && (3 <=? S (consecutiveSameKey s))%nat = false
                       /\ Set_has (seenStartKeys s) next = false
                       /\ startKey s' = Some next
                       /\ seenStartKeys s' = Set_add (seenStartKeys s) next)
      \/ (r = Return false
          /\ startKey s' = startKey s
          /\ seenStartKeys s' = seenStartKeys s
          /\ (nextStartKey data = None
              \/ exists next, nextStartKey data = Some next
                   /\ (Set_has (seenStartKeys s) next = true
                       \/ strictEq (startKey s) next = true)))).
Proof.
  unfold followCursor, nextStartKey.
  destruct (prop data "next_start_key") as [next|];
    [|intros [= <- <- <-]; auto 10].
  destruct (truthy next); [|intros [= <- <- <-]; auto 10].
  unfold checkSeen. unfold bind, getL, modifyL, ret.
  destruct (strictEq (startKey s) next) eqn:Eq;
    [destruct (3 <=? S (consecutiveSameKey s))%nat eqn:E3|];
    cbv beta iota; cbn [seenStartKeys set_consecutiveSameKey];
    try (destruct (Set_has (seenStartKeys s) next) eqn:Eh);
    intros [= <- <- <-]; cbn; (split; [reflexivity|]);
    (split; [reflexivity|]);
    first [ solve [ left; split; [reflexivity|]; exists next;
                    rewrite ?Eq, ?E3; cbn; auto 10 ]
          | solve [ right; split; [reflexivity|]; eauto 10 ] ].
Qed.

(** What a turn of the loop does. *)
Lemma turn_cases env report tenant path params s w r s' w' :
  fetchReport_turn env report tenant path params s w = (r, s', w') ->
  (exists e,
      r = Raise e /\ s' = s
      /\ exists evs, w' = evs ++ w /\ Forall (fun ev => cursorOf ev = None) evs)
  \/ (exists token data chunk,
        portal env (EvToken tenant (inr token) :: w)
          (mkRequest env path tenant token (driverQuery report params s))
        = Body data
        /\ payloadChunk data = inr chunk
        /\ w' = EvGet (mkRequest env path tenant token
                         (driverQuery report params s)) (Body data)
                :: EvToken tenant (inr token) :: w
        /\ followCursor data (push_out chunk s) w' = (r, s', w')).
Proof.
  unfold fetchReport_turn, bind, getL, getPortalToken, axios_get. simpl.
  fold (driverQuery report params s).
  destruct (portalToken env w tenant) as [e|token] eqn:Et.
  - intros [= <- <- <-]. left. exists e. repeat split.
    exists [EvToken tenant (inl e)]. split; [reflexivity|].
    repeat constructor.
  - destruct (portal env _ _) as [data|e] eqn:Eg.
    + unfold liftE. destruct (payloadChunk data) as [e|chunk] eqn:Ec.
      * unfold raise. intros [= <- <- <-]. left. exists e. repeat split.
        eexists [_; _]. split; [reflexivity|].
        repeat constructor. apply payloadChunk_error in Ec. now subst.
      * unfold ret, modifyL. simpl. intros H. right.
        exists token, data, chunk. split; [exact Eg|]. split; [exact Ec|].
        pose proof (followCursor_cases _ _ _ _ _ _ H) as [-> _].
        split; [reflexivity|exact H].
    + intros [= <- <- <-]. left. exists e. repeat split.
      eexists [_; _]. split; [reflexivity|]. repeat constructor.
Qed.

(** *** The invariant of the loop *)

Lemma cursorOf_None_not_same e : cursorOf e = None -> sameCursorPage e = false.
Proof.
  destruct e as [| rq [data|] |]; simpl; auto. now intros ->.
Qed.

Lemma sameCursorPage_cursor e :
  sameCursorPage e = true -> exists k, cursorOf e = Some k.
Proof.
  destruct e as [| rq [data|] |]; simpl; try discriminate.
  destruct (nextStartKey data) as [k|]; [eauto|discriminate].
Qed.

Lemma CallerCursor_nil params : CallerCursor params [].
Proof. intros [|x later] e earlier H; discriminate H. Qed.

Lemma CallerCursor_cons params e0 evs :
  (sameCursorPage e0 = true ->
   assoc "start_key" params <> None /\ Forall cursorless evs) ->
  CallerCursor params evs -> CallerCursor params (e0 :: evs).
Proof.
  intros H0 H [|e1 later] e earlier Heq He.
  - injection Heq as <- <-. auto.
  - injection Heq as <- ->. eapply H; eauto.
Qed.

Lemma CallerCursor_quiet params evs rest :
  Forall cursorless evs ->
  CallerCursor params rest -> CallerCursor params (evs ++ rest).
Proof.
  induction 1 as [|e evs He _ IH]; intros H; simpl; auto.
  apply CallerCursor_cons; auto.
  intros Hs. apply sameCursorPage_cursor in Hs. destruct Hs as [k Hk].
  unfold cursorless in He. congruence.
Qed.

(** At most one page of such a history is a same-cursor page. *)
Lemma CallerCursor_count params evs :
  CallerCursor params evs ->
  List.length (filter sameCursorPage evs) <= 1.
Proof.
  induction evs as [|e evs IH]; intros H; simpl; [lia|].
  assert (Hrest : CallerCursor params evs).
  { intros later e' earlier -> He'. apply (H (e :: later) e' earlier); auto. }
  destruct (sameCursorPage e) eqn:E; [|auto].
  destruct (H [] e evs eq_refl E) as [_ Hq].
  assert (Hnone : filter sameCursorPage evs = []).
  { clear -Hq. induction Hq as [|x l Hx _ IHl]; simpl; auto.
    destruct (sameCursorPage x) eqn:Ex; [|exact IHl].
    apply sameCursorPage_cursor in Ex. destruct Ex as [k Hk].
    unfold cursorless in Hx. congruence. }
  rewrite Hnone. simpl. lia.
Qed.

(** A request made with a cursor of the driver's carries that cursor. *)
Lemma driverQuery_own_key report params s k :
  startKey s = Some k -> truthy k = true ->
  assoc "start_key" (driverQuery report params s) = Some k.
Proof.
  intros Hk Ht. unfold driverQuery, startKeyParam. rewrite Hk, Ht.
  unfold setProps at 1. simpl. apply assoc_setProp.
Qed.

Lemma NoRepeat_quiet evs rest :
  Forall (fun ev => cursorOf ev = None) evs ->
  NoRepeat rest -> NoRepeat (evs ++ rest).
Proof.
  induction 1 as [|e evs He _ IH]; intros H; simpl; auto.
  split; auto. intros k e' k' Hk. congruence.
Qed.

Lemma Tracking_quiet params evs new s :
  Forall (fun ev => cursorOf ev = None) evs ->
  Tracking params new s -> Tracking params (evs ++ new) s.
Proof.
  intros Hq [Ht Hn Hc Hs Hqs Hcc]. split; auto.
  - intros e k k' Hi. apply in_app_or in Hi. destruct Hi as [Hi|Hi]; eauto.
    rewrite Forall_forall in Hq. intros Hk. rewrite (Hq e Hi) in Hk.
    discriminate.
  - now apply NoRepeat_quiet.
  - intros Hp. rewrite filter_app, (Hs Hp), app_nil_r.
    induction Hq as [|e evs He _ IH]; simpl; auto.
    now rewrite (cursorOf_None_not_same e He).
  - intros Hk. apply Forall_app. auto.
  - now apply CallerCursor_quiet.
Qed.

Lemma Tracking_push_out params new chunk s :
  Tracking params new s -> Tracking params new (push_out chunk s).
Proof. intros [Ht Hn Hc Hs Hqs Hcc]. split; auto. Qed.

Lemma nextStartKey_truthy data k : nextStartKey data = Some k -> truthy k = true.
Proof.
  unfold nextStartKey. destruct (prop data "next_start_key"); [|discriminate].
  destruct (truthy j) eqn:E; [|discriminate]. now intros [= <-].
Qed.

Section Run.

Variable env : Env.
Variables report tenant path : string.
Variable params : list (string * json).

(** The history before the run. *)
Variable w0 : World.

(** A turn keeps the invariant, or ends the loop on its page. *)
Lemma turn_tracking new s r s' w' :
  Tracking params new s ->
  fetchReport_turn env report tenant path params s (new ++ w0)
    = (r, s', w') ->
  exists new',
    w' = new' ++ w0
    /\ match r with
       | Return true => Tracking params new' s'
       | Return false =>
           exists e rest,
             new' = e :: rest /\ NoRepeat rest
             /\ (assoc "start_key" params = None ->
                 filter sameCursorPage rest = [])
             /\ CallerCursor params rest
       | Raise _ => Tracking params new' s'
       | OutOfFuel => False
       end.
Proof.
  intros T H. apply turn_cases in H.
  destruct H as [(e & -> & -> & evs & -> & Hq)
                |(token & data & chunk & _ & Hc & -> & H)].
  - exists (evs ++ new). split; [now rewrite app_assoc|].
    now apply Tracking_quiet.
  - set (rq := mkRequest env path tenant token (driverQuery report params s))
      in *.
    set (rest := EvToken tenant (inr token) :: new).
    assert (Tr : Tracking params rest (push_out chunk s)).
    { apply Tracking_push_out.
      apply (Tracking_quiet params [EvToken tenant (inr token)]); auto. }
    exists (EvGet rq (Body data) :: rest). split; [reflexivity|].
    apply followCursor_cases in H.
    destruct H as (_ & _ & [(-> & next & Hn & Hb & Hh & Hk & Hs)
                           |(-> & _ & _ & _)]).
    + destruct Tr as [Ht Hnr Hcs Hsc Hqs Hcc].
      cbn [seenStartKeys startKey push_out] in *.
      assert (Hfresh : strictEq (startKey s) next = false).
      { destruct (strictEq (startKey s) next) eqn:E; [|reflexivity].
        unfold strictEq in E. destruct (startKey s) as [k|] eqn:Ek;
          [|discriminate].
        destruct (Hcs k eq_refl) as [_ Hin].
        rewrite (Hin next E) in Hh. discriminate. }
      split.
      * intros e k k' [<-|Hi] Hc' Hv.
        -- simpl in Hc'. rewrite Hn in Hc'. injection Hc' as <-.
           rewrite Hs, Set_has_add_new by assumption.
           rewrite sameValueZero_sym, Hv. apply orb_true_r.
        -- rewrite Hs. apply Set_has_add_mono.
           exact (Ht e k k' Hi Hc' Hv).
      * simpl. split; [|exact Hnr].
        intros k e' k' Hc' Hi He'. rewrite Hn in Hc'. injection Hc' as <-.
        destruct (sameValueZero k' next) eqn:E; [|reflexivity].
        rewrite (Ht e' k' next Hi He' E) in Hh. discriminate.
      * intros k Hk'. rewrite Hk in Hk'. injection Hk' as <-.
        split; [now apply nextStartKey_truthy in Hn|].
        intros n' Hv. rewrite Hs, Set_has_add_new by assumption.
        rewrite sameValueZero_sym, Hv. apply orb_true_r.
      * intros Hp. simpl. rewrite Hn. unfold rq at 1. simpl.
        rewrite driverQuery_start_key; auto.
        -- rewrite Hfresh. exact (Hsc Hp).
        -- intros k Hk'. now destruct (Hcs k Hk').
      * rewrite Hk. discriminate.
      * apply CallerCursor_cons; [|exact Hcc].
        intros Hsame. cbn [sameCursorPage] in Hsame. rewrite Hn in Hsame.
        change (Net.params rq) with (driverQuery report params s) in Hsame.
        destruct (startKey s) as [k|] eqn:Ek.
        -- destruct (Hcs k eq_refl) as [Htk _].
           rewrite (driverQuery_own_key report params s k Ek Htk) in Hsame.
           congruence.
        -- split; [|exact (Hqs eq_refl)].
           intros Hp.
           rewrite driverQuery_start_key in Hsame; auto;
             [|intros k Hk'; congruence].
           rewrite Ek in Hsame. discriminate.
    + exists (EvGet rq (Body data)), rest. destruct Tr. auto.
Qed.

Lemma while_tracking fuel : forall new s r s' w',
  Tracking params new s ->
  whileTrue fuel (fetchReport_turn env report tenant path params) s
    (new ++ w0) = (r, s', w') ->
  exists new',
    w' = new' ++ w0
    /\ match r with
       | Return _ =>
           exists e rest,
             new' = e :: rest /\ NoRepeat rest
             /\ (assoc "start_key" params = None ->
                 filter sameCursorPage rest = [])
             /\ CallerCursor params rest
       | _ => Tracking params new' s'
       end.
Proof.
  induction fuel as [|fuel IH]; intros new s r s' w' T H; simpl in H.
  - unfold outOfFuel in H. injection H as <- <- <-. eauto.
  - unfold bind, ret in H.
    destruct (fetchReport_turn env report tenant path params s (new ++ w0))
      as [[r1 s1] w1] eqn:E.
    destruct (turn_tracking _ _ _ _ _ T E) as (new1 & -> & H1).
    destruct r1 as [[|]| |].
    + eapply IH; eauto.
    + injection H as <- <- <-. eauto.
    + injection H as <- <- <-. eauto.
    + contradiction.
Qed.

Lemma retrying_tracking fuel n : forall attempt delay new s r s' w',
  Tracking params new s ->
  retrying n attempt delay
    (whileTrue fuel (fetchReport_turn env report tenant path params)) s
    (new ++ w0) = (r, s', w') ->
  exists new',
    w' = new' ++ w0
    /\ (Tracking params new' s'
        \/ (exists a, r = Return a)
           /\ exists e rest,
                new' = e :: rest /\ NoRepeat rest
                /\ (assoc "start_key" params = None ->
                    filter sameCursorPage rest = [])
                /\ CallerCursor params rest).
Proof.
  induction n as [|n IH]; intros attempt delay new s r s' w' T H; simpl in H.
  - unfold ret in H. injection H as <- <- <-. eauto.
  - unfold tryCatch, bind, ret, raise in H.
    destruct (whileTrue fuel _ s (new ++ w0)) as [[r1 s1] w1] eqn:E.
    destruct (while_tracking _ _ _ _ _ _ T E) as (new1 & -> & H1).
    destruct r1 as [[]| e |].
    + injection H as <- <- <-. eauto 10.
    + destruct (Nat.eqb attempt _).
      * injection H as <- <- <-. eauto.
      * unfold sleep in H. cbv beta iota in H.
        change (EvSleep delay :: new1 ++ w0)
          with ((EvSleep delay :: new1) ++ w0) in H.
        eapply IH; [|exact H].
        apply (Tracking_quiet params [EvSleep delay]); auto.
    + injection H as <- <- <-. eauto.
Qed.

(** However the run ends, its pages are settled. *)
Lemma pagination_settled fuel r s' w' :
  ENDPOINTS report = Some path ->
  fetchReport_pagination fuel env report tenant params Driver_init w0
    = (r, s', w') ->
  exists new, w' = new ++ w0 /\ Settled params new r.
Proof.
  intros Hp H. unfold fetchReport_pagination in H. rewrite Hp in H.
  unfold bind, raise in H.
  destruct (retrying MAX_RETRIES 0 1000 _ Driver_init w0)
    as [[r1 s1] w1] eqn:E.
  assert (T0 : Tracking params [] Driver_init).
  { split; simpl; auto using CallerCursor_nil; try contradiction.
    discriminate. }
  destruct (retrying_tracking fuel _ _ _ [] _ _ _ _ T0 E)
    as (new & -> & Hs).
  exists new.
  destruct r1 as [a| e |].
  - unfold getL, ret in H. injection H as <- <- <-. split; [reflexivity|].
    destruct Hs as [[_ Hn _ Hsc _ Hcc]
                   |(_ & e & rest & -> & Hn & Hsc & Hcc)].
    + exists new. auto.
    + exists rest. eauto 10.
  - injection H as <- <- <-. split; [reflexivity|].
    destruct Hs as [[_ Hn _ Hsc _ Hcc]|((a & Ha) & _)]; [|discriminate].
    exists new. auto.
  - injection H as <- <- <-. split; [reflexivity|].
    destruct Hs as [[_ Hn _ Hsc _ Hcc]|((a & Ha) & _)]; [|discriminate].
    exists new. auto.
Qed.

End Run.

Lemma NoRepeat_split later : forall e2 mid e1 earlier k1 k2,
  NoRepeat (later ++ e2 :: mid ++ e1 :: earlier) ->
  cursorOf e1 = Some k1 -> cursorOf e2 = Some k2 ->
  sameValueZero k1 k2 = true -> False.
Proof.
  induction later as [|e later IH]; intros e2 mid e1 earlier k1 k2 H H1 H2 Hv.
  - simpl in H. destruct H as [H _].
    rewrite (H k2 e1 k1 H2) in Hv; auto; [discriminate|].
    apply in_or_app. right. now left.
  - simpl in H. destruct H as [_ H]. eauto.
Qed.

Lemma filter_nil_split {A} (f : A -> bool) later e earlier :
  filter f (later ++ e :: earlier) = [] -> f e = false.
Proof.
  rewrite filter_app. simpl. intros H. apply app_eq_nil in H.
  destruct H as [_ H]. destruct (f e); [discriminate|reflexivity].
Qed.

End Driver.

Lemma run_settled fuel env report tenant params w0 r s' w' :
  ReportFetcher.fetchReport_pagination fuel env report tenant params
    ReportFetcher.Driver_init w0 = (r, s', w') ->
  exists new, w' = new ++ w0 /\ Vocabulary.Settled params new r.
Proof.
  intros H. destruct (ReportFetcher.ENDPOINTS report) as [path|] eqn:E.
  - eapply Driver.pagination_settled; eauto.
  - unfold ReportFetcher.fetchReport_pagination in H. rewrite E in H.
    injection H as <- <- <-. exists []. split; [reflexivity|].
    exists []. simpl. auto using Driver.CallerCursor_nil.
Qed.

(** C1, as the code has it.  In a run of the cursor driver, a page whose
    next-cursor equals the cursor it was requested with is the last
    event of the run, which then returns its records (DONE), whenever
    that cursor is one the driver had adopted from an earlier page: it
    is then among the keys seen, so the guard on seen keys ends the
    loop on this page, before the counter of consecutive same keys can
    reach 3.  The only same-cursor page the run can go on from is one
    requested with a [start_key] that the caller's own parameters name,
    before any page has brought back a cursor.  So a run holds two such
    pages at most, and one at most when the caller's parameters name no
    [start_key]. *)
Theorem same_cursor_page_ends_run :
  forall fuel env report tenant params w0 r s w',
    ReportFetcher.fetchReport_pagination fuel env report tenant params
      ReportFetcher.Driver_init w0 = (r, s, w') ->
    exists new,
      w' = new ++ w0
      /\ List.length (filter Vocabulary.sameCursorPage new) <= 2
      /\ (forall later e earlier,
            new = later ++ e :: earlier ->
            Vocabulary.sameCursorPage e = true ->
            (later = [] /\ exists records, r = Net.Return records)
            \/ (JS.assoc "start_key" params <> None
                /\ Forall Vocabulary.cursorless earlier))
      /\ (JS.assoc "start_key" params = None ->
          List.length (filter Vocabulary.sameCursorPage new) <= 1
          /\ forall later e earlier,
               new = later ++ e :: earlier ->
               Vocabulary.sameCursorPage e = true ->
               later = [] /\ exists records, r = Net.Return records).
Proof.
  intros fuel env report tenant params w0 r s w' H.
  destruct (run_settled _ _ _ _ _ _ _ _ _ H)
    as (new & -> & rest & Hn & Hs & Hr & Hcc).
  pose proof (Driver.CallerCursor_count _ _ Hcc) as Hcount.
  exists new. split; [reflexivity|].
  split; [|split].
  - destruct Hr as [->|(e & -> & _)]; [lia|].
    simpl. destruct (Vocabulary.sameCursorPage e); simpl; lia.
  - intros later e earlier Heq He.
    destruct Hr as [->|(e0 & -> & Hret)].
    + right. exact (Hcc _ _ _ Heq He).
    + destruct later as [|e1 later].
      * left. split; [reflexivity|].
        destruct Hret as [a ->]. now exists a.
      * right. injection Heq as _ Heq. exact (Hcc _ _ _ Heq He).
  - intros Hp. specialize (Hs Hp). split.
    + destruct Hr as [->|(e & -> & _)]; [rewrite Hs; simpl; lia|].
      simpl. rewrite Hs. destruct (Vocabulary.sameCursorPage e); simpl; lia.
    + intros later e earlier -> He.
      destruct Hr as [<-|(e0 & Heq & Hret)].
      * apply Driver.filter_nil_split in Hs. congruence.
      * destruct later as [|e1 later]; [auto|].
        injection Heq as -> <-.
        apply Driver.filter_nil_split in Hs. congruence.
Qed.

Lemma same_cursor_page_ends_run_witness :
  exists new,
    new ++ []
    = snd (ReportFetcher.fetchReport_pagination 10 Scenarios.stuck "cdrs"
             "acme" [] ReportFetcher.Driver_init [])
    /\ List.length (filter Vocabulary.sameCursorPage new) <= 1.
Proof.
  destruct (same_cursor_page_ends_run 10 Scenarios.stuck "cdrs" "acme" [] []
              _ _ _ eq_refl) as (new & Hw & _ & _ & Hc).
  exists new. split; [symmetry; exact Hw|exact (proj1 (Hc eq_refl))].
Defined.

(** A run the caller resumes at the cursor "A", against the upstream
    that names "A" on every page: the first page, requested with the
    caller's cursor, is a same-cursor page the driver goes on from, and
    the second one ends the run. *)
Example resumed_run_two_same_cursor_pages :
  let '(r, s, w) :=
    ReportFetcher.fetchReport_pagination 10 Scenarios.stuck "cdrs" "acme"
      [("start_key", JS.JStr "A")] ReportFetcher.Driver_init [] in
  r = Net.Return [Scenarios.record 1; Scenarios.record 1]
  /\ Net.gets w = 2
  /\ List.length (filter Vocabulary.sameCursorPage w) = 2
  /\ ReportFetcher.consecutiveSameKey s = 1.
Proof. vm_compute. repeat split. Qed.

(** C1 as stated fails: against the upstream that names the cursor "A"
    on every page the driver fetches two pages, the second of which is
    the only one requested with the cursor it returns, and stops there
    with the counter at 1; it does not go on to a third such page. *)
Lemma stuck_cursor_stops_after_one_page :
  let '(r, s, w) :=
    ReportFetcher.fetchReport_pagination 10 Scenarios.stuck "cdrs" "acme" []
      ReportFetcher.Driver_init [] in
  r = Net.Return [Scenarios.record 1; Scenarios.record 1]
  /\ Net.gets w = 2
  /\ List.length (filter Vocabulary.sameCursorPage w) = 1
  /\ ReportFetcher.consecutiveSameKey s = 1
  /\ List.length (filter Vocabulary.sameCursorPage w) <> 3.
Proof. vm_compute. repeat split; discriminate. Qed.

(** C2.  In a run of the cursor driver, a page that brings back a
    next-cursor already brought back by an earlier page of the run is
    the last event of the run: the driver fetches no further page and
    returns its records (DONE). *)
Theorem seen_cursor_ends_run :
  forall fuel env report tenant params w0 r s w',
    ReportFetcher.fetchReport_pagination fuel env report tenant params
      ReportFetcher.Driver_init w0 = (r, s, w') ->
    exists new,
      w' = new ++ w0
      /\ forall later e2 mid e1 earlier k1 k2,
           new = later ++ e2 :: mid ++ e1 :: earlier ->
           Vocabulary.cursorOf e1 = Some k1 ->
           Vocabulary.cursorOf e2 = Some k2 ->
           JS.sameValueZero k1 k2 = true ->
           later = [] /\ exists records, r = Net.Return records.
Proof.
  intros fuel env report tenant params w0 r s w' H.
  destruct (run_settled _ _ _ _ _ _ _ _ _ H)
    as (new & -> & rest & Hn & _ & Hr & _).
  exists new. split; [reflexivity|].
  intros later e2 mid e1 earlier k1 k2 -> H1 H2 Hv.
  destruct Hr as [<-|(e0 & Heq & Hret)].
  - exfalso. eapply Driver.NoRepeat_split; eauto.
  - destruct later as [|e later]; [auto|].
    injection Heq as -> <-.
    exfalso. eapply Driver.NoRepeat_split; eauto.
Qed.

Lemma seen_cursor_ends_run_witness :
  exists records,
    fst (fst (ReportFetcher.fetchReport_pagination 10 Scenarios.cycling
                "cdrs" "acme" [] ReportFetcher.Driver_init []))
    = Net.Return records.
Proof.
  destruct (ReportFetcher.fetchReport_pagination 10 Scenarios.cycling
              "cdrs" "acme" [] ReportFetcher.Driver_init [])
    as [[r s] w] eqn:E.
  destruct (seen_cursor_ends_run 10 Scenarios.cycling "cdrs" "acme" [] []
              r s w E) as (new & Hw & Hlast).
  rewrite app_nil_r in Hw. subst new.
  vm_compute in E. injection E as <- <- <-.
  refine (proj2 (Hlast [] _ [_; _; _] _ [_] (JS.JStr "A") (JS.JStr "A")
                   eq_refl eq_refl eq_refl eq_refl)).
Defined.

(** The run against the cycling upstream: three pages, the third
    bringing back "A" again, and nothing after it. *)
Example cycling_run_stops_at_third_page :
  let '(r, s, w) :=
    ReportFetcher.fetchReport_pagination 10 Scenarios.cycling "cdrs" "acme"
      [] ReportFetcher.Driver_init [] in
  r = Net.Return [Scenarios.record 1; Scenarios.record 2; Scenarios.record 3]
  /\ Net.gets w = 3
  /\ map Vocabulary.cursorOf (filter Net.isGet w)
     = [Some (JS.JStr "A"); Some (JS.JStr "B"); Some (JS.JStr "A")].
Proof. vm_compute. repeat split. Qed.

(* ===================================================================== *)
(** ** The retry loop *)
(* ===================================================================== *)

Module Retry.
Import JS Net Net.Notations ReportFetcher Vocabulary.

Lemma backoff_step attempt k :
  backoff (S attempt) k ++ [(1000 * 2 ^ Z.of_nat attempt)%Z]
  = backoff attempt (S k).
Proof. reflexivity. Qed.

Section Loop.

Context {L A : Type}.
Variable op : M L A.

(** The loop of the source does what the design says. *)
Lemma retrying_run n : forall attempt delay l w r l' w',
  n + attempt = MAX_RETRIES -> 1 <= n ->
  delay = (1000 * 2 ^ Z.of_nat attempt)%Z ->
  retrying n attempt delay op l w = (r, l', w') ->
  exists r0, r = wrapped r0 /\ RetryRun op attempt l w r0 l' w'.
Proof.
  induction n as [|n IH]; intros attempt delay l w r l' w' Hn H1 Hd H; [lia|].
  simpl in H. unfold tryCatch, bind, ret, raise in H.
  destruct (op l w) as [[r1 l1] w1] eqn:E.
  destruct r1 as [a|e|].
  - injection H as <- <- <-. exists (Return a). split; [reflexivity|].
    now constructor.
  - destruct (Nat.eqb_spec attempt 2) as [Ha|Ha].
    + injection H as <- <- <-. exists (Raise e). split; [reflexivity|].
      apply retry_exhausted; [unfold MAX_RETRIES; lia|assumption].
    + unfold sleep in H. cbv beta iota in H.
      assert (Hn' : n + S attempt = MAX_RETRIES) by lia.
      assert (H1' : 1 <= n) by (unfold MAX_RETRIES in *; lia).
      assert (Hd' : (delay * 2)%Z = (1000 * 2 ^ Z.of_nat (S attempt))%Z)
        by (subst delay; rewrite Nat2Z.inj_succ, Z.pow_succ_r; lia).
      destruct (IH (S attempt) (delay * 2)%Z _ _ _ _ _ Hn' H1' Hd' H)
        as (r0 & Hr & Hrun).
      exists r0. split; [exact Hr|]. subst delay.
      apply (retry_again op attempt l w e l1 w1 r0 l' w');
        [unfold MAX_RETRIES in *; lia|exact E|exact Hrun].
  - injection H as <- <- <-. exists OutOfFuel. split; [reflexivity|].
    now constructor.
Qed.

(** The operation does not sleep. *)
Hypothesis op_awake : forall l w r l' w',
  op l w = (r, l', w') -> sleeps w' = sleeps w.

(** What a run of the loop costs: [k] retries, with their delays. *)
Lemma RetryRun_effects attempt l w r0 l' w' :
  RetryRun op attempt l w r0 l' w' ->
  attempt < MAX_RETRIES ->
  exists k,
    attempt + k < MAX_RETRIES
    /\ sleeps w' = backoff attempt k ++ sleeps w
    /\ (forall e, r0 = Raise e -> S (attempt + k) = MAX_RETRIES)
    /\ (forall tokens,
          (forall l w r l' w',
              op l w = (r, l', w') -> r <> OutOfFuel ->
              invocations w' = invocations w + tokens) ->
          r0 <> OutOfFuel ->
          invocations w' = invocations w + (k + 1) * tokens).
Proof.
  induction 1 as [attempt l w a l' w' E
                 |attempt l w e l' w' Ha E
                 |attempt l w e l1 w1 r l' w' Ha E Hrun IH
                 |attempt l w l' w' E]; intros Hlt.
  - exists 0. repeat split; try lia; try discriminate.
    + exact (op_awake _ _ _ _ _ E).
    + intros tokens Ht _. rewrite (Ht _ _ _ _ _ E) by discriminate. lia.
  - exists 0. repeat split; try lia.
    + exact (op_awake _ _ _ _ _ E).
    + intros tokens Ht _. rewrite (Ht _ _ _ _ _ E) by discriminate. lia.
  - destruct (IH Ha) as (k & Hk & Hsl & He & Hinv).
    exists (S k). split; [lia|].
    split; [|split; [intros e' He'; specialize (He e' He'); lia|]].
    + rewrite Hsl. simpl sleeps. rewrite (op_awake _ _ _ _ _ E).
      rewrite <- backoff_step, <- app_assoc. reflexivity.
    + intros tokens Ht Hr0. specialize (Hinv tokens Ht Hr0).
      change (invocations (EvSleep (1000 * 2 ^ Z.of_nat attempt) :: w1))
        with (invocations w1) in Hinv.
      rewrite Hinv, (Ht _ _ _ _ _ E) by discriminate. lia.
  - exists 0. repeat split; try lia; try discriminate.
    + exact (op_awake _ _ _ _ _ E).
    + congruence.
Qed.

(** The operation adds a failed page fetch to the history when it
    raises an error, and then only. *)
Hypothesis op_fails : forall l w r l' w',
  op l w = (r, l', w') ->
  failures w' = failures w + match r with Raise _ => 1 | _ => 0 end.

(** The failed fetches of a run are as many as its sleeps, and one
    more when it ends in an error. *)
Lemma RetryRun_failures attempt l w r0 l' w' :
  RetryRun op attempt l w r0 l' w' ->
  failures w' + List.length (sleeps w)
  = failures w + List.length (sleeps w')
    + match r0 with Raise _ => 1 | _ => 0 end.
Proof.
  induction 1 as [attempt l w a l' w' E
                 |attempt l w e l' w' Ha E
                 |attempt l w e l1 w1 r l' w' Ha E Hrun IH
                 |attempt l w l' w' E].
  - rewrite (op_fails _ _ _ _ _ E), (op_awake _ _ _ _ _ E). lia.
  - rewrite (op_fails _ _ _ _ _ E), (op_awake _ _ _ _ _ E). lia.
  - pose proof (op_fails _ _ _ _ _ E) as Hf. cbv beta iota in Hf.
    pose proof (op_awake _ _ _ _ _ E) as Hs.
    change (failures (EvSleep (1000 * 2 ^ Z.of_nat attempt) :: w1))
      with (failures w1) in IH.
    change (sleeps (EvSleep (1000 * 2 ^ Z.of_nat attempt) :: w1))
      with ((1000 * 2 ^ Z.of_nat attempt)%Z :: sleeps w1) in IH.
    simpl List.length in IH. rewrite Hs in IH. lia.
  - rewrite (op_fails _ _ _ _ _ E), (op_awake _ _ _ _ _ E). lia.
Qed.

End Loop.

Lemma singlePageAttempt_awake env report tenant path params limit :
  forall l w r l' w',
    singlePageAttempt env report tenant path params limit l w = (r, l', w') ->
    sleeps w' = sleeps w.
Proof.
  intros l w r l' w'.
  unfold singlePageAttempt, bind, getPortalToken, axios_get.
  destruct (portalToken env w tenant) as [e|token];
    [intros [= <- <- <-]; auto|].
  destruct (portal env _ _) as [data|e]; [|intros [= <- <- <-]; auto].
  unfold liftE, ret, raise.
  destruct (rawDataOf data) as [e|rawData]; [intros [= <- <- <-]; auto|].
  destruct (flattenItems rawData); intros [= <- <- <-]; auto.
Qed.

Lemma singlePageAttempt_tokens env report tenant path params limit :
  forall l w r l' w',
    singlePageAttempt env report tenant path params limit l w = (r, l', w') ->
    r <> OutOfFuel -> invocations w' = invocations w + 1.
Proof.
  intros l w r l' w'.
  unfold singlePageAttempt, bind, getPortalToken, axios_get.
  destruct (portalToken env w tenant) as [e|token];
    [intros [= <- <- <-]; unfold invocations; simpl; lia|].
  destruct (portal env _ _) as [data|e]; [|intros [= <- <- <-]; unfold invocations; simpl; lia].
  unfold liftE, ret, raise.
  destruct (rawDataOf data) as [e|rawData];
    [intros [= <- <- <-]; unfold invocations; simpl; lia|].
  destruct (flattenItems rawData); intros [= <- <- <-]; unfold invocations; simpl; lia.
Qed.

Lemma turn_awake env report tenant path params s w r s' w' :
  fetchReport_turn env report tenant path params s w = (r, s', w') ->
  sleeps w' = sleeps w.
Proof.
  unfold fetchReport_turn, bind, getL, getPortalToken, axios_get.
  cbv beta iota.
  destruct (portalToken env w tenant) as [e|token];
    [intros [= <- <- <-]; auto|].
  destruct (portal env _ _) as [data|e]; [|intros [= <- <- <-]; auto].
  unfold liftE, ret, raise, modifyL.
  destruct (payloadChunk data) as [e|chunk]; [intros [= <- <- <-]; auto|].
  intros H. apply Driver.followCursor_cases in H. destruct H as [-> _].
  reflexivity.
Qed.

Lemma while_awake env report tenant path params fuel : forall s w r s' w',
  whileTrue fuel (fetchReport_turn env report tenant path params) s w
    = (r, s', w') ->
  sleeps w' = sleeps w.
Proof.
  induction fuel as [|fuel IH]; intros s w r s' w' H; simpl in H.
  - now injection H as <- <- <-.
  - unfold bind, ret in H.
    destruct (fetchReport_turn env report tenant path params s w)
      as [[r1 s1] w1] eqn:E.
    apply turn_awake in E.
    destruct r1 as [[|]| |]; try (injection H as <- <- <-; exact E).
    rewrite (IH _ _ _ _ _ H). exact E.
Qed.

Lemma turn_failures env report tenant path params s w r s' w' :
  fetchReport_turn env report tenant path params s w = (r, s', w') ->
  failures w' = failures w + match r with Raise _ => 1 | _ => 0 end.
Proof.
  unfold fetchReport_turn, bind, getL, getPortalToken, axios_get.
  cbv beta iota.
  destruct (portalToken env w tenant) as [e|token];
    [intros [= <- <- <-]; unfold failures; simpl; lia|].
  destruct (portal env _ _) as [data|e];
    [|intros [= <- <- <-]; unfold failures; simpl; lia].
  unfold liftE, ret, raise, modifyL.
  destruct (payloadChunk data) as [e|chunk] eqn:Ec.
  - apply Driver.payloadChunk_error in Ec. subst data.
    intros [= <- <- <-]. unfold failures. simpl. lia.
  - intros H. apply Driver.followCursor_cases in H.
    destruct H as (-> & _ & [(-> & _)|(-> & _)]);
      (destruct data; [discriminate Ec|..]); unfold failures; simpl; lia.
Qed.

Lemma while_failures env report tenant path params fuel : forall s w r s' w',
  whileTrue fuel (fetchReport_turn env report tenant path params) s w
    = (r, s', w') ->
  failures w' = failures w + match r with Raise _ => 1 | _ => 0 end.
Proof.
  induction fuel as [|fuel IH]; intros s w r s' w' H; simpl in H.
  - injection H as <- <- <-. lia.
  - unfold bind, ret in H.
    destruct (fetchReport_turn env report tenant path params s w)
      as [[r1 s1] w1] eqn:E.
    apply turn_failures in E.
    destruct r1 as [[|]| |]; try (injection H as <- <- <-; exact E).
    rewrite (IH _ _ _ _ _ H). lia.
Qed.

End Retry.

(** C6, as the code has it.  [fetchReportSinglePage] invokes the page
    fetch at most 3 times.  When attempt number [attempt] (counted from
    0) raises an error and is not the last one, it sleeps
    [1000 * 2 ^ attempt] ms and tries again; the error of the third
    attempt is raised as it is; a successful attempt is returned at
    once, without a retry; the loop always ends.  In [fetchReport] the
    same loop is around the whole pagination and not around the fetch
    of a page: the three attempts are those of the run.  A run goes on
    after its first and its second failed page fetch, whatever pages
    they were, sleeping 1000 and then 2000 ms and taking up the
    pagination at the page that failed, with the records and the
    cursor it had; its third failed page fetch ends it with that
    error, be it the first failure of its page. *)
Theorem retry_with_backoff :
  (forall env report tenant path params limit w r u w',
     ReportFetcher.ENDPOINTS report = Some path ->
     ReportFetcher.fetchReportSinglePage env report tenant params limit tt w
       = (r, u, w') ->
     exists r0 k,
       r = Vocabulary.wrapped r0
       /\ r0 <> Net.OutOfFuel
       /\ Vocabulary.RetryRun
            (ReportFetcher.singlePageAttempt env report tenant path params
               limit) 0 tt w r0 u w'
       /\ k < ReportFetcher.MAX_RETRIES
       /\ Net.invocations w' = Net.invocations w + k + 1
       /\ Net.sleeps w' = Vocabulary.backoff 0 k ++ Net.sleeps w
       /\ (forall e, r0 = Net.Raise e -> S k = ReportFetcher.MAX_RETRIES))
  /\ (forall fuel env report tenant path params w r s w',
        ReportFetcher.ENDPOINTS report = Some path ->
        ReportFetcher.fetchReport_pagination fuel env report tenant params
          ReportFetcher.Driver_init w = (r, s, w') ->
        exists r0 k,
          Vocabulary.RetryRun
            (ReportFetcher.whileTrue fuel
               (ReportFetcher.fetchReport_turn env report tenant path
                  params))
            0 ReportFetcher.Driver_init w r0 s w'
          /\ r = match r0 with
                 | Net.Return _ => Net.Return (ReportFetcher.out s)
                 | Net.Raise e => Net.Raise e
                 | Net.OutOfFuel => Net.OutOfFuel
                 end
          /\ k < ReportFetcher.MAX_RETRIES
          /\ Net.sleeps w' = Vocabulary.backoff 0 k ++ Net.sleeps w
          /\ (forall e, r0 = Net.Raise e -> S k = ReportFetcher.MAX_RETRIES)
          /\ Vocabulary.failures w'
             = Vocabulary.failures w + k
               + match r0 with Net.Raise _ => 1 | _ => 0 end)
  /\ ReportFetcher.MAX_RETRIES = 3
  /\ Vocabulary.backoff 0 2 = [2000; 1000]%Z.
Proof.
  split; [|split; [|split; reflexivity]].
  - intros env report tenant path params limit w r u w' Hp H.
    unfold ReportFetcher.fetchReportSinglePage in H. rewrite Hp in H.
    destruct (Retry.retrying_run _ ReportFetcher.MAX_RETRIES 0 1000%Z
                _ w r u w' eq_refl
                ltac:(unfold ReportFetcher.MAX_RETRIES; lia) eq_refl H)
      as (r0 & Hr & Hrun).
    destruct (Retry.RetryRun_effects _
                (Retry.singlePageAttempt_awake env report tenant path params
                   limit) _ _ _ _ _ _ Hrun
                ltac:(unfold ReportFetcher.MAX_RETRIES; lia))
      as (k & Hk & Hsl & He & Hinv).
    assert (Hr0 : r0 <> Net.OutOfFuel).
    { pose proof (Total.total_fetchReportSinglePage env report tenant params
                    limit tt w) as T.
      unfold ReportFetcher.fetchReportSinglePage in T. rewrite Hp, H in T.
      simpl in T. intros ->. now subst r. }
    exists r0, k. split; [exact Hr|]. split; [exact Hr0|].
    split; [exact Hrun|].
    split; [exact Hk|]. split; [|split; [exact Hsl|exact He]].
    rewrite (Hinv 1 (Retry.singlePageAttempt_tokens env report tenant path
                       params limit) Hr0).
    lia.
  - intros fuel env report tenant path params w r s w' Hp H.
    unfold ReportFetcher.fetchReport_pagination in H. rewrite Hp in H.
    unfold Net.bind in H.
    destruct (ReportFetcher.retrying ReportFetcher.MAX_RETRIES 0 1000 _
                ReportFetcher.Driver_init w) as [[r1 s1] w1] eqn:E.
    destruct (Retry.retrying_run _ ReportFetcher.MAX_RETRIES 0 1000%Z
                _ w r1 s1 w1 eq_refl
                ltac:(unfold ReportFetcher.MAX_RETRIES; lia) eq_refl E)
      as (r0 & Hr & Hrun).
    destruct (Retry.RetryRun_effects _
                (Retry.while_awake env report tenant path params fuel)
                _ _ _ _ _ _ Hrun
                ltac:(unfold ReportFetcher.MAX_RETRIES; lia))
      as (k & Hk & Hsl & He & _).
    pose proof (Retry.RetryRun_failures _
                  (Retry.while_awake env report tenant path params fuel)
                  (Retry.while_failures env report tenant path params fuel)
                  _ _ _ _ _ _ Hrun) as Hf.
    rewrite Hsl, length_app in Hf.
    assert (Hlen : List.length (Vocabulary.backoff 0 k) = k).
    { unfold Vocabulary.backoff.
      now rewrite length_rev, length_map, length_seq. }
    rewrite Hlen in Hf.
    subst r1. exists r0, k.
    destruct r0; simpl in H; unfold Net.getL, Net.ret in H;
      injection H as <- <- <-; repeat split; auto; lia.
Qed.

Lemma retry_with_backoff_witness :
  (exists r0 k,
     fst (fst (ReportFetcher.fetchReportSinglePage (Scenarios.flaky 2) "cdrs"
                 "acme" [] None tt [])) = Vocabulary.wrapped r0
     /\ k < ReportFetcher.MAX_RETRIES)
  /\ (exists r0 k,
        k < ReportFetcher.MAX_RETRIES
        /\ Vocabulary.failures
             (snd (ReportFetcher.fetchReport_pagination 10
                     Scenarios.interleaved "cdrs" "acme" []
                     ReportFetcher.Driver_init []))
           = 0 + k + match r0 : Net.Outcome unit with
                     | Net.Raise _ => 1
                     | _ => 0
                     end).
Proof.
  split.
  - destruct (ReportFetcher.fetchReportSinglePage (Scenarios.flaky 2) "cdrs"
                "acme" [] None tt []) as [[r u] w'] eqn:E.
    destruct (proj1 retry_with_backoff (Scenarios.flaky 2) "cdrs" "acme" _ []
                None [] r u w' eq_refl E) as (r0 & k & H1 & _ & _ & H3 & _).
    exists r0, k. split; assumption.
  - destruct (ReportFetcher.fetchReport_pagination 10 Scenarios.interleaved
                "cdrs" "acme" [] ReportFetcher.Driver_init [])
      as [[r s] w'] eqn:E.
    destruct (proj1 (proj2 retry_with_backoff) 10 Scenarios.interleaved
                "cdrs" "acme" _ [] [] r s w' eq_refl E)
      as (r0 & k & _ & _ & Hk & _ & _ & Hf).
    exists r0, k. split; [exact Hk|exact Hf].
Defined.

(** C6 as stated fails for [fetchReport]: against the upstream that
    fails every other time the run makes five page fetches, not three
    at most; and the page requested with the cursor "B" is fetched
    once, its first failure being the third of the run, which is
    raised without a wait or another attempt. *)
Lemma pagination_retries_are_shared :
  let '(r, s, w) :=
    ReportFetcher.fetchReport_pagination 10 Scenarios.interleaved "cdrs"
      "acme" [] ReportFetcher.Driver_init [] in
  r = Net.Raise (Net.HttpError "Request failed with status code 502")
  /\ Net.gets w = 5
  /\ Vocabulary.failures w = 3
  /\ Net.sleeps w = [2000; 1000]%Z
  /\ map Net.isGet
       (filter (Vocabulary.requestedWith (JS.JStr "B")) w) = [true]
  /\ ReportFetcher.out s = [Scenarios.record 1; Scenarios.record 2]
  /\ 3 < Net.gets w.
Proof. vm_compute. repeat split. lia. Qed.

(** Two failures, then a page: three invocations, 1 s and 2 s of sleep. *)
Example flaky_twice_then_page :
  let '(r, _, w) :=
    ReportFetcher.fetchReportSinglePage (Scenarios.flaky 2) "cdrs" "acme"
      [] None tt [] in
  r = Net.Return (Some [Scenarios.record 1; Scenarios.record 2])
  /\ Net.invocations w = 3 /\ Net.sleeps w = [2000; 1000]%Z.
Proof. vm_compute. repeat split. Qed.

(** Three failures: the third error comes out, after the same sleeps. *)
Example flaky_three_times :
  let '(r, _, w) :=
    ReportFetcher.fetchReportSinglePage (Scenarios.flaky 3) "cdrs" "acme"
      [] None tt [] in
  r = Net.Raise (Net.HttpError "Request failed with status code 429")
  /\ Net.invocations w = 3 /\ Net.sleeps w = [2000; 1000]%Z.
Proof. vm_compute. repeat split. Qed.

(* ===================================================================== *)
(** ** Termination *)
(* ===================================================================== *)

Module Termination.
Import JS Net Net.Notations ReportFetcher Vocabulary JSFacts Total Keeps.

Lemma filter_length_le {A} (f g : A -> bool) l :
  (forall x, g x = true -> f x = true) ->
  List.length (filter g l) <= List.length (filter f l).
Proof.
  intros H. induction l as [|x l IH]; simpl; [lia|].
  destruct (g x) eqn:Eg.
  - rewrite (H x Eg). simpl. lia.
  - destruct (f x); simpl; lia.
Qed.

Lemma filter_length_lt {A} (f g : A -> bool) l a :
  (forall x, g x = true -> f x = true) ->
  In a l -> f a = true -> g a = false ->
  List.length (filter g l) < List.length (filter f l).
Proof.
  intros H. induction l as [|x l IH]; intros Hi Hf Hg; [contradiction|].
  simpl. destruct Hi as [->|Hi].
  - rewrite Hf, Hg. simpl.
    pose proof (filter_length_le f g l H). lia.
  - specialize (IH Hi Hf Hg). destruct (g x) eqn:Eg.
    + rewrite (H x Eg). simpl. lia.
    + destruct (f x); simpl; lia.
Qed.

Lemma unseen_add keys seen next :
  In next keys -> primitive next = true -> Set_has seen next = false ->
  unseen keys (Set_add seen next) < unseen keys seen.
Proof.
  intros Hi Hp Hs. unfold unseen. apply filter_length_lt with (a := next).
  - intros x Hx. apply negb_true_iff in Hx. apply negb_true_iff.
    destruct (Set_has seen x) eqn:E; [|reflexivity].
    now rewrite (Set_has_add_mono seen next x E) in Hx.
  - exact Hi.
  - now rewrite Hs.
  - rewrite Set_has_add_new, sameValueZero_refl, orb_true_r by assumption.
    reflexivity.
Qed.

Lemma unseen_nil keys : unseen keys [] = List.length keys.
Proof.
  unfold unseen. induction keys as [|k keys IH]; simpl; [reflexivity|].
  f_equal. exact IH.
Qed.

Section FiniteCursors.

Variable env : Env.
Variables report tenant path : string.
Variable params : list (string * json).

(** Every next-cursor of the upstream is one of [keys], and compares by
    value. *)
Variable keys : list json.
Hypothesis cursors_from_keys : forall w rq data k,
  portal env w rq = Body data -> nextStartKey data = Some k ->
  primitive k = true /\ In k keys.

Lemma while_ends fuel : forall s w r s' w',
  unseen keys (seenStartKeys s) < fuel ->
  whileTrue fuel (fetchReport_turn env report tenant path params) s w
    = (r, s', w') ->
  r <> OutOfFuel
  /\ unseen keys (seenStartKeys s') <= unseen keys (seenStartKeys s).
Proof.
  induction fuel as [|fuel IH]; intros s w r s' w' Hlt H; [lia|].
  simpl in H. unfold bind, ret in H.
  destruct (fetchReport_turn env report tenant path params s w)
    as [[r1 s1] w1] eqn:E.
  apply Driver.turn_cases in E.
  destruct E as [(e & -> & -> & _)
                |(token & data & chunk & Hg & _ & -> & Hf)].
  - injection H as <- <- <-. split; [discriminate|lia].
  - apply Driver.followCursor_cases in Hf.
    destruct Hf as (_ & _ & [(-> & next & Hn & _ & Hh & _ & Hs)
                            |(-> & _ & Hs & _)]).
    + destruct (cursors_from_keys _ _ _ _ Hg Hn) as [Hp Hi].
      cbn [seenStartKeys push_out] in *.
      pose proof (unseen_add keys _ next Hi Hp Hh) as Hd.
      rewrite <- Hs in Hd.
      assert (Hlt' : unseen keys (seenStartKeys s1) < fuel) by lia.
      destruct (IH _ _ _ _ _ Hlt' H) as [Hr Hle].
      split; [exact Hr|lia].
    + injection H as <- <- <-. cbn [seenStartKeys push_out] in *.
      split; [discriminate|]. rewrite Hs. lia.
Qed.

Lemma retrying_ends fuel n : forall attempt delay s w r s' w',
  unseen keys (seenStartKeys s) < fuel ->
  retrying n attempt delay
    (whileTrue fuel (fetchReport_turn env report tenant path params)) s w
    = (r, s', w') ->
  r <> OutOfFuel.
Proof.
  induction n as [|n IH]; intros attempt delay s w r s' w' Hlt H; simpl in H.
  - unfold ret in H. injection H as <- <- <-. discriminate.
  - unfold tryCatch, bind, ret, raise in H.
    destruct (whileTrue fuel _ s w) as [[r1 s1] w1] eqn:E.
    destruct (while_ends _ _ _ _ _ _ Hlt E) as [Hr Hle].
    destruct r1 as [[]|e|]; [| |congruence].
    + injection H as <- <- <-. discriminate.
    + destruct (Nat.eqb attempt _).
      * injection H as <- <- <-. discriminate.
      * unfold sleep in H. cbv beta iota in H.
        eapply IH; [|exact H]. lia.
Qed.

End FiniteCursors.

(** *** The offset loop of the multi-page aggregator *)

Lemma offsetPage_counts env report tenant params totalLimit n :
  forall s w r s' w',
    pageCount s = n ->
    offsetPage env report tenant params totalLimit s w = (r, s', w') ->
    pageCount s' = S n.
Proof.
  intros s w r s' w' Hn H. unfold offsetPage, bind at 1, modifyL at 1 in H.
  revert H.
  apply (Keeps.preserves_tryCatch (fun s => pageCount s = S n)).
  - apply Keeps.preserves_bind; [apply Keeps.preserves_getL|].
    intros s0. apply Keeps.preserves_bind; [apply Keeps.preserves_call|].
    intros pageData.
    assert (Hd : forall l k, preserves (fun s => pageCount s = S n)
                               (dedupPage l k)).
    { induction l as [|x l IH]; intros k; simpl; auto 10 with keeps. }
    unfold afterPage. destruct pageData as [[|x l]|]; auto 20 with keeps.
  - intros e. auto 10 with keeps.
  - simpl. now rewrite Hn.
Qed.

Lemma offsetLoop_ends env report tenant params totalLimit fuel :
  forall s w,
    5 <= fuel + pageCount s ->
    fst (fst (offsetLoop fuel env report tenant params totalLimit s w))
      <> OutOfFuel
    /\ (pageCount s <= 5 ->
        pageCount
          (snd (fst (offsetLoop fuel env report tenant params totalLimit
                       s w))) <= 5).
Proof.
  induction fuel as [|fuel IH]; intros s w Hf; simpl;
    unfold bind, getL; unfold offsetLoopTest.
  - destruct (recordCount s <? totalLimit)%Z, (hasMoreData s); simpl;
      try (split; [discriminate|auto]).
    destruct (Nat.ltb_spec (pageCount s) 5); [lia|].
    simpl. split; [discriminate|auto].
  - destruct ((recordCount s <? totalLimit)%Z && hasMoreData s) eqn:Et;
      simpl; [|split; [discriminate|auto]].
    destruct (Nat.ltb_spec (pageCount s) 5); simpl;
      [|split; [discriminate|auto]].
    destruct (offsetPage env report tenant params totalLimit s w)
      as [[r1 s1] w1] eqn:E.
    pose proof (Total.total_offsetPage env report tenant params totalLimit
                  s w) as T. rewrite E in T. simpl in T.
    pose proof (offsetPage_counts _ _ _ _ _ _ _ _ _ _ _ eq_refl E) as Hc.
    destruct r1 as [[]|e|]; simpl; try congruence.
    + assert (Hf' : 5 <= fuel + pageCount s1) by lia.
      destruct (IH s1 w1 Hf') as [H1 H2].
      split; [exact H1|]. intros _. apply H2. lia.
    + split; [discriminate|]. intros _. unfold ret. simpl. lia.
    + split; [discriminate|]. intros _. lia.
Qed.

Lemma total_offsetLoop env report tenant params totalLimit :
  total (offsetLoop 5 env report tenant params totalLimit).
Proof.
  intros s w.
  destruct (offsetLoop_ends env report tenant params totalLimit 5 s w)
    as [H _]; [lia|exact H].
Qed.

(** Once the range is cut into sub-windows, the rest of the aggregation
    ends. *)
Lemma total_finishMultiPage fuel env report tenant params totalLimit :
  timeChunks fuel params <> None ->
  total (finishMultiPage fuel env report tenant params totalLimit).
Proof.
  intros Hc. unfold finishMultiPage, fetchWithTimeSlicing.
  destruct (timeChunks fuel params) as [chunks|]; [|congruence].
  auto 20 using total_sliceLoop with total.
Qed.

Lemma timeSlicingTest_no_range params totalLimit s :
  truthy_opt (assoc "startDate" params) && truthy_opt (assoc "endDate" params)
  = false ->
  timeSlicingTest params totalLimit s = false.
Proof.
  intros H. unfold timeSlicingTest. rewrite <- !andb_assoc, H.
  now rewrite !andb_false_r.
Qed.

(** For a range the code cuts, or when it has none to cut, the rest of
    the aggregation ends, given fuel for the cutting. *)
Lemma finishMultiPage_ends env report tenant params totalLimit :
  Terms.Cuttable params ->
  exists fuel0, forall fuel, fuel0 <= fuel ->
    total (finishMultiPage fuel env report tenant params totalLimit).
Proof.
  intros [Hno|(s & e & Hs & He & Hd & Hr)].
  - exists 0. intros fuel _ s w. unfold finishMultiPage, bind, getL.
    rewrite (timeSlicingTest_no_range _ _ _ Hno). simpl. discriminate.
  - destruct (TimeSlicing.timeChunks_cut params s e Hs He Hd Hr)
      as (chunks & Hc & _).
    exists (Z.to_nat (e - s)). intros fuel Hf.
    apply total_finishMultiPage. rewrite (Hc fuel Hf). discriminate.
Qed.

(** Over a range of 1 to 3 seconds the rest of the aggregation never
    ends once it comes to time slicing: the range is cut with a step
    of 0. *)
Lemma finishMultiPage_stuck fuel env report tenant params totalLimit s w
    startTime endTime :
  assoc "startDate" params = Some (JNum startTime) ->
  assoc "endDate" params = Some (JNum endTime) ->
  (1 <= endTime - startTime <= 3)%Z ->
  timeSlicingTest params totalLimit s = true ->
  fst (fst (finishMultiPage fuel env report tenant params totalLimit s w))
  = OutOfFuel.
Proof.
  intros Hs He Hr Ht. unfold finishMultiPage, bind at 1, getL at 1.
  rewrite Ht. unfold bind at 1, bind at 1, call, fetchWithTimeSlicing.
  rewrite (TimeSlicing.timeChunks_stuck params startTime endTime fuel Hs He Hr).
  reflexivity.
Qed.

(** *** The endless upstream *)

Lemma numeral_truthy n : truthy (JStr (string_of_N n)) = true.
Proof.
  pose proof (isDigits_string_of_N n) as H. unfold isDigits in H.
  apply andb_true_iff in H. destruct H as [H _]. exact H.
Qed.

Lemma endless_turn report tenant path params n s w r s' w' :
  EndlessAt n s w ->
  fetchReport_turn Scenarios.endless report tenant path params s w
    = (r, s', w') ->
  r = Return true /\ EndlessAt (S n) s' w'.
Proof.
  intros (Hg & Hseen & Hkey) H.
  unfold fetchReport_turn, bind, getL, getPortalToken, axios_get in H.
  cbn [Scenarios.endless Scenarios.upstream portalToken portal] in H.
  change (gets (EvToken tenant (inr "token") :: w)) with (gets w) in H.
  rewrite Hg in H. unfold liftE at 1 in H.
  change (payloadChunk
            (Scenarios.page [] (Some (string_of_N (N.of_nat n)))))
    with (@inr Error _ (@nil json)) in H.
  unfold ret at 1, modifyL at 1 in H. cbv beta iota in H.
  apply Driver.followCursor_cases in H.
  assert (Hn : nextStartKey
                 (Scenarios.page [] (Some (string_of_N (N.of_nat n))))
               = Some (JStr (string_of_N (N.of_nat n)))).
  { unfold nextStartKey, Scenarios.page.
    change (prop (JObj [("data", JArr []);
                        ("next_start_key",
                         JStr (string_of_N (N.of_nat n)))])
              "next_start_key")
      with (Some (JStr (string_of_N (N.of_nat n)))).
    cbv beta iota. now rewrite numeral_truthy. }
  rewrite Hn in H. cbn [seenStartKeys startKey push_out] in H.
  destruct H as (-> & _ & [(-> & next & [= <-] & _ & Hh & Hk & Hs)
                          |(-> & _ & _ & [Hc|(next & [= <-] & Hc)])]).
  - split; [reflexivity|]. split; [|split].
    + unfold gets. simpl. unfold gets in Hg. now rewrite Hg.
    + intros v Hv. rewrite Hs, Set_has_add_new in Hv by assumption.
      apply orb_true_iff in Hv. destruct Hv as [Hv|Hv].
      * destruct (Hseen v Hv) as (i & Hi & ->). exists i. split; [lia|auto].
      * apply sameValueZero_eq in Hv. subst v. exists n. split; [lia|auto].
    + intros v Hv. rewrite Hk in Hv. injection Hv as <-.
      exists n. split; [lia|reflexivity].
  - discriminate.
  - exfalso. destruct Hc as [Hc|Hc].
    + destruct (Hseen _ Hc) as (i & Hi & He). injection He as He.
      apply string_of_N_inj in He. lia.
    + unfold strictEq in Hc. destruct (startKey s) as [v|] eqn:Ev;
        [|discriminate].
      destruct (Hkey v eq_refl) as (i & Hi & ->). simpl in Hc.
      apply String.eqb_eq, string_of_N_inj in Hc. lia.
Qed.

Lemma endless_while report tenant path params fuel : forall n s w,
  EndlessAt n s w ->
  fst (fst (whileTrue fuel
              (fetchReport_turn Scenarios.endless report tenant path params)
              s w)) = OutOfFuel.
Proof.
  induction fuel as [|fuel IH]; intros n s w Hat; [reflexivity|].
  simpl. unfold bind.
  destruct (fetchReport_turn Scenarios.endless report tenant path params s w)
    as [[r1 s1] w1] eqn:E.
  destruct (endless_turn _ _ _ _ _ _ _ _ _ _ Hat E) as [-> Hat'].
  now apply (IH (S n)).
Qed.

Lemma endless_run fuel :
  fst (fst (fetchReport_pagination fuel Scenarios.endless "cdrs" "acme" []
              Driver_init [])) = OutOfFuel.
Proof.
  unfold fetchReport_pagination.
  change (ENDPOINTS "cdrs") with (Some "/api/v2/reports/cdrs/all").
  unfold bind, MAX_RETRIES, retrying, tryCatch, bind.
  pose proof (endless_while "cdrs" "acme" "/api/v2/reports/cdrs/all" []
                fuel 0 Driver_init []) as H.
  destruct (whileTrue fuel _ Driver_init []) as [[r1 s1] w1].
  simpl in H. rewrite H by (repeat split; simpl; intros; discriminate).
  reflexivity.
Qed.

End Termination.




(* ===================================================================== *)
(** ** Deduplication in the multi-page aggregator *)
(* ===================================================================== *)

Module Dedup.
Import JS Net Net.Notations ReportFetcher Vocabulary JSFacts Total Keeps.

Lemma ForallOrdPairs_snoc {A} (R : A -> A -> Prop) l x :
  ForallOrdPairs R l -> (forall y, In y l -> R y x) ->
  ForallOrdPairs R (l ++ [x]).
Proof.
  induction 1 as [|a l Ha Hl IH]; intros Hx; simpl.
  - repeat constructor.
  - constructor.
    + apply Forall_app. split; [exact Ha|].
      constructor; [apply Hx; now left|constructor].
    + apply IH. intros y Hy. apply Hx. now right.
Qed.

Lemma ForallOrdPairs_firstn {A} (R : A -> A -> Prop) l : forall n,
  ForallOrdPairs R l -> ForallOrdPairs R (firstn n l).
Proof.
  induction l as [|a l IH]; intros n H; [now rewrite firstn_nil|].
  destruct n as [|n]; simpl; [constructor|].
  inversion H as [|? ? Ha Hl]; subst. constructor; [|auto].
  rewrite Forall_forall in *. intros y Hy. apply Ha.
  revert Hy. clear. revert n. induction l as [|b l IH]; intros n Hy.
  - now rewrite firstn_nil in Hy.
  - destruct n; simpl in *; [contradiction|].
    destruct Hy as [->|Hy]; [now left|right; eauto].
Qed.

Lemma ForallOrdPairs_slice0 n records :
  ForallOrdPairs distinctIds records ->
  ForallOrdPairs distinctIds (slice0 n records).
Proof.
  intros H. unfold slice0.
  destruct (n <? 0)%Z; now apply ForallOrdPairs_firstn.
Qed.

Lemma Set_has_snoc_false seen k k' :
  Set_has (seen ++ [k]) k' = false ->
  Set_has seen k' = false /\ sameValueZero k' k = false.
Proof.
  rewrite Set_has_app. simpl. rewrite orb_false_r.
  apply orb_false_iff.
Qed.

(** Retaining a record whose key was not seen keeps the invariant. *)
Lemma Deduplicated_keep record recordId s :
  recordIdOf record = inr recordId ->
  Set_has (seenRecords s) recordId = false ->
  Deduplicated s -> Deduplicated (keep record recordId s).
Proof.
  intros Hid Hnew [Hd Hs]. unfold Deduplicated, keep. simpl.
  rewrite (Set_add_new _ _ Hnew). split.
  - apply ForallOrdPairs_snoc; [exact Hd|].
    intros y Hy. destruct (Hs y Hy) as (k & Hk & Hk').
    exists k, recordId. auto.
  - intros r Hr. apply in_app_or in Hr. destruct Hr as [Hr|[<-|[]]].
    + destruct (Hs r Hr) as (k & Hk & Hk'). exists k. split; [exact Hk|].
      intros k' Hf. apply Set_has_snoc_false in Hf. now apply Hk'.
    + exists recordId. split; [exact Hid|].
      intros k' Hf. apply Set_has_snoc_false in Hf.
      rewrite sameValueZero_sym. tauto.
Qed.

(** The two loops are the same loop but for the name of their counter;
    so is their proof, by induction on the batch. *)
Ltac merge_loop batch :=
  let x := fresh "x" in
  let IH := fresh "IH" in
  let n := fresh "n" in
  let s := fresh "s" in
  let w := fresh "w" in
  let r := fresh "r" in
  let s' := fresh "s'" in
  let w' := fresh "w'" in
  let H := fresh "H" in
  let e := fresh "e" in
  let k := fresh "k" in
  let Ek := fresh "Ek" in
  let Eh := fresh "Eh" in
  let Hd := fresh "Hd" in
  let added := fresh "added" in
  let Ha := fresh "Ha" in
  let Hin := fresh "Hin" in
  let Hr := fresh "Hr" in
  induction batch as [|x batch IH]; intros n s w r s' w' H; simpl in H;
  [ injection H as <- <- <-; split; [reflexivity|]; split; [auto|];
    exists []; rewrite app_nil_r; repeat split; try contradiction;
    match goal with
    | Hn : Return _ = Return _ |- _ => injection Hn as <-; simpl; lia
    end
  | unfold bind, liftE, getL, modifyL in H;
    destruct (recordIdOf x) as [e|k] eqn:Ek;
    [ injection H as <- <- <-; split; [reflexivity|]; split; [auto|];
      exists []; rewrite app_nil_r; repeat split; try contradiction;
      discriminate
    | simpl in H; destruct (Set_has (seenRecords s) k) eqn:Eh; simpl in H;
      destruct (IH _ _ _ _ _ _ H) as (-> & Hd & added & Ha & Hin & Hr);
      (split; [reflexivity|]);
      [ split; [exact Hd|];
        exists added; split; [exact Ha|];
        split; [intros; right; auto|];
        simpl; rewrite Ek, Eh; exact Hr
      | split; [intros D; apply Hd; now apply Deduplicated_keep|];
        exists (x :: added); simpl in Ha; rewrite <- app_assoc in Ha;
        split; [exact Ha|];
        split; [intros y [<-|Hy]; [now left|right; auto]|];
        let n' := fresh "n'" in
        let Hn' := fresh "Hn'" in
        let Hf := fresh "Hf" in
        intros n' Hn'; destruct (Hr n' Hn') as [-> Hf];
        split; [simpl; lia|]; simpl firstSeen; rewrite Ek, Eh; f_equal;
        rewrite Hf; simpl; now rewrite (Set_add_new _ _ Eh) ] ] ].

Lemma dedupPage_merged batch : forall n s w r s' w',
  dedupPage batch n s w = (r, s', w') -> Merged batch n s w r s' w'.
Proof. merge_loop batch. Qed.

Lemma mergeTimeSlices_merged batch : forall n s w r s' w',
  mergeTimeSlices batch n s w = (r, s', w') -> Merged batch n s w r s' w'.
Proof. merge_loop batch. Qed.

Lemma dedupPage_preserves batch n : preserves Deduplicated (dedupPage batch n).
Proof.
  intros s w r s' w' D H. apply dedupPage_merged in H.
  destruct H as (_ & Hd & _). auto.
Qed.

Lemma mergeTimeSlices_preserves batch n :
  preserves Deduplicated (mergeTimeSlices batch n).
Proof.
  intros s w r s' w' D H. apply mergeTimeSlices_merged in H.
  destruct H as (_ & Hd & _). auto.
Qed.

#[export] Hint Resolve dedupPage_preserves mergeTimeSlices_preserves : keeps.

Lemma offsetPage_preserves env report tenant params totalLimit :
  preserves Deduplicated (offsetPage env report tenant params totalLimit).
Proof. unfold offsetPage, afterPage. auto 20 with keeps. Qed.

Lemma offsetLoop_preserves env report tenant params totalLimit fuel :
  preserves Deduplicated
    (offsetLoop fuel env report tenant params totalLimit).
Proof.
  induction fuel as [|fuel IH]; simpl;
    auto 10 using offsetPage_preserves with keeps.
Qed.

Lemma finishMultiPage_preserves fuel env report tenant params totalLimit :
  preserves Deduplicated
    (finishMultiPage fuel env report tenant params totalLimit).
Proof. unfold finishMultiPage. auto 20 with keeps. Qed.

Lemma Deduplicated_init : Deduplicated MultiPage_init.
Proof. split; simpl; [constructor|contradiction]. Qed.

(** What [fetchReportMultiPage] returns is cut from the accumulated
    records. *)
Lemma fetchReportMultiPage_result fuel env report tenant params totalLimit
    w result s' w' :
  fetchReportMultiPage fuel env report tenant params totalLimit
    MultiPage_init w = (Return result, s', w') ->
  Deduplicated s' /\ result = slice0 totalLimit (allRecords s').
Proof.
  intros H. split.
  - revert H. apply preserves_bind; intros;
      auto using offsetLoop_preserves, finishMultiPage_preserves,
        Deduplicated_init.
  - unfold fetchReportMultiPage, bind at 1 in H.
    destruct (offsetLoop 5 env report tenant params totalLimit
                MultiPage_init w) as [[[[]|e|] s1] w1];
      try discriminate.
    unfold finishMultiPage, bind at 1, getL at 1, bind at 1 in H.
    match type of H with
    | context [match ?x with _ => _ end] =>
        destruct x as [[[[]|e|] s2] w2]; try discriminate
    end.
    unfold bind, getL, ret in H. now injection H as <- <- <-.
Qed.

(** The identity of the source is the one of the design's words. *)
Lemma compositeId_composite record : compositeId record = JStr (composite record).
Proof.
  unfold compositeId, composite, fieldText, orEmpty. simpl String.concat.
  repeat match goal with
         | |- context [prop record ?k] => destruct (prop record k) as [[]|]
         end; reflexivity.
Qed.

Lemma recordIdOf_identity record :
  record <> JNull -> recordIdOf record = inr (derivedIdentity record).
Proof.
  intros H. unfold recordIdOf, derivedIdentity.
  rewrite compositeId_composite.
  destruct record; try congruence;
    match goal with
    | |- context [match ?x with _ => _ end] => destruct x as [id|]
    end; try destruct (truthy id); reflexivity.
Qed.

Lemma recordIdOf_inr record k :
  recordIdOf record = inr k -> record <> JNull /\ k = derivedIdentity record.
Proof.
  intros H. assert (Hn : record <> JNull) by (intros ->; discriminate H).
  split; [exact Hn|]. rewrite (recordIdOf_identity _ Hn) in H. congruence.
Qed.

Lemma distinctIds_identity r1 r2 :
  distinctIds r1 r2 <->
  r1 <> JNull /\ r2 <> JNull /\ ~ sameIdentity r1 r2.
Proof.
  unfold distinctIds, sameIdentity. split.
  - intros (k1 & k2 & H1 & H2 & Hv).
    apply recordIdOf_inr in H1, H2. destruct H1 as [N1 ->], H2 as [N2 ->].
    repeat split; auto. congruence.
  - intros (N1 & N2 & Hv).
    exists (derivedIdentity r1), (derivedIdentity r2).
    repeat split; try now apply recordIdOf_identity.
    destruct (sameValueZero _ _); congruence.
Qed.

Lemma ForallOrdPairs_impl {A} (R S : A -> A -> Prop) l :
  (forall a b, R a b -> S a b) -> ForallOrdPairs R l -> ForallOrdPairs S l.
Proof.
  intros H. induction 1 as [|a l Ha _ IH]; constructor; auto.
  eapply Forall_impl; [|exact Ha]. auto.
Qed.

Lemma sameCall_sameIdentity r1 r2 : Terms.sameCall r1 r2 -> sameIdentity r1 r2.
Proof.
  unfold Terms.sameCall, Terms.callId, PostProcessing.whenTruthy,
    sameIdentity, derivedIdentity.
  intros (ka & kb & Ha & Hb & Hv).
  destruct (prop r1 "call_id") as [a|]; [|discriminate].
  destruct (truthy a); [|discriminate]. injection Ha as ->.
  destruct (prop r2 "call_id") as [b|]; [|discriminate].
  destruct (truthy b); [|discriminate]. injection Hb as ->.
  exact Hv.
Qed.

Lemma firstn_incl {A} (l : list A) : forall n x, In x (firstn n l) -> In x l.
Proof.
  induction l as [|a l IH]; intros n x H; [now rewrite firstn_nil in H|].
  destruct n as [|n]; simpl in H; [contradiction|].
  destruct H as [->|H]; [now left|right; eauto].
Qed.

Lemma slice0_In n records r : In r (slice0 n records) -> In r records.
Proof.
  unfold slice0. destruct (n <? 0)%Z; apply firstn_incl.
Qed.

End Dedup.

(** C4, as the code has it.  The derived identity of a record is its
    [call_id] when that is truthy, and otherwise the text made of its
    caller number, its callee number, its [timestamp] and its
    [called_time], each empty when missing or falsy; identities are
    compared as a [Set] compares its elements.  No two records of the
    result of the multi-page aggregator share a derived identity, none
    of them is [null], and so no two of them name the same call.  Both
    loops that merge fetched records into the accumulated ones, the one
    of the offset pages and the one of the time slices, work on the
    same seen keys and do the same: they leave the accumulated records
    in place and append, of the records of the batch, those whose
    identity was not seen before, the first copy only; and they always
    end. *)
Theorem multi_page_keeps_first_copy :
  (forall record,
     record <> JS.JNull ->
     ReportFetcher.recordIdOf record
     = inr (Vocabulary.derivedIdentity record))
  /\ (forall fuel env report tenant params totalLimit w result s' w',
        ReportFetcher.fetchReportMultiPage fuel env report tenant params
          totalLimit ReportFetcher.MultiPage_init w
        = (Net.Return result, s', w') ->
        ForallOrdPairs (fun r1 r2 => ~ Vocabulary.sameIdentity r1 r2) result
        /\ ForallOrdPairs (fun r1 r2 => ~ Terms.sameCall r1 r2) result
        /\ Forall (fun r => r <> JS.JNull) result)
  /\ (forall batch n s w r s' w',
        ReportFetcher.dedupPage batch n s w = (r, s', w') ->
        Vocabulary.Merged batch n s w r s' w')
  /\ (forall batch n s w r s' w',
        ReportFetcher.mergeTimeSlices batch n s w = (r, s', w') ->
        Vocabulary.Merged batch n s w r s' w')
  /\ (forall batch n,
        Vocabulary.total (ReportFetcher.dedupPage batch n)
        /\ Vocabulary.total (ReportFetcher.mergeTimeSlices batch n)).
Proof.
  split; [|split; [|split; [|split]]].
  - exact Dedup.recordIdOf_identity.
  - intros fuel env report tenant params totalLimit w result s' w' H.
    apply Dedup.fetchReportMultiPage_result in H.
    destruct H as [[Hd Hs] ->].
    assert (Hp : ForallOrdPairs
                   (fun r1 r2 => ~ Vocabulary.sameIdentity r1 r2)
                   (ReportFetcher.slice0 totalLimit
                      (ReportFetcher.allRecords s'))).
    { apply (Dedup.ForallOrdPairs_impl Vocabulary.distinctIds).
      - intros a b Hab. now apply Dedup.distinctIds_identity in Hab.
      - now apply Dedup.ForallOrdPairs_slice0. }
    split; [exact Hp|split].
    + eapply Dedup.ForallOrdPairs_impl; [|exact Hp].
      intros a b Hab Hc. apply Hab. now apply Dedup.sameCall_sameIdentity.
    + apply Forall_forall. intros r Hr. apply Dedup.slice0_In in Hr.
      destruct (Hs r Hr) as (k & Hk & _). intros ->. discriminate Hk.
  - intros. now apply Dedup.dedupPage_merged.
  - intros. now apply Dedup.mergeTimeSlices_merged.
  - intros batch n. split;
      [apply Total.total_dedupPage|apply Total.total_mergeTimeSlices].
Qed.

Lemma multi_page_keeps_first_copy_witness :
  ForallOrdPairs (fun r1 r2 => ~ Vocabulary.sameIdentity r1 r2)
    [Scenarios.record 1; Scenarios.record 2]
  /\ ReportFetcher.recordIdOf (Scenarios.leg 1)
     = inr (JS.JStr "300_400_5_1").
Proof.
  split.
  - refine (proj1 (proj1 (proj2 multi_page_keeps_first_copy) 0
                     Scenarios.duplicating "cdrs" "acme" [] 501%Z [] _ _ _
                     _)).
    vm_compute. reflexivity.
  - refine (proj1 multi_page_keeps_first_copy (Scenarios.leg 1) _).
    discriminate.
Defined.

(** C4 as stated fails: two records whose [call_id] is present and
    the same, the empty string, are both retained, as a [call_id] that
    is not truthy is not the identity; and so are two records without
    a [call_id] that agree on the caller number, the callee number and
    the [timestamp], as the composite holds their [called_time] too. *)
Lemma lookalike_records_both_kept :
  fst (fst (ReportFetcher.fetchReportMultiPage 0 Scenarios.lookalikes "cdrs"
              "acme" [] 501 ReportFetcher.MultiPage_init []))
  = Net.Return [Scenarios.unnamed "100"; Scenarios.unnamed "200";
                Scenarios.leg 1; Scenarios.leg 2]
  /\ JS.prop (Scenarios.unnamed "100") "call_id" = Some (JS.JStr "")
  /\ JS.prop (Scenarios.unnamed "200") "call_id" = Some (JS.JStr "")
  /\ JS.prop (Scenarios.leg 1) "call_id" = None
  /\ JS.prop (Scenarios.leg 2) "call_id" = None
  /\ Forall (fun field =>
               JS.prop (Scenarios.leg 1) field
               = JS.prop (Scenarios.leg 2) field)
       ["caller_id_number"; "callee_id_number"; "timestamp"].
Proof. vm_compute. repeat split; repeat constructor. Qed.

(** A duplicate page and overlapping time slices: one copy of each call
    comes out, in the order they were first seen. *)
Example overlapping_slices_merged :
  fst (fst (ReportFetcher.fetchReportMultiPage 10 Scenarios.overlapping
              "cdrs" "acme" Scenarios.sixteenHours 501
              ReportFetcher.MultiPage_init []))
  = Net.Return [Scenarios.record 1; Scenarios.record 2; Scenarios.record 3].
Proof. vm_compute. reflexivity. Qed.

(* ===================================================================== *)
(** ** Page failures in the multi-page aggregator *)
(* ===================================================================== *)

Module Failures.
Import JS Net Net.Notations ReportFetcher Vocabulary JSFacts.

(** A turn of the offset loop whose page fetch fails. *)
Lemma offsetPage_failure env report tenant params totalLimit s w e u w1 :
  fetchReportSinglePage env report tenant (pageRequest params totalLimit s)
    (Some (pageLimit totalLimit s)) tt w = (Raise e, u, w1) ->
  offsetPage env report tenant params totalLimit s w
  = if (pageCount s =? 0)%nat
    then (Raise e, set_pageCount (S (pageCount s)) s, w1)
    else (Return Next, afterFailedPage s, w1).
Proof.
  intros H. unfold offsetPage, bind, modifyL, tryCatch, getL, call.
  change (recordCount (set_pageCount (S (pageCount s)) s))
    with (recordCount s).
  change (currentOffset (set_pageCount (S (pageCount s)) s))
    with (currentOffset s).
  unfold pageRequest, pageLimit in H. rewrite H. unfold afterFailedPage.
  cbn [pageCount set_pageCount].
  destruct (pageCount s) as [|[|n]]; reflexivity.
Qed.

Lemma offsetLoop_done fuel env report tenant params totalLimit s w :
  offsetLoopTest totalLimit s = false ->
  offsetLoop fuel env report tenant params totalLimit s w
  = (Return tt, s, w).
Proof.
  intros H. destruct fuel; simpl; unfold bind, getL; now rewrite H.
Qed.

Lemma slice0_all n records :
  (Z.of_nat (List.length records) <= n)%Z -> slice0 n records = records.
Proof.
  intros H. unfold slice0. destruct (Z.ltb_spec n 0); [lia|].
  apply firstn_all2. lia.
Qed.

Lemma slice0_prefix n l1 l2 :
  (Z.of_nat (List.length l1) <= n)%Z ->
  exists extra, slice0 n (l1 ++ l2) = l1 ++ extra.
Proof.
  intros H. unfold slice0. destruct (Z.ltb_spec n 0); [lia|].
  rewrite firstn_app. rewrite firstn_all2 by lia. eauto.
Qed.

(** What follows the offset loop returns the accumulated records,
    with what time slicing appended to them. *)
Lemma finishMultiPage_result fuel env report tenant params totalLimit s w
    result s' w' :
  (recordCount s <= totalLimit)%Z ->
  finishMultiPage fuel env report tenant params totalLimit s w
    = (Return result, s', w') ->
  (exists extra, result = allRecords s ++ extra)
  /\ (timeSlicingTest params totalLimit s = false ->
      result = allRecords s /\ s' = s /\ w' = w).
Proof.
  intros Hle H. unfold finishMultiPage, bind at 1, getL at 1 in H.
  destruct (timeSlicingTest params totalLimit s) eqn:Et.
  - split; [|discriminate]. unfold bind at 1, bind at 1, call in H.
    destruct (fetchWithTimeSlicing _ _ _ _ _ _ _ [] w)
      as [[[recs|e|] l1] w1]; try discriminate.
    unfold bind at 1 in H.
    destruct (mergeTimeSlices recs 0 s w1) as [[r2 s2] w2] eqn:Em.
    apply Dedup.mergeTimeSlices_merged in Em.
    destruct Em as (_ & _ & added & Ha & _).
    destruct r2; try discriminate.
    unfold ret, bind, getL in H. injection H as <- <- <-.
    rewrite Ha. now apply slice0_prefix.
  - unfold bind, ret, getL in H. injection H as <- <- <-.
    rewrite slice0_all by exact Hle.
    split; [exists []; now rewrite app_nil_r|auto].
Qed.

(** Time slicing does not fail on a sub-window that cannot be fetched. *)
Lemma sliceLoop_returns env report tenant params remainingLimit chunks :
  forallb Terms.datable chunks = true ->
  forall records w,
    fst (fst (sliceLoop env report tenant params remainingLimit chunks
                records w)) = Return tt.
Proof.
  induction chunks as [|chunk rest IH]; intros Hd records w; [reflexivity|].
  cbn [forallb] in Hd. apply andb_true_iff in Hd. destruct Hd as [Hd Hrest].
  specialize (IH Hrest).
  cbn [sliceLoop]. unfold bind at 1, getL. cbv beta iota.
  destruct (Z.of_nat (List.length records) <? remainingLimit)%Z;
    [|reflexivity].
  unfold Terms.datable in Hd. fold (validTime (startDate chunk)) in Hd.
  fold (validTime (endDate chunk)) in Hd. rewrite Hd.
  unfold bind at 1, ret at 1. cbv beta iota.
  unfold bind at 1, tryCatch, bind at 1.
  match goal with
  | |- context [call ?m tt records w] =>
      pose proof (Total.total_call m tt
                    (Total.total_fetchReportSinglePage _ _ _ _ _)
                    records w) as Ht;
      destruct (call m tt records w) as [[r1 l1] w1]
  end.
  simpl in Ht.
  destruct r1 as [[[|x more]|]|e|]; cbn; try apply IH. congruence.
Qed.

Lemma recordIdOf_some r : r <> JNull -> exists k, recordIdOf r = inr k.
Proof.
  intros H. unfold recordIdOf. destruct r; try congruence;
    match goal with
    | |- context [match ?x with _ => _ end] => destruct x as [id|]
    end; try destruct (truthy id); eauto.
Qed.

Lemma mergeTimeSlices_returns batch : forall n s w,
  Forall (fun r => r <> JNull) batch ->
  exists n' s',
    mergeTimeSlices batch n s w = (Return n', s', w)
    /\ allRecords s' = allRecords s ++ firstSeen (seenRecords s) batch.
Proof.
  intros n s w Hall.
  destruct (mergeTimeSlices batch n s w) as [[r s'] w'] eqn:E.
  pose proof (Dedup.mergeTimeSlices_merged _ _ _ _ _ _ _ E) as Hm.
  destruct Hm as (-> & _ & added & Ha & _ & Hr).
  assert (Hret : exists n', r = Return n').
  { clear Hr Ha. revert n s w r s' E.
    induction Hall as [|x batch Hx _ IH]; intros n s w r s' E; simpl in E.
    - injection E as <- _. eauto.
    - unfold bind, liftE, getL, modifyL in E.
      destruct (recordIdOf_some x Hx) as [k Hk]. rewrite Hk in E.
      simpl in E. destruct (Set_has (seenRecords s) k); simpl in E; eauto. }
  destruct Hret as [n' ->]. exists n', s'. split; [reflexivity|].
  destruct (Hr n' eq_refl) as [_ <-]. exact Ha.
Qed.

Lemma mergeTimeSlices_raises batch : forall n s w,
  In JNull batch ->
  exists s',
    mergeTimeSlices batch n s w
    = (Raise (TypeError "Cannot read properties of null (reading 'call_id')"),
       s', w).
Proof.
  induction batch as [|x batch IH]; intros n s w Hin; [contradiction|].
  simpl. unfold bind, liftE, getL, modifyL.
  destruct (recordIdOf x) as [e|k] eqn:Ek.
  - destruct x; simpl in Ek; try discriminate;
      [injection Ek as <-; eexists; reflexivity|..];
      match type of Ek with
      | context [match ?x with _ => _ end] => destruct x as [id|]
      end; try destruct (truthy id); discriminate.
  - destruct Hin as [->|Hin]; [discriminate|].
    simpl. destruct (Set_has (seenRecords s) k); simpl; apply IH; auto.
Qed.

Lemma slice0_app n l1 l2 :
  (Z.of_nat (List.length l1) <= n)%Z ->
  slice0 n (l1 ++ l2)
  = l1 ++ firstn (Z.to_nat (n - Z.of_nat (List.length l1))) l2.
Proof.
  intros H. unfold slice0. destruct (Z.ltb_spec n 0); [lia|].
  rewrite firstn_app, firstn_all2 by lia. do 2 f_equal. lia.
Qed.

Lemma fetchWithTimeSlicing_returns fuel env report tenant params
    remainingLimit seen chunks w :
  timeChunks fuel params = Some chunks ->
  forallb Terms.datable chunks = true ->
  exists recs w2,
    fetchWithTimeSlicing fuel env report tenant params remainingLimit seen
      [] w = (Return recs, recs, w2).
Proof.
  intros Hc Hd. unfold fetchWithTimeSlicing. rewrite Hc. unfold bind.
  pose proof (sliceLoop_returns env report tenant params remainingLimit
                chunks Hd [] w) as Hr.
  destruct (sliceLoop env report tenant params remainingLimit chunks [] w)
    as [[r recs] w2].
  simpl in Hr. subst r. exists recs, w2. reflexivity.
Qed.

(** What follows the offset loop when it comes to time slicing. *)
Lemma finishMultiPage_slices fuel env report tenant params totalLimit s w
    chunks :
  timeSlicingTest params totalLimit s = true ->
  timeChunks fuel params = Some chunks ->
  forallb Terms.datable chunks = true ->
  (recordCount s <= totalLimit)%Z ->
  exists recs l w2,
    fetchWithTimeSlicing fuel env report tenant params
      (totalLimit - recordCount s) (seenRecords s) [] w
    = (Return recs, l, w2)
    /\ (Forall (fun r => r <> JNull) recs ->
        exists s2,
          finishMultiPage fuel env report tenant params totalLimit s w
          = (Return (allRecords s
                     ++ firstn (Z.to_nat (totalLimit - recordCount s))
                          (firstSeen (seenRecords s) recs)), s2, w2))
    /\ (In JNull recs ->
        exists s2,
          finishMultiPage fuel env report tenant params totalLimit s w
          = (Raise (TypeError
                      "Cannot read properties of null (reading 'call_id')"),
             s2, w2)).
Proof.
  intros Ht Hc Hd Hle.
  destruct (fetchWithTimeSlicing_returns fuel env report tenant params
              (totalLimit - recordCount s) (seenRecords s) chunks w Hc Hd)
    as (recs & w2 & E).
  exists recs, recs, w2. split; [exact E|].
  split.
  - intros Hall.
    destruct (mergeTimeSlices_returns recs 0 s w2 Hall)
      as (n' & s2 & Em & Ha).
    exists s2. unfold finishMultiPage, bind, getL, call.
    rewrite Ht, E, Em. unfold ret. rewrite Ha.
    rewrite slice0_app by exact Hle. reflexivity.
  - intros Hin.
    destruct (mergeTimeSlices_raises recs 0 s w2 Hin) as (s2 & Em).
    exists s2. unfold finishMultiPage, bind, getL, call.
    rewrite Ht, E, Em. reflexivity.
Qed.

End Failures.




(* ===================================================================== *)
(** ** The limit of a request *)
(* ===================================================================== *)

Module Limits.
Import JS Net Net.Notations ReportFetcher Vocabulary Server.

Lemma slice0_length n records :
  (0 <= n)%Z -> (Z.of_nat (List.length (slice0 n records)) <= n)%Z.
Proof.
  intros H. unfold slice0. destruct (Z.ltb_spec n 0); [lia|].
  rewrite length_firstn. lia.
Qed.

(** The multi-page path cuts its result at the limit. *)
Lemma multi_page_within_limit fuel env report tenant params totalLimit w
    result s' w' :
  (0 <= totalLimit)%Z ->
  fetchReportMultiPage fuel env report tenant params totalLimit
    MultiPage_init w = (Return result, s', w') ->
  (Z.of_nat (List.length result) <= totalLimit)%Z.
Proof.
  intros H0 H. apply Dedup.fetchReportMultiPage_result in H.
  destruct H as [_ ->]. now apply slice0_length.
Qed.

Lemma recordLimitOf_clamped text n :
  text <> "" -> parseInt10 text = Some n -> (10000 < n)%Z ->
  recordLimitOf (Some text) = inr (Some 10000%Z).
Proof.
  intros Ht Hp Hn. unfold recordLimitOf, given.
  apply String.eqb_neq in Ht. rewrite Ht, Hp.
  destruct (Z.ltb_spec n 1); [lia|].
  apply Z.ltb_lt in Hn. now rewrite Hn.
Qed.

End Limits.

(** C9.  A limit that reads as a number above 10,000 is replaced by
    10,000 when the query is read, before anything is fetched: the
    request is then served, fetch after fetch and in its answer, as the
    request with the limit 10000 is.  So it is for 50,000. *)
Theorem limit_clamped_before_fetch :
  forall text n,
    text <> "" -> JS.parseInt10 text = Some n -> (10000 < n)%Z ->
    Server.recordLimitOf (Some text) = inr (Some 10000%Z)
    /\ forall Date_parse fuel env type q w,
         Server.limit q = Some text ->
         Server.reportsRoute Date_parse fuel env type q w
         = Server.reportsRoute Date_parse fuel env type
             {| Server.account := Server.account q;
                Server.start := Server.start q;
                Server.end_ := Server.end_ q;
                Server.limit := Some "10000" |} w.
Proof.
  intros text n Ht Hp Hn.
  pose proof (Limits.recordLimitOf_clamped text n Ht Hp Hn) as Hc.
  split; [exact Hc|].
  intros Date_parse fuel env type q w Hq.
  unfold Server.reportsRoute. cbn [Server.account Server.start Server.end_
                                   Server.limit].
  rewrite Hq, Hc.
  change (Server.recordLimitOf (Some "10000")) with
    (@inr string _ (Some 10000%Z)).
  reflexivity.
Qed.

Lemma limit_clamped_before_fetch_witness :
  Server.recordLimitOf (Some "50000") = inr (Some 10000%Z).
Proof.
  refine (proj1 (limit_clamped_before_fetch "50000" 50000%Z _ eq_refl _)).
  - discriminate.
  - lia.
Defined.

(** A request for 50,000 records is answered with the limit 10,000 and
    by the multi-page method. *)
Example fifty_thousand_runs_as_ten_thousand :
  fst (Server.reportsRoute Scenarios.noDate 0 Scenarios.duplicating "cdrs"
         (Scenarios.query "50000") [])
  = Some (Server.Status200 [Scenarios.record 1; Scenarios.record 2] 2
            (Some 10000%Z) (Some false) "multi-page").
Proof. vm_compute. reflexivity. Qed.

(** C3 at its failing input.  With [limit=1] the request takes the
    single-page path, which hands the limit to the upstream and returns
    what the page holds: two records when the upstream ignores the
    limit, and two as well when it sends one item that wraps two calls.
    The answer has [total = 2] for the limit 1. *)
Theorem single_page_path_exceeds_limit :
  fst (Server.reportsRoute Scenarios.noDate 0 Scenarios.generous "cdrs"
         (Scenarios.query "1") [])
  = Some (Server.Status200 [Scenarios.record 1; Scenarios.record 2] 2
            (Some 1%Z) (Some true) "single-page")
  /\ fst (Server.reportsRoute Scenarios.noDate 0 Scenarios.wrapping "cdrs"
            (Scenarios.query "1") [])
     = Some (Server.Status200 [Scenarios.record 1; Scenarios.record 2] 2
               (Some 1%Z) (Some true) "single-page").
Proof. split; vm_compute; reflexivity. Qed.
Module CsvFacts.
Import JS Net ReportFetcher Csv Terms JSFacts.

Lemma unquote_doubleQuotes s :
  unquote (doubleQuotes s ++ String quote "") = s.
Proof.
  induction s as [|c s IH]; simpl.
  - reflexivity.
  - destruct (Ascii.eqb_spec c quote) as [->|Hc]; simpl.
    + now rewrite IH.
    + apply Ascii.eqb_neq in Hc. rewrite Hc. now rewrite IH.
Qed.

Lemma includes_head s c : includes (String c s) (String c "") = true.
Proof.
  simpl. destruct (ascii_dec c c); [now destruct s | congruence].
Qed.

Lemma readCell_plain s :
  includes s (String quote "") = false -> readCell s = s.
Proof.
  destruct s as [|c s]; [reflexivity|]. intros H. simpl.
  destruct (Ascii.eqb_spec c quote) as [->|Hc]; [|reflexivity].
  now rewrite includes_head in H.
Qed.

Lemma readCell_quoted s :
  readCell (String quote (doubleQuotes s ++ String quote "")) = s.
Proof.
  unfold readCell. rewrite Ascii.eqb_refl. apply unquote_doubleQuotes.
Qed.

End CsvFacts.

(** X1.  What [toCsv] writes for a value can be read back: reading
    the cell as a quoted or a bare CSV cell gives the text of the value,
    whatever the delimiter, so that two strings are written alike only
    when they are the same string. *)
Theorem csv_cell_reads_back :
  forall delimiter v,
    Terms.readCell (Csv.csvCell delimiter v) = Terms.cellText v.
Proof.
  intros delimiter v. unfold Csv.csvCell, Terms.cellText.
  destruct v; try reflexivity;
    match goal with
    | |- context [JS.toString ?x] => generalize (JS.toString x); intros str
    end;
    (destruct (Csv.includes str delimiter || Csv.includes str Csv.newline) eqn:H1;
     cbn [orb];
     [ apply CsvFacts.readCell_quoted
     | destruct (Csv.includes str (String Csv.quote "")) eqn:H2;
       [ apply CsvFacts.readCell_quoted
       | now apply CsvFacts.readCell_plain ] ]).
Qed.
Module FlattenFacts.
Import JS Net ReportFetcher Vocabulary Csv Terms JSFacts.

Lemma setProp_keys k v l :
  map fst (setProp k v l)
  = if existsb (String.eqb k) (map fst l) then map fst l else map fst l ++ [k].
Proof.
  induction l as [|[k0 v0] rest IH]; simpl; [reflexivity|].
  rewrite (String.eqb_sym k k0).
  destruct (k0 =? k) eqn:E; simpl.
  - apply String.eqb_eq in E. now subst.
  - rewrite IH. now destruct (existsb (String.eqb k) (map fst rest)).
Qed.

Lemma existsb_eqb_In k keys : existsb (String.eqb k) keys = true <-> In k keys.
Proof.
  rewrite existsb_exists. split.
  - intros [x [Hx E]]. apply String.eqb_eq in E. now subst.
  - intros H. exists k. split; [exact H|apply String.eqb_refl].
Qed.

Lemma setProp_NoDup k v l : NoDup (map fst l) -> NoDup (map fst (setProp k v l)).
Proof.
  intros N. rewrite setProp_keys.
  destruct (existsb (String.eqb k) (map fst l)) eqn:E; [exact N|].
  apply NoDup_app; [exact N|repeat constructor; intros []|].
  intros x Hx [<-|[]].
  apply existsb_eqb_In in Hx. congruence.
Qed.

Lemma setProp_In k v l k' v' :
  In (k', v') (setProp k v l) -> (k', v') = (k, v) \/ In (k', v') l.
Proof.
  induction l as [|[k0 v0] rest IH]; simpl.
  - intros [H|[]]; now left.
  - destruct (k0 =? k); simpl.
    + intros [H|H]; [now left|right; now right].
    + intros [H|H]; [right; now left|].
      destruct (IH H); [now left|right; now right].
Qed.

Lemma setProp_fresh k v l : ~ In k (map fst l) -> setProp k v l = l ++ [(k, v)].
Proof.
  induction l as [|[k0 v0] rest IH]; simpl; intros H; [reflexivity|].
  destruct (k0 =? k) eqn:E.
  - apply String.eqb_eq in E. subst. exfalso. apply H. now left.
  - f_equal. apply IH. intros Hin. apply H. now right.
Qed.

Lemma assign_Flattened k v fl :
  Flattened fl -> atomic v = true -> Flattened (assign k v fl).
Proof.
  intros (N & A & P) Hv. unfold assign.
  destruct (k =? "__proto__") eqn:E; [now repeat split|].
  repeat split.
  - now apply setProp_NoDup.
  - intros k' v' H. apply setProp_In in H. destruct H as [[= -> ->]|H]; eauto.
  - rewrite setProp_keys.
    destruct (existsb (String.eqb k) (map fst fl)); [exact P|].
    rewrite in_app_iff. intros [H|[H|[]]]; [now apply P|].
    subst k. discriminate.
Qed.

Lemma list_max_In n l : In n l -> n <= list_max l.
Proof.
  induction l as [|x rest IH]; simpl; [intros []|].
  intros [->|H]; [lia|]. specialize (IH H). lia.
Qed.

Lemma indexFrom_In items : forall i kv,
  In kv (indexFrom i items) -> In (snd kv) items.
Proof.
  induction items as [|x rest IH]; simpl; intros i kv H; [exact H|].
  destruct H as [<-|H]; [now left|right; eauto].
Qed.

(** A value nested in [obj] is less deep than [obj]. *)
Lemma entries_depth obj kv :
  In kv (entries obj) -> isObject (snd kv) = true ->
  depth (snd kv) < depth obj.
Proof.
  destruct obj as [| | | s |items|props]; simpl; try (intros []).
  - intros H Ho. apply indexFrom_In in H. apply in_map_iff in H.
    destruct H as [c [Hc _]]. rewrite <- Hc in Ho. discriminate.
  - intros H _. apply indexFrom_In in H.
    apply Nat.lt_succ_r, list_max_In. now apply in_map.
  - intros H _. apply (Permutation_in _ (ownEntries_perm props)) in H.
    apply Nat.lt_succ_r, list_max_In.
    apply in_map_iff. now exists kv.
Qed.

Lemma depth_first first rest : depth first < depth (JArr (first :: rest)).
Proof. simpl. lia. Qed.

Lemma fold_left_option {S A} (P : S -> Prop) (f : option S -> A -> option S) l :
  (forall x s, In x l -> P s -> exists s', f (Some s) x = Some s' /\ P s') ->
  forall s, P s -> exists s', fold_left f l (Some s) = Some s' /\ P s'.
Proof.
  induction l as [|x rest IH]; intros H s Hs; simpl.
  - now exists s.
  - destruct (H x s (or_introl eq_refl) Hs) as [s1 [E1 P1]]. rewrite E1.
    apply IH; [|exact P1]. intros y t Hy. apply H. now right.
Qed.

(** With more fuel than the record is deep, [flattenObject] ends, and
    it keeps what it writes to flat. *)
Lemma flattenObject_ok fuel : forall obj prefix fl,
  depth obj < fuel -> Flattened fl ->
  exists fl', flattenObject fuel obj prefix fl = Some fl' /\ Flattened fl'.
Proof.
  induction fuel as [|fuel IH]; intros obj prefix fl Hd Hf; [lia|].
  cbn [flattenObject].
  apply (fold_left_option Flattened); [|exact Hf].
  intros [k v] s Hin Hs. cbv beta iota. cbn [fst snd].
  pose proof (entries_depth obj (k, v) Hin) as Hv. cbn [snd] in Hv.
  destruct v as [|b|n|str|items|props]; try (eexists; split;
    [reflexivity|now apply assign_Flattened]).
  - destruct items as [|first rest0];
      [eexists; split; [reflexivity|now apply assign_Flattened]|].
    destruct (isObject first) eqn:Ho;
      [|eexists; split; [reflexivity|now apply assign_Flattened]].
    destruct (IH first (newKeyOf prefix k) s) as [fl1 [E1 F1]];
      [pose proof (depth_first first rest0); specialize (Hv eq_refl); lia
      |exact Hs|].
    rewrite E1. eexists; split; [reflexivity|now apply assign_Flattened].
  - apply IH; [specialize (Hv eq_refl); lia|exact Hs].
Qed.

Lemma Flattened_nil : Flattened [].
Proof. repeat split; [constructor|intros k v []|intros []]. Qed.

Lemma flattenRecord_ok record :
  record <> JNull -> exists row, flattenRecord record = Return row /\ FlatRecord row.
Proof.
  intros Hn. unfold flattenRecord.
  destruct (flattenObject_ok (S (depth record)) record "" [])
    as [fl [E F]]; [lia|apply Flattened_nil|].
  rewrite E. destruct record; try congruence;
    (eexists; split; [reflexivity|now exists fl]).
Qed.

Lemma flattenRecord_null : exists e, flattenRecord JNull = Raise e.
Proof. eexists. reflexivity. Qed.

Lemma mapO_flattenRecord items :
  mapO flattenRecord items <> OutOfFuel
  /\ (forall rows, mapO flattenRecord items = Return rows ->
         List.length rows = List.length items /\ Forall FlatRecord rows)
  /\ ((forall r, In r items -> r <> JNull) ->
      exists rows, mapO flattenRecord items = Return rows).
Proof.
  induction items as [|r rest (IH1 & IH2 & IH3)]; simpl.
  - repeat split; try discriminate.
    + now injection H as <-.
    + injection H as <-. constructor.
    + intros _. now eexists.
  - assert (Hr : r = JNull \/ r <> JNull) by (destruct r; auto; right; discriminate).
    destruct Hr as [->|Hr].
    + simpl. repeat split; try discriminate.
      intros H. exfalso. now apply (H JNull); [left|].
    + destruct (flattenRecord_ok r Hr) as [row [E F]]. rewrite E.
      destruct (mapO flattenRecord rest) as [rows| |] eqn:Er.
      * repeat split; try discriminate.
        -- injection H as <-. simpl. f_equal. now apply IH2.
        -- injection H as <-. constructor; [exact F|now apply IH2].
        -- intros _. now eexists.
      * repeat split; try discriminate.
        intros H. destruct IH3 as [rows Hrows]; [|discriminate].
        intros x Hx. apply H. now right.
      * now contradiction IH1.
Qed.

(** *** A record that is flat already *)

Lemma fold_assign_fresh fuel l : forall acc,
  NoDup (map fst (acc ++ l)) ->
  (forall k v, In (k, v) l -> atomic v = true) ->
  ~ In "__proto__" (map fst l) ->
  fold_left
    (fun acc kv =>
       match acc with
       | None => None
       | Some fl =>
           let newKey := newKeyOf "" (fst kv) in
           match snd kv with
           | JNull => Some (assign newKey (JStr "") fl)
           | JArr [] => Some (assign newKey (JStr "") fl)
           | JArr (first :: rest) =>
               if isObject first then
                 option_map
                   (assign (newKey ++ "_count")
                      (JNum (Z.of_nat (List.length (first :: rest)))))
                   (flattenObject fuel first newKey fl)
               else Some (assign newKey (JStr (join "; " (first :: rest))) fl)
           | JObj _ => flattenObject fuel (snd kv) newKey fl
           | value => Some (assign newKey value fl)
           end
       end) l (Some acc) = Some (acc ++ l).
Proof.
  induction l as [|[k v] rest IH]; intros acc N A P.
  - simpl. now rewrite app_nil_r.
  - cbn [fold_left fst snd]. cbv zeta.
    assert (Hk : k <> "__proto__") by (intros ->; apply P; now left).
    assert (Hf : ~ In k (map fst acc)).
    { rewrite map_app in N. apply NoDup_remove_2 in N.
      intros H. apply N. apply in_or_app. now left. }
    assert (Ha : assign (newKeyOf "" k) v acc = acc ++ [(k, v)]).
    { unfold assign, newKeyOf. cbn [String.eqb].
      apply String.eqb_neq in Hk. rewrite Hk. now apply setProp_fresh. }
    pose proof (A k v (or_introl eq_refl)) as Hv.
    replace (acc ++ (k, v) :: rest) with ((acc ++ [(k, v)]) ++ rest)
      by now rewrite <- app_assoc.
    destruct v; try discriminate Hv; rewrite Ha; (apply IH;
      [now rewrite <- app_assoc
      |intros k' v' H'; apply (A k' v'); now right
      |intros H'; apply P; now right]).
Qed.

Lemma flattenRecord_flat props :
  Flattened props -> flattenRecord (JObj props) = Return (JObj (ownEntries props)).
Proof.
  intros (N & A & P). unfold flattenRecord. cbn [flattenObject entries].
  rewrite (fold_assign_fresh _ (ownEntries props) []); [reflexivity| | |].
  - now apply ownEntries_keys_NoDup.
  - intros k v H. apply (A k v).
    now apply (Permutation_in _ (ownEntries_perm props)).
  - intros H. apply P.
    apply (Permutation_in _ (Permutation_map fst (ownEntries_perm props))).
    exact H.
Qed.

(** *** Enumerating twice *)

Lemma arrayIndex_eq s n : arrayIndex s = Some n -> s = string_of_N n.
Proof.
  unfold arrayIndex. destruct (NilEmpty.uint_of_string s) as [d|]; [|discriminate].
  destruct (string_of_N (N.of_uint d) =? s) eqn:E; [|discriminate].
  apply String.eqb_eq in E. simpl.
  destruct (N.of_uint d <? 4294967295)%N; [|discriminate].
  intros [= <-]. now symmetry.
Qed.

Lemma indexedProps_wellIndexed props e :
  In e (indexedProps props) -> wellIndexed e /\ In (snd e) props.
Proof.
  unfold indexedProps. rewrite in_flat_map. intros [kv [Hin H]].
  destruct (arrayIndex (fst kv)) eqn:E; [|contradiction].
  destruct H as [<-|[]]. split; [exact E|exact Hin].
Qed.

Lemma indexedProps_app l1 l2 :
  indexedProps (l1 ++ l2) = indexedProps l1 ++ indexedProps l2.
Proof. unfold indexedProps. apply flat_map_app. Qed.

Lemma namedProps_app l1 l2 : namedProps (l1 ++ l2) = namedProps l1 ++ namedProps l2.
Proof. unfold namedProps. apply filter_app. Qed.

Lemma indexedProps_map_snd l :
  (forall e, In e l -> wellIndexed e) -> indexedProps (map snd l) = l.
Proof.
  unfold indexedProps.
  induction l as [|[i kv] rest IH]; intros H; simpl; [reflexivity|].
  pose proof (H (i, kv) (or_introl eq_refl)) as Hw. unfold wellIndexed in Hw.
  simpl in Hw. rewrite Hw. simpl. rewrite IH; [reflexivity|].
  intros e He. apply H. now right.
Qed.

Lemma namedProps_map_snd l :
  (forall e, In e l -> wellIndexed e) -> namedProps (map snd l) = [].
Proof.
  intros H. apply namedProps_nil. intros kv Hin.
  apply in_map_iff in Hin. destruct Hin as [e [<- He]].
  rewrite (H e He). discriminate.
Qed.

Lemma indexedProps_namedProps props : indexedProps (namedProps props) = [].
Proof.
  unfold indexedProps, namedProps.
  induction props as [|kv rest IH]; simpl; [reflexivity|].
  destruct (arrayIndex (fst kv)) eqn:E; simpl; [exact IH|].
  now rewrite E.
Qed.

Lemma namedProps_idem props : namedProps (namedProps props) = namedProps props.
Proof.
  unfold namedProps.
  induction props as [|kv rest IH]; simpl; [reflexivity|].
  destruct (arrayIndex (fst kv)) eqn:E; simpl; [exact IH|].
  rewrite E. now f_equal.
Qed.

Lemma indexedProps_keys_NoDup props :
  NoDup (map fst props) -> NoDup (map fst (indexedProps props)).
Proof.
  unfold indexedProps.
  induction props as [|[k v] rest IH]; simpl; intros N; [constructor|].
  inversion N as [|? ? Hn Hr]; subst.
  destruct (arrayIndex k) eqn:E; simpl; [|now apply IH].
  constructor; [|now apply IH].
  intros Hin. apply in_map_iff in Hin. destruct Hin as [e [He Hin]].
  apply (indexedProps_wellIndexed rest) in Hin. destruct Hin as [Hw Hin].
  unfold wellIndexed in Hw. rewrite He in Hw.
  apply arrayIndex_eq in Hw. apply arrayIndex_eq in E.
  apply Hn. rewrite E, <- Hw. now apply in_map.
Qed.

(** Enumerating the properties in enumeration order changes nothing. *)
Lemma ownEntries_idem props :
  NoDup (map fst props) -> ownEntries (ownEntries props) = ownEntries props.
Proof.
  intros N. unfold ownEntries at 2 3.
  set (sorted := sortIndexed (indexedProps props)).
  assert (Hw : forall e, In e sorted -> wellIndexed e).
  { intros e He. apply (Permutation_in _ (sortIndexed_perm _)) in He.
    now apply indexedProps_wellIndexed in He. }
  assert (Hs : StronglySorted keyLt sorted)
    by now apply sortIndexed_sorted, indexedProps_keys_NoDup.
  unfold ownEntries.
  rewrite indexedProps_app, namedProps_app.
  rewrite indexedProps_map_snd, namedProps_map_snd by exact Hw.
  rewrite indexedProps_namedProps, namedProps_idem, app_nil_r. simpl.
  f_equal. f_equal.
  apply sorted_perm_unique; [|exact Hs|apply sortIndexed_perm].
  apply sortIndexed_sorted.
  eapply Permutation_NoDup;
    [apply Permutation_map; symmetry; apply sortIndexed_perm|].
  now apply indexedProps_keys_NoDup.
Qed.

End FlattenFacts.
(** X2.  [flattenCdrForCsv] always ends.  The records it returns are
    flat: objects whose values are strings, numbers and booleans, under
    distinct names.  It fails on a [null] record only, and given an
    array without one it returns a record for each of its elements. *)
Theorem flatten_gives_flat_records :
  forall records,
    Csv.flattenCdrForCsv records <> Net.OutOfFuel
    /\ (forall rows,
          Csv.flattenCdrForCsv records = Net.Return rows ->
          Forall Terms.FlatRecord rows)
    /\ (forall items,
          records = Some (JS.JArr items) ->
          (forall r, In r items -> r <> JS.JNull) ->
          exists rows,
            Csv.flattenCdrForCsv records = Net.Return rows
            /\ List.length rows = List.length items).
Proof.
  intros records. unfold Csv.flattenCdrForCsv.
  destruct records as [[| | | |items|]|];
    try (repeat split; [discriminate|intros rows [= <-]; constructor
                       |intros items [=]]).
  destruct (FlattenFacts.mapO_flattenRecord items) as (H1 & H2 & H3).
  repeat split; [exact H1|intros rows H; now apply H2|].
  intros items' [= <-] Hn. destruct (H3 Hn) as [rows Hr].
  exists rows. split; [exact Hr|now apply H2].
Qed.

Lemma flatten_gives_flat_records_witness :
  exists rows,
    Csv.flattenCdrForCsv
      (Some (JS.JArr [JS.JObj [("call", JS.JObj [("id", JS.JNum 7)]);
                               ("legs", JS.JArr [JS.JStr "a"; JS.JStr "b"])]]))
    = Net.Return rows
    /\ List.length rows = 1 /\ Forall Terms.FlatRecord rows.
Proof.
  destruct (flatten_gives_flat_records
              (Some (JS.JArr [JS.JObj [("call", JS.JObj [("id", JS.JNum 7)]);
                                       ("legs", JS.JArr [JS.JStr "a"; JS.JStr "b"])]])))
    as (_ & H2 & H3).
  destruct (H3 _ eq_refl) as [rows [Hr Hl]].
  - intros r [<-|[]]. discriminate.
  - exists rows. split; [exact Hr|]. split; [exact Hl|]. now apply H2.
Defined.

(** X3.  A record that is flat already is returned as it is, its
    properties in the order in which they are enumerated; so a record
    that [flattenCdrForCsv] has returned is returned again when it is
    flattened once more. *)
Theorem flat_record_is_kept :
  (forall props,
     Terms.Flattened props ->
     Csv.flattenRecord (JS.JObj props)
     = Net.Return (JS.JObj (JS.ownEntries props))
     /\ JS.entries (JS.JObj (JS.ownEntries props)) = JS.entries (JS.JObj props))
  /\ (forall record row,
        Csv.flattenRecord record = Net.Return row ->
        exists flattened,
          row = JS.JObj flattened
          /\ Csv.flattenRecord row = Net.Return (JS.JObj (JS.ownEntries flattened))
          /\ JS.entries (JS.JObj (JS.ownEntries flattened)) = JS.entries row).
Proof.
  assert (H : forall props,
            Terms.Flattened props ->
            Csv.flattenRecord (JS.JObj props)
            = Net.Return (JS.JObj (JS.ownEntries props))
            /\ JS.entries (JS.JObj (JS.ownEntries props))
               = JS.entries (JS.JObj props)).
  { intros props F. split; [now apply FlattenFacts.flattenRecord_flat|].
    simpl. apply FlattenFacts.ownEntries_idem. apply F. }
  split; [exact H|].
  intros record row Hr.
  assert (Hn : record <> JS.JNull) by (intros ->; discriminate Hr).
  destruct (FlattenFacts.flattenRecord_ok record Hn) as [row' [E [fl [-> F]]]].
  rewrite E in Hr. injection Hr as <-.
  exists fl. split; [reflexivity|]. now apply H.
Qed.

Lemma flat_record_is_kept_witness :
  Csv.flattenRecord (JS.JObj [("b", JS.JStr "x"); ("0", JS.JNum 1)])
  = Net.Return (JS.JObj [("0", JS.JNum 1); ("b", JS.JStr "x")]).
Proof.
  refine (proj1 (proj1 flat_record_is_kept
                   [("b", JS.JStr "x"); ("0", JS.JNum 1)] _)).
  repeat split.
  - repeat constructor; simpl; intuition discriminate.
  - intros k v [[= <- <-]|[[= <- <-]|[]]]; reflexivity.
  - simpl. intuition discriminate.
Defined.
Module PostFacts.
Import JS Net ReportFetcher PostProcessing Vocabulary Terms JSFacts.

Lemma mapE_Forall2 {A B} (f : A -> Error + B) l : forall l',
  mapE f l = inr l' -> Forall2 (fun x y => f x = inr y) l l'.
Proof.
  induction l as [|x rest IH]; simpl; intros l' H.
  - injection H as <-. constructor.
  - destruct (f x) as [e|y] eqn:E; [discriminate|].
    destruct (mapE f rest) as [e|ys]; [discriminate|].
    injection H as <-. constructor; auto.
Qed.

Lemma mapE_total {A B} (f : A -> Error + B) l :
  (forall x, In x l -> exists y, f x = inr y) -> exists l', mapE f l = inr l'.
Proof.
  induction l as [|x rest IH]; simpl; intros H; [now eexists|].
  destruct (H x (or_introl eq_refl)) as [y ->].
  destruct IH as [ys ->]; [intros z Hz; apply H; now right|].
  now eexists.
Qed.

Lemma assoc_setProp_other k k' v props :
  k' <> k -> assoc k (setProp k' v props) = assoc k props.
Proof.
  intros H. rewrite assoc_setProp. apply String.eqb_neq in H. now rewrite H.
Qed.

Section Durations.

Variable minus : json -> json -> json.

Lemma talkedDuration_other k props :
  k <> "talked_duration" -> assoc k (talkedDuration minus props) = assoc k props.
Proof.
  intros H. unfold talkedDuration.
  destruct (truthy_opt (assoc "talked_duration" props)); [reflexivity|].
  destruct (whenTruthy (assoc "hangup_time" props)); [|reflexivity].
  destruct (whenTruthy (assoc "answered_time" props)); [|reflexivity].
  apply assoc_setProp_other. congruence.
Qed.

Lemma waitDuration_other k props :
  k <> "wait_duration" -> assoc k (waitDuration minus props) = assoc k props.
Proof.
  intros H. unfold waitDuration.
  destruct (truthy_opt (assoc "wait_duration" props)); [reflexivity|].
  destruct (whenTruthy (assoc "called_time" props)); [|reflexivity].
  destruct (whenTruthy (assoc "answered_time" props));
    [apply assoc_setProp_other; congruence|].
  destruct (whenTruthy (assoc "hangup_time" props)); [|reflexivity].
  apply assoc_setProp_other. congruence.
Qed.

Lemma deriveDurations_other r r' k :
  deriveDurations minus r = inr r' ->
  k <> "talked_duration" -> k <> "wait_duration" ->
  r <> JNull /\ prop r' k = prop r k.
Proof.
  destruct r; simpl; intros H; try discriminate; injection H as <-;
    intros H1 H2; (split; [discriminate|]); try reflexivity.
  simpl. now rewrite waitDuration_other, talkedDuration_other.
Qed.

Lemma deriveDurations_total r :
  r <> JNull -> exists r', deriveDurations minus r = inr r'.
Proof. destruct r; simpl; intros H; try congruence; now eexists. Qed.

Lemma whenTruthy_Some v x : whenTruthy v = Some x <-> v = Some x /\ truthy x = true.
Proof.
  unfold whenTruthy. destruct v as [y|]; [|split; [discriminate|intros [? _]; discriminate]].
  destruct (truthy y) eqn:E; split.
  - intros [= ->]. auto.
  - intros [[= ->] _]. reflexivity.
  - discriminate.
  - intros [[= ->] Ht]. congruence.
Qed.

Lemma deriveDurations_talked r r' :
  deriveDurations minus r = inr r' ->
  (forall v, prop r "talked_duration" = Some v -> truthy v = true ->
             prop r' "talked_duration" = Some v)
  /\ (forall hangup answered,
        truthy_opt (prop r "talked_duration") = false ->
        prop r "hangup_time" = Some hangup -> truthy hangup = true ->
        prop r "answered_time" = Some answered -> truthy answered = true ->
        prop r' "talked_duration" = Some (minus hangup answered)).
Proof.
  destruct r; simpl; intros H; try discriminate; injection H as <-;
    try (split; [intros v Hv; discriminate Hv|intros h a _ Hh; discriminate Hh]).
  simpl. rewrite waitDuration_other by discriminate. unfold talkedDuration.
  split.
  - intros v Hv Ht. rewrite Hv. simpl. rewrite Ht. exact Hv.
  - intros h a Hf Hh Hht Ha Hat. rewrite Hf.
    rewrite (proj2 (whenTruthy_Some _ h) (conj Hh Hht)).
    rewrite (proj2 (whenTruthy_Some _ a) (conj Ha Hat)).
    rewrite assoc_setProp. reflexivity.
Qed.

Lemma deriveDurations_wait r r' v :
  deriveDurations minus r = inr r' ->
  prop r "wait_duration" = Some v -> truthy v = true ->
  prop r' "wait_duration" = Some v.
Proof.
  destruct r; simpl; intros H; try discriminate; injection H as <-;
    try (intros Hv; discriminate Hv).
  simpl. intros Hv Ht. unfold waitDuration.
  rewrite talkedDuration_other by discriminate. rewrite Hv. simpl.
  rewrite Ht. rewrite talkedDuration_other by discriminate. exact Hv.
Qed.

Lemma truthy_opt_whenTruthy v : truthy_opt v = false -> whenTruthy v = None.
Proof.
  unfold truthy_opt, whenTruthy. destruct v as [x|]; [|reflexivity].
  now intros ->.
Qed.

Lemma truthy_whenTruthy v x : v = Some x -> truthy x = true -> whenTruthy v = Some x.
Proof. intros -> H. unfold whenTruthy. now rewrite H. Qed.

(** The two durations after the derivation, read off the record
    fetched. *)
Lemma deriveDurations_talked_left r r' :
  deriveDurations minus r = inr r' ->
  truthy_opt (prop r "talked_duration") = false ->
  truthy_opt (prop r "hangup_time") && truthy_opt (prop r "answered_time")
  = false ->
  prop r' "talked_duration" = prop r "talked_duration".
Proof.
  destruct r; simpl; intros H; try discriminate; injection H as <-;
    try reflexivity.
  simpl. intros Hf Hn. rewrite waitDuration_other by discriminate.
  unfold talkedDuration. rewrite Hf.
  apply andb_false_iff in Hn. destruct Hn as [Hn|Hn];
    rewrite (truthy_opt_whenTruthy _ Hn); [reflexivity|].
  destruct (whenTruthy (assoc "hangup_time" props)); reflexivity.
Qed.

Lemma deriveDurations_waited r r' :
  deriveDurations minus r = inr r' ->
  (forall called answered,
     truthy_opt (prop r "wait_duration") = false ->
     prop r "called_time" = Some called -> truthy called = true ->
     prop r "answered_time" = Some answered -> truthy answered = true ->
     prop r' "wait_duration" = Some (minus answered called))
  /\ (forall called hangup,
        truthy_opt (prop r "wait_duration") = false ->
        prop r "called_time" = Some called -> truthy called = true ->
        truthy_opt (prop r "answered_time") = false ->
        prop r "hangup_time" = Some hangup -> truthy hangup = true ->
        prop r' "wait_duration" = Some (minus hangup called))
  /\ (truthy_opt (prop r "wait_duration") = false ->
      truthy_opt (prop r "called_time")
      && (truthy_opt (prop r "answered_time")
          || truthy_opt (prop r "hangup_time")) = false ->
      prop r' "wait_duration" = prop r "wait_duration").
Proof.
  destruct r; simpl; intros H; try discriminate; injection H as <-;
    try (split; [intros c a _ Hc; discriminate Hc
                |split; [intros c h _ Hc; discriminate Hc|reflexivity]]).
  simpl. unfold waitDuration.
  rewrite !talkedDuration_other by discriminate.
  split; [|split].
  - intros c a Hf Hc Hct Ha Hat. rewrite Hf.
    rewrite (truthy_whenTruthy _ c Hc Hct), (truthy_whenTruthy _ a Ha Hat).
    now rewrite assoc_setProp.
  - intros c h Hf Hc Hct Ha Hh Hht. rewrite Hf.
    rewrite (truthy_whenTruthy _ c Hc Hct), (truthy_opt_whenTruthy _ Ha),
      (truthy_whenTruthy _ h Hh Hht).
    now rewrite assoc_setProp.
  - intros Hf Hn. rewrite Hf.
    apply andb_false_iff in Hn. destruct Hn as [Hn|Hn].
    + rewrite (truthy_opt_whenTruthy _ Hn).
      now rewrite talkedDuration_other by discriminate.
    + apply orb_false_iff in Hn. destruct Hn as [Ha Hh].
      rewrite (truthy_opt_whenTruthy _ Ha), (truthy_opt_whenTruthy _ Hh).
      destruct (whenTruthy (assoc "called_time" props));
        now rewrite talkedDuration_other by discriminate.
Qed.

End Durations.

Lemma keepFirst_other h r r' k :
  keepFirst h r = inr r' -> k <> h -> r <> JNull /\ prop r' k = prop r k.
Proof.
  destruct r; simpl; intros H; try discriminate;
    try (injection H as <-; intros _; split; [discriminate|reflexivity]).
  intros Hk. split; [discriminate|].
  destruct (assoc h props) as [[| | | |[|first [|second rest]]|]|];
    injection H as <-; try reflexivity.
  simpl. apply assoc_setProp_other. congruence.
Qed.

Lemma keepFirst_history h r r' :
  keepFirst h r = inr r' -> prop r' h = option_map firstOnly (prop r h).
Proof.
  destruct r; simpl; intros H; try discriminate;
    try (injection H as <-; reflexivity).
  destruct (assoc h props) as [[| | | |[|first [|second rest]]|]|] eqn:E;
    injection H as <-; simpl; try (now rewrite E).
  rewrite assoc_setProp, String.eqb_refl. reflexivity.
Qed.

Lemma keepFirst_total h r : r <> JNull -> exists r', keepFirst h r = inr r'.
Proof.
  destruct r; simpl; intros H; try congruence; try now eexists.
  destruct (assoc h props) as [[| | | |[|first [|second rest]]|]|];
    now eexists.
Qed.

(** *** The first row of every call *)

Lemma callId_None_not_same a b : callId a = None -> ~ sameCall a b.
Proof. intros H (ka & kb & Ha & _). congruence. Qed.

Ltac conjs := repeat match goal with |- _ /\ _ => split end.

Lemma firstRows_spec out : forall seen rows,
  firstRows out seen = inr rows ->
  ForallOrdPairs (fun a b => ~ sameCall a b) rows
  /\ (forall row k, In row rows -> callId row = Some k ->
                    Set_has seen k = false)
  /\ (forall r k, In r out -> callId r = Some k -> primitive k = true ->
                  Set_has seen k = true
                  \/ exists row, In row rows /\ sameCall r row)
  /\ filter anonymous rows = filter anonymous out
  /\ List.length rows <= List.length out
  /\ (forall row, In row rows -> In row out).
Proof.
  induction out as [|rec rest IH]; intros seen rows H.
  - injection H as <-.
    repeat match goal with |- _ /\ _ => split end;
      [constructor|intros row k []|intros r k []|reflexivity|simpl; lia
      |auto].
  - cbn [firstRows] in H.
    assert (Hn : rec <> JNull) by (intros ->; discriminate H).
    assert (H' : match whenTruthy (prop rec "call_id") with
                 | None =>
                     match firstRows rest seen with
                     | inl e => inl e
                     | inr rows => inr (rec :: rows)
                     end
                 | Some call_id =>
                     if Set_has seen call_id then firstRows rest seen
                     else match firstRows rest (Set_add seen call_id) with
                          | inl e => inl e
                          | inr rows => inr (rec :: rows)
                          end
                 end = inr rows) by (destruct rec; congruence).
    clear H. fold (callId rec) in H'.
    assert (Hanon : anonymous rec = match callId rec with
                                 | Some _ => false
                                 | None => true
                                 end) by reflexivity.
    destruct (callId rec) as [id|] eqn:Eid.
    + destruct (Set_has seen id) eqn:Es.
      * destruct (IH seen rows H') as (I1 & I2 & I3 & I4 & I5 & I6).
        conjs; auto.
        -- intros r k [<-|Hr] Hk Hp; [|now apply I3].
           left. congruence.
        -- simpl. rewrite Hanon. exact I4.
        -- simpl. lia.
        -- intros row Hrow. right. now apply I6.
      * destruct (firstRows rest (Set_add seen id)) as [e|rows'] eqn:Er;
          [discriminate|]. injection H' as <-.
        destruct (IH _ rows' Er) as (I1 & I2 & I3 & I4 & I5 & I6).
        rewrite (Set_add_new _ _ Es) in I2, I3.
        conjs.
        -- constructor; [|exact I1].
           apply Forall_forall. intros x Hx (ka & kb & Ha & Hb & Hs).
           rewrite Eid in Ha. injection Ha as <-.
           apply (I2 x kb Hx) in Hb. apply Dedup.Set_has_snoc_false in Hb.
           rewrite sameValueZero_sym in Hs. destruct Hb. congruence.
        -- intros row k [<-|Hr] Hk.
           ++ congruence.
           ++ apply (I2 row k Hr) in Hk. now apply Dedup.Set_has_snoc_false in Hk.
        -- intros r k [<-|Hr] Hk Hp.
           ++ right. exists rec. split; [now left|].
              exists k, k. rewrite Hk. repeat split.
              now apply sameValueZero_refl.
           ++ destruct (I3 r k Hr Hk Hp) as [Hs|[row [Hrow Hsame]]].
              ** rewrite Set_has_app in Hs. apply orb_true_iff in Hs.
                 destruct Hs as [Hs|Hs]; [now left|].
                 simpl in Hs. rewrite orb_false_r in Hs.
                 right. exists rec. split; [now left|].
                 exists k, id. auto.
              ** right. exists row. split; [now right|exact Hsame].
        -- simpl. rewrite Hanon. exact I4.
        -- simpl. lia.
        -- intros row [<-|Hrow]; [now left|right; now apply I6].
    + destruct (firstRows rest seen) as [e|rows'] eqn:Er; [discriminate|].
      injection H' as <-.
      destruct (IH _ rows' Er) as (I1 & I2 & I3 & I4 & I5 & I6).
      conjs.
      * constructor; [|exact I1].
        apply Forall_forall. intros x _. now apply callId_None_not_same.
      * intros row k [<-|Hr] Hk; [congruence|now apply (I2 row k)].
      * intros r k [<-|Hr] Hk Hp; [congruence|].
        destruct (I3 r k Hr Hk Hp) as [Hs|[row [Hrow Hsame]]]; [now left|].
        right. exists row. split; [now right|exact Hsame].
      * simpl. rewrite Hanon. now f_equal.
      * simpl. lia.
      * intros row [<-|Hrow]; [now left|right; now apply I6].
Qed.

Lemma firstRows_total out : forall seen,
  (forall r, In r out -> r <> JNull) -> exists rows, firstRows out seen = inr rows.
Proof.
  induction out as [|rec rest IH]; intros seen H; [now eexists|].
  assert (Hn : rec <> JNull) by (apply H; now left).
  assert (Hr : forall r, In r rest -> r <> JNull) by (intros r Hr; apply H; now right).
  cbn [firstRows].
  destruct (whenTruthy (prop rec "call_id")) as [id|].
  - destruct (Set_has seen id).
    + destruct (IH seen Hr) as [rows ->]. destruct rec; try congruence; now eexists.
    + destruct (IH (Set_add seen id) Hr) as [rows ->].
      destruct rec; try congruence; now eexists.
  - destruct (IH seen Hr) as [rows ->]. destruct rec; try congruence; now eexists.
Qed.

(** *** Rows rewritten one by one *)

Lemma Forall2_pairs {A} (R : A -> A -> Prop) (S : A -> A -> Prop) l l' :
  Forall2 S l l' ->
  (forall a b a' b', S a a' -> S b b' -> R a b -> R a' b') ->
  ForallOrdPairs R l -> ForallOrdPairs R l'.
Proof.
  intros H HR. induction H as [|a a' l l' Ha Hl IH]; intros Hp; [constructor|].
  inversion Hp as [|? ? Hf Hp']; subst. constructor; [|auto].
  clear IH Hp Hp'. induction Hl as [|b b' l l' Hb Hl IH]; [constructor|].
  inversion Hf; subst. constructor; eauto.
Qed.

Lemma Forall2_In_l {A B} (R : A -> B -> Prop) l l' x :
  Forall2 R l l' -> In x l -> exists y, In y l' /\ R x y.
Proof.
  induction 1 as [|a b l l' Hab Hl IH]; intros Hx; [contradiction|].
  destruct Hx as [<-|Hx]; [exists b; split; [now left|exact Hab]|].
  destruct (IH Hx) as [y [Hy Hr]]. exists y. split; [now right|exact Hr].
Qed.

Lemma Forall2_In_r {A B} (R : A -> B -> Prop) l l' y :
  Forall2 R l l' -> In y l' -> exists x, In x l /\ R x y.
Proof.
  induction 1 as [|a b l l' Hab Hl IH]; intros Hy; [contradiction|].
  destruct Hy as [<-|Hy]; [exists a; split; [now left|exact Hab]|].
  destruct (IH Hy) as [x [Hx Hr]]. exists x. split; [now right|exact Hr].
Qed.

Lemma Forall2_filter_length {A} (f : A -> bool) (R : A -> A -> Prop) l l' :
  Forall2 R l l' -> (forall a b, R a b -> f b = f a) ->
  List.length (filter f l') = List.length (filter f l).
Proof.
  intros H Hf. induction H as [|a b l l' Hab Hl IH]; [reflexivity|].
  simpl. rewrite (Hf a b Hab). destruct (f a); simpl; now rewrite IH.
Qed.

Lemma Forall2_filter {A} (f : A -> bool) (R : A -> A -> Prop) l l' :
  Forall2 R l l' -> (forall a b, R a b -> f b = f a) ->
  Forall2 R (filter f l) (filter f l').
Proof.
  intros H Hf. induction H as [|a b l l' Hab Hl IH]; [constructor|].
  simpl. rewrite (Hf a b Hab). destruct (f a); [constructor|]; auto.
Qed.

Lemma Forall2_trans_rel {A} (R S T : A -> A -> Prop) l1 l2 l3 :
  (forall a b c, R a b -> S b c -> T a c) ->
  Forall2 R l1 l2 -> Forall2 S l2 l3 -> Forall2 T l1 l3.
Proof.
  intros H H1. revert l3. induction H1; intros l3 H2; inversion H2; subst;
    constructor; eauto.
Qed.

End PostFacts.
Module FetchReportFacts.
Import JS Net Net.Notations ReportFetcher PostProcessing Vocabulary Terms JSFacts
       PostFacts.

Lemma pagination_returns_out fuel env report tenant params s w o s1 w1 :
  fetchReport_pagination fuel env report tenant params s w = (Return o, s1, w1) ->
  o = out s1.
Proof.
  unfold fetchReport_pagination. destruct (ENDPOINTS report); [|discriminate].
  unfold bind.
  destruct (retrying _ _ _ _ s w) as [[[x|e|] l'] w''];
    simpl; intros [= <- <- <-]; reflexivity.
Qed.

Lemma fetchReport_result minus fuel env report tenant params s w rows s' w' :
  fetchReport minus fuel env report tenant params s w = (Return rows, s', w') ->
  postProcess minus report (out s') = inr rows
  /\ fetchReport_pagination fuel env report tenant params s w
     = (Return (out s'), s', w').
Proof.
  unfold fetchReport, bind.
  destruct (fetchReport_pagination fuel env report tenant params s w)
    as [[[o|e|] s1] w1] eqn:E; try discriminate.
  pose proof (pagination_returns_out _ _ _ _ _ _ _ _ _ _ E) as ->.
  destruct (postProcess minus report (out s1)) as [e|rows'] eqn:Ep; simpl;
    intros [= <- <- <-]; auto.
Qed.

Lemma queueCalls_steps minus out rows :
  postProcess minus "queueCalls" out = inr rows ->
  exists out1 rows1,
    mapE (deriveDurations minus) out = inr out1
    /\ firstRows out1 [] = inr rows1
    /\ mapE (keepFirst "agent_history") rows1 = inr rows.
Proof.
  unfold postProcess. simpl.
  destruct (mapE (deriveDurations minus) out) as [e|out1]; [discriminate|].
  destruct (firstRows out1 []) as [e|rows1] eqn:E2; [discriminate|].
  intros H. exists out1, rows1. auto.
Qed.

Lemma firstOnly_short v items : firstOnly v = JArr items -> List.length items <= 1.
Proof.
  destruct v as [| | | |[|first rest]|]; simpl; intros [= <-]; simpl; lia.
Qed.

Lemma sameCall_callId a b a' b' :
  callId a' = callId a -> callId b' = callId b -> sameCall a b -> sameCall a' b'.
Proof.
  intros Ha Hb (ka & kb & H1 & H2 & H3). exists ka, kb.
  rewrite Ha, Hb. auto.
Qed.

Lemma anonymous_callId a b : callId b = callId a -> anonymous b = anonymous a.
Proof. unfold anonymous. now intros ->. Qed.

(** Deriving the durations of a record and then cutting its history
    rewrites the record. *)
Lemma rewritten_compose minus history a b c :
  history <> "talked_duration" -> history <> "wait_duration" ->
  deriveDurations minus a = inr b -> keepFirst history b = inr c ->
  Rewritten history minus a c.
Proof.
  intros Hh1 Hh2 Hab Hbc.
  pose proof (PostFacts.deriveDurations_talked minus a b Hab) as [T1 T2].
  pose proof (PostFacts.deriveDurations_talked_left minus a b Hab) as T3.
  pose proof (PostFacts.deriveDurations_wait minus a b) as W1.
  pose proof (PostFacts.deriveDurations_waited minus a b Hab)
    as (W2 & W3 & W4).
  pose proof (PostFacts.keepFirst_history _ b c Hbc) as Q.
  assert (O1 : forall k, k <> "talked_duration" -> k <> "wait_duration" ->
                         prop b k = prop a k).
  { intros k Hk1 Hk2.
    now destruct (PostFacts.deriveDurations_other minus a b k Hab Hk1 Hk2). }
  assert (O2 : forall k, k <> history -> prop c k = prop b k).
  { intros k Hk. now destruct (PostFacts.keepFirst_other _ b c k Hbc Hk). }
  unfold Rewritten.
  repeat match goal with |- _ /\ _ => split end.
  - intros k Hk1 Hk2 Hk3. rewrite O2, O1; auto.
  - rewrite Q, O1; auto.
  - intros v Hv Ht. rewrite O2 by congruence. now apply T1.
  - intros h an Hf Hh Hht Ha Hat. rewrite O2 by congruence. now apply T2.
  - intros Hf Hn. rewrite O2 by congruence. now apply T3.
  - intros v Hv Ht. rewrite O2 by congruence. now apply (W1 v Hab).
  - intros cl an Hf Hc Hct Ha Hat. rewrite O2 by congruence. now apply W2.
  - intros cl h Hf Hc Hct Ha Hh Hht. rewrite O2 by congruence.
    now apply W3.
  - intros Hf Hn. rewrite O2 by congruence. now apply W4.
Qed.

Lemma rewritten_callId history minus a c :
  history <> "call_id" -> Rewritten history minus a c -> callId c = callId a.
Proof.
  intros Hh (H & _). unfold callId. rewrite H; [reflexivity| | |];
    congruence.
Qed.

End FetchReportFacts.

(** X4.  For the inbound queue report [fetchReport] answers with one
    row per call: no two rows of the answer name the same call, every
    call named by a fetched row is named by a row of the answer, and
    the fetched rows that name no call are all in it, in their order,
    each rewritten as the rows of this report are: its durations
    derived when they are missing and its [agent_history] cut to the
    first entry.  An [agent_history] of a row of the answer holds one
    entry at most. *)
Theorem queue_calls_one_row_per_call :
  forall minus fuel env tenant params s w rows s' w',
    PostProcessing.fetchReport minus fuel env "queueCalls" tenant params s w
    = (Net.Return rows, s', w') ->
    ForallOrdPairs (fun a b => ~ Terms.sameCall a b) rows
    /\ (forall r k,
          In r (ReportFetcher.out s') -> Terms.callId r = Some k ->
          JS.primitive k = true ->
          exists row, In row rows /\ Terms.sameCall r row)
    /\ Forall2 (Terms.Rewritten "agent_history" minus)
         (filter Terms.anonymous (ReportFetcher.out s'))
         (filter Terms.anonymous rows)
    /\ (forall row, In row rows ->
          exists r, In r (ReportFetcher.out s')
                    /\ Terms.Rewritten "agent_history" minus r row)
    /\ List.length rows <= List.length (ReportFetcher.out s')
    /\ (forall row items,
          In row rows -> JS.prop row "agent_history" = Some (JS.JArr items) ->
          List.length items <= 1).
Proof.
  intros minus fuel env tenant params s w rows s' w' H.
  apply FetchReportFacts.fetchReport_result in H. destruct H as [H _].
  apply FetchReportFacts.queueCalls_steps in H.
  destruct H as (out1 & rows1 & H1 & H2 & H3).
  apply PostFacts.mapE_Forall2 in H1, H3.
  assert (D : Forall2 (fun r r1 => Terms.callId r1 = Terms.callId r)
                (ReportFetcher.out s') out1).
  { eapply Forall2_impl; [|exact H1]. intros a b Hab. unfold Terms.callId.
    now destruct (PostFacts.deriveDurations_other minus a b "call_id" Hab)
      as [_ ->]. }
  assert (K : Forall2 (fun a b => Terms.callId b = Terms.callId a) rows1 rows).
  { eapply Forall2_impl; [|exact H3]. intros a b Hab. unfold Terms.callId.
    now destruct (PostFacts.keepFirst_other _ a b "call_id" Hab) as [_ ->]. }
  destruct (PostFacts.firstRows_spec _ _ _ H2) as (F1 & _ & F3 & F4 & F5 & F6).
  repeat match goal with |- _ /\ _ => split end.
  - apply (PostFacts.Forall2_pairs _ _ _ _ K); [|exact F1].
    intros a b a' b' Ha Hb Hn Hs. apply Hn.
    apply (FetchReportFacts.sameCall_callId a' b'); auto.
  - intros r k Hr Hk Hp.
    destruct (PostFacts.Forall2_In_l _ _ _ _ D Hr) as (r1 & Hr1 & E1).
    destruct (F3 r1 k Hr1) as [Hs|(row1 & Hrow1 & Hsame)];
      [congruence|exact Hp|discriminate Hs|].
    destruct (PostFacts.Forall2_In_l _ _ _ _ K Hrow1) as (row & Hrow & E2).
    exists row. split; [exact Hrow|].
    apply (FetchReportFacts.sameCall_callId r1 row1); auto.
  - assert (A1 : Forall2 (fun a b => PostProcessing.deriveDurations minus a
                                     = inr b)
                   (filter Terms.anonymous (ReportFetcher.out s'))
                   (filter Terms.anonymous out1)).
    { apply PostFacts.Forall2_filter; [exact H1|].
      intros a b Hab. apply FetchReportFacts.anonymous_callId.
      unfold Terms.callId.
      now destruct (PostFacts.deriveDurations_other minus a b "call_id" Hab)
        as [_ ->]. }
    assert (A2 : Forall2 (fun a b => PostProcessing.keepFirst "agent_history"
                                       a = inr b)
                   (filter Terms.anonymous rows1)
                   (filter Terms.anonymous rows)).
    { apply PostFacts.Forall2_filter; [exact H3|].
      intros a b Hab. apply FetchReportFacts.anonymous_callId.
      unfold Terms.callId.
      now destruct (PostFacts.keepFirst_other _ a b "call_id" Hab)
        as [_ ->]. }
    rewrite F4 in A2.
    eapply PostFacts.Forall2_trans_rel; [|exact A1|exact A2].
    intros a b c Hab Hbc.
    apply (FetchReportFacts.rewritten_compose minus "agent_history" a b c);
      auto; discriminate.
  - intros row Hrow.
    destruct (PostFacts.Forall2_In_r _ _ _ _ H3 Hrow) as (row1 & Hrow1 & E3).
    apply F6 in Hrow1.
    destruct (PostFacts.Forall2_In_r _ _ _ _ H1 Hrow1) as (r & Hr & E1).
    exists r. split; [exact Hr|].
    apply (FetchReportFacts.rewritten_compose minus "agent_history" r row1
             row); auto; discriminate.
  - rewrite <- (Forall2_length K), (Forall2_length D). exact F5.
  - intros row items Hrow Hh.
    destruct (PostFacts.Forall2_In_r _ _ _ _ H3 Hrow) as (row1 & _ & E).
    apply PostFacts.keepFirst_history in E. rewrite Hh in E.
    destruct (JS.prop row1 "agent_history") as [v|]; [|discriminate].
    injection E as E. symmetry in E.
    now apply FetchReportFacts.firstOnly_short in E.
Qed.

Lemma queue_calls_one_row_per_call_witness :
  ForallOrdPairs (fun a b => ~ Terms.sameCall a b)
    [Scenarios.record 1; Scenarios.record 2].
Proof.
  exact (proj1 (queue_calls_one_row_per_call Terms.difference 1
                  Scenarios.duplicating "acme" [] ReportFetcher.Driver_init []
                  _ _ _ eq_refl)).
Defined.

(** X5.  For the outbound queue report [fetchReport] answers with the
    fetched rows, one for one and in their order.  Of a row it changes
    three properties at most: a [queue_history] of several entries is
    cut to its first entry, and a [talked_duration] or [wait_duration]
    that is missing, zero or empty is derived from the times of the
    call when they are given (the talk from the answer to the hangup,
    the wait from the call to the answer, or to the hangup of a call
    that was not answered); every other property is returned as it was
    fetched.  The post-processing fails only on a row that is [null]. *)
Theorem outbound_rows_are_rewritten_in_place :
  forall minus,
    (forall fuel env tenant params s w rows s' w',
       PostProcessing.fetchReport minus fuel env "queueOutboundCalls" tenant
         params s w = (Net.Return rows, s', w') ->
       Forall2 (Terms.Rewritten "queue_history" minus)
         (ReportFetcher.out s') rows)
    /\ (forall out,
          (forall r, In r out -> r <> JS.JNull) ->
          exists rows,
            PostProcessing.postProcess minus "queueOutboundCalls" out
            = inr rows).
Proof.
  intros minus. split.
  - intros fuel env tenant params s w rows s' w' H.
    apply FetchReportFacts.fetchReport_result in H. destruct H as [H _].
    unfold PostProcessing.postProcess in H. simpl in H.
    destruct (ReportFetcher.mapE (PostProcessing.deriveDurations minus)
                (ReportFetcher.out s')) as [e|out1] eqn:E1; [discriminate|].
    apply PostFacts.mapE_Forall2 in E1, H.
    eapply PostFacts.Forall2_trans_rel; [|exact E1|exact H].
    intros a b c Hab Hbc.
    apply (FetchReportFacts.rewritten_compose minus "queue_history" a b c);
      auto; discriminate.
  - intros out Hn. unfold PostProcessing.postProcess. simpl.
    destruct (PostFacts.mapE_total (PostProcessing.deriveDurations minus) out)
      as [out1 E1].
    { intros x Hx. apply PostFacts.deriveDurations_total. now apply Hn. }
    rewrite E1. apply PostFacts.mapE_total.
    intros x Hx. apply PostFacts.keepFirst_total.
    apply PostFacts.mapE_Forall2 in E1.
    destruct (PostFacts.Forall2_In_r _ _ _ _ E1 Hx) as (x0 & Hx0 & E).
    intros ->. destruct x0; simpl in E; try discriminate.
Qed.

Lemma outbound_rows_are_rewritten_in_place_witness :
  Forall2 (Terms.Rewritten "queue_history" Terms.difference)
    [Scenarios.record 1; Scenarios.record 2; Scenarios.record 2]
    [Scenarios.record 1; Scenarios.record 2; Scenarios.record 2]
  /\ exists rows,
       PostProcessing.postProcess Terms.difference "queueOutboundCalls"
         [JS.JObj [("call_id", JS.JStr "c1"); ("called_time", JS.JNum 100);
                   ("answered_time", JS.JNum 130);
                   ("hangup_time", JS.JNum 190);
                   ("queue_history",
                    JS.JArr [JS.JStr "sales"; JS.JStr "support"])]]
       = inr rows.
Proof.
  split.
  - exact (proj1 (outbound_rows_are_rewritten_in_place Terms.difference) 1
             Scenarios.duplicating "acme" [] ReportFetcher.Driver_init []
             _ _ _ eq_refl).
  - refine (proj2 (outbound_rows_are_rewritten_in_place Terms.difference) _ _).
    intros r [<-|[]]. discriminate.
Defined.
Module CdrFacts.
Import JS Net ReportFetcher PostProcessing Vocabulary Terms JSFacts PostFacts.

Lemma flattenItems_app a : forall b,
  flattenItems (a ++ b)
  = match flattenItems a with
    | inl e => inl e
    | inr x =>
        match flattenItems b with
        | inl e => inl e
        | inr y => inr (x ++ y)
        end
    end.
Proof.
  induction a as [|item rest IH]; intros b; simpl.
  - now destruct (flattenItems b).
  - destruct (flattenItem item) as [e|recs]; [reflexivity|].
    rewrite IH. destruct (flattenItems rest) as [e|x]; [reflexivity|].
    destruct (flattenItems b) as [e|y]; [reflexivity|].
    now rewrite app_assoc.
Qed.

Lemma firstCdrs_app before item cdrs after :
  firstCdrs before = None -> prop item "cdrs" = Some (JArr cdrs) ->
  firstCdrs (before ++ item :: after) = Some cdrs.
Proof.
  intros Hb Hi. induction before as [|x rest IH]; simpl.
  - now rewrite Hi.
  - simpl in Hb.
    destruct (prop x "cdrs") as [[| | | |c|]|]; try discriminate; auto.
Qed.

Lemma flattenItem_cdrs item cdrs :
  prop item "cdrs" = Some (JArr cdrs) -> flattenItem item = mapE processCdr cdrs.
Proof.
  destruct item; simpl; try discriminate. intros H.
  unfold flattenItem. simpl. now rewrite H.
Qed.

Lemma postProcess_other minus report out :
  report <> "queueCalls" -> report <> "queueOutboundCalls" ->
  postProcess minus report out
  = match firstCdrs out with
    | Some cdrs => mapE processCdr cdrs
    | None => inr out
    end.
Proof.
  intros H1 H2. unfold postProcess.
  apply String.eqb_neq in H1, H2. now rewrite H1, H2.
Qed.

(** *** The fields of a processed call record *)

Lemma assoc_None_other k (props : list (string * json)) :
  assoc k props = None -> forall v, ~ In (k, v) props.
Proof.
  induction props as [|[k0 v0] rest IH]; simpl; intros H v; [tauto|].
  destruct (k0 =? k) eqn:E; [discriminate|].
  intros [[= -> ->]|Hin]; [now rewrite String.eqb_refl in E|].
  now apply (IH H v).
Qed.

Lemma assoc_spread k props :
  NoDup (map fst props) ->
  assoc k (literalSpread [] (JObj props)) = assoc k props.
Proof.
  intros N. destruct (assoc k props) as [x|] eqn:E.
  - now apply literalSpread_field.
  - unfold literalSpread. simpl entries.
    rewrite assoc_setProps_other; [reflexivity|].
    intros v Hv. apply (Permutation_in _ (ownEntries_perm props)) in Hv.
    now apply (assoc_None_other k props E v).
Qed.

Lemma assoc_setIfTruthy k k' v props :
  assoc k (setIfTruthy k' v props)
  = match whenTruthy v with
    | Some x => if k' =? k then Some x else assoc k props
    | None => assoc k props
    end.
Proof.
  unfold setIfTruthy, whenTruthy. destruct v as [x|]; [|reflexivity].
  destruct (truthy x); [|reflexivity]. apply assoc_setProp.
Qed.

Lemma flattenSubdisposition_other k sub props :
  k <> "subdisposition" ->
  assoc k (flattenSubdisposition sub props) = assoc k props.
Proof.
  intros H. unfold flattenSubdisposition.
  assert (S : forall v, assoc k (setProp "subdisposition" v props) = assoc k props)
    by (intros v; apply assoc_setProp_other; congruence).
  destruct sub; try apply S;
    (destruct (prop _ "name") as [name|]; [|reflexivity];
     destruct (truthy name); [|reflexivity];
     destruct (prop _ "subdisposition") as [inner|]; [|apply S];
     destruct (truthy inner && truthy_opt (prop inner "name")); apply S).
Qed.

End CdrFacts.

(** X6.  For a report other than the two queue reports, when an item
    that [fetchReport] has fetched holds an array [cdrs], the answer is
    made of the calls of the first such item alone: whatever was
    fetched before and after it is left out, where
    [fetchReportSinglePage] answers with the records of all the items.
    When no item holds such an array, the answer is what was fetched. *)
Theorem only_first_cdrs_item_is_returned :
  forall minus report,
    report <> "queueCalls" -> report <> "queueOutboundCalls" ->
    (forall before item cdrs after,
       PostProcessing.firstCdrs before = None ->
       JS.prop item "cdrs" = Some (JS.JArr cdrs) ->
       PostProcessing.postProcess minus report (before ++ item :: after)
       = ReportFetcher.mapE ReportFetcher.processCdr cdrs
       /\ forall all,
            ReportFetcher.flattenItems (before ++ item :: after) = inr all ->
            exists a rows b,
              ReportFetcher.mapE ReportFetcher.processCdr cdrs = inr rows
              /\ ReportFetcher.flattenItems before = inr a
              /\ ReportFetcher.flattenItems after = inr b
              /\ all = a ++ rows ++ b)
    /\ (forall out,
          PostProcessing.firstCdrs out = None ->
          PostProcessing.postProcess minus report out = inr out).
Proof.
  intros minus report H1 H2. split.
  - intros before item cdrs after Hb Hi. split.
    + rewrite CdrFacts.postProcess_other by assumption.
      now rewrite (CdrFacts.firstCdrs_app before item cdrs after Hb Hi).
    + intros all. rewrite CdrFacts.flattenItems_app.
      destruct (ReportFetcher.flattenItems before) as [e|a]; [discriminate|].
      change (ReportFetcher.flattenItems (item :: after))
        with (match ReportFetcher.flattenItem item with
              | inl e => inl e
              | inr recs =>
                  match ReportFetcher.flattenItems after with
                  | inl e => inl e
                  | inr more => inr (recs ++ more)
                  end
              end).
      rewrite (CdrFacts.flattenItem_cdrs item cdrs Hi).
      destruct (ReportFetcher.mapE ReportFetcher.processCdr cdrs) as [e|rows];
        [discriminate|].
      destruct (ReportFetcher.flattenItems after) as [e|b]; [discriminate|].
      intros [= <-]. now exists a, rows, b.
  - intros out Ho. rewrite CdrFacts.postProcess_other by assumption.
    now rewrite Ho.
Qed.

Lemma only_first_cdrs_item_is_returned_witness :
  PostProcessing.postProcess Terms.difference "cdrs"
    ([JS.JObj [("cdrs", JS.JArr [Scenarios.record 1])];
      JS.JObj [("cdrs", JS.JArr [Scenarios.record 2])]])
  = inr [Scenarios.record 1].
Proof.
  refine (proj1 (proj1 (only_first_cdrs_item_is_returned Terms.difference
                          "cdrs" _ _)
                   [] (JS.JObj [("cdrs", JS.JArr [Scenarios.record 1])])
                   [Scenarios.record 1]
                   [JS.JObj [("cdrs", JS.JArr [Scenarios.record 2])]]
                   eq_refl eq_refl)); discriminate.
Defined.

(** X7.  Processing a call record never fails on an object and keeps
    every property of it but [disposition], [follow_up_notes] and
    [subdisposition].  Of these the first two are taken from the
    [fonoUC] annotation when it holds a truthy value for them, and are
    kept as they are otherwise. *)
Theorem processed_cdr_keeps_other_fields :
  forall props,
    NoDup (map fst props) ->
    exists processed,
      ReportFetcher.processCdr (JS.JObj props) = inr (JS.JObj processed)
      /\ (forall k, k <> "disposition" -> k <> "follow_up_notes" ->
                    k <> "subdisposition" ->
                    JS.assoc k processed = JS.assoc k props)
      /\ JS.assoc "disposition" processed
         = match Terms.fonoField props "disposition" with
           | Some d => Some d
           | None => JS.assoc "disposition" props
           end
      /\ JS.assoc "follow_up_notes" processed
         = match Terms.fonoField props "follow_up_notes" with
           | Some notes => Some notes
           | None => JS.assoc "follow_up_notes" props
           end.
Proof.
  intros props N. unfold ReportFetcher.processCdr, Terms.fonoField.
  cbn [JS.prop].
  pose proof (fun k => CdrFacts.assoc_spread k props N) as Sp.
  destruct (JS.assoc "fonoUC" props) as [fono|];
    [|eexists; repeat split; auto].
  destruct (JS.truthy fono); [|eexists; repeat split; auto].
  set (p2 := ReportFetcher.setIfTruthy "follow_up_notes"
               (JS.prop fono "follow_up_notes")
               (ReportFetcher.setIfTruthy "disposition"
                  (JS.prop fono "disposition")
                  (JS.literalSpread [] (JS.JObj props)))).
  assert (P2 : forall k,
            JS.assoc k p2
            = match PostProcessing.whenTruthy (JS.prop fono "follow_up_notes") with
              | Some x =>
                  if "follow_up_notes" =? k then Some x
                  else match PostProcessing.whenTruthy (JS.prop fono "disposition") with
                       | Some d => if "disposition" =? k then Some d
                                   else JS.assoc k props
                       | None => JS.assoc k props
                       end
              | None =>
                  match PostProcessing.whenTruthy (JS.prop fono "disposition") with
                  | Some d => if "disposition" =? k then Some d
                              else JS.assoc k props
                  | None => JS.assoc k props
                  end
              end).
  { intros k. unfold p2. rewrite !CdrFacts.assoc_setIfTruthy, Sp. reflexivity. }
  assert (Q : exists processed,
            match JS.prop fono "subdisposition" with
            | Some sub =>
                if JS.truthy sub
                then inr (JS.JObj (ReportFetcher.flattenSubdisposition sub p2))
                else inr (JS.JObj p2)
            | None => inr (JS.JObj p2)
            end = @inr Net.Error _ (JS.JObj processed)
            /\ forall k, k <> "subdisposition" ->
                         JS.assoc k processed = JS.assoc k p2).
  { destruct (JS.prop fono "subdisposition") as [sub|];
      [|eexists; split; [reflexivity|auto]].
    destruct (JS.truthy sub); [|eexists; split; [reflexivity|auto]].
    eexists; split; [reflexivity|].
    intros k Hk. now apply CdrFacts.flattenSubdisposition_other. }
  destruct Q as (processed & -> & Hp). exists processed.
  split; [reflexivity|].
  repeat match goal with |- _ /\ _ => split end.
  - intros k H1 H2 H3. rewrite Hp, P2 by assumption.
    apply String.eqb_neq in H1, H2.
    rewrite (String.eqb_sym "follow_up_notes" k), H2.
    rewrite (String.eqb_sym "disposition" k), H1.
    destruct (PostProcessing.whenTruthy (JS.prop fono "follow_up_notes"));
      destruct (PostProcessing.whenTruthy (JS.prop fono "disposition"));
      reflexivity.
  - rewrite Hp, P2 by discriminate. cbn [String.eqb Ascii.eqb Bool.eqb].
    destruct (PostProcessing.whenTruthy (JS.prop fono "follow_up_notes"));
      destruct (PostProcessing.whenTruthy (JS.prop fono "disposition"));
      reflexivity.
  - rewrite Hp, P2 by discriminate. cbn [String.eqb Ascii.eqb Bool.eqb].
    destruct (PostProcessing.whenTruthy (JS.prop fono "follow_up_notes"));
      destruct (PostProcessing.whenTruthy (JS.prop fono "disposition"));
      reflexivity.
Qed.

Lemma processed_cdr_keeps_other_fields_witness :
  exists processed,
    ReportFetcher.processCdr
      (JS.JObj [("call_id", JS.JStr "c1"); ("disposition", JS.JStr "ANSWERED");
                ("fonoUC", JS.JObj [("disposition", JS.JStr "Sale")])])
    = inr (JS.JObj processed)
    /\ JS.assoc "call_id" processed = Some (JS.JStr "c1")
    /\ JS.assoc "disposition" processed = Some (JS.JStr "Sale").
Proof.
  destruct (processed_cdr_keeps_other_fields
              [("call_id", JS.JStr "c1"); ("disposition", JS.JStr "ANSWERED");
               ("fonoUC", JS.JObj [("disposition", JS.JStr "Sale")])])
    as (processed & E & Hk & Hd & _).
  - repeat constructor; simpl; intuition discriminate.
  - exists processed. split; [exact E|]. split.
    + rewrite Hk by discriminate. reflexivity.
    + rewrite Hd. reflexivity.
Defined.
Module PaginatedFacts.
Import JS Net Net.Notations ReportFetcher Vocabulary Terms JSFacts Paginated.

Lemma fetched_cons e evs : fetched (e :: evs) = fetched evs ++ chunkOf e.
Proof.
  unfold fetched. simpl. rewrite flat_map_app. simpl. now rewrite app_nil_r.
Qed.

Lemma fetched_app new old : fetched (new ++ old) = fetched old ++ fetched new.
Proof. unfold fetched. now rewrite rev_app_distr, flat_map_app. Qed.

(** What a turn of the loop does. *)
Lemma paginatedTurn_cases env report tenant path params limit s w r s' w' :
  paginatedTurn env report tenant path params limit s w = (r, s', w') ->
  (exists e evs,
      r = Raise e /\ s' = s /\ w' = evs ++ w /\ fetched evs = []
      /\ gets evs <= 1
      /\ (portalToken env w tenant = inl e
          \/ exists token rq,
               portalToken env w tenant = inr token
               /\ (portal env (EvToken tenant (inr token) :: w) rq = Failed e
                   \/ exists body,
                        portal env (EvToken tenant (inr token) :: w) rq
                        = Body body
                        /\ payloadChunk body = inl e)))
  \/ (exists rq token body chunk,
        w' = EvGet rq (Body body) :: EvToken tenant (inr token) :: w
        /\ portalToken env w tenant = inr token
        /\ portal env (EvToken tenant (inr token) :: w) rq = Body body
        /\ payloadChunk body = inr chunk
        /\ out s' = out s ++ recordsToAdd chunk limit (List.length (out s))
        /\ ((r = Return None
             /\ reached (List.length (out s')) limit = false
             /\ exists next, prop body "next_start_key" = Some next
                             /\ truthy next = true
                             /\ currentStartKey s' = Some next)
            \/ exists page,
                 r = Return (Some page)
                 /\ data page = out s'
                 /\ hasMore page = truthy_opt (nextStartKey page)
                 /\ (hasMore page = true ->
                     reached (List.length (out s')) limit = true)
                 /\ (hasMore page = false ->
                     truthy_opt (prop body "next_start_key") = false))).
Proof.
  unfold paginatedTurn, bind, getL, getPortalToken, axios_get. simpl.
  destruct (portalToken env w tenant) as [e|token] eqn:Et.
  - intros [= <- <- <-]. left. exists e, [EvToken tenant (inl e)].
    repeat split; [unfold gets; simpl; lia|now left].
  - destruct (portal env _ _) as [body|e] eqn:Eg.
    + unfold liftE. destruct (payloadChunk body) as [e|chunk] eqn:Ec.
      * unfold raise. intros [= <- <- <-]. left. exists e. eexists [_; _].
        repeat split; [|unfold gets; simpl; lia|].
        -- unfold fetched. simpl. now rewrite Ec.
        -- right. eexists token, _. split; [reflexivity|]. right.
           exists body. split; [exact Eg|exact Ec].
      * unfold ret, modifyL. cbv beta iota. cbn [out push_recordsToAdd].
        intros H. right. eexists _, token, body, chunk.
        split; [|split; [reflexivity|split; [exact Eg|split; [exact Ec|]]]].
        -- destruct (prop body "next_start_key") as [next|];
             [destruct (truthy next);
              [destruct (reached _ limit)|]|];
             injection H as _ _ <-; reflexivity.
        -- destruct (prop body "next_start_key") as [next|] eqn:En;
             [destruct (truthy next) eqn:Etr;
              [destruct (reached _ limit) eqn:Er|]|];
             injection H as <- <- _; cbn [out currentStartKey set_currentStartKey push_recordsToAdd];
             (split; [reflexivity|]).
           ++ right. eexists. split; [reflexivity|]. cbn.
              rewrite ?Etr. repeat split; auto; discriminate.
           ++ left. repeat split; [exact Er|]. exists next. auto.
           ++ right. eexists. split; [reflexivity|]. cbn.
              rewrite ?Etr. repeat split; auto; discriminate.
           ++ right. eexists. split; [reflexivity|]. cbn.
              repeat split; auto; discriminate.
    + intros [= <- <- <-]. left. exists e. eexists [_; _].
      repeat split; [unfold gets; simpl; lia|].
      right. eexists token, _. split; [reflexivity|]. left. exact Eg.
Qed.

Lemma slice0_nonneg n (l : list json) : (0 <= n)%Z -> slice0 n l = firstn (Z.to_nat n) l.
Proof. intros H. unfold slice0. destruct (Z.ltb_spec n 0); [lia|reflexivity]. Qed.

Section Run.

Variables (env : Env) (report tenant path : string).
Variables (params : list (string * json)) (l : Z) (w0 : World).
Hypothesis positive : (0 < l)%Z.

Lemma turn_held s w r s' w' :
  Held l w0 s w ->
  paginatedTurn env report tenant path params (Some l) s w = (r, s', w') ->
  match r with
  | Return None => Held l w0 s' w'
  | Return (Some page) => Delivered l w0 page w'
  | Raise _ => Held l w0 s' w'
  | OutOfFuel => False
  end.
Proof.
  intros (new & -> & Ho & Hl) H. apply paginatedTurn_cases in H.
  destruct H as [(e & evs & -> & -> & -> & Hf & _ & _)|
                 (rq & token & body & chunk & -> & _ & _ & Hc & Hout & H)].
  - exists (evs ++ new). rewrite app_assoc, fetched_app, Hf, app_nil_r. auto.
  - set (n := List.length (out s)) in *.
    assert (Hadd : recordsToAdd chunk (Some l) n
                   = firstn (Z.to_nat (l - Z.of_nat n)) chunk)
      by (apply slice0_nonneg; lia).
    rewrite Hadd in Hout.
    assert (Hnew : fetched ((EvGet rq (Body body)
                             :: EvToken tenant (inr token) :: new))
                   = out s ++ chunk).
    { rewrite !fetched_cons. simpl. rewrite Hc, app_nil_r. now rewrite Ho. }
    assert (Hlen : List.length (out s') = n + Nat.min (Z.to_nat (l - Z.of_nat n))
                                                  (List.length chunk)).
    { rewrite Hout, length_app, length_firstn. reflexivity. }
    destruct H as [(-> & Hr & next & _)|(page & -> & Hd & Hm & Ht & _)].
    + simpl in Hr. apply Z.leb_gt in Hr.
      exists (EvGet rq (Body body) :: EvToken tenant (inr token) :: new).
      split; [reflexivity|]. split; [|exact Hr].
      rewrite Hnew, Hout. f_equal. apply firstn_all2. lia.
    + exists (EvGet rq (Body body) :: EvToken tenant (inr token) :: new).
      split; [reflexivity|]. rewrite Hd. split; [|split; [exact Hm|]].
      * rewrite Hnew, Hout.
        rewrite firstn_app, (@firstn_all2 _ (Z.to_nat l) (out s)) by (fold n; lia).
        f_equal. f_equal. fold n. lia.
      * intros Hh. specialize (Ht Hh). simpl in Ht. apply Z.leb_le in Ht.
        rewrite Hlen in *. lia.
Qed.

Lemma loop_held fuel : forall s w r s' w',
  Held l w0 s w ->
  paginatedLoop fuel env report tenant path params (Some l) s w = (r, s', w') ->
  match r with
  | Return page => Delivered l w0 page w'
  | Raise _ => Held l w0 s' w'
  | OutOfFuel => True
  end.
Proof.
  induction fuel as [|fuel IH]; intros s w r s' w' Hh H;
    pose proof Hh as (new & _ & _ & Hl);
    cbn [paginatedLoop] in H; unfold bind, getL in H; cbv beta iota in H;
    (assert (Hb : below (List.length (out s)) (Some l) = true)
       by (simpl; now apply Z.ltb_lt)); rewrite Hb in H.
  - injection H as <- <- <-. exact I.
  - destruct (paginatedTurn env report tenant path params (Some l) s w)
      as [[[[page|]|e|] s1] w1] eqn:Et;
      pose proof (turn_held _ _ _ _ _ Hh Et) as Ht; cbn in Ht.
    + injection H as <- <- <-. exact Ht.
    + now apply (IH s1 w1).
    + injection H as <- <- <-. exact Ht.
    + contradiction.
Qed.

Lemma retrying_held fuel n : forall attempt delay s w r s' w',
  Held l w0 s w ->
  retrying n attempt delay
    (paginatedLoop fuel env report tenant path params (Some l)) s w
  = (r, s', w') ->
  forall page, r = Return (Some page) -> Delivered l w0 page w'.
Proof.
  induction n as [|n IH]; intros attempt delay s w r s' w' Hh H page Hr.
  - simpl in H. injection H as <- <- <-. discriminate.
  - cbn [retrying] in H. unfold tryCatch, bind in H.
    destruct (paginatedLoop fuel env report tenant path params (Some l) s w)
      as [[[page1|e|] s1] w1] eqn:El;
      pose proof (loop_held _ _ _ _ _ _ Hh El) as Hl; cbn in Hl.
    + injection H as <- <- <-. injection Hr as <-. exact Hl.
    + destruct (attempt =? MAX_RETRIES - 1)%nat.
      * injection H as <- <- <-. discriminate.
      * unfold sleep in H. cbv beta iota in H.
        destruct Hl as (new & -> & Ho & Hlt).
        eapply IH; [|exact H|exact Hr].
        exists (EvSleep delay :: new). split; [reflexivity|].
        rewrite fetched_cons. simpl. rewrite app_nil_r. auto.
    + injection H as <- <- <-. discriminate.
Qed.

End Run.

Section Upstreams.

Variables (env : Env) (report tenant path : string).
Variables (params : list (string * json)) (l : Z).
Hypothesis positive : (0 < l)%Z.
Hypothesis tokens : forall w t, exists token, portalToken env w t = inr token.

(** *** An upstream whose pages all hold a record *)

Section Productive.

Hypothesis pages : forall w rq, exists body chunk,
  portal env w rq = Body body /\ payloadChunk body = inr chunk /\ chunk <> [].

Lemma no_raise w e :
  ~ (portalToken env w tenant = inl e
     \/ exists token rq,
          portalToken env w tenant = inr token
          /\ (portal env (EvToken tenant (inr token) :: w) rq = Failed e
              \/ exists body,
                   portal env (EvToken tenant (inr token) :: w) rq = Body body
                   /\ payloadChunk body = inl e)).
Proof.
  intros [H|(token & rq & _ & [H|(body & H & Hc)])].
  - destruct (tokens w tenant) as [t Ht]. congruence.
  - destruct (pages (EvToken tenant (inr token) :: w) rq) as (b & c & Hb & _).
    congruence.
  - destruct (pages (EvToken tenant (inr token) :: w) rq)
      as (b & c & Hb & Hcb & _). congruence.
Qed.

Lemma turn_productive s w r s' w' :
  (Z.of_nat (List.length (out s)) < l)%Z ->
  paginatedTurn env report tenant path params (Some l) s w = (r, s', w') ->
  List.length (out s) < List.length (out s')
  /\ (exists ev1 ev2, w' = ev1 :: ev2 :: w /\ gets [ev1; ev2] = 1
                       /\ sleeps [ev1; ev2] = [])
  /\ (r = Return None /\ (Z.of_nat (List.length (out s')) < l)%Z
      \/ exists page, r = Return (Some page)).
Proof.
  intros Hl H. apply paginatedTurn_cases in H.
  destruct H as [(e & evs & _ & _ & _ & _ & _ & H)|
                 (rq & token & body & chunk & -> & _ & Hb & Hc & Hout & H)].
  - now apply no_raise in H.
  - destruct (pages (EvToken tenant (inr token) :: w) rq)
      as (b & c & Hb' & Hc' & Hne).
    rewrite Hb in Hb'. injection Hb' as <-. rewrite Hc in Hc'.
    injection Hc' as <-.
    assert (Hlen : List.length (out s) < List.length (out s')).
    { rewrite Hout, length_app. simpl.
      rewrite slice0_nonneg by lia. rewrite length_firstn.
      destruct chunk; [congruence|]. simpl. lia. }
    split; [exact Hlen|]. split; [eexists _, _; repeat split|].
    destruct H as [(-> & Hr & _)|(page & -> & _)].
    + left. split; [reflexivity|]. simpl in Hr. now apply Z.leb_gt in Hr.
    + right. now exists page.
Qed.

Lemma loop_productive fuel : forall s w,
  (l - Z.of_nat (List.length (out s)) <= Z.of_nat fuel)%Z ->
  exists page s' new,
    paginatedLoop fuel env report tenant path params (Some l) s w
    = (Return page, s', new ++ w)
    /\ (Z.of_nat (gets new) <= Z.max 0 (l - Z.of_nat (List.length (out s))))%Z
    /\ sleeps new = [].
Proof.
  induction fuel as [|fuel IH]; intros s w Hf; cbn [paginatedLoop];
    unfold bind, getL; cbv beta iota; cbn [below];
    destruct (Z.ltb_spec (Z.of_nat (List.length (out s))) l) as [Hl|Hl];
    try lia;
    try (eexists _, _, []; split; [reflexivity|split; [unfold gets; simpl; lia
                                                     |reflexivity]]).
  destruct (paginatedTurn env report tenant path params (Some l) s w)
    as [[r s1] w1] eqn:Et.
  destruct (turn_productive _ _ _ _ _ Hl Et)
    as (Hlen & (ev1 & ev2 & -> & Hg & Hs) & [(-> & Hl1)|(page & ->)]).
  - destruct (IH s1 (ev1 :: ev2 :: w)) as (page & s' & new & E & Hn & Hsl);
      [lia|].
    exists page, s', (new ++ [ev1; ev2]).
    rewrite <- app_assoc. split; [exact E|]. split.
    + unfold gets in *. rewrite filter_app, length_app. lia.
    + unfold sleeps in *. rewrite flat_map_app, Hsl, Hs. reflexivity.
  - exists page, s1, [ev1; ev2]. split; [reflexivity|]. split; [lia|exact Hs].
Qed.

End Productive.

(** *** An upstream whose pages are all empty and name a cursor *)

Section Barren.

Hypothesis pages : forall w rq, exists body next,
  portal env w rq = Body body /\ payloadChunk body = inr []
  /\ prop body "next_start_key" = Some next /\ truthy next = true.

Lemma loop_barren fuel : forall s w,
  out s = [] ->
  fst (fst (paginatedLoop fuel env report tenant path params (Some l) s w))
  = OutOfFuel.
Proof.
  induction fuel as [|fuel IH]; intros s w Ho; cbn [paginatedLoop];
    unfold bind, getL; cbv beta iota; rewrite Ho; cbn [below List.length];
    (replace (Z.of_nat 0 <? l)%Z with true by (symmetry; now apply Z.ltb_lt));
    [reflexivity|].
  destruct (paginatedTurn env report tenant path params (Some l) s w)
    as [[r s1] w1] eqn:Et.
  pose proof Et as H. apply paginatedTurn_cases in H.
  destruct H as [(e & evs & _ & _ & _ & _ & _ & H)|
                 (rq & token & body & chunk & -> & _ & Hb & Hc & Hout & H)].
  - exfalso. destruct H as [H|(token & rq & _ & [H|(body & H & Hc)])].
    + destruct (tokens w tenant) as [t Ht]. congruence.
    + destruct (pages (EvToken tenant (inr token) :: w) rq)
        as (b & c & Hb & _). congruence.
    + destruct (pages (EvToken tenant (inr token) :: w) rq)
        as (b & c & Hb & Hcb & _). congruence.
  - destruct (pages (EvToken tenant (inr token) :: w) rq)
      as (b & next & Hb' & Hc' & Hn & Ht).
    rewrite Hb in Hb'. injection Hb' as <-. rewrite Hc in Hc'.
    injection Hc' as ->.
    assert (Ho1 : out s1 = []).
    { rewrite Hout, Ho. simpl. unfold slice0.
      destruct (_ <? 0)%Z; now rewrite firstn_nil. }
    destruct H as [(-> & _)|(page & -> & _ & Hm & Hr & Hf)].
    + now apply IH.
    + exfalso. destruct (hasMore page).
      * specialize (Hr eq_refl). rewrite Ho1 in Hr. simpl in Hr.
        apply Z.leb_le in Hr. lia.
      * specialize (Hf eq_refl). rewrite Hn in Hf. simpl in Hf. congruence.
Qed.

End Barren.

End Upstreams.

(** With a limit that is NaN, zero or negative nothing is fetched. *)
Lemma nothing_fetched fuel env report tenant params limit startKey w r s' w' :
  below 0 limit = false ->
  fetchReportPaginated fuel env report tenant params limit
    (Locals_init startKey) w = (r, s', w') ->
  w' = w
  /\ forall page, r = Return (Some page) ->
       data page = [] /\ nextStartKey page = startKey
       /\ hasMore page = truthy_opt startKey.
Proof.
  intros Hb. unfold fetchReportPaginated.
  destruct (ENDPOINTS report) as [path|];
    [|intros [= <- <- <-]; split; [reflexivity|discriminate]].
  cbn [retrying]. unfold tryCatch, bind.
  destruct fuel; cbn [paginatedLoop]; unfold bind, getL; cbv beta iota;
    cbn [out Locals_init List.length]; rewrite Hb; cbn;
    intros [= <- <- <-]; (split; [reflexivity|]);
    intros page [= <-]; auto.
Qed.

End PaginatedFacts.
(** X8.  [fetchReportPaginated] never returns more records than the
    limit, and it says [hasMore] exactly when it names the cursor to go
    on from; when it says so under a positive limit, the page is full.
    With a limit that is zero, negative or not a number it fetches
    nothing and returns no record and the caller's own cursor. *)
Theorem paginated_page_within_limit :
  forall fuel env report tenant params limit startKey w page s' w',
    Paginated.fetchReportPaginated fuel env report tenant params limit
      (Paginated.Locals_init startKey) w = (Net.Return (Some page), s', w') ->
    Paginated.hasMore page = JS.truthy_opt (Paginated.nextStartKey page)
    /\ (forall l,
          limit = Some l -> (0 < l)%Z ->
          (Z.of_nat (List.length (Paginated.data page)) <= l)%Z
          /\ (Paginated.hasMore page = true ->
              Z.of_nat (List.length (Paginated.data page)) = l))
    /\ (Paginated.below 0 limit = false ->
        Paginated.data page = [] /\ Paginated.nextStartKey page = startKey
        /\ w' = w).
Proof.
  intros fuel env report tenant params limit startKey w page s' w' H.
  destruct (Paginated.below 0 limit) eqn:Hb.
  - destruct limit as [l|]; [|discriminate]. simpl in Hb.
    apply Z.ltb_lt in Hb.
    unfold Paginated.fetchReportPaginated in H.
    destruct (ReportFetcher.ENDPOINTS report) as [path|]; [|discriminate].
    eapply (PaginatedFacts.retrying_held env report tenant path params l w Hb)
      in H; [|exists []; repeat split; exact Hb|reflexivity].
    destruct H as (new & -> & Hd & Hm & Hf).
    split; [exact Hm|]. split; [|discriminate].
    intros l' [= <-] _. split; [|exact Hf].
    rewrite Hd, length_firstn. lia.
  - destruct (PaginatedFacts.nothing_fetched _ _ _ _ _ _ _ _ _ _ _ Hb H)
      as [-> Hp].
    destruct (Hp page eq_refl) as (Hd & Hn & Hm).
    split; [now rewrite Hm, Hn|]. split; [|auto].
    intros l -> Hl. simpl in Hb. apply Z.ltb_ge in Hb. lia.
Qed.

Lemma paginated_page_within_limit_witness :
  (Z.of_nat (List.length [Scenarios.record 1; Scenarios.record 1]) <= 2)%Z.
Proof.
  exact (proj1 (proj1 (proj2 (paginated_page_within_limit 5 Scenarios.stuck
                                "cdrs" "acme" [] (Some 2%Z) None [] _ _ _
                                eq_refl))
                  2%Z eq_refl eq_refl)).
Defined.

(** X9.  Under a positive limit the page that [fetchReportPaginated]
    returns holds the first records of the pages it has fetched, in the
    order in which they came: no record is skipped, repeated or moved,
    whatever failed and was retried on the way. *)
Theorem paginated_page_is_what_was_fetched :
  forall fuel env report tenant params l startKey w page s' w',
    (0 < l)%Z ->
    Paginated.fetchReportPaginated fuel env report tenant params (Some l)
      (Paginated.Locals_init startKey) w = (Net.Return (Some page), s', w') ->
    exists new,
      w' = new ++ w
      /\ Paginated.data page = firstn (Z.to_nat l) (Terms.fetched new).
Proof.
  intros fuel env report tenant params l startKey w page s' w' Hl H.
  unfold Paginated.fetchReportPaginated in H.
  destruct (ReportFetcher.ENDPOINTS report) as [path|]; [|discriminate].
  eapply (PaginatedFacts.retrying_held env report tenant path params l w Hl)
    in H; [|exists []; repeat split; exact Hl|reflexivity].
  destruct H as (new & -> & Hd & _). now exists new.
Qed.

Lemma paginated_page_is_what_was_fetched_witness :
  exists new,
    snd (Paginated.fetchReportPaginated 5 (Scenarios.flaky 1) "cdrs" "acme" []
           (Some 1%Z) (Paginated.Locals_init None) []) = new ++ []
    /\ [Scenarios.record 1] = firstn 1 (Terms.fetched new).
Proof.
  exact (paginated_page_is_what_was_fetched 5 (Scenarios.flaky 1) "cdrs" "acme"
           [] 1%Z None [] _ _ _ eq_refl eq_refl).
Defined.

(** X10.  Against an upstream that always hands out a token and whose
    every page holds a record, [fetchReportPaginated] ends for a
    positive limit [l] after [l] requests at most, without a retry. *)
Theorem paginated_ends_when_pages_hold_records :
  forall fuel env report path tenant params l startKey w,
    ReportFetcher.ENDPOINTS report = Some path ->
    (0 < l)%Z -> (l <= Z.of_nat fuel)%Z ->
    (forall w t, exists token, Net.portalToken env w t = inr token) ->
    (forall w rq, exists body chunk,
        Net.portal env w rq = Net.Body body
        /\ ReportFetcher.payloadChunk body = inr chunk /\ chunk <> []) ->
    exists page s' new,
      Paginated.fetchReportPaginated fuel env report tenant params (Some l)
        (Paginated.Locals_init startKey) w
      = (Net.Return (Some page), s', new ++ w)
      /\ (Z.of_nat (Net.gets new) <= l)%Z
      /\ Net.sleeps new = [].
Proof.
  intros fuel env report path tenant params l startKey w He Hl Hf Ht Hp.
  unfold Paginated.fetchReportPaginated. rewrite He.
  destruct (PaginatedFacts.loop_productive env report tenant path params l
              Ht Hp fuel (Paginated.Locals_init startKey) w)
    as (page & s' & new & E & Hg & Hs); [simpl; lia|].
  exists page, s', new. cbn [ReportFetcher.retrying].
  unfold Net.tryCatch, Net.bind. rewrite E. cbn.
  split; [reflexivity|]. split; [|exact Hs]. simpl in Hg. lia.
Qed.

Lemma paginated_ends_when_pages_hold_records_witness :
  exists page s' new,
    Paginated.fetchReportPaginated 3 Scenarios.stuck "cdrs" "acme" []
      (Some 3%Z) (Paginated.Locals_init None) []
    = (Net.Return (Some page), s', new ++ [])
    /\ (Z.of_nat (Net.gets new) <= 3)%Z
    /\ Net.sleeps new = [].
Proof.
  refine (paginated_ends_when_pages_hold_records 3 Scenarios.stuck "cdrs" _
            "acme" [] 3%Z None [] eq_refl _ _ _ _); try lia.
  - intros w t. now exists "token".
  - intros w rq. eexists _, _. split; [reflexivity|].
    split; [reflexivity|discriminate].
Defined.

(** X11.  [fetchReportPaginated] has no guard against an upstream that
    goes on for ever: when every page is empty and names a cursor, it
    never ends under a positive limit, however much fuel it is given. *)
Theorem paginated_never_ends_on_empty_pages :
  forall env report path tenant params l startKey w,
    ReportFetcher.ENDPOINTS report = Some path ->
    (0 < l)%Z ->
    (forall w t, exists token, Net.portalToken env w t = inr token) ->
    (forall w rq, exists body next,
        Net.portal env w rq = Net.Body body
        /\ ReportFetcher.payloadChunk body = inr []
        /\ JS.prop body "next_start_key" = Some next
        /\ JS.truthy next = true) ->
    forall fuel,
      fst (fst (Paginated.fetchReportPaginated fuel env report tenant params
                  (Some l) (Paginated.Locals_init startKey) w))
      = Net.OutOfFuel.
Proof.
  intros env report path tenant params l startKey w He Hl Ht Hp fuel.
  unfold Paginated.fetchReportPaginated. rewrite He.
  pose proof (PaginatedFacts.loop_barren env report tenant path params l Hl
                Ht Hp fuel (Paginated.Locals_init startKey) w eq_refl) as H.
  cbn [ReportFetcher.retrying]. unfold Net.tryCatch, Net.bind.
  destruct (Paginated.paginatedLoop fuel env report tenant path params
              (Some l) (Paginated.Locals_init startKey) w) as [[r s1] w1].
  simpl in H. subst r. reflexivity.
Qed.

Lemma paginated_never_ends_on_empty_pages_witness :
  fst (fst (Paginated.fetchReportPaginated 7 Scenarios.endless "cdrs"
              "acme" [] (Some 5%Z) (Paginated.Locals_init None) []))
  = Net.OutOfFuel.
Proof.
  refine (paginated_never_ends_on_empty_pages Scenarios.endless "cdrs" _
            "acme" [] 5%Z None [] eq_refl _ _ _ 7); try lia.
  - intros w t. now exists "token".
  - intros w rq. eexists _, _. split; [reflexivity|].
    split; [reflexivity|]. split; [reflexivity|].
    apply Termination.numeral_truthy.
Defined.
Module CostFacts.
Import JS Net Net.Notations ReportFetcher Vocabulary Terms.

Lemma Cost_refl w : Cost 0 0 w w.
Proof. exists []. repeat split; auto. Qed.

Lemma Cost_trans g1 s1 g2 s2 w w1 w2 :
  Cost g1 s1 w w1 -> Cost g2 s2 w1 w2 -> Cost (g1 + g2) (s1 + s2) w w2.
Proof.
  intros (n1 & -> & G1 & I1 & S1) (n2 & -> & G2 & I2 & S2).
  exists (n2 ++ n1). rewrite app_assoc. split; [reflexivity|].
  unfold gets, invocations, sleeps in *.
  rewrite !filter_app, flat_map_app, !length_app. lia.
Qed.

Lemma Cost_le g s g' s' w w' :
  Cost g s w w' -> g <= g' -> s <= s' -> Cost g' s' w w'.
Proof.
  intros (n & -> & G & Hi & Hsl) Hg Hs. exists n. repeat split; lia.
Qed.

Lemma Cost_sleep ms w : Cost 0 1 w (EvSleep ms :: w).
Proof. exists [EvSleep ms]. repeat split; auto. Qed.

Lemma singlePageAttempt_cost env report tenant path params limit l w r l' w' :
  singlePageAttempt env report tenant path params limit l w = (r, l', w') ->
  r <> OutOfFuel /\ Cost 1 0 w w'.
Proof.
  unfold singlePageAttempt, bind, getPortalToken, axios_get.
  destruct (portalToken env w tenant) as [e|token].
  { intros [= <- <- <-]. split; [discriminate|].
    exists [EvToken tenant (inl e)]. unfold gets, invocations. simpl. auto. }
  destruct (portal env _ _) as [data|e].
  2:{ intros [= <- <- <-]. split; [discriminate|].
      eexists [_; _]. unfold gets, invocations. simpl. auto. }
  unfold liftE, ret, raise.
  assert (C : Cost 1 0 w
                (EvGet (mkRequest env path tenant token
                          (setProps (fieldsParam report)
                             (setProps (limitParam limit)
                                (setProps (ownEntries params) []))))
                   (Body data) :: EvToken tenant (inr token) :: w)).
  { eexists [_; _]. unfold gets, invocations. simpl. auto. }
  destruct (rawDataOf data) as [e|rawData];
    [intros [= <- <- <-]; split; [discriminate|exact C]|].
  destruct (flattenItems rawData); intros [= <- <- <-];
    (split; [discriminate|exact C]).
Qed.

Lemma retrying_cost {L A} (op : M L A) n :
  (forall l w r l' w', op l w = (r, l', w') -> r <> OutOfFuel /\ Cost 1 0 w w') ->
  forall attempt delay l w r l' w',
    n + attempt = MAX_RETRIES ->
    retrying n attempt delay op l w = (r, l', w') ->
    r <> OutOfFuel /\ Cost n (Nat.pred n) w w'.
Proof.
  intros Hop. induction n as [|n IH]; intros attempt delay l w r l' w' Hn H.
  - simpl in H. injection H as <- <- <-. split; [discriminate|apply Cost_refl].
  - cbn [retrying] in H. unfold tryCatch, bind, ret in H.
    destruct (op l w) as [[[a|e|] l1] w1] eqn:E;
      destruct (Hop _ _ _ _ _ E) as [Hr C]; [| |congruence].
    + injection H as <- <- <-. split; [discriminate|].
      apply (Cost_le _ _ _ _ _ _ C); lia.
    + destruct (Nat.eqb_spec attempt (MAX_RETRIES - 1)) as [Ha|Ha].
      * injection H as <- <- <-. split; [discriminate|].
        apply (Cost_le _ _ _ _ _ _ C); lia.
      * unfold sleep in H. cbv beta iota in H.
        assert (Hn' : n + S attempt = MAX_RETRIES) by lia.
        destruct (IH _ _ _ _ _ _ _ Hn' H) as [Hr' C'].
        split; [exact Hr'|]. unfold MAX_RETRIES in *.
        pose proof (Cost_trans _ _ _ _ _ _ _ C
                      (Cost_trans _ _ _ _ _ _ _ (Cost_sleep delay w1) C')) as C2.
        apply (Cost_le _ _ _ _ _ _ C2); lia.
Qed.

Lemma fetchReportSinglePage_cost env report tenant params limit l w r l' w' :
  fetchReportSinglePage env report tenant params limit l w = (r, l', w') ->
  r <> OutOfFuel /\ Cost 3 2 w w'.
Proof.
  unfold fetchReportSinglePage. destruct (ENDPOINTS report) as [path|].
  - intros H. eapply (retrying_cost _ 3); [|reflexivity|exact H].
    intros. eapply singlePageAttempt_cost; eauto.
  - intros [= <- <- <-]. split; [discriminate|].
    apply (Cost_le _ _ _ _ _ _ (Cost_refl w)); lia.
Qed.

Lemma call_cost {L} env report tenant params limit (l : L) w r l' w' :
  call (fetchReportSinglePage env report tenant params limit) tt l w
  = (r, l', w') ->
  r <> OutOfFuel /\ Cost 3 2 w w'.
Proof.
  unfold call.
  destruct (fetchReportSinglePage env report tenant params limit tt w)
    as [[r1 u] w1] eqn:E.
  intros [= <- <- <-]. eapply fetchReportSinglePage_cost; eauto.
Qed.

Lemma enhancedLoop_cost env report tenant limit attempts : forall i w r u w',
  enhancedLoop env report tenant limit i attempts tt w = (r, u, w') ->
  r <> OutOfFuel
  /\ Cost (3 * List.length attempts) (2 * List.length attempts) w w'.
Proof.
  induction attempts as [|attempt rest IH]; intros i w r u w' H.
  - simpl in H. injection H as <- <- <-. split; [discriminate|apply Cost_refl].
  - cbn [enhancedLoop] in H. unfold bind at 1 in H. unfold tryCatch in H.
    unfold bind at 1 in H.
    destruct (call (fetchReportSinglePage env report tenant attempt limit) tt
                tt w) as [[r1 u1] w1] eqn:E.
    destruct (call_cost _ _ _ _ _ _ _ _ _ _ E) as [Hr1 C1].
    assert (Hstop : r <> OutOfFuel -> Cost 3 2 w w' ->
                    r <> OutOfFuel
                    /\ Cost (3 * List.length (attempt :: rest))
                         (2 * List.length (attempt :: rest)) w w').
    { intros Hr C. split; [exact Hr|].
      apply (Cost_le _ _ _ _ _ _ C); simpl; lia. }
    assert (Hnext : enhancedLoop env report tenant limit (S i) rest tt w1
                    = (r, u, w') ->
                    r <> OutOfFuel
                    /\ Cost (3 * List.length (attempt :: rest))
                         (2 * List.length (attempt :: rest)) w w').
    { intros Hx. destruct (IH _ _ _ _ _ Hx) as [Hr C]. split; [exact Hr|].
      apply (Cost_le _ _ _ _ _ _ (Cost_trans _ _ _ _ _ _ _ C1 C)); simpl; lia. }
    destruct u1.
    destruct r1 as [result|e|]; [| |congruence].
    + destruct (lengthOver500 result);
        [|destruct (i =? 0)%nat;
          [destruct limit as [n|]; [destruct (500 <? n)%Z|]|]];
        cbn in H;
        first [ now apply Hnext
              | injection H as <- <- <-; apply Hstop; [discriminate|exact C1] ].
    + destruct (i =? 4)%nat; cbn in H;
        first [ now apply Hnext
              | injection H as <- <- <-; apply Hstop; [discriminate|exact C1] ].
Qed.

Lemma enhanced_cost env report tenant params limit w r u w' :
  fetchReportSinglePageEnhanced env report tenant params limit tt w
  = (r, u, w') ->
  r <> OutOfFuel /\ Cost 18 12 w w'.
Proof.
  unfold fetchReportSinglePageEnhanced, bind.
  destruct (enhancedLoop env report tenant limit 0
              (paginationAttempts params limit) tt w)
    as [[r1 u1] w1] eqn:E.
  destruct (enhancedLoop_cost _ _ _ _ _ _ _ _ _ _ E) as [Hr1 C1].
  change (List.length (paginationAttempts params limit)) with 5 in C1.
  destruct r1 as [[result|]|e|]; [| | |congruence].
  - intros [= <- <- <-]. split; [discriminate|].
    apply (Cost_le _ _ _ _ _ _ C1); lia.
  - intros H. destruct (call_cost _ _ _ _ _ _ _ _ _ _ H) as [Hr C].
    split; [exact Hr|].
    apply (Cost_le _ _ _ _ _ _ (Cost_trans _ _ _ _ _ _ _ C1 C)); lia.
  - intros [= <- <- <-]. split; [discriminate|].
    apply (Cost_le _ _ _ _ _ _ C1); lia.
Qed.

End CostFacts.
(** X12.  The single-page path always ends, and it is frugal:
    [fetchReportSinglePageEnhanced] asks for 18 tokens and sends 18
    GETs at most, with 12 sleeps at most between them, whatever the
    upstream answers.  So the route [/api/reports/:type] answers every
    request whose limit is absent or at most 500 within that cost. *)
Theorem single_page_path_always_answers :
  (forall env report tenant params limit w,
     fst (fst (ReportFetcher.fetchReportSinglePageEnhanced env report tenant
                 params limit tt w)) <> Net.OutOfFuel
     /\ Terms.Cost 18 12 w
          (snd (ReportFetcher.fetchReportSinglePageEnhanced env report tenant
                  params limit tt w)))
  /\ (forall Date_parse fuel env type q w,
        (forall n, Server.recordLimitOf (Server.limit q) = inr (Some n) ->
                   (n <= 500)%Z) ->
        fst (Server.reportsRoute Date_parse fuel env type q w) <> None
        /\ Terms.Cost 18 12 w
             (snd (Server.reportsRoute Date_parse fuel env type q w))).
Proof.
  assert (E : forall env report tenant params limit w,
            fst (fst (ReportFetcher.fetchReportSinglePageEnhanced env report
                        tenant params limit tt w)) <> Net.OutOfFuel
            /\ Terms.Cost 18 12 w
                 (snd (ReportFetcher.fetchReportSinglePageEnhanced env report
                         tenant params limit tt w))).
  { intros env report tenant params limit w.
    destruct (ReportFetcher.fetchReportSinglePageEnhanced env report tenant
                params limit tt w) as [[r u] w'] eqn:H.
    now apply CostFacts.enhanced_cost in H. }
  split; [exact E|].
  intros Date_parse fuel env type q w Hq.
  assert (Hz : Terms.Cost 18 12 w w)
    by (apply (CostFacts.Cost_le _ _ _ _ _ _ (CostFacts.Cost_refl w)); lia).
  unfold Server.reportsRoute.
  destruct (Server.given (Server.account q)) as [tenant|];
    [|split; [discriminate|exact Hz]].
  destruct (Server.dateParam Date_parse "startDate" _ _ _) as [bad|params1];
    [split; [discriminate|exact Hz]|].
  destruct (Server.dateParam Date_parse "endDate" _ _ _) as [bad|params];
    [split; [discriminate|exact Hz]|].
  destruct (Server.recordLimitOf (Server.limit q)) as [bad|recordLimit] eqn:El;
    [split; [discriminate|exact Hz]|].
  unfold Server.respond.
  assert (Hs : Server.fetchData fuel env type tenant params recordLimit w
               = (fst (fst (ReportFetcher.fetchReportSinglePageEnhanced env
                              type tenant params recordLimit tt w)),
                  snd (ReportFetcher.fetchReportSinglePageEnhanced env
                         type tenant params recordLimit tt w))).
  { unfold Server.fetchData.
    destruct (ReportFetcher.fetchReportSinglePageEnhanced env type tenant
                params recordLimit tt w) as [[r u] w'].
    destruct recordLimit as [n|]; [|reflexivity].
    specialize (Hq n eq_refl).
    destruct (Z.ltb_spec 500 n); [lia|reflexivity]. }
  rewrite Hs.
  destruct (E env type tenant params recordLimit w) as [Hr C].
  destruct (ReportFetcher.fetchReportSinglePageEnhanced env type tenant
              params recordLimit tt w) as [[[[data|]|e|] u] w'];
    simpl in *; try (split; [discriminate|exact C]).
  congruence.
Qed.

Lemma single_page_path_always_answers_witness :
  fst (Server.reportsRoute Scenarios.noDate 0 (Scenarios.flaky 100) "cdrs"
         (Scenarios.query "500") []) <> None.
Proof.
  refine (proj1 (proj2 single_page_path_always_answers Scenarios.noDate 0
                   (Scenarios.flaky 100) "cdrs" (Scenarios.query "500") [] _)).
  intros n [= <-]. lia.
Defined.
Module SliceFacts.
Import JS Net Net.Notations ReportFetcher Vocabulary Terms CostFacts.

Lemma sliceLoop_cost env report tenant params remainingLimit chunks :
  forallb datable chunks = true ->
  forall records w r records' w',
    sliceLoop env report tenant params remainingLimit chunks records w
    = (r, records', w') ->
    r = Return tt
    /\ Cost (3 * List.length chunks) (3 * List.length chunks) w w'
    /\ exists added, records' = records ++ added.
Proof.
  induction chunks as [|chunk rest IH]; intros Hd records w r records' w' H.
  - injection H as <- <- <-. split; [reflexivity|].
    split; [apply Cost_refl|]. exists []. now rewrite app_nil_r.
  - cbn [forallb] in Hd. apply andb_true_iff in Hd. destruct Hd as [Hd Hrest].
    specialize (IH Hrest).
    cbn [sliceLoop] in H. unfold bind at 1 in H. unfold getL in H.
    cbv beta iota in H.
    destruct (Z.of_nat (List.length records) <? remainingLimit)%Z.
    2:{ injection H as <- <- <-. split; [reflexivity|]. split.
        - apply (Cost_le _ _ _ _ _ _ (Cost_refl w)); lia.
        - exists []. now rewrite app_nil_r. }
    unfold datable in Hd. fold (validTime (startDate chunk)) in Hd.
    fold (validTime (endDate chunk)) in Hd. rewrite Hd in H.
    unfold bind at 1 in H. unfold ret at 1 in H. cbv beta iota in H.
    unfold bind at 1 in H. unfold tryCatch in H. unfold bind at 1 in H.
    match type of H with
    | context [call ?m tt records w] =>
        destruct (call m tt records w) as [[r1 l1] w1] eqn:E
    end.
    destruct (call_cost _ _ _ _ _ _ _ _ _ _ E) as [Hr1 C1].
    assert (Hl1 : l1 = records).
    { unfold call in E.
      destruct (fetchReportSinglePage _ _ _ _ _ tt w) as [[? ?] ?].
      now injection E as _ <- _. }
    subst l1.
    assert (Hnext : forall recs w2,
              Cost 3 3 w w2 -> (exists added, recs = records ++ added) ->
              sliceLoop env report tenant params remainingLimit rest recs w2
              = (r, records', w') ->
              r = Return tt
              /\ Cost (3 * List.length (chunk :: rest))
                   (3 * List.length (chunk :: rest)) w w'
              /\ exists added, records' = records ++ added).
    { intros recs w2 C2 [added1 ->] Hx.
      destruct (IH _ _ _ _ _ Hx) as (Hr & C & added2 & ->).
      split; [exact Hr|]. split.
      - apply (Cost_le _ _ _ _ _ _ (Cost_trans _ _ _ _ _ _ _ C2 C));
          simpl; lia.
      - exists (added1 ++ added2). now rewrite app_assoc. }
    assert (C13 : forall ms, Cost 3 3 w (EvSleep ms :: w1)).
    { intros ms.
      apply (Cost_le _ _ _ _ _ _
               (Cost_trans _ _ _ _ _ _ _ C1 (Cost_sleep ms w1))); lia. }
    destruct r1 as [[[|x more]|]|e|]; cbn in H; [| | | |congruence].
    + refine (Hnext _ _ (C13 200%Z) _ H).
      exists []. now rewrite app_nil_r.
    + refine (Hnext _ _ (C13 200%Z) _ H). now eexists.
    + refine (Hnext _ _ (C13 200%Z) _ H).
      exists []. now rewrite app_nil_r.
    + refine (Hnext records w1 _ _ H); [|exists []; now rewrite app_nil_r].
      apply (Cost_le _ _ _ _ _ _ C1); lia.
Qed.

End SliceFacts.


Module RouteFacts.
Import JS Net Net.Notations ReportFetcher Vocabulary Terms JSFacts PaginatedRoute.

Section Route.

Variable Date_parse : string -> option Z.
Variable JSON_parse : string -> option json.
Variable toISOString : Z -> option string.
Variable timeValue : json -> option Z.

(** The callback of line 165 never returns. *)
Lemma cdrRow_throws row : exists e, cdrRow toISOString row = inl e.
Proof.
  unfold cdrRow. destruct row; try (now eexists);
    destruct (timestampOf toISOString _); now eexists.
Qed.

Lemma mapS_cdrRow rows :
  rows <> [] -> exists e, mapS (cdrRow toISOString) rows = inl e.
Proof.
  destruct rows as [|row rest]; [congruence|]. intros _. simpl.
  destruct (cdrRow_throws row) as [e ->]. now exists e.
Qed.

Lemma mapS_nil {A B} (f : A -> string + B) l : mapS f l = inr [] -> l = [].
Proof.
  destruct l as [|x rest]; [reflexivity|]. simpl.
  destruct (f x); [discriminate|]. destruct (mapS f rest); discriminate.
Qed.

Lemma allDigitKeys_values v : allDigitKeys v = true -> Object_values v <> [].
Proof.
  unfold allDigitKeys, Object_values, Object_keys.
  destruct (entries v); simpl; [discriminate|discriminate].
Qed.

Lemma cdrRecordsOf_nonempty data : data <> [] -> cdrRecordsOf data <> [].
Proof.
  unfold cdrRecordsOf. destruct data as [|firstItem [|second rest]];
    [congruence| |intros _; discriminate].
  intros _. destruct firstItem; try discriminate;
    (destruct (allDigitKeys _) eqn:E;
     [now apply allDigitKeys_values|discriminate]).
Qed.

Lemma processedData_cdrs data rows :
  processedDataOf JSON_parse toISOString timeValue "cdrs" data = inr rows ->
  data = [] /\ rows = [].
Proof.
  unfold processedDataOf. simpl.
  destruct data as [|x rest]; [simpl; intros [= <-]; auto|].
  destruct (mapS_cdrRow (cdrRecordsOf (x :: rest))) as [e ->];
    [apply cdrRecordsOf_nonempty; discriminate|discriminate].
Qed.

(** *** The rows of the other reports *)

Lemma answeredRow_shape row answer :
  answeredRow JSON_parse toISOString timeValue row = inr answer ->
  exists ts,
    answer = JObj (setProp "answered_time"
                     (match ts with
                      | Some JNull | None => JStr "--"
                      | Some v => v
                      end)
                     (literalSpread [] row))
    /\ (forall v, prop row "answered_time" = Some v -> truthy v = true ->
                  ts = Some v)
    /\ (prop row "answered_time" = None -> prop row "agent_history" = None ->
        ts = None).
Proof.
  unfold answeredRow. destruct row; try discriminate.
  all: match goal with
       | |- (match ?d with inl _ => _ | inr _ => _ end) = _ -> _ =>
           destruct d as [e|ts] eqn:Ed; [discriminate|]
       end.
  all: intros [= <-]; exists ts; split; [reflexivity|]; split.
  all: try (intros v Hv Ht; rewrite Hv in Ed; cbn [truthy_opt] in Ed;
            rewrite Ht in Ed; now injection Ed as <-).
  all: intros Hn Hh; rewrite Hn, Hh in Ed; cbn in Ed; now injection Ed as <-.
Qed.

Lemma answeredRow_spec row answer :
  answeredRow JSON_parse toISOString timeValue row = inr answer ->
  Answered row answer.
Proof.
  intros H. apply answeredRow_shape in H.
  destruct H as (ts & -> & H1 & H2). unfold Answered. cbn [prop].
  rewrite assoc_setProp, String.eqb_refl.
  repeat match goal with |- _ /\ _ => split end.
  - eexists. split; [reflexivity|]. destruct ts as [[]|]; discriminate.
  - intros v Hv Ht. rewrite (H1 v Hv Ht). destruct v; try reflexivity.
    discriminate Ht.
  - intros Hn Hh. now rewrite (H2 Hn Hh).
Qed.

Lemma mapS_Forall2 {A B} (f : A -> string + B) l : forall l',
  mapS f l = inr l' -> Forall2 (fun x y => f x = inr y) l l'.
Proof.
  induction l as [|x rest IH]; simpl; intros l' H.
  - injection H as <-. constructor.
  - destruct (f x) as [e|y] eqn:E; [discriminate|].
    destruct (mapS f rest) as [e|ys]; [discriminate|].
    injection H as <-. constructor; auto.
Qed.

End Route.

End RouteFacts.
(** X13.  The paginated route never delivers a call record.  For the
    report [cdrs] its callback reads the length of the very list it is
    about to produce, which does not exist yet: whenever the fetch has
    brought back a record the answer is a 500, and an answer of 200
    holds no row. *)
Theorem paginated_cdrs_never_delivers_a_record :
  forall Date_parse JSON_parse toISOString timeValue fuel env,
    (forall q w data hasMore next total w',
       PaginatedRoute.paginatedRoute Date_parse JSON_parse toISOString
         timeValue fuel env "cdrs" q w
       = (Some (PaginatedRoute.Status200 data hasMore next total), w') ->
       data = [] /\ total = 0)
    /\ (forall tenant params limit startKey w page s' w',
          Paginated.fetchReportPaginated fuel env "cdrs" tenant params limit
            (Paginated.Locals_init startKey) w
          = (Net.Return (Some page), s', w') ->
          Paginated.data page <> [] ->
          exists e,
            PaginatedRoute.respondPage JSON_parse toISOString timeValue fuel env
              "cdrs" tenant params limit startKey w
            = (Some (PaginatedRoute.Status500 e), w')).
Proof.
  intros Date_parse JSON_parse toISOString timeValue fuel env. split.
  - intros q w data hasMore next total w'.
    unfold PaginatedRoute.paginatedRoute.
    destruct (Server.given (PaginatedRoute.account q)); [|discriminate].
    destruct (Server.dateParam Date_parse "startDate" _ _ _); [discriminate|].
    destruct (Server.dateParam Date_parse "endDate" _ _ _); [discriminate|].
    unfold PaginatedRoute.respondPage.
    destruct (Paginated.fetchReportPaginated _ _ _ _ _ _ _ _)
      as [[[[page|]|e|] s1] w1]; try discriminate.
    destruct (PaginatedRoute.processedDataOf JSON_parse toISOString timeValue
                "cdrs" (Paginated.data page)) as [e|rows] eqn:Ep;
      [discriminate|].
    apply RouteFacts.processedData_cdrs in Ep. destruct Ep as [_ ->].
    intros [= <- _ _ <- _]. auto.
  - intros tenant params limit startKey w page s' w' H Hne.
    unfold PaginatedRoute.respondPage. rewrite H.
    destruct (PaginatedRoute.processedDataOf JSON_parse toISOString timeValue
                "cdrs" (Paginated.data page)) as [e|rows] eqn:Ep;
      [now exists e|].
    apply RouteFacts.processedData_cdrs in Ep. destruct Ep as [Hd _].
    congruence.
Qed.

Lemma paginated_cdrs_never_delivers_a_record_witness :
  exists e,
    fst (PaginatedRoute.respondPage (fun _ => None) (fun _ => None)
           (fun _ => None) 5 Scenarios.duplicating "cdrs" "acme" []
           (Some 5%Z) None [])
    = Some (PaginatedRoute.Status500 e).
Proof.
  destruct (proj2 (paginated_cdrs_never_delivers_a_record
                     Scenarios.noDate (fun _ => None) (fun _ => None)
                     (fun _ => None) 5 Scenarios.duplicating)
              "acme" [] (Some 5%Z) None [] _ _ _ eq_refl) as [e He].
  - discriminate.
  - exists e. now rewrite He.
Defined.

(** X14.  A request that either route refuses with a 400 has reached
    neither the token service nor the upstream, and it is refused for
    its query alone: the account is missing, a date does not parse or,
    on [/api/reports/:type], the limit is not a positive number. *)
Theorem refused_request_fetches_nothing :
  (forall Date_parse fuel env type q w msg w',
     Server.reportsRoute Date_parse fuel env type q w
     = (Some (Server.Status400 msg), w') ->
     w' = w
     /\ (Server.given (Server.account q) = None
         \/ Server.dateParam Date_parse "startDate" (Server.start q)
              "Invalid start date" [] = inl msg
         \/ (exists params,
               Server.dateParam Date_parse "endDate" (Server.end_ q)
                 "Invalid end date" params = inl msg)
         \/ Server.recordLimitOf (Server.limit q) = inl msg))
  /\ (forall Date_parse JSON_parse toISOString timeValue fuel env type q w
             msg w',
        PaginatedRoute.paginatedRoute Date_parse JSON_parse toISOString
          timeValue fuel env type q w
        = (Some (PaginatedRoute.Status400 msg), w') ->
        w' = w
        /\ (Server.given (PaginatedRoute.account q) = None
            \/ Server.dateParam Date_parse "startDate" (PaginatedRoute.start q)
                 "Invalid start date" [] = inl msg
            \/ exists params,
                 Server.dateParam Date_parse "endDate" (PaginatedRoute.end_ q)
                   "Invalid end date" params = inl msg)).
Proof.
  split.
  - intros Date_parse fuel env type q w msg w'. unfold Server.reportsRoute.
    destruct (Server.given (Server.account q)) as [tenant|];
      [|intros [= <- <-]; auto].
    destruct (Server.dateParam Date_parse "startDate" _ _ _) as [bad|params1];
      [intros [= <- <-]; auto|].
    destruct (Server.dateParam Date_parse "endDate" _ _ _)
      as [bad|params] eqn:E2;
      [intros [= <- <-]; split; [reflexivity|]; right; right; left;
       now exists params1|].
    destruct (Server.recordLimitOf (Server.limit q)) as [bad|recordLimit];
      [intros [= <- <-]; auto 6|].
    unfold Server.respond.
    destruct (Server.fetchData _ _ _ _ _ _ _) as [[[data|]|e|] w1];
      discriminate.
  - intros Date_parse JSON_parse toISOString timeValue fuel env type q w
           msg w'.
    unfold PaginatedRoute.paginatedRoute.
    destruct (Server.given (PaginatedRoute.account q)) as [tenant|];
      [|intros [= <- <-]; auto].
    destruct (Server.dateParam Date_parse "startDate" _ _ _) as [bad|params1];
      [intros [= <- <-]; auto|].
    destruct (Server.dateParam Date_parse "endDate" _ _ _)
      as [bad|params] eqn:E2;
      [intros [= <- <-]; split; [reflexivity|]; right; right;
       now exists params1|].
    unfold PaginatedRoute.respondPage.
    destruct (Paginated.fetchReportPaginated _ _ _ _ _ _ _ _)
      as [[[[page|]|e|] s1] w1]; try discriminate.
    destruct (PaginatedRoute.processedDataOf _ _ _ _ _); discriminate.
Qed.

Lemma refused_request_fetches_nothing_witness :
  snd (Server.reportsRoute Scenarios.noDate 0 Scenarios.stuck "cdrs"
         (Scenarios.query "0") []) = [].
Proof.
  exact (proj1 (proj1 refused_request_fetches_nothing Scenarios.noDate 0
                  Scenarios.stuck "cdrs" (Scenarios.query "0") [] _ _
                  eq_refl)).
Defined.

(** X15.  For a report other than [cdrs] the paginated route answers
    with one row for each record of the page fetched, in their order,
    and passes on what the page says of more data.  Every row of the
    answer has an [answered_time] that is not [null]: the one fetched
    when that is truthy, and two dashes when the record has none and no
    [agent_history] to take it from. *)
Theorem paginated_rows_have_an_answered_time :
  forall JSON_parse toISOString timeValue fuel env type tenant params limit
         startKey w rows hasMore next total w',
    type <> "cdrs" ->
    PaginatedRoute.respondPage JSON_parse toISOString timeValue fuel env type
      tenant params limit startKey w
    = (Some (PaginatedRoute.Status200 rows hasMore next total), w') ->
    exists page s',
      Paginated.fetchReportPaginated fuel env type tenant params limit
        (Paginated.Locals_init startKey) w
      = (Net.Return (Some page), s', w')
      /\ Forall2 Terms.Answered (Paginated.data page) rows
      /\ hasMore = Paginated.hasMore page
      /\ next = Paginated.nextStartKey page
      /\ total = List.length rows.
Proof.
  intros JSON_parse toISOString timeValue fuel env type tenant params limit
         startKey w rows hasMore next total w' Ht.
  unfold PaginatedRoute.respondPage.
  destruct (Paginated.fetchReportPaginated _ _ _ _ _ _ _ _)
    as [[[[page|]|e|] s1] w1]; try discriminate.
  unfold PaginatedRoute.processedDataOf.
  apply String.eqb_neq in Ht. rewrite Ht.
  destruct (PaginatedRoute.mapS _ (Paginated.data page)) as [e|rows'] eqn:Em;
    [discriminate|].
  intros [= <- <- <- <- <-]. exists page, s1. split; [reflexivity|].
  split; [|auto].
  apply RouteFacts.mapS_Forall2 in Em.
  eapply Forall2_impl; [|exact Em].
  intros a b. apply RouteFacts.answeredRow_spec.
Qed.

Lemma paginated_rows_have_an_answered_time_witness :
  Forall2 Terms.Answered [Scenarios.record 1; Scenarios.record 2]
    [JS.JObj [("call_id", JS.JNum 1); ("answered_time", JS.JStr "--")];
     JS.JObj [("call_id", JS.JNum 2); ("answered_time", JS.JStr "--")]].
Proof.
  destruct (paginated_rows_have_an_answered_time (fun _ => None)
              (fun _ => None) (fun _ => None) 5 Scenarios.duplicating
              "queueCalls" "acme" [] (Some 2%Z) None [] _ _ _ _ _
              ltac:(discriminate) eq_refl)
    as (page & s' & E & F & _).
  injection E as <- _. exact F.
Defined.
Module ReaderFacts.
Import JS Net ReportFetcher Csv Terms.

Lemma includes_char_false c s :
  includes s (String c "") = false ->
  forallb (fun x => negb (Ascii.eqb x c)) (list_ascii_of_string s) = true.
Proof.
  induction s as [|x s IH]; simpl; [reflexivity|].
  destruct (ascii_dec c x) as [->|Hn].
  - destruct s; discriminate.
  - intros H. simpl in H.
    assert (Hx : Ascii.eqb x c = false)
      by (apply Ascii.eqb_neq; congruence).
    rewrite Hx. simpl. apply IH.
    destruct s; simpl in *; exact H.
Qed.

Lemma plain_of_includes s :
  includes s "," = false -> includes s newline = false ->
  includes s (String quote "") = false -> plain s = true.
Proof.
  intros H1 H2 H3. apply includes_char_false in H1, H2, H3.
  unfold plain. rewrite forallb_forall in *. intros x Hx.
  specialize (H1 x Hx). specialize (H2 x Hx). specialize (H3 x Hx).
  unfold comma, lineBreak.
  change (ascii_of_nat 44) with ","%char.
  change (ascii_of_nat 10) with "010"%char in *.
  now rewrite H1, H2, H3.
Qed.

Lemma snoc_app cell c (txt : string) :
  (snoc cell c ++ txt = cell ++ String c txt)%string.
Proof. unfold snoc. induction cell; simpl; [reflexivity|now f_equal]. Qed.

Lemma append_nil_r (s : string) : (s ++ "")%string = s.
Proof. induction s; simpl; [reflexivity|now f_equal]. Qed.

Lemma append_assoc (a b c : string) :
  ((a ++ b) ++ c = a ++ (b ++ c))%string.
Proof. induction a; simpl; [reflexivity|now f_equal]. Qed.

(** Reading a plain text goes on in the cell. *)
Lemma read_plain txt : forall cell rest row rows,
  plain txt = true -> (cell = "" -> True) ->
  readFrom (txt ++ rest) Bare cell row rows
  = readFrom rest Bare (cell ++ txt) row rows.
Proof.
  induction txt as [|c txt IH]; intros cell rest row rows Hp _.
  - simpl. now rewrite append_nil_r.
  - unfold plain in Hp. simpl in Hp.
    apply andb_true_iff in Hp. destruct Hp as [Hc Hp].
    apply andb_true_iff in Hc. destruct Hc as [Hc H3].
    apply andb_true_iff in Hc. destruct Hc as [H1 H2].
    apply negb_true_iff in H1, H2, H3.
    cbn [append readFrom]. rewrite H1, H2, H3. cbn [andb].
    rewrite IH by (auto). now rewrite snoc_app.
Qed.

(** Reading the inside of a quoted cell, up to its closing quote. *)
Lemma read_quoted str : forall cell rest row rows,
  readFrom (doubleQuotes str ++ String quote rest) Quoted cell row rows
  = readFrom rest Closing (cell ++ str) row rows.
Proof.
  induction str as [|c str IH]; intros cell rest row rows.
  - cbn [doubleQuotes append readFrom]. rewrite Ascii.eqb_refl.
    now rewrite append_nil_r.
  - cbn [doubleQuotes]. destruct (Ascii.eqb c quote) eqn:E.
    + apply Ascii.eqb_eq in E. subst c.
      cbn [append readFrom]. rewrite !Ascii.eqb_refl.
      rewrite IH. now rewrite snoc_app.
    + cbn [append readFrom]. rewrite E. rewrite IH. now rewrite snoc_app.
Qed.

Lemma read_end state cell rest row rows :
  follows rest -> state <> Quoted ->
  readFrom rest state cell row rows = readFrom rest Bare cell row rows.
Proof.
  intros [->|[[more ->]|[more ->]]] Hs; destruct state; try congruence;
    reflexivity.
Qed.

Lemma read_cell v rest row rows :
  follows rest ->
  readFrom (csvCell "," v ++ rest) Bare "" row rows
  = readFrom rest Bare (cellText v) row rows.
Proof.
  intros Hf.
  assert (G : forall str,
            readFrom ((if includes str "," || includes str newline
                          || includes str (String quote "")
                       then String quote (doubleQuotes str ++ String quote "")
                       else str) ++ rest) Bare "" row rows
            = readFrom rest Bare str row rows).
  { intros str.
    destruct (includes str ",") eqn:H1;
      [|destruct (includes str newline) eqn:H2;
        [|destruct (includes str (String quote "")) eqn:H3]];
      cbn [orb].
    4:{ rewrite read_plain by (auto using plain_of_includes). reflexivity. }
    all: cbn [append readFrom]; rewrite Ascii.eqb_refl; cbn [andb String.eqb];
      (replace (Ascii.eqb quote comma) with false by reflexivity);
      (replace (Ascii.eqb quote lineBreak) with false by reflexivity);
      rewrite append_assoc; cbn [append]; rewrite read_quoted;
      cbn [append]; apply read_end; [exact Hf|discriminate]. }
  unfold csvCell, cellText. destruct v; try apply G. reflexivity.
Qed.

Lemma writes_value v : WritesCell (csvCell "," v) (cellText v).
Proof. intros rest row rows Hf. now apply read_cell. Qed.

Lemma writes_plain key : plain key = true -> WritesCell key key.
Proof. intros Hp rest row rows _. now rewrite read_plain. Qed.

(** Reading a line of cells joined by commas. *)
Lemma read_line cells : forall row rest rows,
  Forall (fun wt => WritesCell (fst wt) (snd wt)) cells ->
  cells <> [] -> followsLine rest ->
  readFrom (String.concat "," (map fst cells) ++ rest) Bare "" row rows
  = match rest with
    | EmptyString => rows ++ [row ++ map snd cells]
    | String _ more =>
        readFrom more Bare "" [] (rows ++ [row ++ map snd cells])
    end.
Proof.
  induction cells as [|[written text] cells IH]; intros row rest rows Hw Hne Hf;
    [congruence|].
  inversion Hw as [|? ? Hw1 Hw2]; subst. cbn [fst snd] in Hw1.
  destruct cells as [|next cells].
  - cbn [map String.concat fst snd].
    rewrite Hw1 by (destruct Hf as [->|[more ->]]; unfold follows; eauto).
    destruct Hf as [->|[more ->]]; cbn [readFrom].
    + reflexivity.
    + replace (Ascii.eqb lineBreak comma) with false by reflexivity.
      now rewrite Ascii.eqb_refl.
  - change (String.concat "," (map fst ((written, text) :: next :: cells)))
      with (written ++ "," ++ String.concat "," (map fst (next :: cells)))%string.
    rewrite !append_assoc.
    rewrite Hw1 by (right; left; eexists; reflexivity).
    change ("," ++ String.concat "," (map fst (next :: cells)) ++ rest)%string
      with (String comma
              (String.concat "," (map fst (next :: cells)) ++ rest)%string).
    cbn [readFrom]. rewrite Ascii.eqb_refl.
    rewrite IH by (auto; discriminate).
    cbn [map]. destruct rest; now rewrite <- app_assoc.
Qed.

Lemma read_line_asRead cells : forall rest rows,
  Forall (fun wt => WritesCell (fst wt) (snd wt)) cells ->
  followsLine rest ->
  readFrom (String.concat "," (map fst cells) ++ rest) Bare "" [] rows
  = match rest with
    | EmptyString => rows ++ [asRead (map snd cells)]
    | String _ more =>
        readFrom more Bare "" [] (rows ++ [asRead (map snd cells)])
    end.
Proof.
  intros rest rows Hw Hf. destruct cells as [|c cells].
  - cbn. destruct Hf as [->|[more ->]]; cbn [readFrom].
    + reflexivity.
    + replace (Ascii.eqb lineBreak comma) with false by reflexivity.
      now rewrite Ascii.eqb_refl.
  - rewrite read_line by (auto; discriminate). reflexivity.
Qed.

(** Reading lines joined by line breaks. *)
Lemma read_lines lines : forall rows,
  Forall (Forall (fun wt => WritesCell (fst wt) (snd wt))) lines ->
  lines <> [] ->
  readFrom (String.concat newline
              (map (fun cells => String.concat "," (map fst cells)) lines))
    Bare "" [] rows
  = rows ++ map (fun cells => asRead (map snd cells)) lines.
Proof.
  induction lines as [|line lines IH]; intros rows Hw Hne; [congruence|].
  inversion Hw as [|? ? Hw1 Hw2]; subst.
  destruct lines as [|next lines].
  - cbn [map String.concat].
    rewrite <- (append_nil_r (String.concat "," (map fst line))).
    rewrite read_line_asRead by (auto; now left). reflexivity.
  - change (String.concat newline
              (map (fun cells => String.concat "," (map fst cells))
                 (line :: next :: lines)))
      with (String.concat "," (map fst line)
            ++ String lineBreak
                 (String.concat newline
                    (map (fun cells => String.concat "," (map fst cells))
                       (next :: lines))))%string.
    rewrite read_line_asRead by (auto; right; eexists; reflexivity).
    rewrite IH by (auto; discriminate).
    cbn [map]. now rewrite <- app_assoc.
Qed.

Lemma mapE_csvRow records : forall rows,
  mapE (csvRow ",") records = inr rows ->
  rows = map (fun r => String.concat ","
                         (map (csvCell ",") (Object_values r))) records.
Proof.
  induction records as [|r rest IH]; simpl; intros rows H.
  - now injection H as <-.
  - destruct r; simpl in H; try discriminate;
      (destruct (mapE (csvRow ",") rest) as [e|rows']; [discriminate|];
       injection H as <-; f_equal; now apply IH).
Qed.

End ReaderFacts.
(** X16.  The text [toCsv] writes with commas can be read back: when
    the keys of the first record hold neither comma, line break nor
    double quote (the header is written without quoting), a reader of
    comma-separated text finds the header, and then for every record
    one row with the text of each of its values, whatever commas, line
    breaks and quotes these hold. *)
Theorem exported_csv_reads_back :
  forall first rest text,
    Csv.toCsv (first :: rest) "," = inr text ->
    (forall key, In key (JS.Object_keys first) -> Terms.plain key = true) ->
    Terms.readCsv text
    = Terms.asRead (JS.Object_keys first)
      :: map (fun r => Terms.asRead (map Terms.cellText (JS.Object_values r)))
           (first :: rest).
Proof.
  intros first rest text H Hk. unfold Csv.toCsv in H.
  assert (H' : match ReportFetcher.mapE (Csv.csvRow ",") (first :: rest) with
               | inl e => inl e
               | inr rows =>
                   inr (String.concat Csv.newline
                          (String.concat "," (JS.Object_keys first) :: rows))
               end = @inr Net.Error _ text)
    by (destruct first; try discriminate; exact H).
  clear H.
  destruct (ReportFetcher.mapE (Csv.csvRow ",") (first :: rest))
    as [e|rows] eqn:Er; [discriminate|].
  injection H' as <-. apply ReaderFacts.mapE_csvRow in Er. subst rows.
  set (lines :=
         map (fun k => (k, k)) (JS.Object_keys first)
         :: map (fun r => map (fun v => (Csv.csvCell "," v, Terms.cellText v))
                            (JS.Object_values r)) (first :: rest)).
  assert (Hw : String.concat "," (JS.Object_keys first)
               :: map (fun r => String.concat ","
                                  (map (Csv.csvCell ",") (JS.Object_values r)))
                    (first :: rest)
               = map (fun cells => String.concat "," (map fst cells)) lines).
  { unfold lines. cbn [map]. f_equal.
    - now rewrite map_map, map_id.
    - f_equal; [now rewrite map_map|].
      rewrite map_map. apply map_ext. intros r. now rewrite map_map. }
  assert (Hr : Terms.asRead (JS.Object_keys first)
               :: map (fun r => Terms.asRead
                                  (map Terms.cellText (JS.Object_values r)))
                    (first :: rest)
               = map (fun cells => Terms.asRead (map snd cells)) lines).
  { unfold lines. cbn [map]. f_equal.
    - now rewrite map_map, map_id.
    - f_equal; [now rewrite map_map|].
      rewrite map_map. apply map_ext. intros r. now rewrite map_map. }
  match goal with
  | |- Terms.readCsv ?t = _ =>
      change t with
        (String.concat Csv.newline
           (String.concat "," (JS.Object_keys first)
            :: map (fun r => String.concat ","
                               (map (Csv.csvCell ",") (JS.Object_values r)))
                 (first :: rest)))
  end.
  rewrite Hw, Hr. unfold Terms.readCsv.
  rewrite ReaderFacts.read_lines; [reflexivity| |discriminate].
  unfold lines. constructor.
  - apply Forall_forall. intros wt Hin. apply in_map_iff in Hin.
    destruct Hin as [k [<- Hin]]. apply ReaderFacts.writes_plain. now apply Hk.
  - apply Forall_forall. intros line Hin. apply in_map_iff in Hin.
    destruct Hin as [r [<- _]].
    apply Forall_forall. intros wt Hin. apply in_map_iff in Hin.
    destruct Hin as [v [<- _]]. apply ReaderFacts.writes_value.
Qed.

Lemma exported_csv_reads_back_witness :
  exists text,
    Csv.toCsv [JS.JObj [("id", JS.JNum 7); ("note", JS.JStr "a,b")]] ","
    = inr text
    /\ Terms.readCsv text = [["id"; "note"]; ["7"; "a,b"]].
Proof.
  eexists. split; [reflexivity|].
  refine (exported_csv_reads_back
            (JS.JObj [("id", JS.JNum 7); ("note", JS.JStr "a,b")]) [] _
            eq_refl _).
  intros key [<-|[<-|[]]]; reflexivity.
Defined.
Module Extends.
Import JS Net Net.Notations ReportFetcher Vocabulary Terms.

Ltac nothing_new := exists []; split; [reflexivity|apply closed_nil].

Section Rules.

Context {L : Type} (Q : list Event -> Prop) `{!Closed Q}.

Lemma extends_ret {A} (a : A) : extends Q (@ret L A a).
Proof. intros l w r l' w' [= <- <- <-]. nothing_new. Qed.

Lemma extends_raise {A} (e : Error) : extends Q (@raise L A e).
Proof. intros l w r l' w' [= <- <- <-]. nothing_new. Qed.

Lemma extends_outOfFuel {A} : extends Q (@outOfFuel L A).
Proof. intros l w r l' w' [= <- <- <-]. nothing_new. Qed.

Lemma extends_getL : extends Q (@getL L).
Proof. intros l w r l' w' [= <- <- <-]. nothing_new. Qed.

Lemma extends_modifyL (f : L -> L) : extends Q (modifyL f).
Proof. intros l w r l' w' [= <- <- <-]. nothing_new. Qed.

Lemma extends_liftE {A} (x : Error + A) : extends Q (@liftE L A x).
Proof. destruct x; intros l w r l' w' [= <- <- <-]; nothing_new. Qed.

Lemma extends_sleep ms : extends Q (@sleep L ms).
Proof. intros l w r l' w' [= <- <- <-]. exists [EvSleep ms]. split; [reflexivity|apply closed_sleep]. Qed.

Lemma extends_bind {A B} (m : M L A) (k : A -> M L B) :
  extends Q m -> (forall a, extends Q (k a)) -> extends Q (bind m k).
Proof.
  intros Hm Hk l w r l' w'. unfold bind.
  destruct (m l w) as [[r1 l1] w1] eqn:E.
  destruct (Hm _ _ _ _ _ E) as (n1 & -> & Q1).
  destruct r1; try (intros [= <- <- <-]; now exists n1).
  intros H. destruct (Hk _ _ _ _ _ _ H) as (n2 & -> & Q2).
  exists (n2 ++ n1). rewrite app_assoc. split; [reflexivity|].
  now apply closed_app.
Qed.

Lemma extends_tryCatch {A} (m : M L A) (h : Error -> M L A) :
  extends Q m -> (forall e, extends Q (h e)) -> extends Q (tryCatch m h).
Proof.
  intros Hm Hh l w r l' w'. unfold tryCatch.
  destruct (m l w) as [[r1 l1] w1] eqn:E.
  destruct (Hm _ _ _ _ _ E) as (n1 & -> & Q1).
  destruct r1; try (intros [= <- <- <-]; now exists n1).
  intros H. destruct (Hh _ _ _ _ _ _ H) as (n2 & -> & Q2).
  exists (n2 ++ n1). rewrite app_assoc. split; [reflexivity|].
  now apply closed_app.
Qed.

Lemma extends_call {L' A} (m : M L' A) (init : L') :
  extends Q m -> extends Q (@call L L' A m init).
Proof.
  intros Hm l w r l' w'. unfold call.
  destruct (m init w) as [[r1 l1] w1] eqn:E.
  intros [= <- <- <-]. exact (Hm _ _ _ _ _ E).
Qed.

Lemma extends_if {A} (b : bool) (m1 m2 : M L A) :
  extends Q m1 -> extends Q m2 -> extends Q (if b then m1 else m2).
Proof. destruct b; auto. Qed.

Lemma extends_retrying {A} (body : M L A) n : forall attempt delay,
  extends Q body -> extends Q (retrying n attempt delay body).
Proof.
  induction n as [|n IH]; intros attempt delay Hb; simpl.
  - apply extends_ret.
  - apply extends_tryCatch.
    + apply extends_bind; [assumption|intros; apply extends_ret].
    + intros e. apply extends_if; [apply extends_raise|].
      apply extends_bind; [apply extends_sleep|auto].
Qed.

Lemma extends_whileTrue (body : M L bool) fuel :
  extends Q body -> extends Q (whileTrue fuel body).
Proof.
  intros Hb. induction fuel as [|fuel IH]; simpl.
  - apply extends_outOfFuel.
  - apply extends_bind; [assumption|].
    intros [|]; [exact IH|apply extends_ret].
Qed.

End Rules.

Create HintDb extends discriminated.
#[export] Hint Resolve extends_ret extends_raise extends_outOfFuel
  extends_getL extends_modifyL extends_liftE extends_sleep : extends.
#[export] Hint Extern 2 (extends _ (bind _ _)) =>
  refine (extends_bind _ _ _ _ _); [|intros] : extends.
#[export] Hint Extern 2 (extends _ (tryCatch _ _)) =>
  refine (extends_tryCatch _ _ _ _ _); [|intros] : extends.
#[export] Hint Extern 2 (extends _ (call _ _)) => apply extends_call : extends.
#[export] Hint Extern 2 (extends _ (retrying _ _ _ _)) =>
  refine (extends_retrying _ _ _ _ _ _) : extends.
#[export] Hint Extern 3 (extends _ (if _ then _ else _)) =>
  apply extends_if : extends.
#[export] Hint Extern 3 (extends _ (match ?x with _ => _ end)) =>
  destruct x : extends.
#[export] Hint Extern 1 (Closed _) => typeclasses eauto : extends.

(** *** The computations of the program, over a block of requests *)

Section Program.

Context (Q : list Event -> Prop) `{!Closed Q}.

Variables (env : Env) (report tenant : string).

(** One attempt at a page, of whatever function. *)
Hypothesis Q_single : forall path params limit,
  ENDPOINTS report = Some path ->
  extends Q (singlePageAttempt env report tenant path params limit).

Lemma extends_fetchReportSinglePage params limit :
  extends Q (fetchReportSinglePage env report tenant params limit).
Proof.
  unfold fetchReportSinglePage. destruct (ENDPOINTS report) eqn:E.
  - apply extends_retrying; auto.
  - apply extends_raise; auto.
Qed.

Local Hint Resolve extends_fetchReportSinglePage : extends.

Lemma extends_enhancedLoop limit attempts : forall i,
  extends (L:=unit) Q (enhancedLoop env report tenant limit i attempts).
Proof.
  induction attempts as [|attempt rest IH]; intros i; simpl;
    auto 20 with extends.
Qed.

Lemma extends_enhanced params limit :
  extends Q (fetchReportSinglePageEnhanced env report tenant params limit).
Proof.
  unfold fetchReportSinglePageEnhanced.
  pose proof extends_enhancedLoop. auto 20 with extends.
Qed.

Lemma extends_dedupPage pageData : forall n, extends Q (dedupPage pageData n).
Proof.
  induction pageData as [|record rest IH]; intros n; simpl;
    auto 20 with extends.
Qed.

Lemma extends_mergeTimeSlices records : forall n,
  extends Q (mergeTimeSlices records n).
Proof.
  induction records as [|record rest IH]; intros n; simpl;
    auto 20 with extends.
Qed.

Local Hint Resolve extends_dedupPage extends_mergeTimeSlices : extends.

Lemma extends_afterPage totalLimit pageLength newRecords :
  extends Q (afterPage totalLimit pageLength newRecords).
Proof. unfold afterPage. auto 30 with extends. Qed.

Local Hint Resolve extends_afterPage : extends.

Lemma extends_offsetPage params totalLimit :
  extends Q (offsetPage env report tenant params totalLimit).
Proof. unfold offsetPage. auto 30 with extends. Qed.

Lemma extends_offsetLoop params totalLimit fuel :
  extends Q (offsetLoop fuel env report tenant params totalLimit).
Proof.
  pose proof extends_offsetPage.
  induction fuel as [|fuel IH]; simpl; auto 20 with extends.
Qed.

Lemma extends_sliceLoop params remainingLimit chunks :
  extends Q (sliceLoop env report tenant params remainingLimit chunks).
Proof.
  induction chunks as [|chunk rest IH]; simpl; auto 30 with extends.
Qed.

Lemma extends_fetchWithTimeSlicing fuel params remainingLimit seen :
  extends Q (fetchWithTimeSlicing fuel env report tenant params
               remainingLimit seen).
Proof.
  unfold fetchWithTimeSlicing. pose proof extends_sliceLoop.
  destruct (timeChunks fuel params); auto 20 with extends.
Qed.

Lemma extends_finishMultiPage fuel params totalLimit :
  extends Q (finishMultiPage fuel env report tenant params totalLimit).
Proof.
  unfold finishMultiPage. pose proof extends_fetchWithTimeSlicing.
  auto 30 with extends.
Qed.

Lemma extends_fetchReportMultiPage fuel params totalLimit :
  extends Q (fetchReportMultiPage fuel env report tenant params totalLimit).
Proof.
  unfold fetchReportMultiPage.
  pose proof extends_offsetLoop. pose proof extends_finishMultiPage.
  auto 20 with extends.
Qed.

End Program.

End Extends.
Module ProperFacts.
Import JS Net Net.Notations ReportFetcher Vocabulary Terms Extends.

Lemma proper_app env path tenant later : forall earlier,
  proper env path tenant later -> proper env path tenant earlier ->
  proper env path tenant (later ++ earlier).
Proof.
  induction later as [|e later IH]; intros earlier Hl He; [exact He|].
  destruct e as [t result|rq rp|ms]; simpl in *.
  - destruct Hl as [-> Hl]. auto.
  - destruct Hl as (Hu & Ha & (token & more & Hr & Hb) & Hl).
    split; [exact Hu|]. split; [exact Ha|]. split; [|now apply IH].
    exists token, (more ++ earlier). rewrite Hr. split; [reflexivity|exact Hb].
  - auto.
Qed.

#[export] Instance proper_closed env path tenant :
  Closed (proper env path tenant).
Proof.
  split; [exact I|apply proper_app|intros ms; exact I].
Qed.

Lemma proper_failed_token env path tenant e :
  proper env path tenant [EvToken tenant (inl e)].
Proof. simpl. auto. Qed.

Lemma proper_request env path tenant token qs rp :
  proper env path tenant
    [EvGet (mkRequest env path tenant token qs) rp;
     EvToken tenant (inr token)].
Proof.
  simpl. repeat split; auto. now exists token, [].
Qed.

Lemma proper_singlePageAttempt env report tenant path params limit :
  extends (proper env path tenant)
    (singlePageAttempt env report tenant path params limit).
Proof.
  intros l w r l' w'.
  unfold singlePageAttempt, bind, getPortalToken, axios_get.
  destruct (portalToken env w tenant) as [e|token].
  { intros [= <- <- <-]. eexists [_]. split; [reflexivity|].
    apply proper_failed_token. }
  destruct (portal env _ _) as [data|e].
  2:{ intros [= <- <- <-]. eexists [_; _]. split; [reflexivity|].
      apply proper_request. }
  unfold liftE, ret, raise.
  destruct (rawDataOf data) as [e|rawData];
    [|destruct (flattenItems rawData)];
    intros [= <- <- <-]; (eexists [_; _]; split; [reflexivity|]);
    apply proper_request.
Qed.

Lemma proper_turn env report tenant path params :
  extends (proper env path tenant)
    (fetchReport_turn env report tenant path params).
Proof.
  intros s w r s' w'.
  unfold fetchReport_turn, bind, getL, getPortalToken, axios_get.
  cbv beta iota.
  destruct (portalToken env w tenant) as [e|token].
  { intros [= <- <- <-]. eexists [_]. split; [reflexivity|].
    apply proper_failed_token. }
  destruct (portal env _ _) as [data|e].
  2:{ intros [= <- <- <-]. eexists [_; _]. split; [reflexivity|].
      apply proper_request. }
  unfold liftE, ret, raise, modifyL.
  destruct (payloadChunk data) as [e|chunk].
  { intros [= <- <- <-]. eexists [_; _]. split; [reflexivity|].
    apply proper_request. }
  intros H. apply Driver.followCursor_cases in H. destruct H as [-> _].
  eexists [_; _]. split; [reflexivity|]. apply proper_request.
Qed.

Lemma proper_paginatedTurn env report tenant path params limit :
  extends (proper env path tenant)
    (Paginated.paginatedTurn env report tenant path params limit).
Proof.
  intros s w r s' w'.
  unfold Paginated.paginatedTurn, bind, getL, getPortalToken, axios_get.
  cbv beta iota.
  destruct (portalToken env w tenant) as [e|token].
  { intros [= <- <- <-]. eexists [_]. split; [reflexivity|].
    apply proper_failed_token. }
  destruct (portal env _ _) as [data|e].
  2:{ intros [= <- <- <-]. eexists [_; _]. split; [reflexivity|].
      apply proper_request. }
  unfold liftE, ret, raise, modifyL. cbv beta iota.
  destruct (payloadChunk data) as [e|chunk].
  { intros [= <- <- <-]. eexists [_; _]. split; [reflexivity|].
    apply proper_request. }
  destruct (prop data "next_start_key") as [next|];
    [destruct (truthy next); [destruct (Paginated.reached _ limit)|]|];
    intros [= <- <- <-]; (eexists [_; _]; split; [reflexivity|]);
    apply proper_request.
Qed.

Section Known.

Variables (env : Env) (report tenant path : string).
Hypothesis known : ENDPOINTS report = Some path.

Lemma proper_single p params limit :
  ENDPOINTS report = Some p ->
  extends (proper env path tenant)
    (singlePageAttempt env report tenant p params limit).
Proof.
  intros Hp. rewrite known in Hp. injection Hp as <-.
  apply proper_singlePageAttempt.
Qed.

Lemma proper_enhanced params limit :
  extends (proper env path tenant)
    (fetchReportSinglePageEnhanced env report tenant params limit).
Proof.
  apply (extends_enhanced (proper env path tenant) env report tenant).
  intros p ps lim. apply proper_single.
Qed.

Lemma proper_multiPage fuel params totalLimit :
  extends (proper env path tenant)
    (fetchReportMultiPage fuel env report tenant params totalLimit).
Proof.
  apply (extends_fetchReportMultiPage (proper env path tenant) env report tenant).
  intros p ps lim. apply proper_single.
Qed.

Lemma proper_pagination fuel params :
  extends (proper env path tenant)
    (fetchReport_pagination fuel env report tenant params).
Proof.
  unfold fetchReport_pagination. rewrite known.
  refine (extends_bind _ _ _ _ _); [|intros; auto 10 with extends].
  refine (extends_retrying _ _ _ _ _ _).
  refine (extends_whileTrue _ _ _ _). apply proper_turn.
Qed.

Lemma proper_fetchReport minus fuel params :
  extends (proper env path tenant)
    (PostProcessing.fetchReport minus fuel env report tenant params).
Proof.
  unfold PostProcessing.fetchReport. pose proof proper_pagination.
  auto 20 with extends.
Qed.

Lemma proper_paginatedLoop params limit fuel :
  extends (proper env path tenant)
    (Paginated.paginatedLoop fuel env report tenant path params limit).
Proof.
  pose proof (proper_paginatedTurn env report tenant path params limit).
  induction fuel as [|fuel IH]; simpl; auto 20 with extends.
Qed.

Lemma proper_paginated fuel params limit :
  extends (proper env path tenant)
    (Paginated.fetchReportPaginated fuel env report tenant params limit).
Proof.
  unfold Paginated.fetchReportPaginated. rewrite known.
  refine (extends_retrying _ _ _ _ _ _). apply proper_paginatedLoop.
Qed.

End Known.

End ProperFacts.

(** X17.  Whatever their outcome, the two routes and [fetchReport]
    talk to the upstream properly: every token is asked for the
    account of the request, and every GET goes to the endpoint of the
    report asked for, under the account header of that account and with
    the token that was handed out just before it. *)
Theorem requests_are_addressed_and_authorized :
  forall env type tenant path,
    ReportFetcher.ENDPOINTS type = Some path ->
    (forall Date_parse fuel q w,
       Server.given (Server.account q) = Some tenant ->
       exists new,
         snd (Server.reportsRoute Date_parse fuel env type q w) = new ++ w
         /\ Terms.proper env path tenant new)
    /\ (forall Date_parse JSON_parse toISOString timeValue fuel q w,
          Server.given (PaginatedRoute.account q) = Some tenant ->
          exists new,
            snd (PaginatedRoute.paginatedRoute Date_parse JSON_parse
                   toISOString timeValue fuel env type q w) = new ++ w
            /\ Terms.proper env path tenant new)
    /\ (forall minus fuel params,
          Terms.extends (Terms.proper env path tenant)
            (PostProcessing.fetchReport minus fuel env type tenant params)).
Proof.
  intros env type tenant path Hp.
  assert (Nil : forall w : Net.World,
            exists new, w = new ++ w /\ Terms.proper env path tenant new)
    by (intros w; now exists []).
  repeat match goal with |- _ /\ _ => split end.
  - intros Date_parse fuel q w Ht. unfold Server.reportsRoute. rewrite Ht.
    destruct (Server.dateParam Date_parse "startDate" _ _ _) as [bad|params1];
      [apply Nil|].
    destruct (Server.dateParam Date_parse "endDate" _ _ _) as [bad|params];
      [apply Nil|].
    destruct (Server.recordLimitOf (Server.limit q)) as [bad|recordLimit];
      [apply Nil|].
    unfold Server.respond.
    assert (F : exists new,
              snd (Server.fetchData fuel env type tenant params recordLimit w)
              = new ++ w /\ Terms.proper env path tenant new).
    { unfold Server.fetchData.
      assert (S1 : exists new,
                snd (ReportFetcher.fetchReportSinglePageEnhanced env type
                       tenant params recordLimit tt w) = new ++ w
                /\ Terms.proper env path tenant new).
      { destruct (ReportFetcher.fetchReportSinglePageEnhanced env type tenant
                    params recordLimit tt w) as [[r u] w'] eqn:E.
        exact (ProperFacts.proper_enhanced env type tenant path Hp _ _ _ _ _
                 _ _ E). }
      destruct (ReportFetcher.fetchReportSinglePageEnhanced env type tenant
                  params recordLimit tt w) as [[r u] w'].
      destruct recordLimit as [n|]; [|exact S1].
      destruct (500 <? n)%Z; [|exact S1].
      unfold Net.bind.
      destruct (ReportFetcher.fetchReportMultiPage fuel env type tenant params
                  n ReportFetcher.MultiPage_init w) as [[r2 s2] w2] eqn:E2.
      pose proof (ProperFacts.proper_multiPage env type tenant path Hp _ _ _
                    _ _ _ _ _ E2) as H2.
      destruct r2; exact H2. }
    destruct (Server.fetchData fuel env type tenant params recordLimit w)
      as [[[data|]|e|] w']; exact F.
  - intros Date_parse JSON_parse toISOString timeValue fuel q w Ht.
    unfold PaginatedRoute.paginatedRoute. rewrite Ht.
    destruct (Server.dateParam Date_parse "startDate" _ _ _) as [bad|params1];
      [apply Nil|].
    destruct (Server.dateParam Date_parse "endDate" _ _ _) as [bad|params];
      [apply Nil|].
    unfold PaginatedRoute.respondPage.
    destruct (Paginated.fetchReportPaginated _ _ _ _ _ _ _ _)
      as [[r s1] w1] eqn:E.
    pose proof (ProperFacts.proper_paginated env type tenant path Hp _ _ _ _
                  _ _ _ _ E) as H.
    destruct r as [[page|]|e|]; try exact H.
    destruct (PaginatedRoute.processedDataOf _ _ _ _ _); exact H.
  - intros minus fuel params.
    now apply ProperFacts.proper_fetchReport.
Qed.

Lemma requests_are_addressed_and_authorized_witness :
  exists new,
    snd (Server.reportsRoute Scenarios.noDate 0 (Scenarios.flaky 1) "cdrs"
           (Scenarios.query "10") []) = new ++ []
    /\ Terms.proper (Scenarios.flaky 1) "/api/v2/reports/cdrs/all" "acme" new.
Proof.
  exact (proj1 (requests_are_addressed_and_authorized (Scenarios.flaky 1)
                  "cdrs" "acme" _ eq_refl)
           Scenarios.noDate 0 (Scenarios.query "10") [] eq_refl).
Defined.
Module UnknownFacts.
Import JS Net Net.Notations ReportFetcher Vocabulary Terms.

Lemma enhanced_unknown env report tenant params limit w :
  ENDPOINTS report = None ->
  fetchReportSinglePageEnhanced env report tenant params limit tt w
  = (Raise (UnknownReport report), tt, w).
Proof.
  intros H. unfold fetchReportSinglePageEnhanced, paginationAttempts.
  cbn [enhancedLoop]. unfold fetchReportSinglePage. rewrite H. reflexivity.
Qed.

Lemma multiPage_unknown fuel env report tenant params n w :
  ENDPOINTS report = None -> (0 < n)%Z ->
  exists s',
    fetchReportMultiPage fuel env report tenant params n MultiPage_init w
    = (Raise (UnknownReport report), s', w).
Proof.
  intros H Hn. unfold fetchReportMultiPage. cbn [offsetLoop].
  unfold bind at 1. unfold bind at 1. unfold getL at 1. cbv beta iota.
  assert (Ht : offsetLoopTest n MultiPage_init = true).
  { unfold offsetLoopTest, recordCount. simpl.
    apply Z.ltb_lt in Hn. now rewrite Hn. }
  rewrite Ht. unfold offsetPage, fetchReportSinglePage. rewrite H.
  eexists. reflexivity.
Qed.

End UnknownFacts.

(** X18.  A report type outside the table of endpoints, other than a
    name every object inherits, is refused before anything is asked of
    the token service or of the upstream: unless the query itself is
    refused with a 400, both routes answer with a 500 whose message
    names the unknown type. *)
Theorem unknown_report_is_refused_without_a_fetch :
  forall type,
    ReportFetcher.ENDPOINTS type = None ->
    Terms.inherited type = false ->
    (forall Date_parse fuel env q w,
       exists response,
         Server.reportsRoute Date_parse fuel env type q w = (Some response, w)
         /\ ((exists msg, response = Server.Status400 msg)
             \/ exists tenant params limit,
                  response
                  = Server.Status500 ("Unknown report type: " ++ type) type
                      tenant params limit))
    /\ (forall Date_parse JSON_parse toISOString timeValue fuel env q w,
          exists response,
            PaginatedRoute.paginatedRoute Date_parse JSON_parse toISOString
              timeValue fuel env type q w = (Some response, w)
            /\ ((exists msg, response = PaginatedRoute.Status400 msg)
                \/ response
                   = PaginatedRoute.Status500
                       ("Unknown report type: " ++ type))).
Proof.
  intros type H _. split.
  - intros Date_parse fuel env q w. unfold Server.reportsRoute.
    destruct (Server.given (Server.account q)) as [tenant|];
      [|eexists; split; [reflexivity|left; now eexists]].
    destruct (Server.dateParam Date_parse "startDate" _ _ _) as [bad|params1];
      [eexists; split; [reflexivity|left; now eexists]|].
    destruct (Server.dateParam Date_parse "endDate" _ _ _) as [bad|params];
      [eexists; split; [reflexivity|left; now eexists]|].
    destruct (Server.recordLimitOf (Server.limit q)) as [bad|recordLimit] eqn:El;
      [eexists; split; [reflexivity|left; now eexists]|].
    unfold Server.respond, Server.fetchData.
    rewrite (UnknownFacts.enhanced_unknown env type tenant params recordLimit
               w H).
    destruct recordLimit as [n|];
      [|eexists; split; [reflexivity|right; now eexists _, _, _]].
    destruct (Z.ltb_spec 500 n) as [Hn|Hn];
      [|eexists; split; [reflexivity|right; now eexists _, _, _]].
    destruct (UnknownFacts.multiPage_unknown fuel env type tenant params n w H)
      as [s' E]; [lia|].
    unfold Net.bind. rewrite E.
    eexists; split; [reflexivity|right; now eexists _, _, _].
  - intros Date_parse JSON_parse toISOString timeValue fuel env q w.
    unfold PaginatedRoute.paginatedRoute.
    destruct (Server.given (PaginatedRoute.account q)) as [tenant|];
      [|eexists; split; [reflexivity|left; now eexists]].
    destruct (Server.dateParam Date_parse "startDate" _ _ _) as [bad|params1];
      [eexists; split; [reflexivity|left; now eexists]|].
    destruct (Server.dateParam Date_parse "endDate" _ _ _) as [bad|params];
      [eexists; split; [reflexivity|left; now eexists]|].
    unfold PaginatedRoute.respondPage, Paginated.fetchReportPaginated.
    rewrite H. cbn. eexists; split; [reflexivity|now right].
Qed.

Lemma unknown_report_is_refused_without_a_fetch_witness :
  exists response,
    Server.reportsRoute Scenarios.noDate 0 Scenarios.stuck "agents"
      (Scenarios.query "10") [] = (Some response, []).
Proof.
  destruct (proj1 (unknown_report_is_refused_without_a_fetch "agents" eq_refl
                     eq_refl)
              Scenarios.noDate 0 Scenarios.stuck (Scenarios.query "10") [])
    as (response & E & _).
  now exists response.
Defined.
Module UnusableLimit.
Import JS Net Net.Notations ReportFetcher Vocabulary Terms Paginated.

Lemma empty_page_returned fuel env report path tenant params limit startKey w :
  ENDPOINTS report = Some path ->
  below 0 limit = false ->
  fetchReportPaginated fuel env report tenant params limit
    (Locals_init startKey) w
  = (Return (Some {| data := []; hasMore := truthy_opt startKey;
                     nextStartKey := startKey |}),
     Locals_init startKey, w).
Proof.
  intros Hp Hb. unfold fetchReportPaginated. rewrite Hp.
  cbn [retrying]. unfold tryCatch, bind.
  destruct fuel; cbn [paginatedLoop]; unfold bind, getL; cbv beta iota;
    cbn [out Locals_init List.length]; rewrite Hb; reflexivity.
Qed.

End UnusableLimit.

(** X20.  The paginated route does not refuse a limit it cannot use.
    When the limit of the query reads as zero, as a negative number or
    as no number at all, a request for a known report that is not
    refused for its account or its dates is answered with a 200 and an
    empty page, without a token or a GET: [hasMore] and [nextStartKey]
    are then those of the [startKey] of the query. *)
Theorem paginated_unusable_limit_answers_empty_page :
  forall Date_parse JSON_parse toISOString timeValue fuel env type path q w,
    ReportFetcher.ENDPOINTS type = Some path ->
    Paginated.below 0 (PaginatedRoute.limitOf (PaginatedRoute.limit q))
    = false ->
    exists response,
      PaginatedRoute.paginatedRoute Date_parse JSON_parse toISOString
        timeValue fuel env type q w = (Some response, w)
      /\ ((exists msg, response = PaginatedRoute.Status400 msg)
          \/ response
             = PaginatedRoute.Status200 []
                 (JS.truthy_opt (option_map JS.JStr (PaginatedRoute.startKey q)))
                 (option_map JS.JStr (PaginatedRoute.startKey q)) 0).
Proof.
  intros Date_parse JSON_parse toISOString timeValue fuel env type path q w
         Hp Hb.
  unfold PaginatedRoute.paginatedRoute.
  destruct (Server.given (PaginatedRoute.account q)) as [tenant|];
    [|eexists; split; [reflexivity|left; now eexists]].
  destruct (Server.dateParam Date_parse "startDate" _ _ _) as [bad|params1];
    [eexists; split; [reflexivity|left; now eexists]|].
  destruct (Server.dateParam Date_parse "endDate" _ _ _) as [bad|params];
    [eexists; split; [reflexivity|left; now eexists]|].
  unfold PaginatedRoute.respondPage.
  rewrite (UnusableLimit.empty_page_returned fuel env type path tenant params
             _ _ w Hp Hb).
  eexists; split; [|right; reflexivity].
  unfold PaginatedRoute.processedDataOf, PaginatedRoute.cdrRecordsOf.
  cbn [Paginated.data Paginated.hasMore Paginated.nextStartKey].
  destruct (type =? "cdrs")%string; reflexivity.
Qed.

Lemma paginated_unusable_limit_answers_empty_page_witness :
  exists response,
    PaginatedRoute.paginatedRoute Scenarios.noDate (fun _ => None)
      (fun _ => None) (fun _ => None) 5 Scenarios.stuck "queueCalls"
      {| PaginatedRoute.account := Some "acme";
         PaginatedRoute.start := None;
         PaginatedRoute.end_ := None;
         PaginatedRoute.limit := Some "many";
         PaginatedRoute.startKey := Some "A" |} []
    = (Some response, [])
    /\ ((exists msg, response = PaginatedRoute.Status400 msg)
        \/ response
           = PaginatedRoute.Status200 [] true (Some (JS.JStr "A")) 0).
Proof.
  exact (paginated_unusable_limit_answers_empty_page Scenarios.noDate
           (fun _ => None) (fun _ => None) (fun _ => None) 5
           Scenarios.stuck "queueCalls" _
           {| PaginatedRoute.account := Some "acme";
              PaginatedRoute.start := None;
              PaginatedRoute.end_ := None;
              PaginatedRoute.limit := Some "many";
              PaginatedRoute.startKey := Some "A" |} [] eq_refl eq_refl).
Defined.
